(* ===== verification/_CoqProject ===== *)
-Q . S2P
Prelude.v
Str.v
Paths.v
Content.v
Identity.v
Entity.v
Ast.v
Hash.v
EditDistance.v
Reconcile.v
ReconcileFacts.v
ReconcileTheorems.v
IdentityLimits.v
Json.v
IdentityFormat.v
Authored.v
CodeLayer.v
CodeBuilder.v
EdgeOrder.v
CodeBuilderFacts.v
CodeProducer.v
CodeLookup.v
CodeAncestors.v
CodeEdges.v
CodeExact.v
CodeIndex.v
CodeParity.v
CodeExample.v
Symbols.v
Coordinates.v
EntityAt.v
Occurrences.v
Queries.v
ViewOk.v
Lsp.v
Config.v
ConfigFacts.v
Sidecar.v
ConfigLoad.v
Overlay.v
Commit.v
CommitFacts.v
Project.v
ProjectFacts.v
HeadLayer.v
OpenDb.v
Pipeline.v
PipelineExample.v
SnapshotReads.v
ViewReads.v
