(* ===== verification/Prelude.v ===== *)
(** * TyO3: a verification of the native crate

    TyO3 keeps a Python project open as a live, versioned code base: every
    file is held in a content store, every write is one revision, each class,
    function or method has a durable identity that survives edits and moves,
    and the graph of the code (what contains, references, imports, inherits and
    overrides what) is maintained from revision to revision.  The crate under
    [rust/src] does this in Rust on top of the [ty] type checker; Python and
    editor clients talk to it.  This library models the crate and proves what
    it promises.

    ** How the parts interact

    A client opens a project ([project/methods.rs]).  Opening loads and
    validates the configuration, reads the identity registry and the authored
    records from the sidecar directory [.tyo3], ingests the project's files
    into the content store, extracts the entities, reconciles them with the
    registry and builds the code layer.  From then on every write, whether an
    edit of a buffer, a synchronisation with the disk, a batch of watcher
    events or an authored record, goes through one function, [commit]
    ([project/commit.rs]): it builds a plan, stages the next generation, hands
    it to the analysis database, extracts and reconciles the entities in scope,
    rebuilds the affected part of the code layer, computes the affected
    closure, persists the registry and the authored records, and publishes the
    revision last.  A failure at any step restores the state before it, the
    analysis database excepted, which keeps the changes it was told of.  Snapshots
    pin a revision and read it through a frozen overlay.

    ** Files

    - [Prelude]: machine integers, results, sorted containers, tactics.
    - [Str], [Paths]: [str] and [std::path] operations, the class [External]
      (the hash function and file-system metadata the crate calls).
    - [Content] ([content.rs]): documents, generations, staging and
      publication, the retained window.
    - [Identity] ([identity.rs], [entity.rs]): anchors, the three indexes of
      the registry and their operations.  [Entity] ([entity.rs], [hash.rs]):
      the walk that extracts entities.  [Ast], [Hash] ([hash.rs]): the syntax
      tree as the renderer sees it, the canonical rendering of a statement, the
      index of statements, the hash of an entity.  [EditDistance]: the two-row
      dynamic program.  [Reconcile]: the four matching passes, the application to
      the registry, retirement, classification; [ReconcileFacts] and
      [ReconcileTheorems] prove it; [IdentityLimits] has the runs in which an
      identity is lost.
    - [Json], [IdentityFormat]: JSON values and number formats, the file of the
      registry.  [Authored] ([authored.rs]): versioned records and their file.
    - [CodeLayer] ([code_layer.rs] to line 406): nodes, edges, the reverse
      index, the affected closure, the diff.  [CodeBuilder] (the rest of
      [code_layer.rs]): the passes that fill a layer, the full build and the
      scoped rebuild; [CodeBuilderFacts], [CodeProducer], [CodeLookup] and
      [CodeAncestors] prove it.  [EdgeOrder]: the order of the edges.
      [CodeEdges], [CodeExact]: which edges a full build adds, as functions of
      the engine's answers.  [CodeIndex], [CodeParity]: the name index of a set
      of files, and the scoped rebuild against the full build.  [CodeExample]
      has small projects.
    - [Symbols] ([convert/symbols.rs], [project/analysis.rs]): the document
      symbols the producer is given.  [Coordinates] ([coordinates.rs]):
      positions and offsets.  [EntityAt] ([project/identity_ops.rs],
      [files.rs]): the entity under a position.  [Occurrences]
      ([convert/occurrences.rs]): the names of a file and what they refer to.
      [Queries], [Lsp] ([project/analysis.rs], [convert/], [dto/]): the
      analysis queries, with the conversion of what the engine answers; the
      producer's queries are in [Queries].  [ViewOk]: the five answers the
      producer is given, computed by these queries, meet its conditions.
    - [Config], [ConfigLoad] ([config.rs]): expansion, validation, the order of
      the layers, loading; [ConfigFacts] proves it.  [Sidecar] ([sidecar.rs]):
      paths and the atomic write, over a disk whose unsynced writes a crash may
      lose.  [Overlay] ([overlay.rs]): the file-system
      view over shared content cells.
    - [Commit] ([project/commit.rs]), [Project] ([project.rs],
      [project/methods.rs], [project/open.rs]), with [CommitFacts] and
      [ProjectFacts].  [HeadLayer]: the code layer along a session of commits.
      [OpenDb] ([project/open.rs]): the construction of the analysis database of
      a head and of a snapshot.  [SnapshotReads], [ViewReads]
      ([project/snapshot.rs], [project/head_view.rs], [project/methods.rs]): what
      snapshots, the live view and the project answer.
    - [Pipeline]: the crate put together, an [Engine] whose entities are those
      of [Entity] and [Hash] and whose queries are those of [Queries], along a
      session; [PipelineExample] runs one.

    A definition keeps the name of the function it translates.  Stateful code
    is state passing; the steps of a commit are in a state and error monad
    ([Step]), so that a failure after some steps leaves their effects for the
    rollback to undo.  Clones of an overlay share a content cell, so [Overlay]
    has a heap of cells.  Ordered Rust maps that are iterated are listed in key
    order ([btree_items]).  Where the code enumerates a hash map the model fixes an
    order; it shows in one result, the order in which a reconciliation lists the
    retired ids ([ReconcileFacts.retire_order]).  Assertions compiled out of a
    release build, such as that of [publish], guard nothing here.

    ** What the theorems show

    - The commit: a failed one, whatever step fails, leaves the published
      revision, the content, the registry, the records, the code layer and the
      unsaved buffers as they were; what live reads answer may still move with the
      database ([HeadLayer.failed_commit_moves_view]).  A successful one publishes
      one revision whose registry and records are already on disk; a session
      refines an append-only log of generations, of which the store keeps a
      window; the delta reports the difference of the registries, when the
      entities of the scope have distinct paths, and the affected ids are exactly
      those that reach a changed or deleted entity; every kind of write leaves the
      specified content at every path; the indexes stay sound.
    - Identity: reconciliation returns and binds each entity to one id and each id
      to one entity, always.  When the entities have distinct paths and no anchor
      the path index lost stands at one of them ([reconcile_pre]; redefinitions
      and revived ids break it, see [IdentityLimits]), every entity is found under
      its path, no id is forgotten and those retired are exactly the live ones of
      the scope no entity took, nothing changes outside the scope, and a second
      pass changes nothing; the order of the input does not matter when no two
      entities share both path and hash.  The file format round-trips and rejects
      what it must.
    - The code layer: a full build is well formed and closed (no dangling
      edge, no missing stub), has a node for each entity under its durable id,
      and a scoped rebuild keeps the files out of its scope; the indexes rebuilt
      from a stored layer answer as those of the build that made it; closure,
      diff and the walk over ancestors meet their specifications.  A full build
      adds exactly the edges its files' answers give.  After a local edit the
      scoped rebuild is the full build up to unreferenced stubs, so the layer
      the head carries stays, along a session of local edits, that of the answers it
      was last rebuilt for; the scope reaches every file that refers to a changed
      one.
    - From source to graph: in a session opened and edited through the commit,
      under the conditions named below, every entity of every file the project lists
      and can resolve has a durable id and, under that id, a node of the layer the
      head carries, with its file, its name and its content hash.
    - The rendering: no edit of a leaf is missed outside the docstrings of classes
      and functions, which are left out by position; places do not matter, and the
      hash of a container follows its members.
    - The queries: those at a position fail alike, a definition whose file is on
      disk and indexed can be followed, the caches of the conversions change no
      answer, the check of one file filters the project check; the live view answers
      as a snapshot of the head would over the head's own database, and the identity
      methods of the project, the live view and a snapshot agree.
    - The database: the one of a snapshot depends on its generation and on the
      structural queries the overlay passes to the disk (canonical paths, case,
      directory walks), not on what the files of the disk hold; every database the
      crate builds is rooted at the caller's directory.
    - Opening, snapshots, authored records, the overlay, the atomic write,
      configuration, positions: see the doc comment of each theorem.
    - [IdentityLimits], [CodeExample], [EntityAt], [SnapshotReads] and parts of
      [Hash], [Lsp], [Coordinates], [Overlay], [CommitFacts], [HeadLayer],
      [ProjectFacts], [OpenDb] and [ConfigFacts] state where the code departs from
      its documentation.

    ** Loops and fuel

    A loop that is not structural takes fuel, and running out is visible
    ([None]) unless the fuel is proved enough where it is used.
    - [closure_loop]: one unit per id popped; the fuel bounds the number of ids
      the queue can ever hold, and the theorem on the affected closure states
      that a result is returned.
    - [ancestors_loop]: one more than the number of edges, since a class is
      queued once, through an edge; the walk is proved to return.
    - [topo_loop]: the number of layers; [expand_loop]: the length of the text;
      [evict]: the size of the window; [digits]: the number of bits.
    - The walks over symbols ([collect_entities_recursive],
      [collect_symbols_recursive]) take a recursion depth: the symbols of a file
      form a finite tree ([forest]), whose depth is enough; [state_ok] in
      [Pipeline] asks for that depth of the states of a session.  [walk_up] takes
      one more than the depth of the symbol.

    ** Parameters

    Code outside the crate is a parameter, with what the crate relies on as the
    laws of its class or as hypotheses, each instantiated in a witness:
    [External] (xxh3 and metadata), [SerdeJson] and [TomlCodec] (the text
    codecs), [Engine] (the analysis database and the entities and queries read
    from it; [Database] in [Pipeline] keeps only the analysis database of it,
    whose laws are [analysis_ok]), [ProjectView] (the five queries of the
    producer), [ProjectApi] (the constructors of the database), [Analysis],
    [SemanticModel] and [Ide] (the functions of [ty_ide] and [ty] the queries
    call), [LineIndex],
    [HierarchicalSymbols] and [FileTree] (the symbol tree, statements and
    source of a file), [FileQueries], [World] and [OpenWorld] (the disk, write
    failures, the environment), and [mint], the generator of ids, which never
    repeats one.

    ** Not modelled

    Python values: [pythonize] turns a record into a Python object, and the
    serde attributes of [dto/] name its fields.  [lib.rs] registers the
    Python module.  Threads are not modelled: every method takes the project's
    lock, and a method is one step here; the retried read of the live head takes
    the heads its attempts find as a sequence.  Log messages and error texts that
    carry no decision are left out or kept as heads.

    ** Conditions of the session theorems

    The parity of the scoped rebuild needs the edit to be local ([local_edit] in
    [CodeParity]): outside the changed files the listing and the symbols stay,
    the answers about files out of scope stay and name no changed file, and the
    inheritance they rest on stays.  The two counterexamples of [CodeExample]
    break these conditions: an override of a method of an indirect base, and a
    stub of an imported name, up to which the result is stated.

    A session is stated of two heads: the one right after the open or commit that
    last rebuilt the layer, and the current one.  Writes that fail, author a record
    or find nothing to do separate them, and nothing is assumed of those.

    The link from entities to nodes asks in addition, at the open and at each
    reconciling commit, for distinct paths and no lost anchors ([entities_pre]), for
    files under the root whose symbols form a tree ([state_ok]), for a scope under
    the root ([scope_under]), and for the file to resolve on the disk: a file that
    is only an unsaved buffer has ids and no nodes ([EntityAt]).

    ** What is left

    The test modules of the crate, the serde attributes, the helpers compiled
    for tests only, and the forwarding of a reload and of a flush to the thread
    of the watcher.  What the analysis database answers after a failed commit, and
    that a frozen database answers as the live one over the same content, are left
    to the engine. *)

From stdpp Require Export base gmap strings list fin_maps sorting relations.
From Stdlib Require Import Permutation.

(** ** Machine integers

    [u64] and [u128] values are [N] values below [2^64] and [2^128].  The
    crate is built in release mode, where integer overflow wraps. *)

Definition u64_modulus : N := (2 ^ 64)%N.

Definition u64_succ (n : N) : N := ((n + 1) mod u64_modulus)%N.

Lemma u64_succ_small n : (n + 1 < u64_modulus)%N → u64_succ n = (n + 1)%N.
Proof. intros. unfold u64_succ. by apply N.mod_small. Qed.

Lemma u64_succ_bound n : (u64_succ n < u64_modulus)%N.
Proof. unfold u64_succ. apply N.mod_lt. done. Qed.

(** ** Results

    [Result<A, E>] of the Rust standard library. *)

Inductive result (E A : Type) : Type :=
| Ok (a : A)
| Err (e : E).
Arguments Ok {E A} a.
Arguments Err {E A} e.

Definition result_bind {E A B} (m : result E A) (f : A → result E B) : result E B :=
  match m with Ok a => f a | Err e => Err e end.

Definition ok_or {E A} (o : option A) (e : E) : result E A :=
  match o with Some a => Ok a | None => Err e end.

Definition is_ok {E A} (m : result E A) : bool :=
  match m with Ok _ => true | Err _ => false end.

Declare Scope tyo3_scope.
Delimit Scope tyo3_scope with tyo3.
Notation "'let?' x := m 'in' k" := (result_bind m (λ x, k))
  (at level 10, x pattern, m at level 100, k at level 200) : tyo3_scope.
Open Scope tyo3_scope.

(** A loop whose body may return an error stops at the first error
    ([for x in l { body(x)? }]). *)
Fixpoint foldM {E A S} (f : S → A → result E S) (s : S) (l : list A) : result E S :=
  match l with
  | [] => Ok s
  | x :: l => let? s := f s x in foldM f s l
  end.

Lemma foldM_fmap_ok {E A B S} (f : S → A → S) (g : S → B → result E S) (h : A → B) s l :
  (∀ s x, x ∈ l → g s (h x) = Ok (f s x)) → foldM g s (h <$> l) = Ok (foldl f s l).
Proof.
  revert s. induction l as [|x l IH]; intros s Hg; simpl; [done|].
  rewrite Hg by left. simpl. apply IH. intros. apply Hg. by right.
Qed.

Fixpoint forM_ {E A} (f : A → result E unit) (l : list A) : result E unit :=
  match l with
  | [] => Ok tt
  | x :: l => let? _ := f x in forM_ f l
  end.

Lemma forM_ok {E A} (f : A → result E unit) l :
  forM_ f l = Ok tt ↔ ∀ x, x ∈ l → f x = Ok tt.
Proof.
  induction l as [|x l IH]; simpl.
  - split; [|done]. intros _ x Hx. by apply not_elem_of_nil in Hx.
  - destruct (f x) as [[]|e] eqn:Hf; simpl.
    + rewrite IH. split.
      * intros H y [->|Hy]%elem_of_cons; auto.
      * intros H y Hy. apply H. by right.
    + split; [done|]. intros H. rewrite (H x) in Hf; [done|by left].
Qed.

(** ** Automation *)

Ltac destruct_matches :=
  repeat match goal with
  | |- context [match ?x with _ => _ end] => destruct x eqn:?; simplify_eq/=
  end.

Ltac destruct_matches_in H :=
  repeat match type of H with
  | context [match ?x with _ => _ end] => destruct x eqn:?; simplify_eq/=
  end.

Create HintDb tyo3 discriminated.

(** ** Stable sorting

    [slice::sort_by] is a stable sort.  Sorting is modelled by an insertion
    sort that keeps the relative order of elements that compare equal. *)

Section sort.
Context {A : Type} (le : A → A → bool).

Fixpoint insert_by (x : A) (l : list A) : list A :=
  match l with
  | [] => [x]
  | y :: l' => if le x y then x :: l else y :: insert_by x l'
  end.

Definition sort_by (l : list A) : list A := foldr insert_by [] l.

Lemma insert_by_perm x l : insert_by x l ≡ₚ x :: l.
Proof.
  induction l as [|y l IH]; simpl; [done|].
  destruct (le x y); [done|]. rewrite IH. apply Permutation_swap.
Qed.

Lemma sort_by_perm l : sort_by l ≡ₚ l.
Proof.
  unfold sort_by. induction l as [|x l IH]; simpl; [done|].
  by rewrite insert_by_perm, IH.
Qed.

Lemma elem_of_sort_by x l : x ∈ sort_by l ↔ x ∈ l.
Proof. by rewrite sort_by_perm. Qed.

Context (Htrans : ∀ x y z, le x y → le y z → le x z).
Context (Htotal : ∀ x y, le x y ∨ le y x).

Lemma insert_by_sorted x l :
  StronglySorted (λ a b, le a b) l → StronglySorted (λ a b, le a b) (insert_by x l).
Proof.
  induction 1 as [|y l Hl IH Hy]; simpl; [repeat constructor|].
  destruct (le x y) eqn:E.
  - constructor; [by constructor|]. constructor; [by rewrite E|].
    eapply Forall_impl; [apply Hy|]. intros z Hz; simpl in *.
    eapply Htrans; [|apply Hz]. by rewrite E.
  - constructor; [done|].
    rewrite insert_by_perm. constructor; [|done].
    destruct (Htotal x y) as [Hxy|]; [|done]. by rewrite E in Hxy.
Qed.

Lemma sort_by_sorted l : StronglySorted (λ a b, le a b) (sort_by l).
Proof. induction l; simpl; [constructor|by apply insert_by_sorted]. Qed.

(** Two permutations of the same list sort to the same list when no two
    distinct members compare equal in both directions. *)
Lemma sorted_unique l1 l2 :
  (∀ x y, x ∈ l1 → y ∈ l1 → le x y → le y x → x = y) →
  StronglySorted (λ a b, le a b) l1 → StronglySorted (λ a b, le a b) l2 →
  l1 ≡ₚ l2 → l1 = l2.
Proof.
  revert l2. induction l1 as [|x l1 IH]; intros [|y l2] Hanti H1 H2 Hp; [done|..].
  - by apply Permutation_nil_cons in Hp.
  - by symmetry in Hp; apply Permutation_nil_cons in Hp.
  - apply StronglySorted_inv in H1 as [H1 Hx].
    apply StronglySorted_inv in H2 as [H2 Hy].
    assert (x = y) as ->.
    { assert (y ∈ x :: l1) as Hyin by (rewrite Hp; left).
      assert (x ∈ y :: l2) as Hxin by (rewrite <- Hp; left).
      rewrite Forall_forall in Hx, Hy.
      apply elem_of_cons in Hyin as [->|Hyin]; [done|].
      apply elem_of_cons in Hxin as [->|Hxin]; [done|].
      apply Hanti; [left|by right|by apply Hx|by apply Hy]. }
    f_equal. apply IH; auto.
    + intros; apply Hanti; try done; by right.
    + by eapply Permutation_cons_inv.
Qed.

Lemma sort_by_unique l1 l2 :
  (∀ x y, x ∈ l1 → y ∈ l1 → le x y → le y x → x = y) →
  l1 ≡ₚ l2 → sort_by l1 = sort_by l2.
Proof.
  intros Hanti Hp. apply sorted_unique; auto using sort_by_sorted.
  - intros x y. rewrite !elem_of_sort_by. apply Hanti.
  - by rewrite !sort_by_perm.
Qed.
End sort.

(** A loop that pushes a value for each item. *)
Lemma foldl_push {A B} (f : A → B) (acc : list B) (l : list A) : foldl (λ acc x, acc ++ [f x]) acc l = acc ++ (f <$> l).
Proof.
  revert acc. induction l as [|x l IH]; intros acc; simpl; [by rewrite app_nil_r|].
  by rewrite IH, <- (assoc_L (++)).
Qed.

(** Lookups and maps that agree on the members of a list. *)
Lemma list_find_ext_in {A} (P Q : A → bool) (l : list A) :
  (∀ x, x ∈ l → P x = Q x) → list_find (λ x, P x) l = list_find (λ x, Q x) l.
Proof.
  induction l as [|x l IH]; intros H; [done|]. cbn [list_find]. rewrite (H x) by left.
  case_decide; [done|]. rewrite IH; [done|]. intros y Hy. apply H. by right.
Qed.

Lemma omap_ext_in {A B} (f g : A → option B) (l : list A) : (∀ x, x ∈ l → f x = g x) → omap f l = omap g l.
Proof.
  induction l as [|x l IH]; intros H; csimpl; [done|]. rewrite (H x) by left.
  rewrite IH; [done|]. intros y Hy. apply H. by right.
Qed.

Lemma bind_ext_in {A B} (f g : A → list B) (l : list A) : (∀ x, x ∈ l → f x = g x) → l ≫= f = l ≫= g.
Proof.
  induction l as [|x l IH]; intros H; [done|]. rewrite !bind_cons, (H x) by left. f_equal.
  apply IH. intros y Hy. apply H. by right.
Qed.

(** A failure stays. *)
Lemma foldl_none {A B} (f : option A → B → option A) (l : list B) : (∀ x, f None x = None) → foldl f None l = None.
Proof. intros H. induction l as [|x l IH]; simpl; [done|]. by rewrite H. Qed.

Lemma foldl_ext_in {A B} (f g : A → B → A) (l : list B) (a : A) :
  (∀ a x, x ∈ l → f a x = g a x) → foldl f a l = foldl g a l.
Proof.
  revert a. induction l as [|x l IH]; intros a H; simpl; [done|].
  rewrite (H a x) by left. apply IH. intros a' y Hy. apply H. by right.
Qed.

Lemma StronglySorted_filter {A} (R : relation A) (P : A → Prop) `{∀ x, Decision (P x)} l :
  StronglySorted R l → StronglySorted R (filter P l).
Proof.
  induction 1 as [|x l Hl IH Hx]; [constructor|]. rewrite filter_cons. case_decide; [|done].
  constructor; [done|]. rewrite Forall_forall in *. intros y [_ Hy]%list_elem_of_filter. by apply Hx.
Qed.

(** String order: the byte-lexicographic [Ord] of Rust's [str]. *)
Definition str_le (a b : string) : bool := bool_decide (String.le a b).

Lemma str_le_trans a b c : str_le a b → str_le b c → str_le a c.
Proof. unfold str_le. rewrite !bool_decide_spec. apply transitivity. Qed.

Lemma str_le_total a b : str_le a b ∨ str_le b a.
Proof. unfold str_le. rewrite !bool_decide_spec. apply total; apply _. Qed.

Lemma str_le_antisym a b : str_le a b → str_le b a → a = b.
Proof. unfold str_le. rewrite !bool_decide_spec. apply anti_symm; apply _. Qed.

Lemma str_le_refl a : str_le a a.
Proof. unfold str_le. rewrite bool_decide_spec. reflexivity. Qed.

(** ** Ordered iteration

    [BTreeMap] and [BTreeSet] iterate in key order. *)

Definition btree_keys {V} (m : gmap string V) : list string :=
  sort_by str_le (elements (dom m)).

Definition btree_elements (s : gset string) : list string :=
  sort_by str_le (elements s).

Lemma elem_of_btree_keys {V} (m : gmap string V) k : k ∈ btree_keys m ↔ is_Some (m !! k).
Proof. unfold btree_keys. by rewrite elem_of_sort_by, elem_of_elements, elem_of_dom. Qed.

Lemma elem_of_btree_elements (s : gset string) k : k ∈ btree_elements s ↔ k ∈ s.
Proof. unfold btree_elements. by rewrite elem_of_sort_by, elem_of_elements. Qed.

Lemma NoDup_btree_keys {V} (m : gmap string V) : NoDup (btree_keys m).
Proof. unfold btree_keys. rewrite sort_by_perm. apply NoDup_elements. Qed.

Lemma NoDup_btree_elements (s : gset string) : NoDup (btree_elements s).
Proof. unfold btree_elements. rewrite sort_by_perm. apply NoDup_elements. Qed.

(** The entries of a map in key order. *)
Definition btree_items {V} (m : gmap string V) : list (string * V) :=
  omap (λ k, (k,.) <$> m !! k) (btree_keys m).

Lemma elem_of_btree_items {V} (m : gmap string V) k v : (k, v) ∈ btree_items m ↔ m !! k = Some v.
Proof.
  unfold btree_items. rewrite list_elem_of_omap. setoid_rewrite elem_of_btree_keys. split.
  - intros (k' & _ & H). destruct (m !! k') eqn:E; by simplify_eq/=.
  - intros H. exists k. rewrite H. eauto.
Qed.

Lemma btree_items_keys {V} (m : gmap string V) : (btree_items m).*1 = btree_keys m.
Proof.
  unfold btree_items. assert (∀ k, k ∈ btree_keys m → is_Some (m !! k)) as H
    by (intros; by apply elem_of_btree_keys).
  induction (btree_keys m) as [|k ks IH]; [done|]. csimpl.
  destruct (H k) as [v ->]; [left|]. csimpl. f_equal. apply IH. intros. apply H. by right.
Qed.

(** ** Lists *)

Lemma list_find_some {A} (P : A → Prop) `{∀ x, Decision (P x)} (l : list A) i x :
  list_find P l = Some (i, x) → x ∈ l ∧ P x.
Proof.
  intros (Hl & HP & _)%list_find_Some. split; [|done].
  apply list_elem_of_lookup. eauto.
Qed.

Lemma foldl_ind {A S} (P : S → Prop) (f : S → A → S) s l :
  P s → (∀ s x, x ∈ l → P s → P (f s x)) → P (foldl f s l).
Proof.
  revert s. induction l as [|x l IH]; intros s Hs Hf; simpl; [done|].
  apply IH; [apply Hf; [by left|done]|].
  intros s' y Hy. apply Hf. by right.
Qed.

Lemma filter_nil_not_elem {A} (P : A → Prop) `{∀ x, Decision (P x)} (l : list A) :
  filter P l = [] ↔ ∀ x, x ∈ l → ¬ P x.
Proof.
  split.
  - intros Hnil x Hx HP. apply (not_elem_of_nil x). rewrite <- Hnil.
    by apply list_elem_of_filter.
  - intros Hnone. destruct (filter P l) as [|x l'] eqn:E; [done|].
    assert (x ∈ filter P l) as [HP Hx]%list_elem_of_filter by (rewrite E; left).
    by destruct (Hnone x Hx).
Qed.
