(* ===== verification/Str.v ===== *)
(** * Rust [str] operations

    A Rust [&str]/[String] is its sequence of UTF-8 bytes, modelled by
    [string].  Indices are byte indices, as in Rust.  This file holds the
    [str] methods of the standard library the crate uses, and the lemmas on
    the [file::name::name] shape of qualified paths. *)

From Stdlib Require Import Ascii.
From S2P Require Import Prelude.

Definition starts_with (p s : string) : bool := String.prefix p s.

(** [str::strip_prefix] *)
Fixpoint strip_prefix (p s : string) : option string :=
  match p, s with
  | EmptyString, _ => Some s
  | String a p', String b s' => if Ascii.eqb a b then strip_prefix p' s' else None
  | String _ _, EmptyString => None
  end.

(** [str::split_once]: split around the first occurrence. *)
Fixpoint split_once (sep s : string) : option (string * string) :=
  match strip_prefix sep s with
  | Some rest => Some (EmptyString, rest)
  | None =>
      match s with
      | EmptyString => None
      | String c s' =>
          match split_once sep s' with
          | Some (a, b) => Some (String c a, b)
          | None => None
          end
      end
  end.

(** [str::rsplit_once]: split around the last occurrence. *)
Fixpoint rsplit_once (sep s : string) : option (string * string) :=
  match s with
  | EmptyString =>
      match strip_prefix sep s with Some rest => Some (EmptyString, rest) | None => None end
  | String c s' =>
      match rsplit_once sep s' with
      | Some (a, b) => Some (String c a, b)
      | None =>
          match strip_prefix sep s with
          | Some rest => Some (EmptyString, rest)
          | None => None
          end
      end
  end.

(** [str::find] and [str::rfind]: byte index of an occurrence. *)
Definition str_find (p s : string) : option nat :=
  (λ ab, String.length ab.1) <$> split_once p s.

Definition str_rfind (p s : string) : option nat :=
  (λ ab, String.length ab.1) <$> rsplit_once p s.

(** [str::contains] *)
Definition str_contains (p s : string) : bool :=
  match split_once p s with Some _ => true | None => false end.

(** The prefix [&s[..n]]. *)
Definition str_take (n : nat) (s : string) : string := String.substring 0 n s.

(** [s.rsplit(sep).next()]: the segment after the last separator. *)
Definition rsplit_first (sep s : string) : string :=
  match rsplit_once sep s with Some (_, b) => b | None => s end.

(** [s.split('c')]: the segments between occurrences of one character. *)
Fixpoint split_char (c : ascii) (s : string) : list string :=
  match s with
  | EmptyString => [EmptyString]
  | String d s' =>
      if Ascii.eqb c d then EmptyString :: split_char c s'
      else match split_char c s' with
           | x :: l => String d x :: l
           | [] => [String d EmptyString]
           end
  end.

(** [Vec<String>::join] *)
Fixpoint str_join (sep : string) (l : list string) : string :=
  match l with
  | [] => EmptyString
  | [x] => x
  | x :: l => x +:+ sep +:+ str_join sep l
  end.

(** [str::chars]: the Unicode scalar values of a UTF-8 string.  A continuation
    byte is [0b10xxxxxx]; a lead byte starts a new scalar value. *)
Definition is_continuation (b : N) : bool := (N.land b 192 =? 128)%N.

Fixpoint str_bytes (s : string) : list N :=
  match s with
  | EmptyString => []
  | String c s' => N_of_ascii c :: str_bytes s'
  end.

Definition utf8_lead_value (b : N) : N :=
  if (b <? 128)%N then b
  else if (b <? 224)%N then N.land b 31
  else if (b <? 240)%N then N.land b 15
  else N.land b 7.

Fixpoint utf8_decode (acc : option N) (bs : list N) : list N :=
  match bs with
  | [] => option_list acc
  | b :: bs' =>
      if is_continuation b
      then utf8_decode (Some (default 0%N acc * 64 + N.land b 63)%N) bs'
      else option_list acc ++ utf8_decode (Some (utf8_lead_value b)) bs'
  end.

Definition str_chars (s : string) : list N := utf8_decode None (str_bytes s).

Example str_chars_ascii : str_chars "ab" = [97; 98]%N.
Proof. reflexivity. Qed.

(** The two-byte encoding [C3 A9] is one scalar value, U+00E9. *)
Example str_chars_two_bytes :
  str_chars (String (ascii_of_N 195) (String (ascii_of_N 169) "x")) = [233; 120]%N.
Proof. reflexivity. Qed.

(** ** Lemmas *)

Lemma str_app_nil_r (s : string) : s +:+ "" = s.
Proof. induction s as [|c s IH]; [done|]. change (String c s +:+ "") with (String c (s +:+ "")). by rewrite IH. Qed.

Lemma str_app_assoc (a b c : string) : (a +:+ b) +:+ c = a +:+ b +:+ c.
Proof.
  unfold String.app. induction a as [|x a IH]; simpl; [done|].
  cbn. f_equal. apply IH.
Qed.

Lemma str_length_app (a b : string) : String.length (a +:+ b) = String.length a + String.length b.
Proof. induction a as [|c a IH]; simpl; [done|]. by rewrite IH. Qed.

Lemma strip_prefix_app p s : strip_prefix p (p +:+ s) = Some s.
Proof.
  induction p as [|c p IH]; [by destruct s|].
  change (String c p +:+ s) with (String c (p +:+ s)). simpl.
  by rewrite Ascii.eqb_refl.
Qed.

Lemma strip_prefix_Some p s r : strip_prefix p s = Some r → s = p +:+ r.
Proof.
  revert s. induction p as [|a p IH]; intros [|b s] H; simpl in H; simplify_eq; try done.
  destruct (Ascii.eqb_spec a b) as [->|]; [|done].
  change (String b p +:+ r) with (String b (p +:+ r)). by rewrite (IH s).
Qed.

Lemma split_once_Some sep s a b : split_once sep s = Some (a, b) → s = a +:+ sep +:+ b.
Proof.
  revert a b. induction s as [|c s IH]; intros a b H; simpl in H.
  - destruct (strip_prefix sep "") eqn:E; [|done].
    apply strip_prefix_Some in E. by simplify_eq.
  - destruct (strip_prefix sep (String c s)) eqn:E.
    + apply strip_prefix_Some in E. by simplify_eq.
    + destruct (split_once sep s) as [[a' b']|] eqn:E'; [|done]. simplify_eq.
      by rewrite (IH a' b eq_refl).
Qed.

Lemma rsplit_once_Some sep s a b : rsplit_once sep s = Some (a, b) → s = a +:+ sep +:+ b.
Proof.
  revert a b. induction s as [|c s IH]; intros a b H; simpl in H.
  - destruct (strip_prefix sep "") eqn:E; [|done].
    apply strip_prefix_Some in E. by simplify_eq.
  - destruct (rsplit_once sep s) as [[a' b']|] eqn:E'.
    + simplify_eq. by rewrite (IH a' b eq_refl).
    + destruct (strip_prefix sep (String c s)) eqn:E; [|done].
      apply strip_prefix_Some in E. by simplify_eq.
Qed.

(** A Python identifier has no colon. *)
Fixpoint no_colon (s : string) : bool :=
  match s with
  | EmptyString => true
  | String c s' => negb (Ascii.eqb c ":") && no_colon s'
  end.

Lemma strip_colons_ne c s :
  negb (Ascii.eqb c ":") → strip_prefix "::" (String c s) = None.
Proof.
  intros Hc. cbn [strip_prefix]. rewrite Ascii.eqb_sym. by destruct (Ascii.eqb c ":").
Qed.

Lemma strip_colon_pair s : no_colon s → strip_prefix "::" (String ":" s) = None.
Proof.
  destruct s as [|d s]; [done|]. cbn [no_colon strip_prefix].
  intros [Hd _]%andb_True. rewrite (Ascii.eqb_sym ":" d).
  by destruct (Ascii.eqb d ":").
Qed.

Lemma rsplit_no_colon s : no_colon s → rsplit_once "::" s = None.
Proof.
  induction s as [|c s IH]; [done|]. cbn [no_colon rsplit_once].
  intros [Hc Hs]%andb_True. by rewrite IH, strip_colons_ne.
Qed.

Lemma rsplit_once_path a b :
  no_colon b → rsplit_once "::" (a +:+ "::" +:+ b) = Some (a, b).
Proof.
  intros Hb. induction a as [|c a IH].
  - change ("" +:+ "::" +:+ b) with (String ":" (String ":" b)).
    cbn [rsplit_once]. by rewrite (rsplit_no_colon b Hb), (strip_colon_pair b Hb).
  - change (String c a +:+ "::" +:+ b) with (String c (a +:+ "::" +:+ b)).
    cbn [rsplit_once]. by rewrite IH.
Qed.

Lemma split_once_path a b :
  no_colon a → split_once "::" (a +:+ "::" +:+ b) = Some (a, b).
Proof.
  induction a as [|c a IH]; intros Ha.
  - change ("" +:+ "::" +:+ b) with (String ":" (String ":" b)). by destruct b.
  - change (String c a +:+ "::" +:+ b) with (String c (a +:+ "::" +:+ b)).
    cbn [no_colon] in Ha. apply andb_True in Ha as [Hc Ha].
    cbn [split_once]. by rewrite IH, strip_colons_ne.
Qed.

Lemma str_take_app a b : str_take (String.length a) (a +:+ b) = a.
Proof.
  unfold str_take. induction a as [|c a IH]; [by destruct b|].
  change (String c a +:+ b) with (String c (a +:+ b)). simpl. by f_equal.
Qed.

Lemma str_contains_app p a s : str_contains p s = true → str_contains p (a +:+ s) = true.
Proof.
  intros Hs. induction a as [|c a IH]; [done|].
  change (String c a +:+ s) with (String c (a +:+ s)). unfold str_contains in *.
  cbn [split_once]. destruct (strip_prefix p (String c (a +:+ s))); [done|].
  revert IH. by destruct (split_once p (a +:+ s)) as [[]|].
Qed.

Lemma str_contains_middle p a s : str_contains p (a +:+ p +:+ s) = true.
Proof.
  apply str_contains_app. unfold str_contains.
  destruct (p +:+ s) as [|c q] eqn:E; simpl; rewrite <- E, strip_prefix_app; done.
Qed.
