(* ===== verification/Paths.v ===== *)
(** * Paths and the operating system

    The [std::path] operations the crate uses (through [SystemPath]), and the
    interface to the host: reading files and walking directories.  What the
    host answers is a parameter of the model. *)

From Stdlib Require Import Ascii.
From S2P Require Import Prelude Str.

(** [Path::components] of a UTF-8 path: the root and [.] segments are dropped
    as [std::path] normalises them; [..] is kept. *)
Definition components (p : string) : list string :=
  filter (λ c, c ≠ "" ∧ c ≠ ".") (split_char "/" p).

(** [Path::file_name]: the last component unless it is [..]. *)
Definition file_name (p : string) : option string :=
  match last (components p) with
  | Some c => if bool_decide (c = "..") then None else Some c
  | None => None
  end.

(** [Path::extension]: what follows the last dot of the file name, unless the
    only dot starts the name. *)
Definition extension (p : string) : option string :=
  match file_name p with
  | Some n =>
      match rsplit_once "." n with
      | Some (stem, ext) => if bool_decide (stem = "") then None else Some ext
      | None => None
      end
  | None => None
  end.

Definition is_absolute (p : string) : bool := starts_with "/" p.

(** [Path::join] with a relative second argument. *)
Definition path_join (root p : string) : string :=
  if is_absolute p then p
  else if bool_decide (root = "") then p
  else match rsplit_once "/" root with
       | Some (_, "") => root +:+ p
       | _ => root +:+ "/" +:+ p
       end.

(** [Path::starts_with] and [Path::strip_prefix] compare components. *)
Fixpoint list_strip_prefix (p l : list string) : option (list string) :=
  match p, l with
  | [], _ => Some l
  | x :: p', y :: l' => if bool_decide (x = y) then list_strip_prefix p' l' else None
  | _ :: _, [] => None
  end.

Definition path_strip_prefix (base p : string) : option (list string) :=
  if Bool.eqb (is_absolute base) (is_absolute p)
  then list_strip_prefix (components base) (components p)
  else None.

Definition path_starts_with (base p : string) : bool :=
  match path_strip_prefix base p with Some _ => true | None => false end.

Lemma list_strip_prefix_Some p l r : list_strip_prefix p l = Some r ↔ l = p ++ r.
Proof.
  revert l. induction p as [|x p IH]; intros [|y l]; simpl; try naive_solver.
  case_bool_decide as Hxy; [|naive_solver].
  rewrite IH. naive_solver.
Qed.

(** Components are non-empty and hold no separator. *)
Lemma split_char_no_slash s c : c ∈ split_char "/" s → split_once "/" c = None.
Proof.
  revert c. induction s as [|d s IH]; intros c; cbn [split_char].
  { by intros ->%list_elem_of_singleton. }
  destruct (Ascii.eqb "/" d) eqn:E.
  - intros [->|Hc]%elem_of_cons; [done|by apply IH].
  - destruct (split_char "/" s) as [|x l]; intros Hc.
    + apply list_elem_of_singleton in Hc as ->. cbn [split_once strip_prefix]. by rewrite E.
    + apply elem_of_cons in Hc as [->|Hc]; [|apply IH; by right].
      cbn [split_once strip_prefix]. rewrite E. rewrite (IH x); [done|by left].
Qed.

Lemma component_no_slash p c : c ∈ components p → c ≠ "" ∧ split_once "/" c = None.
Proof.
  intros [[Hne _] Hc]%list_elem_of_filter. split; [done|]. by eapply split_char_no_slash.
Qed.

Lemma split_once_slash_app n r : split_once "/" n = None → split_once "/" (n +:+ "/" +:+ r) = Some (n, r).
Proof.
  induction n as [|c n IH]; [done|].
  change (String c n +:+ "/" +:+ r) with (String c (n +:+ "/" +:+ r)). cbn [split_once strip_prefix].
  destruct (Ascii.eqb "/" c); [done|]. destruct (split_once "/" n) as [[? ?]|]; [done|].
  intros _. by rewrite IH.
Qed.

(** A joined list of components: its first one is what precedes the first
    separator. *)
Lemma join_split n r rest :
  split_once "/" n = None → split_once "/" (str_join "/" (n :: r :: rest)) = Some (n, str_join "/" (r :: rest)).
Proof. intros Hn. by apply (split_once_slash_app n). Qed.

Lemma join_no_lead n rest :
  n ≠ "" → split_once "/" n = None →
  strip_prefix "/" (str_join "/" (n :: rest)) = None.
Proof.
  intros Hne Hn. destruct n as [|c n]; [done|]. cbn [split_once strip_prefix] in Hn.
  assert (Ascii.eqb "/" c = false) as Hc by by destruct (Ascii.eqb "/" c).
  assert (∀ x, strip_prefix "/" (String c x) = None) as H by (intros x; cbn [strip_prefix]; by rewrite Hc).
  destruct rest; apply H.
Qed.

Lemma join_not_root n rest :
  n ≠ "" → split_once "/" n = None →
  String.eqb (str_join "/" (n :: rest)) "" || String.eqb (str_join "/" (n :: rest)) "/" = false.
Proof.
  intros Hne Hn. pose proof (join_no_lead n rest Hne Hn) as Hl.
  apply orb_false_intro; apply String.eqb_neq; intros E.
  - destruct n as [|c n], rest; done.
  - by rewrite E in Hl.
Qed.

(** ** Errors of the host *)

Inductive io_error := NotFound | IoOther.

#[global] Instance io_error_eq_dec : EqDecision io_error.
Proof. solve_decision. Defined.

(** What the crate asks of code outside the repository:
    - [xxh3_128], the 128-bit hash of the [xxhash-rust] crate;
    - [py_extension], whether [ruff_python_ast::PySourceType] recognises a
      file extension. *)
Class External := {
  xxh3_128 : string → N;
  py_extension : string → bool;
}.

(** An instance for the witnesses. *)
Definition external0 : External :=
  {| xxh3_128 := λ s, N.of_nat (String.length s); py_extension := String.eqb "py" |}.
