(* ===== verification/Content.v ===== *)
(** * The content store ([rust/src/content.rs])

    A [ContentMap] is a persistent map, so a captured generation is a value.
    [ContentStore] owns the current generation, the application revision, the
    version counter and the bounded window of retained generations. *)

From S2P Require Import Prelude Str Paths.

Abbreviation Revision := N (only parsing).
Abbreviation ContentHash := N (only parsing).

Section content.
Context `{Ext : External}.

(** ** Documents *)

Definition hash_bytes (bytes : string) : ContentHash := xxh3_128 bytes.
Definition hash_text (text : string) : ContentHash := hash_bytes text.

Inductive Document :=
| Text (text : string) (hash : ContentHash) (version : N)
| Deleted (version : N).

Definition Document_text (text : string) (version : N) : Document :=
  Text text (hash_text text) version.

Definition Document_hash (d : Document) : option ContentHash :=
  match d with Text _ h _ => Some h | Deleted _ => None end.

Definition Document_version (d : Document) : N :=
  match d with Text _ _ v | Deleted v => v end.

Record ContentMap := mkContentMap {
  system : gmap string Document;
  virtual_files : gmap string Document;
}.

Definition ContentMap_new : ContentMap := mkContentMap ∅ ∅.

Inductive Change :=
| Insert (path text : string)
| Delete (path : string)
| InsertVirtual (path text : string)
| Forget (path : string).

(** ** The store *)

Record ContentStore := mkContentStore {
  generation : ContentMap;
  revision : Revision;
  version_counter : N;
  retained : gmap N ContentMap;
  retain_cap : N;
  disk_reads : N;
}.

Definition DEFAULT_RETAIN_CAP : N := 256.

Definition with_retain_cap (cap : N) : ContentStore :=
  mkContentStore ContentMap_new 0 0 {[ 0%N := ContentMap_new ]} cap 0.

Definition ContentStore_new : ContentStore := with_retain_cap DEFAULT_RETAIN_CAP.

Definition capture (s : ContentStore) : ContentMap := generation s.

(** The first key of a [BTreeMap<Revision, _>]. *)
Fixpoint list_min (l : list N) : option N :=
  match l with
  | [] => None
  | k :: l => Some (match list_min l with Some j => N.min k j | None => k end)
  end.

Definition first_key {V} (m : gmap N V) : option N := list_min (elements (dom m)).

(** The [while] loop of [record_retained]; each turn removes one entry, so the
    number of entries bounds the number of turns. *)
Fixpoint evict (fuel : nat) (cap : N) (m : gmap N ContentMap) : gmap N ContentMap :=
  match fuel with
  | O => m
  | S fuel =>
      if (cap <? N.of_nat (size m))%N
      then match first_key m with
           | Some oldest => evict fuel cap (delete oldest m)
           | None => m
           end
      else m
  end.

Definition record_retained (s : ContentStore) : ContentStore :=
  let m := <[ revision s := generation s ]> (retained s) in
  mkContentStore (generation s) (revision s) (version_counter s)
    (evict (size m) (retain_cap s) m) (retain_cap s) (disk_reads s).

(** One change inside [apply_batch]; the closure [next_version] increments
    the counter and returns it. *)
Definition apply_change (mv : ContentMap * N) (c : Change) : ContentMap * N :=
  let '(m, v) := mv in
  match c with
  | Insert path text =>
      let v' := u64_succ v in
      (mkContentMap (<[ path := Document_text text v' ]> (system m)) (virtual_files m), v')
  | Delete path =>
      let v' := u64_succ v in
      (mkContentMap (<[ path := Deleted v' ]> (system m)) (virtual_files m), v')
  | Forget path =>
      (mkContentMap (delete path (system m)) (virtual_files m), v)
  | InsertVirtual path text =>
      let v' := u64_succ v in
      (mkContentMap (system m) (<[ path := Document_text text v' ]> (virtual_files m)), v')
  end.

Definition mutate (s : ContentStore) (f : ContentMap * N → ContentMap * N) :
    ContentStore * Revision :=
  let '(m, v) := f (generation s, version_counter s) in
  let s' := record_retained
    (mkContentStore m (u64_succ (revision s)) v (retained s) (retain_cap s) (disk_reads s)) in
  (s', revision s').

Definition apply_batch (s : ContentStore) (changes : list Change) : ContentStore * Revision :=
  mutate s (λ mv, foldl apply_change mv changes).

Definition insert_text (s : ContentStore) (path text : string) := apply_batch s [Insert path text].
Definition delete_path (s : ContentStore) (path : string) := apply_batch s [Delete path].
Definition forget (s : ContentStore) (path : string) := apply_batch s [Forget path].
Definition insert_virtual (s : ContentStore) (path text : string) :=
  apply_batch s [InsertVirtual path text].

(** [stage] consumes versions from the counter and leaves the rest alone. *)
Fixpoint stage_loop (m : ContentMap) (counter : N) (changes : list Change) : ContentMap * N :=
  match changes with
  | [] => (m, counter)
  | Insert path text :: cs =>
      let counter := u64_succ counter in
      stage_loop (mkContentMap (<[ path := Document_text text counter ]> (system m))
                    (virtual_files m)) counter cs
  | Delete path :: cs =>
      let counter := u64_succ counter in
      stage_loop (mkContentMap (<[ path := Deleted counter ]> (system m))
                    (virtual_files m)) counter cs
  | Forget path :: cs =>
      stage_loop (mkContentMap (delete path (system m)) (virtual_files m)) counter cs
  | InsertVirtual path text :: cs =>
      let counter := u64_succ counter in
      stage_loop (mkContentMap (system m)
                    (<[ path := Document_text text counter ]> (virtual_files m))) counter cs
  end.

Definition stage (s : ContentStore) (changes : list Change) : ContentStore * ContentMap :=
  let '(m, v) := stage_loop (generation s) (version_counter s) changes in
  (mkContentStore (generation s) (revision s) v (retained s) (retain_cap s) (disk_reads s), m).

Definition stage_unchanged (s : ContentStore) : ContentMap := generation s.

Definition publish_staged (s : ContentStore) (g : ContentMap) : ContentStore * Revision :=
  let s' := record_retained
    (mkContentStore g (u64_succ (revision s)) (version_counter s) (retained s)
       (retain_cap s) (disk_reads s)) in
  (s', revision s').

Definition next_revision (s : ContentStore) : Revision := u64_succ (revision s).

Definition generation_at (s : ContentStore) (rev : Revision) : option ContentMap :=
  retained s !! rev.

Definition oldest_retained (s : ContentStore) : Revision :=
  default (revision s) (first_key (retained s)).

(** ** Ingest from disk

    [read] answers [System::read_to_string]; [entries] are the directory
    entries the walk of the project root yields, each with whether it is a
    regular file ([None] for an entry the walk failed on). *)

Definition walk_relevant_files (entries : list (option (string * bool)))
    (filt : string → bool) : list string :=
  omap (λ e, match e with
             | Some (p, is_file) => if is_file && filt p then Some p else None
             | None => None
             end) entries.

Fixpoint read_disk_changes (read : string → result io_error string)
    (reads : N) (paths : list string) : list Change * N :=
  match paths with
  | [] => ([], reads)
  | p :: ps =>
      match read p with
      | Ok text =>
          let '(cs, n) := read_disk_changes read (u64_succ reads) ps in
          (Insert p text :: cs, n)
      | Err NotFound =>
          let '(cs, n) := read_disk_changes read reads ps in
          (Delete p :: cs, n)
      | Err IoOther => read_disk_changes read reads ps
      end
  end.

Definition set_disk_reads (s : ContentStore) (n : N) : ContentStore :=
  mkContentStore (generation s) (revision s) (version_counter s) (retained s)
    (retain_cap s) n.

Definition ingest_project (read : string → result io_error string)
    (entries : list (option (string * bool))) (filt : string → bool)
    (s : ContentStore) : ContentStore * Revision :=
  let paths := walk_relevant_files entries filt in
  let '(changes, n) := read_disk_changes read (disk_reads s) paths in
  apply_batch (set_disk_reads s n) changes.

Definition stage_reingest (read : string → result io_error string)
    (entries : list (option (string * bool))) (filt : string → bool)
    (skip : gset string) (s : ContentStore) : ContentStore * ContentMap :=
  let paths := filter (λ p, p ∉ skip) (walk_relevant_files entries filt) in
  let '(changes, n) := read_disk_changes read (disk_reads s) paths in
  stage (set_disk_reads s n) changes.

(** ** Relevant paths *)

(** The ancestor walk: [while let Some(p) = current { if p.file_name() ==
    Some(".tyo3") ..; current = p.parent() }].  The components are given last
    first, so that [parent] is the tail. *)
Fixpoint under_sidecar (rev_components : list string) : bool :=
  match rev_components with
  | [] => false
  | c :: parent => if bool_decide (c = ".tyo3") then true else under_sidecar parent
  end.

Definition is_project_relevant (path : string) : bool :=
  if under_sidecar (reverse (components path)) then false
  else if match extension path with Some e => py_extension e | None => false end then true
  else match file_name path with
       | Some n => bool_decide (n ∈ ["pyproject.toml"; "ty.toml"; "setup.cfg"; "setup.py"])
       | None => false
       end.

Definition is_project_config_file (path : string) : bool :=
  match file_name path with
  | Some n => bool_decide (n ∈ ["pyproject.toml"; "ty.toml"; "setup.cfg"; "setup.py"])
  | None => false
  end.

(** ** Eviction *)

Lemma list_min_spec (l : list N) :
  match list_min l with
  | Some k => k ∈ l ∧ ∀ j, j ∈ l → (k ≤ j)%N
  | None => l = []
  end.
Proof.
  induction l as [|k l IH]; simpl; [done|].
  destruct (list_min l) as [x|].
  - destruct IH as [IH1 IH2]. split.
    + destruct (N.min_spec k x) as [[_ ->]|[_ ->]]; [by left|by right].
    + intros j [->|Hj]%elem_of_cons; [lia|]. specialize (IH2 j Hj). lia.
  - subst. split; [by left|]. intros j [->|[]%not_elem_of_nil]%elem_of_cons. lia.
Qed.

Lemma first_key_spec {V} (m : gmap N V) :
  match first_key m with
  | Some k => is_Some (m !! k) ∧ ∀ j, is_Some (m !! j) → (k ≤ j)%N
  | None => m = ∅
  end.
Proof.
  unfold first_key. pose proof (list_min_spec (elements (dom m))) as Hmin.
  destruct (list_min _) as [k|].
  - destruct Hmin as [Hk Hmin]. split; [by apply elem_of_dom, elem_of_elements|].
    intros j Hj. by apply Hmin, elem_of_elements, elem_of_dom.
  - apply dom_empty_inv_L. by apply leibniz_equiv, elements_empty_iff.
Qed.

Definition on_interval (lo hi : N) (f : N → option ContentMap) (m : gmap N ContentMap) : Prop :=
  (∀ r, (lo ≤ r < hi)%N → is_Some (f r)) ∧
  ∀ r, m !! r = if decide (lo ≤ r < hi)%N then f r else None.

Lemma on_interval_size lo hi f m :
  on_interval lo hi f m → (lo ≤ hi)%N → N.of_nat (size m) = (hi - lo)%N.
Proof.
  intros [Hf Hm] Hle.
  assert (dom m = list_to_set (C:=gset N)
            ((λ i, lo + N.of_nat i)%N <$> seq 0 (N.to_nat (hi - lo)))) as Hdom.
  { apply set_eq. intros r. rewrite elem_of_dom, elem_of_list_to_set, list_elem_of_fmap, Hm.
    case_decide as Hr.
    - split; [|intros _; by apply Hf]. intros _. exists (N.to_nat (r - lo)).
      rewrite elem_of_seq. lia.
    - rewrite is_Some_alt. split; [done|]. intros (i & -> & Hi%elem_of_seq). lia. }
  rewrite <- size_dom, Hdom, size_list_to_set.
  - rewrite length_fmap, length_seq. lia.
  - apply NoDup_fmap_2; [intros ???; lia|apply NoDup_seq].
Qed.

Lemma on_interval_first lo hi f m :
  on_interval lo hi f m → (lo < hi)%N → first_key m = Some lo.
Proof.
  intros [Hf Hm] Hlt. pose proof (first_key_spec m) as Hk.
  assert (is_Some (m !! lo)) as Hlo.
  { rewrite Hm, decide_True by lia. apply Hf. lia. }
  destruct (first_key m) as [k|].
  - destruct Hk as [Hk Hmin]. f_equal. specialize (Hmin lo Hlo).
    rewrite Hm in Hk. case_decide; [lia|by destruct Hk].
  - subst. destruct Hlo as [? []%lookup_empty_Some].
Qed.

(** Eviction keeps the most recent [cap] revisions of an interval. *)
Lemma evict_interval fuel cap lo hi f m :
  on_interval lo hi f m → (lo ≤ hi)%N → (hi - lo ≤ N.of_nat fuel)%N →
  on_interval (N.max lo (hi - cap)) hi f (evict fuel cap m).
Proof.
  revert lo m. induction fuel as [|fuel IH]; intros lo m Hm Hle Hfuel; simpl.
  { replace (N.max lo (hi - cap)) with lo by lia. done. }
  rewrite (on_interval_size lo hi f m) by done.
  destruct (N.ltb_spec cap (hi - lo)).
  - rewrite (on_interval_first lo hi f m) by (done || lia).
    replace (N.max lo (hi - cap)) with (N.max (lo + 1) (hi - cap)) by lia.
    apply IH; [|lia..]. destruct Hm as [Hf Hm]. split.
    + intros r Hr. apply Hf. lia.
    + intros r. rewrite lookup_delete. repeat case_decide; subst; try lia; try done;
        rewrite Hm; repeat case_decide; (lia || done).
  - by replace (N.max lo (hi - cap)) with lo by lia.
Qed.

(** ** The append-only log

    The abstract store is the list of all generations ever published, indexed
    by revision, of which the last [retain_cap] can still be read. *)

Record store_repr (log : list ContentMap) (s : ContentStore) : Prop := {
  repr_length : N.of_nat (length log) = (revision s + 1)%N;
  repr_last : last log = Some (generation s);
  repr_window :
    on_interval (N.of_nat (length log) - retain_cap s) (N.of_nat (length log))
      (λ r, log !! N.to_nat r) (retained s);
}.

Lemma repr_generation_at log s r :
  store_repr log s →
  generation_at s r =
    if decide (N.of_nat (length log) - retain_cap s ≤ r)%N then log !! N.to_nat r else None.
Proof.
  intros [_ _ [Hsome Hw]]. unfold generation_at. rewrite Hw.
  repeat case_decide; try lia; try done.
  symmetry. apply lookup_ge_None. lia.
Qed.

Lemma with_retain_cap_repr cap :
  (0 < cap)%N → store_repr [ContentMap_new] (with_retain_cap cap).
Proof.
  intros Hcap. split; simpl; [done|done|].
  replace (1 - cap)%N with 0%N by lia. split.
  - intros r Hr. by replace r with 0%N by lia.
  - intros r. case_decide.
    + replace r with 0%N by lia. apply lookup_singleton_eq.
    + apply lookup_singleton_ne. lia.
Qed.

Lemma record_retained_repr log g s :
  store_repr log s → (revision s + 1 < u64_modulus)%N →
  store_repr (log ++ [g])
    (record_retained (mkContentStore g (u64_succ (revision s)) (version_counter s)
       (retained s) (retain_cap s) (disk_reads s))).
Proof.
  intros [Hlen Hlast Hw] Hov. rewrite u64_succ_small by done.
  split; simpl.
  - rewrite length_app. simpl. lia.
  - by rewrite last_snoc.
  - set (m := <[_ := _]> _). rewrite length_app. simpl.
    assert (on_interval (N.of_nat (length log) - retain_cap s) (N.of_nat (length log + 1))
              (λ r, (log ++ [g]) !! N.to_nat r) m) as Hm.
    { destruct Hw as [Hsome Hw]. split.
      - intros r Hr. apply lookup_lt_is_Some. rewrite length_app. simpl. lia.
      - intros r. subst m. rewrite lookup_insert. case_decide as Hr.
        + rewrite decide_True by lia. rewrite lookup_app_r by lia.
          by replace (N.to_nat r - length log) with 0 by lia.
        + rewrite Hw. repeat case_decide; try lia; try done.
          by rewrite lookup_app_l by lia. }
    pose proof (on_interval_size _ _ _ _ Hm ltac:(lia)) as Hsize.
    apply (evict_interval (size m) (retain_cap s)) in Hm; [|lia..].
    by replace (N.max (N.of_nat (length log) - retain_cap s)
      (N.of_nat (length log + 1) - retain_cap s)) with
      (N.of_nat (length log + 1) - retain_cap s)%N in Hm by lia.
Qed.

(** Operations on the store, as the crate sequences them: a batch applied at
    once, a staged generation that is dropped, a staged generation that is
    published, and a publish of the unchanged content. *)
Inductive store_op :=
| OpBatch (changes : list Change)
| OpStageDropped (changes : list Change)
| OpStagePublish (changes : list Change)
| OpPublishUnchanged.

Definition exec_op (s : ContentStore) (op : store_op) : ContentStore :=
  match op with
  | OpBatch cs => (apply_batch s cs).1
  | OpStageDropped cs => (stage s cs).1
  | OpStagePublish cs => let '(s', g) := stage s cs in (publish_staged s' g).1
  | OpPublishUnchanged => (publish_staged s (stage_unchanged s)).1
  end.

Definition run_ops (s : ContentStore) (ops : list store_op) : ContentStore :=
  foldl exec_op s ops.

(** The generations a sequence of operations publishes, in order. *)
Fixpoint published (s : ContentStore) (ops : list store_op) : list ContentMap :=
  match ops with
  | [] => []
  | op :: ops =>
      let s' := exec_op s op in
      match op with
      | OpStageDropped _ => published s' ops
      | _ => generation s' :: published s' ops
      end
  end.

Lemma stage_loop_foldl m v cs : stage_loop m v cs = foldl apply_change (m, v) cs.
Proof. revert m v. induction cs as [|[] cs IH]; intros m v; simpl; auto. Qed.

Lemma stage_fields s cs :
  generation (stage s cs).1 = generation s ∧ revision (stage s cs).1 = revision s ∧
  retained (stage s cs).1 = retained s ∧ retain_cap (stage s cs).1 = retain_cap s.
Proof. unfold stage. by destruct (stage_loop _ _ _). Qed.

Lemma repr_ext log s s' :
  store_repr log s → generation s' = generation s → revision s' = revision s →
  retained s' = retained s → retain_cap s' = retain_cap s → store_repr log s'.
Proof. intros [] Hg Hr Hm Hc. by split; rewrite ?Hg, ?Hr, ?Hm, ?Hc. Qed.

Lemma publish_staged_repr log s g :
  store_repr log s → (revision s + 1 < u64_modulus)%N →
  store_repr (log ++ [g]) (publish_staged s g).1 ∧
  (publish_staged s g).2 = (revision s + 1)%N.
Proof.
  intros Hs Hov. split; [by apply record_retained_repr|].
  simpl. by apply u64_succ_small.
Qed.

Lemma publish_staged_fields s g :
  generation (publish_staged s g).1 = g ∧
  revision (publish_staged s g).1 = u64_succ (revision s) ∧
  retain_cap (publish_staged s g).1 = retain_cap s ∧
  version_counter (publish_staged s g).1 = version_counter s.
Proof. done. Qed.

Lemma apply_batch_stage s cs :
  apply_batch s cs = publish_staged (stage s cs).1 (stage s cs).2.
Proof.
  unfold apply_batch, mutate, publish_staged, stage. rewrite stage_loop_foldl.
  by destruct (foldl apply_change (generation s, version_counter s) cs).
Qed.

Lemma exec_op_cap s op : retain_cap (exec_op s op) = retain_cap s.
Proof.
  destruct op as [cs|cs|cs|]; simpl; rewrite ?apply_batch_stage; [..|done];
    unfold stage; by destruct (stage_loop _ _ _).
Qed.

Lemma exec_op_repr log s op :
  store_repr log s → (revision s + 1 < u64_modulus)%N →
  store_repr (log ++ published s [op]) (exec_op s op).
Proof.
  intros Hs Hov. destruct (stage_fields s (match op with
    | OpBatch cs | OpStageDropped cs | OpStagePublish cs => cs | _ => [] end))
    as (Hg & Hr & Hm & Hc).
  destruct op as [cs|cs|cs|]; simpl in *.
  - rewrite apply_batch_stage. apply publish_staged_repr; [|by rewrite Hr].
    by eapply repr_ext.
  - rewrite app_nil_r. by eapply repr_ext.
  - destruct (stage s cs) as [s' g]. simpl in *.
    apply publish_staged_repr; [|by rewrite Hr]. by eapply repr_ext.
  - by apply publish_staged_repr.
Qed.

Lemma published_app s ops1 ops2 :
  published s (ops1 ++ ops2) = published s ops1 ++ published (run_ops s ops1) ops2.
Proof.
  revert s. induction ops1 as [|op ops1 IH]; intros s; simpl; [done|].
  destruct op; simpl; by rewrite IH.
Qed.

Lemma length_published s ops : length (published s ops) ≤ length ops.
Proof.
  revert s. induction ops as [|op ops IH]; intros s; simpl; [done|].
  pose proof (IH (exec_op s op)). destruct op; simpl in *; lia.
Qed.

Lemma run_ops_repr log s ops :
  store_repr log s → (revision s + N.of_nat (length ops) < u64_modulus)%N →
  store_repr (log ++ published s ops) (run_ops s ops).
Proof.
  revert log s. induction ops as [|op ops IH]; intros log s Hs Hov.
  { by rewrite app_nil_r. }
  pose proof (exec_op_repr log s op Hs ltac:(simpl in Hov; lia)) as Hs'.
  pose proof (repr_length _ _ Hs) as Hl. pose proof (repr_length _ _ Hs') as Hl'.
  rewrite length_app in Hl'. pose proof (length_published s [op]).
  change (op :: ops) with ([op] ++ ops). rewrite published_app, app_assoc.
  apply IH; [done|]. simpl in *. lia.
Qed.

(** ** Versions *)

(** The document stored under a key; system and virtual paths are separate
    name spaces. *)
Definition doc_at (m : ContentMap) (k : bool * string) : option Document :=
  if k.1 then virtual_files m !! k.2 else system m !! k.2.

Definition versions_ok (gens : list ContentMap) (v : N) : Prop :=
  (∀ m k d, m ∈ gens → doc_at m k = Some d → (Document_version d ≤ v)%N) ∧
  (∀ m1 m2 k1 k2 d1 d2, m1 ∈ gens → m2 ∈ gens →
     doc_at m1 k1 = Some d1 → doc_at m2 k2 = Some d2 →
     Document_version d1 = Document_version d2 → k1 = k2 ∧ d1 = d2).

(** Storing a document with a fresh version, or dropping one. *)
Lemma versions_ok_put m m' gens v k d :
  versions_ok (m :: gens) v → Document_version d = (v + 1)%N →
  (∀ k', doc_at m' k' = if decide (k = k') then Some d else doc_at m k') →
  versions_ok (m' :: gens) (v + 1)%N.
Proof.
  intros [Hle Huniq] Hd Hm'.
  assert (∀ m0 k0 d0, m0 ∈ m' :: gens → doc_at m0 k0 = Some d0 →
            (k0 = k ∧ d0 = d) ∨ ∃ m1, m1 ∈ m :: gens ∧ doc_at m1 k0 = Some d0) as Hcase.
  { intros m0 k0 d0 [->|Hin]%elem_of_cons H0.
    - rewrite Hm' in H0. case_decide; [naive_solver|]. right. exists m. split; [left|done].
    - right. exists m0. split; [by right|done]. }
  split.
  - intros m0 k0 d0 Hin H0. destruct (Hcase _ _ _ Hin H0) as [[-> ->]|(m1&Hin1&H1)]; [lia|].
    specialize (Hle _ _ _ Hin1 H1). lia.
  - intros m1 m2 k1 k2 d1 d2 Hin1 Hin2 H1 H2 Heq.
    destruct (Hcase _ _ _ Hin1 H1) as [[-> ->]|(n1&Hn1&H1')];
      destruct (Hcase _ _ _ Hin2 H2) as [[-> ->]|(n2&Hn2&H2')].
    + done.
    + specialize (Hle _ _ _ Hn2 H2'). lia.
    + specialize (Hle _ _ _ Hn1 H1'). lia.
    + by eapply (Huniq n1 n2).
Qed.

Lemma versions_ok_sub gens gens' v :
  versions_ok gens v → gens' ⊆ gens → versions_ok gens' v.
Proof. intros [H1 H2] Hsub. split; [intros; eapply H1; eauto|intros; eapply (H2 m1 m2); eauto]. Qed.

Lemma doc_at_insert m p d (virt : bool) k :
  doc_at (if virt then mkContentMap (system m) (<[ p := d ]> (virtual_files m))
          else mkContentMap (<[ p := d ]> (system m)) (virtual_files m)) k =
  if decide ((virt, p) = k) then Some d else doc_at m k.
Proof.
  destruct k as [[] q], virt; unfold doc_at; simpl; rewrite ?lookup_insert;
    repeat case_decide; naive_solver.
Qed.

Lemma apply_change_versions m v gens c m' v' :
  versions_ok (m :: gens) v → (v + 1 < u64_modulus)%N → apply_change (m, v) c = (m', v') →
  versions_ok (m' :: gens) v' ∧ (v ≤ v' ≤ v + 1)%N.
Proof.
  intros Hv Hov Hc. destruct c as [p t|p|p t|p]; simpl in Hc;
    rewrite ?u64_succ_small in Hc by done; simplify_eq.
  - split; [|lia]. by refine (versions_ok_put _ _ _ _ (false, p) _ Hv _ (doc_at_insert m p _ false)).
  - split; [|lia]. by refine (versions_ok_put _ _ _ _ (false, p) _ Hv _ (doc_at_insert m p _ false)).
  - split; [|lia]. by refine (versions_ok_put _ _ _ _ (true, p) _ Hv _ (doc_at_insert m p _ true)).
  - split; [|lia]. destruct Hv as [Hle Huniq].
    assert (∀ m0 k d, m0 ∈ mkContentMap (delete p (system m)) (virtual_files m) :: gens →
              doc_at m0 k = Some d → ∃ m1, m1 ∈ m :: gens ∧ doc_at m1 k = Some d) as Hcase.
    { intros m0 [[] q] d [->|Hin]%elem_of_cons Hd.
      - exists m. split; [left|done].
      - exists m0. split; [by right|done].
      - exists m. split; [left|]. unfold doc_at in *; simpl in *.
        by apply lookup_delete_Some in Hd as [_ ?].
      - exists m0. split; [by right|done]. }
    split.
    + intros m0 k d Hin Hd. destruct (Hcase _ _ _ Hin Hd) as (m1&?&?). by eapply Hle.
    + intros m1 m2 k1 k2 d1 d2 Hin1 Hin2 H1 H2 Heq.
      destruct (Hcase _ _ _ Hin1 H1) as (n1&?&?).
      destruct (Hcase _ _ _ Hin2 H2) as (n2&?&?). by eapply (Huniq n1 n2).
Qed.

Lemma foldl_apply_change_versions cs m v gens m' v' :
  versions_ok (m :: gens) v → (v + N.of_nat (length cs) < u64_modulus)%N →
  foldl apply_change (m, v) cs = (m', v') →
  versions_ok (m' :: gens) v' ∧ (v ≤ v' ≤ v + N.of_nat (length cs))%N.
Proof.
  revert m v. induction cs as [|c cs IH]; intros m v Hv Hov Hf;
    cbn [foldl length] in Hf, Hov.
  { simplify_eq. split; [done|simpl; lia]. }
  destruct (apply_change (m, v) c) as [m1 v1] eqn:Hc.
  eapply apply_change_versions in Hc as [Hv1 Hle]; [|done|lia].
  apply IH in Hf as [Hv' Hle']; [|done|lia]. split; [done|simpl; lia].
Qed.

Definition op_changes (op : store_op) : list Change :=
  match op with
  | OpBatch cs | OpStageDropped cs | OpStagePublish cs => cs
  | OpPublishUnchanged => []
  end.

Lemma exec_op_versions log s op :
  versions_ok (generation s :: log) (version_counter s) →
  (version_counter s + N.of_nat (length (op_changes op)) < u64_modulus)%N →
  let s' := exec_op s op in
  versions_ok (generation s' :: log ++ published s [op]) (version_counter s') ∧
  (version_counter s' ≤ version_counter s + N.of_nat (length (op_changes op)))%N.
Proof.
  intros Hv Hov.
  assert (∀ g v, versions_ok (g :: generation s :: log) v →
            versions_ok (g :: log ++ [g]) v) as Hpub.
  { intros g v Hg. eapply versions_ok_sub; [exact Hg|]. set_solver. }
  destruct (foldl apply_change (generation s, version_counter s) (op_changes op))
    as [m' v'] eqn:Hf.
  assert (versions_ok (generation s :: generation s :: log) (version_counter s)) as Hv2.
  { eapply versions_ok_sub; [exact Hv|set_solver]. }
  destruct (foldl_apply_change_versions _ _ _ _ _ _ Hv2 Hov Hf) as [Hm' Hle].
  destruct op as [cs|cs|cs|]; simpl in *;
    rewrite ?apply_batch_stage; unfold stage; rewrite ?stage_loop_foldl, ?Hf; simpl.
  - split; [by apply Hpub|lia].
  - rewrite app_nil_r. split; [|lia]. eapply versions_ok_sub; [exact Hm'|]. set_solver.
  - split; [by apply Hpub|lia].
  - simplify_eq. split; [by apply Hpub|lia].
Qed.

Definition total_changes (ops : list store_op) : N :=
  foldr (λ op n, N.of_nat (length (op_changes op)) + n)%N 0%N ops.

Lemma run_ops_versions log s ops :
  versions_ok (generation s :: log) (version_counter s) →
  (version_counter s + total_changes ops < u64_modulus)%N →
  let s' := run_ops s ops in
  versions_ok (generation s' :: log ++ published s ops) (version_counter s').
Proof.
  revert log s. induction ops as [|op ops IH]; intros log s Hv Hov.
  { by rewrite app_nil_r. }
  cbn [total_changes foldr] in Hov. fold (total_changes ops) in Hov.
  destruct (exec_op_versions log s op Hv ltac:(lia)) as [Hv' Hle].
  change (op :: ops) with ([op] ++ ops). rewrite published_app, app_assoc.
  apply IH; [done|]. simpl in *. lia.
Qed.

(** ** What a batch leaves at a path *)

(** The overlay state of a system path: text, known-absent, or not covered. *)
Definition overlay_state (m : ContentMap) (p : string) : option (option string) :=
  (λ d, match d with Text t _ _ => Some t | Deleted _ => None end) <$> system m !! p.

(** The overlay state a change gives to path [p], if it concerns [p]. *)
Definition change_effect (p : string) (c : Change) : option (option (option string)) :=
  match c with
  | Insert q t => if decide (p = q) then Some (Some (Some t)) else None
  | Delete q => if decide (p = q) then Some (Some None) else None
  | Forget q => if decide (p = q) then Some None else None
  | InsertVirtual _ _ => None
  end.

(** The last change of a batch that concerns [p] decides. *)
Definition last_effect (p : string) (cs : list Change) : option (option (option string)) :=
  last (omap (change_effect p) cs).

Lemma last_effect_cons p c cs :
  last_effect p (c :: cs) =
    match last_effect p cs with Some x => Some x | None => change_effect p c end.
Proof.
  unfold last_effect. cbn [omap list_omap]. destruct (change_effect p c).
  - rewrite last_cons. by destruct (last _).
  - by destruct (last _).
Qed.

Lemma apply_change_overlay m v c p :
  overlay_state (apply_change (m, v) c).1 p = default (overlay_state m p) (change_effect p c).
Proof.
  unfold overlay_state. destruct c; simpl; rewrite ?lookup_insert, ?lookup_delete;
    repeat case_decide; subst; try done.
Qed.

Lemma foldl_overlay cs m v p :
  overlay_state (foldl apply_change (m, v) cs).1 p = default (overlay_state m p) (last_effect p cs).
Proof.
  revert m v. induction cs as [|c cs IH]; intros m v; [done|].
  cbn [foldl]. destruct (apply_change (m, v) c) as [m1 v1] eqn:Hc.
  pose proof (apply_change_overlay m v c p) as H1. rewrite Hc in H1. simpl in H1.
  rewrite IH, H1, last_effect_cons. by destruct (last_effect p cs).
Qed.

Lemma stage_overlay s cs p :
  overlay_state (stage s cs).2 p = default (overlay_state (generation s) p) (last_effect p cs).
Proof.
  unfold stage. rewrite stage_loop_foldl, <- (foldl_overlay cs _ (version_counter s)).
  by destruct (foldl _ _ _).
Qed.

Lemma read_disk_changes_effect read n ps p :
  last_effect p (read_disk_changes read n ps).1 =
  if decide (p ∈ ps) then
    match read p with
    | Ok t => Some (Some (Some t))
    | Err NotFound => Some (Some None)
    | Err IoOther => None
    end
  else None.
Proof.
  revert n. induction ps as [|q ps IH]; intros n; simpl; [done|].
  destruct (read q) as [t|[]] eqn:Hq.
  - specialize (IH (u64_succ n)). destruct (read_disk_changes read (u64_succ n) ps) as [cs n'].
    simpl in IH |- *. rewrite last_effect_cons, IH. simpl.
    destruct (decide (p = q)) as [->|Hne]; rewrite ?Hq;
      repeat case_decide; (done || set_solver || by destruct (read p) as [|[]]).
  - specialize (IH n). destruct (read_disk_changes read n ps) as [cs n'].
    simpl in IH |- *. rewrite last_effect_cons, IH. simpl.
    destruct (decide (p = q)) as [->|Hne]; rewrite ?Hq;
      repeat case_decide; (done || set_solver || by destruct (read p) as [|[]]).
  - rewrite IH.
    destruct (decide (p = q)) as [->|Hne]; rewrite ?Hq;
      repeat case_decide; (done || set_solver || by destruct (read p) as [|[]]).
Qed.

Lemma reingest_overlay read entries filt skip s p :
  overlay_state (stage_reingest read entries filt skip s).2 p =
    if decide (p ∈ walk_relevant_files entries filt ∧ p ∉ skip) then
      match read p with
      | Ok t => Some (Some t)
      | Err NotFound => Some None
      | Err IoOther => overlay_state (generation s) p
      end
    else overlay_state (generation s) p.
Proof.
  unfold stage_reingest. simpl.
  pose proof (read_disk_changes_effect read (disk_reads s)
    (filter (λ p, p ∉ skip) (walk_relevant_files entries filt)) p) as He.
  destruct (read_disk_changes _ _ _) as [cs n]. rewrite stage_overlay. simpl in *. rewrite He.
  case_decide as Hp; rewrite list_elem_of_filter in Hp; case_decide; try naive_solver.
  by destruct (read p) as [|[]].
Qed.

Lemma under_sidecar_elem l : under_sidecar l = bool_decide (".tyo3" ∈ l).
Proof.
  induction l as [|c l IH]; simpl; [done|]. rewrite IH.
  repeat case_bool_decide; set_solver.
Qed.

(** ** Theorems *)

(** The store refines the append-only log of published generations. *)
Theorem store_refines_log cap ops :
  (0 < cap)%N → (N.of_nat (length ops) < u64_modulus)%N →
  let s := run_ops (with_retain_cap cap) ops in
  let log := ContentMap_new :: published (with_retain_cap cap) ops in
  revision s = N.of_nat (length log - 1) ∧
  last log = Some (generation s) ∧
  oldest_retained s = (N.of_nat (length log) - cap)%N ∧
  ∀ r, generation_at s r =
    if decide (N.of_nat (length log) - cap ≤ r)%N then log !! N.to_nat r else None.
Proof.
  intros Hcap Hov s log.
  assert (store_repr log s) as Hs.
  { apply (run_ops_repr [ContentMap_new]); [by apply with_retain_cap_repr|done]. }
  assert (retain_cap s = cap) as Hc.
  { subst s. unfold run_ops. apply (foldl_ind (λ s, retain_cap s = cap)); [done|].
    intros s' op _ <-. apply exec_op_cap. }
  destruct (Hs) as [Hlen Hlast Hw]. rewrite Hc in Hw.
  assert (length log ≠ 0) by done.
  split; [lia|split; [done|split]].
  - unfold oldest_retained. by rewrite (on_interval_first _ _ _ _ Hw) by lia.
  - intros r. by rewrite (repr_generation_at log s r Hs), Hc.
Qed.

(** In every state the store can reach, two documents with equal versions,
    in any two readable generations, are one document under one key. *)
Theorem version_identifies_document cap ops r1 r2 g1 g2 k1 k2 d1 d2 :
  (0 < cap)%N → (N.of_nat (length ops) < u64_modulus)%N → (total_changes ops < u64_modulus)%N →
  let s := run_ops (with_retain_cap cap) ops in
  generation_at s r1 = Some g1 → generation_at s r2 = Some g2 →
  doc_at g1 k1 = Some d1 → doc_at g2 k2 = Some d2 →
  Document_version d1 = Document_version d2 → k1 = k2 ∧ d1 = d2.
Proof.
  intros Hcap Hov Hch s Hg1 Hg2 Hd1 Hd2 Hv.
  set (log := [ContentMap_new] ++ published (with_retain_cap cap) ops).
  assert (store_repr log s) as Hs.
  { apply run_ops_repr; [by apply with_retain_cap_repr|done]. }
  assert (versions_ok (generation s :: log) (version_counter s)) as [_ Huniq].
  { apply run_ops_versions; [|done].
    split; [intros m [[] k] d Hm|intros m ? [[] k] ? ? ? Hm ?];
      assert (m = ContentMap_new) as -> by set_solver; done. }
  rewrite (repr_generation_at log s _ Hs) in Hg1.
  rewrite (repr_generation_at log s _ Hs) in Hg2. repeat case_decide; try done.
  eapply (Huniq g1 g2); eauto; right; by eapply list_elem_of_lookup_2.
Qed.

(** Applying a batch is staging it and publishing the stage. *)
Theorem apply_batch_is_stage_publish s changes :
  apply_batch s changes =
    let '(s', g) := stage s changes in publish_staged s' g.
Proof. rewrite apply_batch_stage. by destruct (stage s changes). Qed.

(** After a batch, a path holds what the last change that names it says. *)
Theorem apply_batch_last_write_wins s changes p :
  overlay_state (generation (apply_batch s changes).1) p =
    default (overlay_state (generation s) p) (last_effect p changes).
Proof. rewrite apply_batch_stage. apply stage_overlay. Qed.

(** A rescan re-reads every relevant file that has no unsaved buffer, and
    leaves every other path alone. *)
Theorem stage_reingest_spec read entries filt skip s p :
  let g := (stage_reingest read entries filt skip s).2 in
  overlay_state g p =
    if decide (p ∈ walk_relevant_files entries filt ∧ p ∉ skip) then
      match read p with
      | Ok t => Some (Some t)
      | Err NotFound => Some None
      | Err IoOther => overlay_state (generation s) p
      end
    else overlay_state (generation s) p.
Proof. apply reingest_overlay. Qed.

(** Nothing inside a [.tyo3] directory is project content. *)
Theorem sidecar_never_relevant path :
  ".tyo3" ∈ components path → is_project_relevant path = false.
Proof.
  intros H. unfold is_project_relevant. rewrite under_sidecar_elem.
  rewrite bool_decide_eq_true_2; [done|]. by rewrite elem_of_reverse.
Qed.

End content.

(** ** Witnesses *)

(** Write, overwrite, delete with a window of two revisions. *)
Definition ops0 : list store_op :=
  [OpBatch [Insert "a.py" "x"]; OpStagePublish [Insert "a.py" "yz"; Insert "b.py" ""]; OpBatch [Delete "b.py"]].

Lemma store_refines_log_witness :
  let s := run_ops (Ext:=external0) (with_retain_cap 2) ops0 in
  oldest_retained s = 2%N ∧ generation_at s 1 = None ∧ is_Some (generation_at s 2).
Proof.
  pose proof (store_refines_log (Ext:=external0) 2 ops0 eq_refl eq_refl) as (_ & _ & Ho & Hg).
  split; [exact Ho|]. rewrite !Hg. split; [reflexivity|]. by eexists.
Defined.

Lemma version_identifies_document_witness :
  let s := run_ops (Ext:=external0) (with_retain_cap 2) ops0 in
  ∃ g1 g2 d1 d2, generation_at s 2 = Some g1 ∧ generation_at s 3 = Some g2 ∧
    doc_at g1 (false, "a.py") = Some d1 ∧ doc_at g2 (false, "a.py") = Some d2 ∧ d1 = d2.
Proof.
  intros s.
  assert (∃ g1 g2 d1 d2, generation_at s 2 = Some g1 ∧ generation_at s 3 = Some g2 ∧
    doc_at g1 (false, "a.py") = Some d1 ∧ doc_at g2 (false, "a.py") = Some d2 ∧
    Document_version d1 = Document_version d2) as (g1 & g2 & d1 & d2 & H1 & H2 & Hd1 & Hd2 & Hv).
  { do 4 eexists. repeat split; vm_compute; reflexivity. }
  exists g1, g2, d1, d2. repeat split; [done..|].
  by destruct (version_identifies_document (Ext:=external0) 2 ops0 2 3 g1 g2 _ _ d1 d2
    eq_refl eq_refl eq_refl H1 H2 Hd1 Hd2 Hv).
Defined.

Lemma sidecar_never_relevant_witness :
  is_project_relevant (Ext:=external0) "/p/.tyo3/conv.py" = false.
Proof. apply (sidecar_never_relevant (Ext:=external0)). by apply (bool_decide_unpack _). Defined.
