(* ===== verification/Identity.v ===== *)
(** * The identity registry ([rust/src/identity.rs], [rust/src/entity.rs])

    Durable identities, anchors, and the three indexes of
    [IdentityRegistry] with the operations that maintain them. *)

From S2P Require Import Prelude Str Paths Content.

(** A [DurableId] is an opaque string ordered as a string. *)
Abbreviation DurableId := string (only parsing).

(** ** Symbols and entities *)

Inductive SymbolKind :=
| Module_ | Class_ | Function_ | Method | Constructor_ | Variable_ | Constant
| Field_ | Parameter_ | Property_ | TypeParameter | Import_.

#[global] Instance SymbolKind_eq_dec : EqDecision SymbolKind.
Proof. solve_decision. Defined.

(** [full_range] and [name_range] are byte ranges. *)
Record Entity := mkEntity {
  e_qualified_path : string;
  e_kind : SymbolKind;
  e_content_hash : ContentHash;
  e_container : option string;
  e_name : string;
  e_file : string;
  e_full_range : N * N;
  e_name_range : N * N;
  e_qualified_name : string;
}.

(** ** Anchors *)

Inductive IdentityStatus := Active | NeedsReview | Orphaned.

#[global] Instance IdentityStatus_eq_dec : EqDecision IdentityStatus.
Proof. solve_decision. Defined.

Record Anchor := mkAnchor {
  a_id : DurableId;
  a_qualified_path : string;
  a_content_hash : ContentHash;
  a_kind : SymbolKind;
  a_first_seen_rev : Revision;
  a_last_seen_rev : Revision;
  a_status : IdentityStatus;
}.

#[global] Instance Anchor_eq_dec : EqDecision Anchor.
Proof. solve_decision. Defined.

(** [Anchor::name]: the segment after the last [::]. *)
Definition anchor_name (a : Anchor) : string := rsplit_first "::" (a_qualified_path a).

(** [Anchor::container]: everything before the last [::]; none when there is
    no separator or when it starts the path. *)
Definition anchor_container (a : Anchor) : option string :=
  match str_rfind "::" (a_qualified_path a) with
  | None => None
  | Some last_sep =>
      if bool_decide (last_sep = 0) then None
      else Some (str_take last_sep (a_qualified_path a))
  end.

(** [file_of_qualified_path] and [anchor_file] split on the first [::]. *)
Definition file_of_qualified_path (p : string) : string :=
  match split_once "::" p with Some (file, _) => file | None => p end.

Definition anchor_file (p : string) : option string := fst <$> split_once "::" p.

(** ** The registry *)

Record IdentityRegistry := mkRegistry {
  r_by_id : gmap string Anchor;
  r_by_path : gmap string string;
  r_by_hash : gmap N (list string);
}.

Definition empty_registry : IdentityRegistry := mkRegistry ∅ ∅ ∅.

Module Registry.

Definition get (r : IdentityRegistry) (id : DurableId) : option Anchor := r_by_id r !! id.

Definition by_path (r : IdentityRegistry) (p : string) : option DurableId := r_by_path r !! p.

Definition by_hash (r : IdentityRegistry) (h : ContentHash) : list DurableId :=
  default [] (r_by_hash r !! h).

Definition status_of (r : IdentityRegistry) (id : DurableId) : option IdentityStatus :=
  a_status <$> r_by_id r !! id.

(** [ids.retain(|x| x != id)], dropping the bucket when it becomes empty. *)
Definition remove_from_hash_index (m : gmap N (list string)) (h : ContentHash)
    (id : DurableId) : gmap N (list string) :=
  match m !! h with
  | Some ids =>
      let ids' := filter (λ x, x ≠ id) ids in
      match ids' with
      | [] => delete h (<[ h := ids' ]> m)
      | _ => <[ h := ids' ]> m
      end
  | None => m
  end.

(** [entry(h).or_default().push(id)] *)
Definition push_hash (m : gmap N (list string)) (h : ContentHash) (id : DurableId) :
    gmap N (list string) :=
  <[ h := default [] (m !! h) ++ [id] ]> m.

Definition insert (r : IdentityRegistry) (a : Anchor) : IdentityRegistry :=
  let '(bp, bh) :=
    match r_by_id r !! a_id a with
    | Some old =>
        (delete (a_qualified_path old) (r_by_path r),
         remove_from_hash_index (r_by_hash r) (a_content_hash old) (a_id a))
    | None => (r_by_path r, r_by_hash r)
    end in
  mkRegistry
    (<[ a_id a := a ]> (r_by_id r))
    (<[ a_qualified_path a := a_id a ]> bp)
    (push_hash bh (a_content_hash a) (a_id a)).

Definition rebind (r : IdentityRegistry) (id : DurableId) (new_path : string)
    (new_hash : ContentHash) (rev : Revision) : IdentityRegistry :=
  match r_by_id r !! id with
  | None => r
  | Some a =>
      let bp := delete (a_qualified_path a) (r_by_path r) in
      let bh := remove_from_hash_index (r_by_hash r) (a_content_hash a) id in
      mkRegistry
        (<[ id := mkAnchor (a_id a) new_path new_hash (a_kind a) (a_first_seen_rev a)
                    rev (a_status a) ]> (r_by_id r))
        (<[ new_path := id ]> bp)
        (push_hash bh new_hash id)
  end.

Definition retire (r : IdentityRegistry) (id : DurableId) (rev : Revision) : IdentityRegistry :=
  match r_by_id r !! id with
  | None => r
  | Some a =>
      if bool_decide (a_status a = Orphaned) then r
      else
        mkRegistry
          (<[ id := mkAnchor (a_id a) (a_qualified_path a) (a_content_hash a) (a_kind a)
                      (a_first_seen_rev a) rev Orphaned ]> (r_by_id r))
          (delete (a_qualified_path a) (r_by_path r))
          (r_by_hash r)
  end.

Definition set_status (r : IdentityRegistry) (id : DurableId) (st : IdentityStatus) :
    IdentityRegistry :=
  match r_by_id r !! id with
  | None => r
  | Some a =>
      mkRegistry
        (<[ id := mkAnchor (a_id a) (a_qualified_path a) (a_content_hash a) (a_kind a)
                    (a_first_seen_rev a) (a_last_seen_rev a) st ]> (r_by_id r))
        (r_by_path r) (r_by_hash r)
  end.

(** [assert_consistent]: the conjunction of its assertions. *)
Definition anchor_consistent (r : IdentityRegistry) (id : DurableId) (a : Anchor) : bool :=
  match r_by_path r !! a_qualified_path a with
  | Some p_id => bool_decide (p_id = id)
  | None => bool_decide (a_status a = Orphaned)
  end &&
  (bool_decide (a_status a = Orphaned) || bool_decide (id ∈ by_hash r (a_content_hash a))).

Definition assert_consistent (r : IdentityRegistry) : bool :=
  forallb (λ ia, anchor_consistent r ia.1 ia.2) (map_to_list (r_by_id r)) &&
  forallb (λ pi, match r_by_id r !! pi.2 with
                 | Some a => bool_decide (a_qualified_path a = pi.1)
                 | None => false
                 end) (map_to_list (r_by_path r)) &&
  forallb (λ hi, forallb (λ id, bool_decide (is_Some (r_by_id r !! id))) hi.2)
    (map_to_list (r_by_hash r)).

End Registry.
Import Registry.

(** ** Index invariant

    Held by every operation with no precondition.  The path index is sound;
    the hash index is exact: bucket [h] lists, once each, the anchors whose
    content hash is [h], retired anchors included.  It is weaker than
    [assert_consistent], the crate's debug check, which asks in addition that each
    live anchor is found under its path ([paths_complete] below): that one does not
    hold in every state the operations reach ([IdentityLimits]). *)

Record registry_ok (r : IdentityRegistry) : Prop := {
  ok_ids : ∀ id a, r_by_id r !! id = Some a → a_id a = id;
  ok_path : ∀ p id, r_by_path r !! p = Some id →
    ∃ a, r_by_id r !! id = Some a ∧ a_qualified_path a = p;
  ok_hash : ∀ h id, id ∈ by_hash r h ↔
    ∃ a, r_by_id r !! id = Some a ∧ a_content_hash a = h;
  ok_hash_nodup : ∀ h, NoDup (by_hash r h);
  ok_hash_nonempty : ∀ h, r_by_hash r !! h ≠ Some [];
}.

(** Every anchor that is not retired is found under its path. *)
Definition paths_complete (r : IdentityRegistry) : Prop :=
  ∀ id a, r_by_id r !! id = Some a → a_status a ≠ Orphaned →
    r_by_path r !! a_qualified_path a = Some id.

Definition bucket (m : gmap N (list string)) (h : N) : list string := default [] (m !! h).

Lemma bucket_push m h id h' :
  bucket (push_hash m h id) h' = if decide (h = h') then bucket m h ++ [id] else bucket m h'.
Proof. unfold bucket, push_hash. rewrite lookup_insert. by case_decide; subst. Qed.

Lemma bucket_remove m h id h' :
  bucket (remove_from_hash_index m h id) h' =
    if decide (h = h') then filter (λ x, x ≠ id) (bucket m h) else bucket m h'.
Proof.
  unfold bucket, remove_from_hash_index.
  destruct (m !! h) as [ids|] eqn:E.
  - destruct (filter _ ids) as [|x l] eqn:F; rewrite ?lookup_delete, ?lookup_insert;
      repeat case_decide; subst; simpl; rewrite ?E; simpl; congruence.
  - case_decide; subst; [by rewrite E|done].
Qed.

Lemma elem_of_bucket_push m h id h' id' :
  id' ∈ bucket (push_hash m h id) h' ↔ id' ∈ bucket m h' ∨ (h = h' ∧ id' = id).
Proof.
  rewrite bucket_push. case_decide; subst; [|naive_solver].
  rewrite elem_of_app, list_elem_of_singleton. naive_solver.
Qed.

Lemma elem_of_bucket_remove m h id h' id' :
  id' ∈ bucket (remove_from_hash_index m h id) h' ↔
    id' ∈ bucket m h' ∧ ¬ (h = h' ∧ id' = id).
Proof.
  rewrite bucket_remove. case_decide; subst; [|naive_solver].
  rewrite list_elem_of_filter. naive_solver.
Qed.

Lemma remove_nonempty m h id :
  (∀ h', m !! h' ≠ Some []) → ∀ h', remove_from_hash_index m h id !! h' ≠ Some [].
Proof.
  intros Hm h'. unfold remove_from_hash_index. destruct (m !! h) as [ids|]; [|done].
  destruct (filter _ ids) eqn:F; rewrite ?lookup_delete, ?lookup_insert;
    repeat case_decide; congruence || done || apply Hm.
Qed.

Lemma push_nonempty m h id :
  (∀ h', m !! h' ≠ Some []) → ∀ h', push_hash m h id !! h' ≠ Some [].
Proof.
  intros Hm h'. unfold push_hash. rewrite lookup_insert. case_decide; [|apply Hm].
  intros [=Hnil]. by apply (app_cons_not_nil (default [] (m !! h)) [] id).
Qed.

(** The common step of [insert] and [rebind]: anchor [id] takes new facts and
    both indexes are moved from the old facts, if any, to the new ones. *)
Definition rekey (r : IdentityRegistry) (id : DurableId) (a : Anchor) : IdentityRegistry :=
  let '(bp, bh) :=
    match r_by_id r !! id with
    | Some old =>
        (delete (a_qualified_path old) (r_by_path r),
         remove_from_hash_index (r_by_hash r) (a_content_hash old) id)
    | None => (r_by_path r, r_by_hash r)
    end in
  mkRegistry (<[ id := a ]> (r_by_id r)) (<[ a_qualified_path a := id ]> bp)
    (push_hash bh (a_content_hash a) id).

Lemma insert_rekey r a : insert r a = rekey r (a_id a) a.
Proof. done. Qed.

Lemma rebind_rekey r id p h rev a :
  r_by_id r !! id = Some a →
  rebind r id p h rev =
    rekey r id (mkAnchor (a_id a) p h (a_kind a) (a_first_seen_rev a) rev (a_status a)).
Proof. intros H. unfold rebind, rekey. by rewrite H. Qed.

Lemma rekey_by_id r id a : r_by_id (rekey r id a) = <[ id := a ]> (r_by_id r).
Proof. unfold rekey. by destruct (r_by_id r !! id). Qed.

Lemma rekey_by_path r id a q :
  r_by_path (rekey r id a) !! q =
    if decide (a_qualified_path a = q) then Some id
    else if decide (a_qualified_path <$> r_by_id r !! id = Some q) then None
    else r_by_path r !! q.
Proof.
  unfold rekey. destruct (r_by_id r !! id) as [old|]; simpl; rewrite lookup_insert;
    repeat case_decide; try done; rewrite ?lookup_delete;
    repeat case_decide; naive_solver.
Qed.

Lemma rekey_bucket r id a h id' :
  registry_ok r →
  id' ∈ by_hash (rekey r id a) h ↔
    if decide (id = id') then a_content_hash a = h else id' ∈ by_hash r h.
Proof.
  intros Hok. change (by_hash (rekey r id a) h) with (bucket (r_by_hash (rekey r id a)) h).
  unfold rekey.
  pose proof (ok_hash r Hok) as Hh. change (by_hash r) with (bucket (r_by_hash r)) in *.
  destruct (r_by_id r !! id) as [old|] eqn:E; simpl;
    rewrite elem_of_bucket_push, ?elem_of_bucket_remove, ?Hh; case_decide; naive_solver.
Qed.

Lemma rekey_ok r id a : registry_ok r → a_id a = id → registry_ok (rekey r id a).
Proof.
  intros Hok Ha. split.
  - intros id' a'. rewrite rekey_by_id, lookup_insert.
    case_decide; [naive_solver|apply (ok_ids r Hok)].
  - intros p id'. rewrite rekey_by_path, rekey_by_id.
    repeat case_decide; intros Hp; simplify_eq.
    + exists a. by rewrite lookup_insert_eq.
    + destruct (ok_path r Hok _ _ Hp) as (a' & Ha' & Hp').
      rewrite lookup_insert_ne; [eauto|]. intros Heq. rewrite Heq, Ha' in *. naive_solver.
  - intros h id'. rewrite rekey_bucket by done. rewrite rekey_by_id, lookup_insert.
    repeat case_decide; subst; try done; [naive_solver|apply (ok_hash r Hok)].
  - intros h. change (NoDup (bucket (r_by_hash (rekey r id a)) h)).
    assert (∀ h, NoDup (bucket (r_by_hash r) h)) as Hnd by apply (ok_hash_nodup r Hok).
    pose proof (ok_hash r Hok) as Hh. change (by_hash r) with (bucket (r_by_hash r)) in *.
    unfold rekey. destruct (r_by_id r !! id) as [old|] eqn:E; simpl; rewrite bucket_push;
      case_decide; subst; rewrite ?bucket_remove; try case_decide; auto using NoDup_filter;
      apply NoDup_app; (split; [auto using NoDup_filter|split; [|apply NoDup_singleton]]);
      intros x Hx ->%list_elem_of_singleton; rewrite ?list_elem_of_filter, ?Hh in Hx;
      naive_solver.
  - unfold rekey. destruct (r_by_id r !! id); simpl;
      apply push_nonempty; [apply remove_nonempty|]; apply (ok_hash_nonempty r Hok).
Qed.

(** The common step of [retire] and [set_status]: facts that index nothing
    change, and the path index may lose entries. *)
Lemma update_ok r id a a' bp :
  registry_ok r → r_by_id r !! id = Some a →
  a_id a' = a_id a → a_qualified_path a' = a_qualified_path a →
  a_content_hash a' = a_content_hash a →
  (∀ p i, bp !! p = Some i → r_by_path r !! p = Some i) →
  registry_ok (mkRegistry (<[ id := a' ]> (r_by_id r)) bp (r_by_hash r)).
Proof.
  intros Hok Ha Hid Hp Hh Hbp. split; simpl.
  - intros i b. rewrite lookup_insert. case_decide; intros; simplify_eq.
    + rewrite Hid. by apply (ok_ids r Hok).
    + by apply (ok_ids r Hok).
  - intros p i (b & Hb & Hbp')%Hbp%(ok_path r Hok). rewrite lookup_insert.
    case_decide; simplify_eq; [|eauto]. exists a'. naive_solver.
  - intros h i. change (i ∈ by_hash r h ↔ ∃ b, <[id:=a']> (r_by_id r) !! i = Some b ∧
      a_content_hash b = h). rewrite (ok_hash r Hok), lookup_insert.
    case_decide; subst; [|done]. rewrite Ha. naive_solver.
  - apply (ok_hash_nodup r Hok).
  - apply (ok_hash_nonempty r Hok).
Qed.

Lemma insert_ok r a : registry_ok r → registry_ok (insert r a).
Proof. intros. by apply rekey_ok. Qed.

Lemma rebind_ok r id p h rev : registry_ok r → registry_ok (rebind r id p h rev).
Proof.
  intros Hok. destruct (r_by_id r !! id) as [a|] eqn:E.
  - erewrite rebind_rekey by done. apply rekey_ok; [done|]. simpl. by apply (ok_ids r Hok).
  - unfold rebind. by rewrite E.
Qed.

Lemma retire_ok r id rev : registry_ok r → registry_ok (retire r id rev).
Proof.
  intros Hok. unfold retire. destruct (r_by_id r !! id) as [a|] eqn:E; [|done].
  case_bool_decide; [done|]. eapply update_ok; eauto.
  by intros p i [_ ?]%lookup_delete_Some.
Qed.

Lemma set_status_ok r id st : registry_ok r → registry_ok (set_status r id st).
Proof.
  intros Hok. unfold set_status. destruct (r_by_id r !! id) as [a|] eqn:E; [|done].
  by eapply update_ok.
Qed.

Lemma empty_ok : registry_ok empty_registry.
Proof.
  split; simpl; try done.
  - intros h id. change (by_hash empty_registry h) with (@nil string).
    split; [by intros ?%not_elem_of_nil|naive_solver].
  - intros h. apply NoDup_nil_2.
Qed.

#[export] Hint Resolve insert_ok rebind_ok retire_ok set_status_ok empty_ok : tyo3.
