(* ===== verification/Entity.v ===== *)
(** * Entity extraction ([rust/src/entity.rs])

    The walk over a file's symbols that produces the entities reconciliation
    works on, and what the walk guarantees about their paths.  The parsed
    statements, their canonical rendering and the symbol tree come from the
    analysis engine: they are parameters. *)

From S2P Require Import Prelude Str Paths Content Identity.

(** [ty_ide::SymbolKind] and its conversion. *)
Inductive TySymbolKind :=
| TyModule | TyClass | TyFunction | TyMethod | TyConstructor | TyVariable | TyConstant
| TyField | TyParameter | TyProperty | TyTypeParameter | TyImport.

Definition SymbolKind_from (k : TySymbolKind) : SymbolKind :=
  match k with
  | TyModule => Module_ | TyClass => Class_ | TyFunction => Function_ | TyMethod => Method
  | TyConstructor => Constructor_ | TyVariable => Variable_ | TyConstant => Constant
  | TyField => Field_ | TyParameter => Parameter_ | TyProperty => Property_
  | TyTypeParameter => TypeParameter | TyImport => Import_
  end.

Record SymbolInfo := mkSymbolInfo {
  si_name : string;
  si_kind : TySymbolKind;
  si_deprecated : bool;
  si_full_range : N * N;
  si_name_range : N * N;
}.

(** [HierarchicalSymbols]: what [iter()] and [children(id)] yield. *)
Record HierarchicalSymbols := mkHierarchicalSymbols {
  h_iter : list (nat * SymbolInfo);
  h_children : nat → list (nat * SymbolInfo);
}.

Record HashPolicy := mkHashPolicy {
  ignore_whitespace : bool;
  ignore_trailing_comma : bool;
  include_docstrings : bool;
  include_comments : bool;
}.

Section extract.
Context {Ext : External} {Stmt : Type} (render_stmt : Stmt → HashPolicy → string).

(** The statement at exactly that range, or the source text of the range. *)
Definition entity_normal_form (index : gmap (N * N) Stmt) (full_range : N * N)
    (fallback_source : string) (policy : HashPolicy) : string :=
  match index !! full_range with
  | Some stmt => render_stmt stmt policy
  | None =>
      let len := N.of_nat (String.length fallback_source) in
      let start := N.to_nat (N.min full_range.1 len) in
      let stop := N.to_nat (N.min full_range.2 len) in
      String.substring start (stop - start) fallback_source
  end.

Definition hash_entity (normalised : string) : ContentHash := hash_bytes normalised.

Record EntityWalkCtx := mkEntityWalkCtx {
  w_hierarchical : HierarchicalSymbols;
  w_source : string;
  w_stmt_index : gmap (N * N) Stmt;
  w_file_path : string;
  w_policy : HashPolicy;
}.

Definition make_entity (ctx : EntityWalkCtx) (info : SymbolInfo)
    (parent_qualified parent_dotted : option string) : Entity :=
  mkEntity
    (match parent_qualified with
     | Some p => p +:+ "::" +:+ si_name info
     | None => w_file_path ctx +:+ "::" +:+ si_name info
     end)
    (SymbolKind_from (si_kind info))
    (hash_entity (entity_normal_form (w_stmt_index ctx) (si_full_range info)
                    (w_source ctx) (w_policy ctx)))
    parent_qualified
    (si_name info)
    (w_file_path ctx)
    (si_full_range info)
    (si_name_range info)
    (match parent_dotted with
     | Some p => p +:+ "." +:+ si_name info
     | None => si_name info
     end).

(** The walk; [None] is an exhausted recursion depth. *)
Fixpoint collect_entities_recursive (fuel : nat) (ctx : EntityWalkCtx) (id : nat)
    (info : SymbolInfo) (parent_qualified parent_dotted : option string)
    (acc : list Entity * gset nat) : option (list Entity * gset nat) :=
  match fuel with
  | O => None
  | S fuel =>
      let '(entities, visited) := acc in
      let entity := make_entity ctx info parent_qualified parent_dotted in
      foldl (λ acc child,
        match acc with
        | None => None
        | Some (entities, visited) =>
            if bool_decide (child.1 ∈ visited) then Some (entities, visited)
            else collect_entities_recursive fuel ctx child.1 child.2
                   (Some (e_qualified_path entity)) (Some (e_qualified_name entity))
                   (entities, visited)
        end)
        (Some (entities ++ [entity], {[ id ]} ∪ visited))
        (h_children (w_hierarchical ctx) id)
  end.

(** The loop over the roots of one file. *)
Definition extract_file (fuel : nat) (ctx : EntityWalkCtx) : option (list Entity * gset nat) :=
  foldl (λ acc root,
    match acc with
    | None => None
    | Some (entities, visited) =>
        if bool_decide (root.1 ∈ visited) then Some (entities, visited)
        else collect_entities_recursive fuel ctx root.1 root.2 None None (entities, visited)
    end)
    (Some ([], ∅)) (h_iter (w_hierarchical ctx)).

Definition is_python_source (p : string) : bool :=
  match extension p with Some e => py_extension e | None => false end.

(** The files of [files] the project indexes as Python sources, in path order. *)
Definition source_files (indexed : list string) (files : gset string) : list string :=
  sort_by str_le
    (filter (λ p, p ∈ files ∧ is_python_source p) indexed).

Definition extract_entities_for (fuel : nat) (ctx_of : string → EntityWalkCtx)
    (indexed : list string) (files : gset string) : option (list Entity) :=
  foldl (λ acc file,
    match acc, extract_file fuel (ctx_of file) with
    | Some entities, Some (new, _) => Some (entities ++ new)
    | _, _ => None
    end) (Some []) (source_files indexed files).

Definition extract_entities (fuel : nat) (ctx_of : string → EntityWalkCtx)
    (indexed : list string) : option (list Entity) :=
  extract_entities_for fuel ctx_of indexed
    (list_to_set (filter (λ p, is_python_source p) indexed)).

(** ** The walk terminates and visits every symbol once *)

(** One child or root of the loops above. *)
Definition walk_child (fuel : nat) (ctx : EntityWalkCtx) (pq pd : option string)
    (acc : option (list Entity * gset nat)) (child : nat * SymbolInfo) :
    option (list Entity * gset nat) :=
  match acc with
  | None => None
  | Some (entities, visited) =>
      if bool_decide (child.1 ∈ visited) then Some (entities, visited)
      else collect_entities_recursive fuel ctx child.1 child.2 pq pd (entities, visited)
  end.

(** A step of the walk from [acc]: symbols are added, one entity each; the
    children of the added symbols are visited too. *)
Record walked (ctx : EntityWalkCtx) (u : gset nat) (P : Entity → Prop)
    (acc acc' : list Entity * gset nat) : Prop := {
  wk_sub : acc.2 ⊆ acc'.2;
  wk_universe : acc'.2 ⊆ u;
  wk_closed : ∀ x c, x ∈ acc'.2 ∖ acc.2 → c ∈ h_children (w_hierarchical ctx) x → c.1 ∈ acc'.2;
  wk_new : ∃ new, acc'.1 = acc.1 ++ new ∧ length new = size (acc'.2 ∖ acc.2) ∧ Forall P new;
}.

Section walk.
Context (ctx : EntityWalkCtx) (u : gset nat) (P : Entity → Prop).
Context (Hu : ∀ x c, x ∈ u → c ∈ h_children (w_hierarchical ctx) x → c.1 ∈ u).

Lemma walked_refl acc : acc.2 ⊆ u → walked ctx u P acc acc.
Proof.
  intros. split; [done|done|set_solver|]. exists [].
  by rewrite app_nil_r, difference_diag_L, size_empty.
Qed.

Lemma walked_trans a b c : walked ctx u P a b → walked ctx u P b c → walked ctx u P a c.
Proof.
  intros [Hs1 _ Hc1 (n1 & Hn1 & Hl1 & HP1)] [Hs2 Hu2 Hc2 (n2 & Hn2 & Hl2 & HP2)].
  split; [set_solver|done| |].
  - intros x ch Hx Hch. destruct (decide (x ∈ b.2)); [|apply (Hc2 x); set_solver].
    apply Hs2, (Hc1 x); set_solver.
  - exists (n1 ++ n2). rewrite Hn2, Hn1, app_assoc, length_app, Hl1, Hl2.
    split; [done|]. split; [|by apply Forall_app].
    rewrite <- size_union by set_solver. f_equal. apply set_eq. intros x.
    destruct (decide (x ∈ b.2)); set_solver.
Qed.

(** A loop over symbols, each of whose unvisited ones can be walked. *)
Lemma walk_loop fuel pq pd l acc :
  acc.2 ⊆ u → (∀ c, c ∈ l → c.1 ∈ u) →
  (∀ c acc', c ∈ l → acc.2 ⊆ acc'.2 → acc'.2 ⊆ u → c.1 ∉ acc'.2 →
     ∃ r, collect_entities_recursive fuel ctx c.1 c.2 pq pd acc' = Some r ∧
       walked ctx u P acc' r ∧ c.1 ∈ r.2) →
  ∃ r, foldl (walk_child fuel ctx pq pd) (Some acc) l = Some r ∧ walked ctx u P acc r ∧
    ∀ c, c ∈ l → c.1 ∈ r.2.
Proof.
  revert acc. induction l as [|c l IH]; intros acc Hacc Hl Hstep.
  { exists acc. split; [done|]. split; [by apply walked_refl|]. set_solver. }
  assert (∃ r, walk_child fuel ctx pq pd (Some acc) c = Some r ∧ walked ctx u P acc r ∧ c.1 ∈ r.2)
    as (r & Hr & Hw & Hc).
  { destruct acc as [es vis]. unfold walk_child. case_bool_decide.
    - eexists. split; [done|]. split; [by apply walked_refl|done].
    - apply Hstep; simpl; set_solver. }
  cbn [foldl]. rewrite Hr. destruct (IH r) as (r' & Hr' & Hw' & Hall).
  - apply (wk_universe _ _ _ _ _ Hw).
  - set_solver.
  - intros c' acc' Hc' Hsub. apply Hstep; [by right|]. etrans; [apply Hw|done].
  - exists r'. split; [done|]. split; [by eapply walked_trans|].
    intros c' [->|Hc']%elem_of_cons; [by apply (wk_sub _ _ _ _ _ Hw')|by apply Hall].
Qed.
End walk.

(** The paths the walk builds: [container::name], or [file::name] at the top,
    where a container is itself a path of the file. *)
Definition entity_wf (file : string) (e : Entity) : Prop :=
  e_file e = file ∧
  e_qualified_path e = default file (e_container e) +:+ "::" +:+ e_name e ∧
  ∀ c, e_container e = Some c → ∃ rest, c = file +:+ "::" +:+ rest.

Lemma entity_wf_path file e : entity_wf file e → ∃ rest, e_qualified_path e = file +:+ "::" +:+ rest.
Proof.
  intros (_ & -> & Hc). destruct (e_container e) as [c|]; simpl; [|eauto].
  destruct (Hc c eq_refl) as [rest ->]. exists (rest +:+ "::" +:+ e_name e).
  by rewrite !str_app_assoc.
Qed.

Lemma make_entity_wf ctx info pq pd :
  (∀ c, pq = Some c → ∃ rest, c = w_file_path ctx +:+ "::" +:+ rest) →
  entity_wf (w_file_path ctx) (make_entity ctx info pq pd).
Proof. intros Hpq. split; [done|]. split; [by destruct pq|done]. Qed.

Lemma collect_entities_walked ctx u fuel id info pq pd acc :
  (∀ x c, x ∈ u → c ∈ h_children (w_hierarchical ctx) x → c.1 ∈ u) →
  (∀ c, pq = Some c → ∃ rest, c = w_file_path ctx +:+ "::" +:+ rest) →
  acc.2 ⊆ u → id ∈ u → id ∉ acc.2 → size (u ∖ acc.2) ≤ fuel →
  ∃ r, collect_entities_recursive fuel ctx id info pq pd acc = Some r ∧
    walked ctx u (entity_wf (w_file_path ctx)) acc r ∧ id ∈ r.2.
Proof.
  intros Hu. revert id info pq pd acc.
  induction fuel as [|fuel IH]; intros id info pq pd [es vis] Hpq Hvis Hid Hnew Hfuel; simpl in *.
  { exfalso. apply Nat.le_0_r, size_empty_inv in Hfuel. set_solver. }
  set (e := make_entity ctx info pq pd).
  pose proof (make_entity_wf ctx info pq pd Hpq) as Hwf.
  change (λ acc child, _) with
    (walk_child fuel ctx (Some (e_qualified_path e)) (Some (e_qualified_name e))).
  destruct (walk_loop ctx u (entity_wf (w_file_path ctx)) Hu fuel (Some (e_qualified_path e))
    (Some (e_qualified_name e)) (h_children (w_hierarchical ctx) id) (es ++ [e], {[id]} ∪ vis))
    as (r & Hr & Hw & Hall); simpl.
  - set_solver.
  - intros c Hc. by eapply Hu.
  - intros c acc' Hc Hsub Hsubu Hcn. apply IH; [|done|by eapply Hu|done|].
    + intros c' Heq. injection Heq as <-. exact (entity_wf_path _ _ Hwf).
    + assert (u ∖ acc'.2 ⊂ u ∖ vis) as Hlt%subset_size by set_solver. lia.
  - exists r. split; [done|]. destruct Hw as [Hs Huni Hcl (new & Hn & Hl & HP)]. simpl in *.
    split; [|set_solver]. split; simpl; [set_solver|done| |].
    + intros x c Hx Hc. destruct (decide (x = id)) as [->|]; [by apply Hall|].
      apply (Hcl x); set_solver.
    + exists (e :: new). rewrite Hn, <- app_assoc. split; [done|]. split; [|by constructor].
      assert (r.2 ∖ vis = {[id]} ∪ r.2 ∖ ({[id]} ∪ vis)) as ->.
      { apply set_eq. intros x. destruct (decide (x = id)); set_solver. }
      rewrite size_union by set_solver. rewrite size_singleton. simpl. by rewrite Hl.
Qed.

(** With recursion depth at least the number of symbols, the walk of a
    file returns; it visits the roots and whatever they contain, makes one
    entity for each visited symbol, and each entity's path is its container's
    path, or the file, followed by its name. *)
Theorem extract_file_complete ctx (u : gset nat) fuel :
  (∀ c, c ∈ h_iter (w_hierarchical ctx) → c.1 ∈ u) →
  (∀ x c, x ∈ u → c ∈ h_children (w_hierarchical ctx) x → c.1 ∈ u) →
  size u ≤ fuel →
  ∃ es visited, extract_file fuel ctx = Some (es, visited) ∧
    (∀ c, c ∈ h_iter (w_hierarchical ctx) → c.1 ∈ visited) ∧
    (∀ x c, x ∈ visited → c ∈ h_children (w_hierarchical ctx) x → c.1 ∈ visited) ∧
    length es = size visited ∧ Forall (entity_wf (w_file_path ctx)) es.
Proof.
  intros Hroots Hu Hfuel. unfold extract_file.
  change (λ acc root, _) with (walk_child fuel ctx None None).
  destruct (walk_loop ctx u (entity_wf (w_file_path ctx)) Hu fuel None None
    (h_iter (w_hierarchical ctx)) ([], ∅)) as ([es vis] & Hr & [_ _ Hcl (new & Hn & Hl & HP)] & Hall);
    simpl in *.
  - set_solver.
  - done.
  - intros c acc' Hc _ Hsub Hnew. apply collect_entities_walked; auto; [done|].
    etrans; [|exact Hfuel]. apply subseteq_size. set_solver.
  - exists es, vis. rewrite difference_empty_L in *. subst. auto.
Qed.
End extract.

(** The file a well-formed entity's path leads back to. *)
Lemma entity_wf_file file e :
  no_colon file → entity_wf file e → anchor_file (e_qualified_path e) = Some file.
Proof.
  intros Hf [rest Hp]%entity_wf_path. unfold anchor_file. by rewrite Hp, split_once_path.
Qed.

(** Witness: a class with a method, and a function, in [m.py]. *)
Definition symbols0 : HierarchicalSymbols :=
  mkHierarchicalSymbols
    [(0, mkSymbolInfo "C" TyClass false (0, 30)%N (6, 7)%N); (2, mkSymbolInfo "f" TyFunction false (31, 50)%N (35, 36)%N)]
    (λ id, if decide (id = 0) then [(1, mkSymbolInfo "m" TyMethod false (10, 30)%N (14, 15)%N)] else []).

Definition walk0 : EntityWalkCtx (Stmt:=unit) :=
  mkEntityWalkCtx symbols0 "" ∅ "m.py" (mkHashPolicy true true false false).

Lemma extract_file_complete_witness :
  ∃ es visited,
    extract_file (Ext:=external0) (λ _ _, "") 3 walk0 = Some (es, visited) ∧
    (e_qualified_path <$> es) = ["m.py::C"; "m.py::C::m"; "m.py::f"] ∧
    length es = size visited.
Proof.
  destruct (extract_file_complete (Ext:=external0) (λ _ _, "") walk0 {[0; 1; 2]} 3)
    as (es & vis & Hrun & _ & _ & Hlen & _).
  - simpl. intros c. set_solver.
  - simpl. intros x c _. case_decide; set_solver.
  - reflexivity.
  - exists es, vis. split; [exact Hrun|]. split; [|exact Hlen].
    vm_compute in Hrun. injection Hrun as <- _. reflexivity.
Defined.
