(* ===== verification/Ast.v ===== *)
(** * Syntax trees, as the source-order traversal visits them

    Two parts of the crate walk a parsed file with ruff's [SourceOrderVisitor]:
    the canonical renderer behind content hashes ([rust/src/hash.rs]) and the
    collector of name occurrences ([rust/src/convert/occurrences.rs]).  The
    parser and the traversal are ruff's.  A tree here is what the traversal
    gives a visitor: one constructor per visitor method, with the data the
    visitors of the crate read, and below it the calls made in source order. *)

From S2P Require Import Prelude Str.

Record Identifier := mkIdentifier {
  id_text : string;
  id_range : N * N;
}.

(** [name as asname] *)
Record Alias := mkAlias {
  alias_name : Identifier;
  alias_asname : option Identifier;
}.

Inductive ExprContext := LoadCtx | StoreCtx | DelCtx | InvalidCtx.

#[global] Instance ExprContext_eq_dec : EqDecision ExprContext.
Proof. solve_decision. Defined.

Inductive StmtData :=
| FunctionDef (name : Identifier) (is_async : bool)
| ClassDef (name : Identifier)
| ImportFrom (names : list Alias)
| ImportStmt (names : list Alias)
| For (is_async : bool)
| With (is_async : bool)
| ExprStmt
| OtherStmt.

(** Operators and numbers come as their [Debug] text. *)
Inductive ExprData :=
| Name (id : string) (ctx : ExprContext)
| Attribute (attr : Identifier) (ctx : ExprContext)
| BinOp (op : string)
| BoolOp (op : string)
| UnaryOp (op : string)
| Compare (ops : list string)
| NumberLiteral (value : string)
| BooleanLiteral (value : bool)
| StringLiteralExpr
| OtherExpr.

(** [kind] is the [Debug] text of the node's kind, which [walk_*] gives to
    [enter_node] before it visits the children.  [AOther] is a node of a kind
    whose method no visitor of the crate overrides; [AOperator] a call of
    [visit_operator] and the like, which enters no node. *)
#[local] Unset Elimination Schemes.
Inductive Ast :=
| AStmt (kind : string) (range : N * N) (data : StmtData) (children : list Ast)
| AExpr (kind : string) (range : N * N) (data : ExprData) (children : list Ast)
| ABody (stmts : list Ast)
| AStringLiteral (kind : string) (value : string)
| ABytesLiteral (kind : string) (value : string)
| AInterpolated (kind : string) (literal : option string) (children : list Ast)
| AIdentifier (identifier : Identifier)
| AOperator (op : string)
| AOther (kind : string) (children : list Ast).
#[local] Set Elimination Schemes.

(** The calls a node makes. *)
Definition children_of_node (t : Ast) : list Ast :=
  match t with
  | AStmt _ _ _ cs | AExpr _ _ _ cs | ABody cs | AInterpolated _ _ cs | AOther _ cs => cs
  | AStringLiteral _ _ | ABytesLiteral _ _ | AIdentifier _ | AOperator _ => []
  end.

(** Induction on the tree: the property of a node from that of its children. *)
Section ast_ind.
Context (P : Ast → Prop) (Hnode : ∀ t, Forall P (children_of_node t) → P t).

Fixpoint Ast_ind (t : Ast) : P t :=
  let all := fix all (cs : list Ast) : Forall P cs :=
    match cs with
    | [] => Forall_nil_2 P
    | c :: cs => Forall_cons_2 P c cs (Ast_ind c) (all cs)
    end in
  Hnode t
    match t return Forall P (children_of_node t) with
    | AStmt _ _ _ cs | AExpr _ _ _ cs | ABody cs | AInterpolated _ _ cs | AOther _ cs => all cs
    | AStringLiteral _ _ | ABytesLiteral _ _ | AIdentifier _ | AOperator _ => Forall_nil_2 P
    end.
End ast_ind.

(** Is the node a string-literal expression, or a statement that is one? *)
Definition is_string_expr (t : Ast) : bool :=
  match t with AExpr _ _ StringLiteralExpr _ => true | _ => false end.

(** [is_docstring_stmt] of [hash.rs]. *)
Definition is_docstring_stmt (t : Ast) : bool :=
  match t with
  | AStmt _ _ ExprStmt [e] => is_string_expr e
  | _ => false
  end.

(** ** Contexts

    A tree with a hole, as the nodes from the root down to it. *)

Inductive Frame :=
| FStmt (kind : string) (range : N * N) (data : StmtData) (before after : list Ast)
| FExpr (kind : string) (range : N * N) (data : ExprData) (before after : list Ast)
| FBody (before after : list Ast)
| FInterpolated (kind : string) (literal : option string) (before after : list Ast)
| FOther (kind : string) (before after : list Ast).

Definition fill_frame (F : Frame) (t : Ast) : Ast :=
  match F with
  | FStmt k rg d l r => AStmt k rg d (l ++ t :: r)
  | FExpr k rg d l r => AExpr k rg d (l ++ t :: r)
  | FBody l r => ABody (l ++ t :: r)
  | FInterpolated k lit l r => AInterpolated k lit (l ++ t :: r)
  | FOther k l r => AOther k (l ++ t :: r)
  end.

Definition fill (C : list Frame) (t : Ast) : Ast := foldr fill_frame t C.

(** Two trees a context cannot tell apart by looking for docstrings. *)
Definition same_head (t t' : Ast) : Prop :=
  is_string_expr t = is_string_expr t' ∧ is_docstring_stmt t = is_docstring_stmt t'.

Lemma fill_frame_same_head F t t' : same_head t t' → same_head (fill_frame F t) (fill_frame F t').
Proof.
  intros [He _]. destruct F as [k rg d l r|k rg d l r|l r|k lit l r|k l r]; split; try done.
  simpl. destruct d; try done. destruct l as [|x [|y l]], r as [|z r]; done.
Qed.

Lemma fill_same_head C t t' : same_head t t' → same_head (fill C t) (fill C t').
Proof. intros H. induction C as [|F C IH]; [done|]. by apply fill_frame_same_head. Qed.

(** ** Statements of a tree *)

(** Every statement with its range, in source order. *)
Fixpoint statements (t : Ast) : list ((N * N) * Ast) :=
  match t with
  | AStmt _ rg _ cs => (rg, t) :: (cs ≫= statements)
  | AExpr _ _ _ cs | ABody cs | AInterpolated _ _ cs | AOther _ cs => cs ≫= statements
  | AStringLiteral _ _ | ABytesLiteral _ _ | AIdentifier _ | AOperator _ => []
  end.

Lemma statements_fill C t x : x ∈ statements t → x ∈ statements (fill C t).
Proof.
  intros Hx. induction C as [|F C IH]; [done|]. cbn [fill foldr]. fold (fill C t).
  destruct F; cbn [fill_frame statements]; rewrite ?elem_of_cons, bind_app, bind_cons; set_solver.
Qed.
