(* ===== verification/Hash.v ===== *)
(** * Canonical rendering ([rust/src/hash.rs])

    The content hash of an entity is the hash of a rendering of its statement.
    The renderer, the index of statements by range, and what a hash tells about
    the code: formatting and docstrings do not change it, every edit of a leaf
    does, and so does every edit of a member of a class. *)

From Stdlib Require Import Ascii NArith.
From S2P Require Import Prelude Str Paths Content Identity Entity Ast.

(** ** The renderer *)

Definition SEP : string := String (ascii_of_N 31) "".

Record CanonicalRenderer := mkRenderer {
  out : string;
  pending_doc_scope : bool;
}.

Definition renderer_new : CanonicalRenderer := mkRenderer "" false.

Definition tok (s : string) (r : CanonicalRenderer) : CanonicalRenderer :=
  mkRenderer (out r +:+ (s +:+ SEP)) (pending_doc_scope r).

(** [tok_dbg] of a value whose [Debug] text is [s]. *)
Definition tok_dbg (s : string) (r : CanonicalRenderer) : CanonicalRenderer := tok s r.

Definition set_pending (b : bool) (r : CanonicalRenderer) : CanonicalRenderer := mkRenderer (out r) b.

Definition is_def (d : StmtData) : bool :=
  match d with FunctionDef _ _ | ClassDef _ => true | _ => false end.

Definition stmt_is_async (d : StmtData) : bool :=
  match d with FunctionDef _ a | For a | With a => a | _ => false end.

(** What [visit_stmt] does before the walk. *)
Definition open_stmt (d : StmtData) (r : CanonicalRenderer) : CanonicalRenderer :=
  let r := if is_def d then set_pending true r else r in
  if stmt_is_async d then tok "async" r else r.

(** What [visit_expr] emits before the walk. *)
Definition expr_leaves (d : ExprData) (r : CanonicalRenderer) : CanonicalRenderer :=
  match d with
  | Name id _ => tok id r
  | BinOp op | BoolOp op | UnaryOp op => tok_dbg op r
  | Compare ops => foldl (λ r op, tok_dbg op r) r ops
  | NumberLiteral v => tok_dbg v r
  | BooleanLiteral v => tok (if v then "True" else "False") r
  | Attribute _ _ | StringLiteralExpr | OtherExpr => r
  end.

Definition interpolated_leaf (literal : option string) (r : CanonicalRenderer) : CanonicalRenderer :=
  match literal with
  | Some value => tok value (tok "fstr" r)
  | None => r
  end.

(** Does [visit_body] skip the first statement? *)
Definition skip_first (p : HashPolicy) (doc_scope : bool) (stmts : list Ast) : bool :=
  doc_scope && negb (include_docstrings p) &&
  match stmts with s :: _ => is_docstring_stmt s | [] => false end.

(** The visitor.  [walk_*] enters the node, which emits its kind, and visits
    the children; an identifier and an operator enter no node here. *)
Fixpoint visit (p : HashPolicy) (t : Ast) (r : CanonicalRenderer) {struct t} : CanonicalRenderer :=
  match t with
  | AStmt kind _ d cs => foldl (λ r c, visit p c r) (tok_dbg kind (open_stmt d r)) cs
  | AExpr kind _ d cs => foldl (λ r c, visit p c r) (tok_dbg kind (expr_leaves d r)) cs
  | ABody stmts =>
      let doc_scope := pending_doc_scope r in
      let r := set_pending false r in
      let skip := skip_first p doc_scope stmts in
      let r := tok "{" r in
      let r :=
        match stmts with
        | [] => r
        | s :: rest =>
            if skip then foldl (λ r c, visit p c r) r rest
            else foldl (λ r c, visit p c r) (visit p s r) rest
        end in
      tok "}" r
  | AStringLiteral kind value => tok_dbg kind (tok value (tok "str" r))
  | ABytesLiteral kind value => tok_dbg kind (tok_dbg value (tok "bytes" r))
  | AInterpolated kind literal cs =>
      foldl (λ r c, visit p c r) (tok_dbg kind (interpolated_leaf literal r)) cs
  | AIdentifier i => tok (id_text i) r
  | AOperator _ => r
  | AOther kind cs => foldl (λ r c, visit p c r) (tok_dbg kind r) cs
  end.

Definition render_stmt (stmt : Ast) (policy : HashPolicy) : string := out (visit policy stmt renderer_new).

(** ** The index of statements *)

(** [StmtIndexer]: a later statement of the same range replaces an earlier one. *)
Fixpoint index_stmt (m : gmap (N * N) Ast) (t : Ast) {struct t} : gmap (N * N) Ast :=
  match t with
  | AStmt _ rg _ cs => foldl index_stmt (<[ rg := t ]> m) cs
  | AExpr _ _ _ cs | ABody cs | AInterpolated _ _ cs | AOther _ cs => foldl index_stmt m cs
  | AStringLiteral _ _ | ABytesLiteral _ _ | AIdentifier _ | AOperator _ => m
  end.

Definition index_statements (body : list Ast) : gmap (N * N) Ast := foldl index_stmt ∅ body.

Lemma index_stmt_spec t m :
  index_stmt m t = foldl (λ m x, <[ x.1 := x.2 ]> m) m (statements t).
Proof.
  revert m. induction t as [t IH] using Ast_ind. intros m.
  assert (∀ m, foldl index_stmt m (children_of_node t) =
    foldl (λ m x, <[ x.1 := x.2 ]> m) m (children_of_node t ≫= statements)) as Hcs.
  { clear m. induction IH as [|c cs Hc _ IHcs]; intros m; [done|]. rewrite bind_cons, foldl_app. cbn [foldl].
    by rewrite Hc. }
  destruct t; try done; cbn [index_stmt statements children_of_node foldl] in *; by rewrite Hcs.
Qed.

Lemma foldl_insert_nodup {V} (l : list ((N * N) * V)) (m : gmap (N * N) V) k v :
  NoDup l.*1 → (k, v) ∈ l → foldl (λ m x, <[ x.1 := x.2 ]> m) m l !! k = Some v.
Proof.
  revert m. induction l as [|[k' v'] l IH]; intros m; [by intros _ ?%not_elem_of_nil|].
  rewrite fmap_cons, NoDup_cons. intros [Hk Hnd] [[= <- <-]|Hin]%elem_of_cons; cbn [foldl]; [|by apply IH].
  assert (∀ m : gmap (N * N) V, k ∉ l.*1 → foldl (λ m x, <[ x.1 := x.2 ]> m) m l !! k = m !! k) as H.
  { clear. induction l as [|[k' v'] l IH]; intros m Hk; [done|]. cbn [foldl].
    rewrite fmap_cons, not_elem_of_cons in Hk. destruct Hk as [Hne Hk]. rewrite IH by done.
    by rewrite lookup_insert_ne. }
  rewrite H by done. by rewrite lookup_insert_eq.
Qed.

(** Every statement of a file, however deep, is found under its range. *)
Lemma index_statements_complete body rg s :
  NoDup (body ≫= statements).*1 → (rg, s) ∈ body ≫= statements → index_statements body !! rg = Some s.
Proof.
  intros Hnd Hin. unfold index_statements.
  assert (∀ m, foldl index_stmt m body = foldl (λ m x, <[ x.1 := x.2 ]> m) m (body ≫= statements)) as ->;
    [|by apply foldl_insert_nodup].
  clear Hnd Hin. induction body as [|t body IH]; intros m; [done|]. rewrite bind_cons, foldl_app. cbn [foldl].
  by rewrite index_stmt_spec.
Qed.

(** ** Rendering appends *)

(** A step of the renderer appends to the output, and what it appends depends
    only on the pending flag. *)
Definition additive (f : CanonicalRenderer → CanonicalRenderer) : Prop :=
  ∀ o b, f (mkRenderer o b) =
    mkRenderer (o +:+ out (f (mkRenderer "" b))) (pending_doc_scope (f (mkRenderer "" b))).

Lemma additive_id : additive (λ r, r).
Proof. intros o b. simpl. by rewrite str_app_nil_r. Qed.

Lemma additive_compose f g : additive f → additive g → additive (λ r, g (f r)).
Proof.
  intros Hf Hg o b. rewrite (Hf o b). destruct (f (mkRenderer "" b)) as [o' b']. simpl.
  rewrite (Hg (o +:+ o') b'), (Hg o' b'). simpl. by rewrite str_app_assoc.
Qed.

Lemma additive_tok s : additive (tok s).
Proof. intros o b. done. Qed.

Lemma additive_set b : additive (set_pending b).
Proof. intros o b'. simpl. by rewrite str_app_nil_r. Qed.

Lemma additive_if (c : bool) f g : additive f → additive g → additive (λ r, if c then f r else g r).
Proof. by destruct c. Qed.

Lemma additive_foldl {A} (f : A → CanonicalRenderer → CanonicalRenderer) (l : list A) :
  Forall (λ x, additive (f x)) l → additive (λ r, foldl (λ r x, f x r) r l).
Proof.
  induction 1 as [|x l Hx _ IH]; [apply additive_id|]. cbn [foldl].
  exact (additive_compose (f x) (λ r, foldl (λ r x, f x r) r l) Hx IH).
Qed.

#[local] Hint Resolve additive_id additive_tok additive_set additive_if : additive.

Lemma additive_open d : additive (open_stmt d).
Proof.
  unfold open_stmt. apply (additive_compose (λ r, if is_def d then set_pending true r else r)
    (λ r, if stmt_is_async d then tok "async" r else r)); auto with additive.
Qed.

Lemma additive_leaves d : additive (expr_leaves d).
Proof.
  destruct d; simpl; auto with additive; try apply additive_tok.
  apply (additive_foldl tok). apply Forall_forall. intros x _. apply additive_tok.
Qed.

Lemma additive_interpolated lit : additive (interpolated_leaf lit).
Proof. destruct lit; simpl; auto with additive. apply (additive_compose (tok "fstr")); auto with additive. Qed.

(** The children of a node, one after the other. *)
Definition visit_all (p : HashPolicy) (cs : list Ast) (r : CanonicalRenderer) : CanonicalRenderer :=
  foldl (λ r c, visit p c r) r cs.

(** The statements of a body that are visited. *)
Definition visited_stmts (p : HashPolicy) (doc_scope : bool) (stmts : list Ast) : list Ast :=
  if skip_first p doc_scope stmts then tail stmts else stmts.

Lemma visit_body p stmts r :
  visit p (ABody stmts) r =
    tok "}" (visit_all p (visited_stmts p (pending_doc_scope r) stmts) (tok "{" (set_pending false r))).
Proof.
  cbn [visit]. unfold visited_stmts. destruct stmts as [|s rest]; [by destruct (skip_first _ _ _)|].
  by destruct (skip_first _ _ _).
Qed.

Lemma visit_all_app p l l' r : visit_all p (l ++ l') r = visit_all p l' (visit_all p l r).
Proof. apply foldl_app. Qed.

Lemma visit_all_snoc p l t r : visit_all p (l ++ [t]) r = visit p t (visit_all p l r).
Proof. apply visit_all_app. Qed.

Section additive.
Context (p : HashPolicy).

Lemma additive_visit_all cs : Forall (λ c, additive (visit p c)) cs → additive (visit_all p cs).
Proof. apply (additive_foldl (visit p)). Qed.

Lemma additive_body b stmts :
  Forall (λ c, additive (visit p c)) stmts →
  additive (λ r, tok "}" (visit_all p (visited_stmts p b stmts) (tok "{" (set_pending false r)))).
Proof.
  intros H. apply (additive_compose (λ r, visit_all p (visited_stmts p b stmts) (tok "{" (set_pending false r)))),
    additive_tok.
  apply (additive_compose (λ r, tok "{" (set_pending false r))); [done|].
  apply additive_visit_all. unfold visited_stmts. destruct (skip_first _ _ _); [|done]. by apply Forall_tail.
Qed.

Lemma additive_visit t : additive (visit p t).
Proof.
  induction t as [t IH] using Ast_ind. apply additive_visit_all in IH as Hcs.
  destruct t as [k rg d cs|k rg d cs|stmts|k v|k v|k lit cs|i|op|k cs]; cbn [children_of_node] in *.
  - apply (additive_compose (λ r, tok_dbg k (open_stmt d r)) (visit_all p cs)); [|done].
    apply (additive_compose (open_stmt d)); [apply additive_open|apply additive_tok].
  - apply (additive_compose (λ r, tok_dbg k (expr_leaves d r)) (visit_all p cs)); [|done].
    apply (additive_compose (expr_leaves d)); [apply additive_leaves|apply additive_tok].
  - intros o b. rewrite !visit_body. simpl. exact (additive_body b stmts IH o b).
  - apply (additive_compose (λ r, tok v (tok "str" r))); [|apply additive_tok].
    apply (additive_compose (tok "str")); apply additive_tok.
  - apply (additive_compose (λ r, tok v (tok "bytes" r))); [|apply additive_tok].
    apply (additive_compose (tok "bytes")); apply additive_tok.
  - apply (additive_compose (λ r, tok_dbg k (interpolated_leaf lit r)) (visit_all p cs)); [|done].
    apply (additive_compose (interpolated_leaf lit)); [apply additive_interpolated|apply additive_tok].
  - apply additive_tok.
  - apply additive_id.
  - apply (additive_compose (tok_dbg k) (visit_all p cs)); [apply additive_tok|done].
Qed.

Lemma additive_all cs : additive (visit_all p cs).
Proof. apply additive_visit_all, Forall_forall. intros c _. apply additive_visit. Qed.

(** ** Contexts *)

Definition frame_pre (F : Frame) (r : CanonicalRenderer) : CanonicalRenderer :=
  match F with
  | FStmt k _ d l _ => visit_all p l (tok_dbg k (open_stmt d r))
  | FExpr k _ d l _ => visit_all p l (tok_dbg k (expr_leaves d r))
  | FBody l _ => visit_all p (visited_stmts p (pending_doc_scope r) l) (tok "{" (set_pending false r))
  | FInterpolated k lit l _ => visit_all p l (tok_dbg k (interpolated_leaf lit r))
  | FOther k l _ => visit_all p l (tok_dbg k r)
  end.

Definition frame_post (F : Frame) (r : CanonicalRenderer) : CanonicalRenderer :=
  match F with
  | FStmt _ _ _ _ cs | FExpr _ _ _ _ cs | FInterpolated _ _ _ cs | FOther _ _ cs => visit_all p cs r
  | FBody _ cs => tok "}" (visit_all p cs r)
  end.

(** The hole is not in a docstring the policy leaves out: the first statement of
    the body of a class or function, when it is a bare string.  [owned] says whether
    the node is the child of a definition, so that a body there is its body. *)
Definition frame_visible (owned : bool) (F : Frame) (t : Ast) : bool :=
  match F with
  | FBody [] _ => negb owned || include_docstrings p || negb (is_docstring_stmt t)
  | _ => true
  end.

Definition owns (F : Frame) : bool :=
  match F with FStmt _ _ d _ _ => is_def d | _ => false end.

Fixpoint visible (owned : bool) (C : list Frame) (t : Ast) : bool :=
  match C with
  | [] => true
  | F :: C => frame_visible owned F (fill C t) && visible (owns F) C t
  end.

(** Is the node a body? *)
Definition is_body (t : Ast) : bool := match t with ABody _ => true | _ => false end.

Lemma visit_frame owned F t r :
  (is_body (fill_frame F t) → pending_doc_scope r = owned) → frame_visible owned F t →
  visit p (fill_frame F t) r = frame_post F (visit p t (frame_pre F r)).
Proof.
  destruct F as [k rg d l cs|k rg d l cs|l cs|k lit l cs|k l cs]; intros Hr Hv; cbn [fill_frame frame_pre frame_post].
  3: { rewrite visit_body, Hr by done. f_equal. set (r0 := tok "{" _).
       assert (visited_stmts p owned (l ++ t :: cs) = visited_stmts p owned l ++ t :: cs) as ->;
         [|by rewrite visit_all_app].
       unfold visited_stmts, skip_first. destruct l as [|x l]; simpl in *.
       - destruct owned, (include_docstrings p), (is_docstring_stmt t); done.
       - by destruct (_ && _). }
  all: cbn [visit]; fold (visit_all p (l ++ t :: cs)); change (foldl _ ?r0 (l ++ t :: cs)) with (visit_all p (l ++ t :: cs) r0);
    by rewrite visit_all_app.
Qed.

Lemma additive_post F : additive (frame_post F).
Proof.
  destruct F; cbn [frame_post]; try apply additive_all.
  apply (additive_compose (visit_all p after)); [apply additive_all|apply additive_tok].
Qed.
End additive.

(** ** Edits that change the rendering *)

Lemma str_app_inj_l (a b c : string) : a +:+ b = a +:+ c → b = c.
Proof.
  induction a as [|x a IH]; [done|].
  change (String x (a +:+ b) = String x (a +:+ c) → b = c). intros [= H]. by apply IH.
Qed.

Lemma str_app_inj_r (a b c : string) : a +:+ c = b +:+ c → a = b.
Proof.
  revert b. induction a as [|x a IH]; intros [|y b]; intros H; [done|..].
  - apply (f_equal String.length) in H. rewrite !str_length_app in H. simpl in H. lia.
  - apply (f_equal String.length) in H. rewrite !str_length_app in H. simpl in H. lia.
  - change (String x (a +:+ c) = String y (b +:+ c)) in H. injection H as -> H. by rewrite (IH b H).
Qed.

(** From the flag [b] the two trees render differently, and leave the flag alike. *)
Definition differs_at (p : HashPolicy) (b : bool) (t t' : Ast) : Prop :=
  let r := visit p t (mkRenderer "" b) in let r' := visit p t' (mkRenderer "" b) in
  out r ≠ out r' ∧ pending_doc_scope r = pending_doc_scope r'.

(** One leaf of the tree replaced by another. *)
Inductive leaf_edit : Ast → Ast → Prop :=
| edit_name k rg x y ctx cs : x ≠ y →
    leaf_edit (AExpr k rg (Name x ctx) cs) (AExpr k rg (Name y ctx) cs)
| edit_identifier rg x y : x ≠ y →
    leaf_edit (AIdentifier (mkIdentifier x rg)) (AIdentifier (mkIdentifier y rg))
| edit_string k x y : x ≠ y → leaf_edit (AStringLiteral k x) (AStringLiteral k y)
| edit_bytes k x y : x ≠ y → leaf_edit (ABytesLiteral k x) (ABytesLiteral k y)
| edit_fstring k x y cs : x ≠ y → leaf_edit (AInterpolated k (Some x) cs) (AInterpolated k (Some y) cs)
| edit_number k rg x y cs : x ≠ y →
    leaf_edit (AExpr k rg (NumberLiteral x) cs) (AExpr k rg (NumberLiteral y) cs)
| edit_boolean k rg x y cs : x ≠ y →
    leaf_edit (AExpr k rg (BooleanLiteral x) cs) (AExpr k rg (BooleanLiteral y) cs)
| edit_binop k rg x y cs : x ≠ y → leaf_edit (AExpr k rg (BinOp x) cs) (AExpr k rg (BinOp y) cs)
| edit_boolop k rg x y cs : x ≠ y → leaf_edit (AExpr k rg (BoolOp x) cs) (AExpr k rg (BoolOp y) cs)
| edit_unaryop k rg x y cs : x ≠ y → leaf_edit (AExpr k rg (UnaryOp x) cs) (AExpr k rg (UnaryOp y) cs)
| edit_compare k rg l x y r cs : x ≠ y →
    leaf_edit (AExpr k rg (Compare (l ++ x :: r)) cs) (AExpr k rg (Compare (l ++ y :: r)) cs).

(** Two steps that emit different text first and then do the same. *)
Lemma tok_then_ne f x y o b :
  additive f → x ≠ y →
  let r := f (tok x (mkRenderer o b)) in let r' := f (tok y (mkRenderer o b)) in
  out r ≠ out r' ∧ pending_doc_scope r = pending_doc_scope r'.
Proof.
  intros Hf Hne. unfold tok. cbn [out pending_doc_scope]. rewrite (Hf (o +:+ (x +:+ SEP))), (Hf (o +:+ (y +:+ SEP))).
  cbn [out pending_doc_scope]. split; [|done]. by intros ?%str_app_inj_r%str_app_inj_l%str_app_inj_r.
Qed.

Lemma leaf_edit_differs p b t t' : leaf_edit t t' → differs_at p b t t'.
Proof.
  intros H. unfold differs_at. assert (∀ k cs, additive (λ r, visit_all p cs (tok_dbg k r))) as Hk.
  { intros k cs. apply (additive_compose (tok_dbg k)); [apply additive_tok|apply additive_all]. }
  destruct H; cbn [visit expr_leaves interpolated_leaf id_text].
  - exact (tok_then_ne (λ r, visit_all p cs (tok_dbg k r)) x y "" b (Hk k cs) H).
  - exact (tok_then_ne (λ r, r) x y "" b additive_id H).
  - exact (tok_then_ne (tok_dbg k) x y _ b (additive_tok k) H).
  - exact (tok_then_ne (tok_dbg k) x y _ b (additive_tok k) H).
  - exact (tok_then_ne (λ r, visit_all p cs (tok_dbg k r)) x y _ b (Hk k cs) H).
  - exact (tok_then_ne (λ r, visit_all p cs (tok_dbg k r)) x y "" b (Hk k cs) H).
  - assert ((if x then "True" else "False") ≠ (if y then "True" else "False")) as H' by (by destruct x, y).
    exact (tok_then_ne (λ r, visit_all p cs (tok_dbg k r)) _ _ "" b (Hk k cs) H').
  - exact (tok_then_ne (λ r, visit_all p cs (tok_dbg k r)) x y "" b (Hk k cs) H).
  - exact (tok_then_ne (λ r, visit_all p cs (tok_dbg k r)) x y "" b (Hk k cs) H).
  - exact (tok_then_ne (λ r, visit_all p cs (tok_dbg k r)) x y "" b (Hk k cs) H).
  - rewrite !foldl_app. cbn [foldl].
    destruct (foldl (λ r op, tok_dbg op r) (mkRenderer "" b) l) as [o b'].
    apply (tok_then_ne (λ r0, visit_all p cs (tok_dbg k (foldl (λ r op, tok_dbg op r) r0 r))) x y o b'); [|done].
    apply (additive_compose (λ r0, foldl (λ r op, tok_dbg op r) r0 r) (λ r, visit_all p cs (tok_dbg k r))); [|apply Hk].
    apply (additive_foldl tok_dbg), Forall_forall. intros z _. apply additive_tok.
Qed.

(** ** Trees the parser gives *)

(** No statement and no body below: the flag passes through. *)
Fixpoint expression_like (t : Ast) : bool :=
  match t with
  | AStmt _ _ _ _ | ABody _ => false
  | AExpr _ _ _ cs | AInterpolated _ _ cs | AOther _ cs => forallb expression_like cs
  | AStringLiteral _ _ | ABytesLiteral _ _ | AIdentifier _ | AOperator _ => true
  end.

(** The children of a definition: decorators, parameters, annotations, bases,
    and the body last. *)
Fixpoint def_children (cs : list Ast) : bool :=
  match cs with
  | [] => false
  | [c] => match c with ABody _ => true | _ => false end
  | c :: cs => expression_like c && def_children cs
  end.

Fixpoint well_scoped (t : Ast) : bool :=
  match t with
  | AStmt _ _ d cs => (negb (is_def d) || def_children cs) && forallb well_scoped cs
  | AExpr _ _ _ cs | ABody cs | AInterpolated _ _ cs | AOther _ cs => forallb well_scoped cs
  | AStringLiteral _ _ | ABytesLiteral _ _ | AIdentifier _ | AOperator _ => true
  end.

Lemma leaves_pending d r : pending_doc_scope (expr_leaves d r) = pending_doc_scope r.
Proof.
  destruct d; try done. simpl. revert r. induction ops as [|op ops IH]; intros r; [done|]. cbn [foldl].
  by rewrite IH.
Qed.

Lemma interpolated_pending lit r : pending_doc_scope (interpolated_leaf lit r) = pending_doc_scope r.
Proof. by destruct lit. Qed.

Lemma visit_all_keeps p (Q : bool → Prop) cs r :
  Forall (λ c, ∀ r, Q (pending_doc_scope r) → Q (pending_doc_scope (visit p c r))) cs →
  Q (pending_doc_scope r) → Q (pending_doc_scope (visit_all p cs r)).
Proof. intros H. revert r. induction H as [|c cs Hc _ IH]; intros r Hr; [done|]. by apply IH, Hc. Qed.

Lemma expression_like_pending p t r :
  expression_like t → pending_doc_scope (visit p t r) = pending_doc_scope r.
Proof.
  revert r. induction t as [t IH] using Ast_ind. intros r Ht.
  assert (forallb expression_like (children_of_node t) →
    ∀ r b, pending_doc_scope r = b → pending_doc_scope (visit_all p (children_of_node t) r) = b) as Hcs.
  { intros Hall r0 b Hb. apply (visit_all_keeps p (λ x, x = b)); [|done].
    rewrite Forall_forall in *. intros c Hc r1 <-. apply IH; [done|].
    apply Is_true_true, forallb_forall with (x:=c) in Hall; [|by apply list_elem_of_In]. by rewrite Hall. }
  destruct t as [k rg d cs|k rg d cs|stmts|k v|k v|k lit cs|i|op|k cs]; try done; cbn [children_of_node expression_like] in *.
  - change (pending_doc_scope (visit_all p cs (tok_dbg k (expr_leaves d r))) = pending_doc_scope r).
    apply Hcs; [done|apply leaves_pending].
  - change (pending_doc_scope (visit_all p cs (tok_dbg k (interpolated_leaf lit r))) = pending_doc_scope r).
    apply Hcs; [done|apply interpolated_pending].
  - change (pending_doc_scope (visit_all p cs (tok_dbg k r)) = pending_doc_scope r). by apply Hcs.
Qed.

(** The flag is down after the node, if it was before it or the node is a body. *)
Definition lowers (p : HashPolicy) (t : Ast) : Prop :=
  ∀ r, pending_doc_scope r = false ∨ is_body t = true → pending_doc_scope (visit p t r) = false.

Lemma visit_all_lowers p cs r :
  Forall (lowers p) cs → pending_doc_scope r = false → pending_doc_scope (visit_all p cs r) = false.
Proof.
  intros H. apply (visit_all_keeps p (λ x, x = false)). rewrite Forall_forall in *.
  intros c Hc r' Hr. apply (H c Hc). by left.
Qed.

Lemma def_children_lower p cs r :
  Forall (lowers p) cs → def_children cs → pending_doc_scope (visit_all p cs r) = false.
Proof.
  intros Hall. revert r. induction Hall as [|c cs Hc Hcs IH]; intros r; [done|].
  destruct cs as [|c' cs].
  - destruct c as [| |stmts| | | | | |]; try done. intros _. apply Hc. by right.
  - intros [He Hd]%andb_True. cbn [visit_all foldl]. fold (visit_all p (c' :: cs) (visit p c r)). by apply IH.
Qed.

Lemma body_lowers p stmts : Forall (lowers p) stmts → lowers p (ABody stmts).
Proof.
  intros H r _. rewrite visit_body. cbn [tok pending_doc_scope]. apply visit_all_lowers; [|done].
  unfold visited_stmts. destruct (skip_first _ _ _); [by apply Forall_tail|done].
Qed.

Lemma well_scoped_children t : well_scoped t → Forall (λ c, well_scoped c) (children_of_node t).
Proof.
  intros H. apply Forall_forall. intros c Hc%list_elem_of_In.
  assert (forallb well_scoped (children_of_node t) = true) as Ha.
  { destruct t; cbn [well_scoped children_of_node] in *; try done; try by apply Is_true_true.
    apply andb_True in H as [_ H]. by apply Is_true_true. }
  apply Is_true_true. by eapply forallb_forall.
Qed.

Lemma well_scoped_lowers p t : well_scoped t → lowers p t.
Proof.
  induction t as [t IH] using Ast_ind. intros Hw. apply well_scoped_children in Hw as Hc.
  assert (Forall (lowers p) (children_of_node t)) as Hall.
  { rewrite Forall_forall in *. eauto. }
  clear IH Hc. intros r Hr.
  destruct (is_body t) eqn:Eb; [destruct t; try done; by apply body_lowers|]. destruct Hr as [Hr|]; [|done].
  destruct t as [k rg d cs|k rg d cs|stmts|k v|k v|k lit cs|i|op|k cs]; cbn [children_of_node] in *; try done.
  - change (pending_doc_scope (visit_all p cs (tok_dbg k (open_stmt d r))) = false).
    cbn [well_scoped] in Hw. apply andb_True in Hw as [Hd _]. destruct (is_def d) eqn:Ed.
    + by apply def_children_lower.
    + apply visit_all_lowers; [done|]. unfold open_stmt. rewrite Ed. by destruct (stmt_is_async d).
  - apply visit_all_lowers; [done|]. cbn. by rewrite leaves_pending.
  - apply visit_all_lowers; [done|]. cbn. by rewrite interpolated_pending.
  - by apply visit_all_lowers.
Qed.

(** ** The flag on the way to a hole *)

(** A node with its flag: the body of a definition has it raised, an expression
    below a definition may, and every other node has it down. *)
Definition entry (b owned : bool) (t : Ast) : Prop :=
  is_body t ∧ b = owned ∨ expression_like t ∨ b = false ∧ owned = false.

Lemma forallb_mid {A} (f : A → bool) l x r : forallb f (l ++ x :: r) → Forall (λ y, f y) l ∧ f x.
Proof.
  intros H%Is_true_true. rewrite forallb_app in H. apply andb_prop in H as [Hl Hx]. cbn in Hx.
  apply andb_prop in Hx as [Hx _]. split; [|by rewrite Hx].
  apply Forall_forall. intros y Hy%list_elem_of_In. apply Is_true_true. by eapply forallb_forall.
Qed.

(** What is before a child of a definition is an expression. *)
Lemma def_children_mid l x r :
  def_children (l ++ x :: r) → Forall (λ y, expression_like y) l ∧ (is_body x ∨ expression_like x).
Proof.
  induction l as [|y l IH].
  - cbn [app]. intros H. split; [done|]. cbn in H. destruct r; [left; by destruct x|].
    right. by apply andb_True in H as [H _].
  - cbn [app]. intros H. assert (expression_like y ∧ def_children (l ++ x :: r)) as [Hy Hd].
    { cbn in H. destruct (l ++ x :: r) eqn:E; [by destruct l|]. by apply andb_True in H. }
    destruct (IH Hd) as [Hl Hx]. split; [by constructor|done].
Qed.

Lemma expressions_pending p cs r :
  Forall (λ c, expression_like c) cs → pending_doc_scope (visit_all p cs r) = pending_doc_scope r.
Proof.
  intros H. apply (visit_all_keeps p (λ x, x = pending_doc_scope r)); [|done].
  eapply Forall_impl; [exact H|]. intros c Hc r' <-. by apply expression_like_pending.
Qed.

Lemma scoped_pending p cs r :
  Forall (λ c, well_scoped c) cs → pending_doc_scope r = false → pending_doc_scope (visit_all p cs r) = false.
Proof. intros H. apply visit_all_lowers. eapply Forall_impl; [exact H|]. intros c. apply well_scoped_lowers. Qed.

(** From a node to the child in the hole. *)
Lemma entry_child p F x b owned :
  well_scoped (fill_frame F x) → entry b owned (fill_frame F x) →
  entry (pending_doc_scope (frame_pre p F (mkRenderer "" b))) (owns F) x ∧
  match F with FBody _ _ => pending_doc_scope (frame_pre p F (mkRenderer "" b)) = false | _ => True end.
Proof.
  intros Hw He. pose proof (well_scoped_children _ Hw) as Hc.
  assert (∀ l r, children_of_node (fill_frame F x) = l ++ x :: r → Forall (λ c, well_scoped c) l) as Hbefore.
  { intros l r E. rewrite E in Hc. by apply Forall_app in Hc as [? _]. }
  destruct F as [k rg d l r|k rg d l r|l r|k lit l r|k l r]; cbn [fill_frame frame_pre owns] in *; split; try done.
  - assert (b = false) as -> by (destruct He as [[[] _]|[[]|[? _]]]; done).
    cbn [well_scoped] in Hw. apply andb_True in Hw as [Hd _]. destruct (is_def d) eqn:Ed.
    + destruct (def_children_mid l x r Hd) as [Hl Hx]. rewrite expressions_pending by done.
      cbn. unfold open_stmt. rewrite Ed. destruct Hx as [Hx|Hx]; [left|by right; left].
      split; [done|]. by destruct (stmt_is_async d).
    + right. right. split; [|done]. apply scoped_pending; [by eapply Hbefore|].
      cbn. unfold open_stmt. rewrite Ed. by destruct (stmt_is_async d).
  - destruct He as [[[] _]|[He|[-> _]]]; [right; left; exact (proj2 (forallb_mid expression_like l x r He))|].
    right. right. split; [|done]. apply scoped_pending; [by eapply Hbefore|]. cbn. by rewrite leaves_pending.
  - right. right. split; [|done]. apply scoped_pending; [|done].
    unfold visited_stmts. destruct (skip_first _ _ _); [apply Forall_tail|]; by eapply Hbefore.
  - apply scoped_pending; [|done].
    unfold visited_stmts. destruct (skip_first _ _ _); [apply Forall_tail|]; by eapply Hbefore.
  - destruct He as [[[] _]|[He|[-> _]]]; [right; left; exact (proj2 (forallb_mid expression_like l x r He))|].
    right. right. split; [|done]. apply scoped_pending; [by eapply Hbefore|]. cbn. by rewrite interpolated_pending.
  - destruct He as [[[] _]|[He|[-> _]]]; [right; left; exact (proj2 (forallb_mid expression_like l x r He))|].
    right. right. split; [|done]. apply scoped_pending; [by eapply Hbefore|done].
Qed.

(** A difference in a visible hole is a difference of the whole, from the flag the
    hole is visited with: down, when the hole is a member of a body. *)
Lemma differs_fill p C t t' : ∀ owned b,
  well_scoped (fill C t) → well_scoped (fill C t') → entry b owned (fill C t) → entry b owned (fill C t') →
  visible p owned C t → visible p owned C t' →
  ∃ b', match last C with Some (FBody _ _) => b' = false | _ => C = [] → b' = b end ∧
    (differs_at p b' t t' → differs_at p b (fill C t) (fill C t')).
Proof.
  induction C as [|F C IH]; intros owned b Hw Hw' He He' Hv Hv'; [by exists b|].
  cbn [fill foldr] in *. fold (fill C t) (fill C t') in *. cbn [visible] in Hv, Hv'.
  apply andb_True in Hv as [Hf Hv], Hv' as [Hf' Hv'].
  destruct (entry_child p F (fill C t) b owned Hw He) as [Hc Hb].
  destruct (entry_child p F (fill C t') b owned Hw' He') as [Hc' _].
  assert (∀ x, well_scoped (fill_frame F x) → well_scoped x) as Hsub.
  { intros x Hx%well_scoped_children. rewrite Forall_forall in Hx. apply Hx. destruct F; set_solver. }
  destruct (IH (owns F) _ (Hsub _ Hw) (Hsub _ Hw') Hc Hc' Hv Hv') as (b' & Hlast & Hd).
  exists b'. split.
  - destruct C as [|G C]; [simpl in *; destruct F; try done; by rewrite Hlast|].
    rewrite last_cons_cons. revert Hlast. by destruct (last (G :: C)) as [[]|].
  - intros H%Hd. clear Hd.
    assert (∀ x, entry b owned (fill_frame F x) → is_body (fill_frame F x) → pending_doc_scope (mkRenderer "" b) = owned) as Hp.
    { intros x [[_ ?]|[Hx|[-> ->]]] Hi; [done| |done]. destruct (fill_frame F x); done. }
    unfold differs_at. rewrite (visit_frame p owned F (fill C t)), (visit_frame p owned F (fill C t')) by eauto.
    destruct (frame_pre p F (mkRenderer "" b)) as [o b1]. destruct H as [Hne Hpe]. cbn [pending_doc_scope] in *.
    rewrite (additive_visit p (fill C t) o b1), (additive_visit p (fill C t') o b1), <- Hpe.
    rewrite (additive_post p F (o +:+ _)), (additive_post p F (o +:+ out (visit p (fill C t') _))). cbn [out pending_doc_scope].
    split; [|done]. by intros E%str_app_inj_r%str_app_inj_l.
Qed.

Lemma entry_top t : entry false false t.
Proof. by right; right. Qed.

(** A leaf is edited in place: the tree stays one the parser gives. *)
Lemma leaf_edit_shape t t' : leaf_edit t t' →
  well_scoped t = well_scoped t' ∧ expression_like t = expression_like t' ∧ is_body t = is_body t'.
Proof. by destruct 1. Qed.

Lemma def_children_hole l x x' r :
  expression_like x = expression_like x' → is_body x = is_body x' → def_children (l ++ x :: r) = def_children (l ++ x' :: r).
Proof.
  intros He Hb. induction l as [|y l IH].
  - cbn. destruct r; [by destruct x, x'|]. by rewrite He.
  - cbn [app]. cbn [def_children]. rewrite IH. by destruct l.
Qed.

Lemma fill_shape C t t' :
  well_scoped t = well_scoped t' ∧ expression_like t = expression_like t' ∧ is_body t = is_body t' →
  well_scoped (fill C t) = well_scoped (fill C t') ∧ expression_like (fill C t) = expression_like (fill C t') ∧
  is_body (fill C t) = is_body (fill C t').
Proof.
  intros H. induction C as [|F C IH]; [done|]. cbn [fill foldr]. fold (fill C t) (fill C t'). clear H.
  destruct IH as (Hw & He & Hb).
  assert (∀ (f : Ast → bool) l r, f (fill C t) = f (fill C t') →
    forallb f (l ++ fill C t :: r) = forallb f (l ++ fill C t' :: r)) as Hall.
  { intros f l r E. rewrite !forallb_app. cbn. by rewrite E. }
  destruct F as [k rg d l r|k rg d l r|l r|k lit l r|k l r]; cbn [fill_frame well_scoped expression_like is_body];
    rewrite ?(Hall well_scoped l r Hw), ?(Hall expression_like l r He), ?(def_children_hole l _ _ r He Hb); done.
Qed.

(** C20: no edit of a leaf is missed.  In a statement as the parser gives it,
    replacing one name, identifier, literal or operator of an expression, anywhere
    but in a docstring the policy leaves out, changes the rendering.  A docstring is
    the bare string that starts the body of a class or function; the one that starts
    any other body counts. *)
Theorem leaf_edit_changes_rendering p C t t' :
  well_scoped (fill C t) → leaf_edit t t' → visible p false C t → visible p false C t' →
  render_stmt (fill C t) p ≠ render_stmt (fill C t') p.
Proof.
  intros Hw H Hv Hv'. destruct (fill_shape C t t' (leaf_edit_shape t t' H)) as (Hs & _ & _).
  assert (well_scoped (fill C t')) as Hw' by by rewrite <- Hs.
  destruct (differs_fill p C t t' false false Hw Hw' (entry_top _) (entry_top _) Hv Hv') as (b & _ & Hd).
  exact (proj1 (Hd (leaf_edit_differs p b t t' H))).
Qed.

(** A container's rendering has its members'.  When the rendering of a
    statement changes, so does that of every class, function or other statement
    around it, at any depth: the rule that keeps the enclosing class of an edited
    method among the changed entities. *)
Lemma members_change_container p C before s s' after :
  let member x := fill (C ++ [FBody before after]) x in
  well_scoped (member s) → well_scoped (member s') →
  visible p false (C ++ [FBody before after]) s → visible p false (C ++ [FBody before after]) s' →
  render_stmt s p ≠ render_stmt s' p → render_stmt (member s) p ≠ render_stmt (member s') p.
Proof.
  intros member Hw Hw' Hv Hv' Hne.
  destruct (differs_fill p (C ++ [FBody before after]) s s' false false Hw Hw' (entry_top _) (entry_top _) Hv Hv')
    as (b & Hb & Hd). rewrite last_snoc in Hb. subst b.
  refine (proj1 (Hd _)). split; [done|].
  assert (∀ x, well_scoped (member x) → well_scoped x) as Hsub.
  { intros x. unfold member. clear. induction C as [|F C IH]; cbn [fill foldr app].
    - intros H%well_scoped_children. rewrite Forall_forall in H. apply H. cbn. set_solver.
    - intros H%well_scoped_children. apply IH. rewrite Forall_forall in H. apply H. destruct F; set_solver. }
  rewrite (well_scoped_lowers p s (Hsub s Hw)), (well_scoped_lowers p s' (Hsub s' Hw')); [done|by left..].
Qed.

(** ** Edits that do not change the rendering *)

(** Trees every run of the renderer treats alike. *)
Definition renders_alike (p : HashPolicy) (t t' : Ast) : Prop := ∀ r, visit p t r = visit p t' r.

Lemma renders_alike_frame p F t t' :
  same_head t t' → renders_alike p t t' → renders_alike p (fill_frame F t) (fill_frame F t').
Proof.
  intros [_ Hh] Ha r.
  assert (∀ l cs r, visit_all p (l ++ t :: cs) r = visit_all p (l ++ t' :: cs) r) as Hall.
  { intros l cs r'. rewrite !visit_all_app. cbn [visit_all foldl]. by rewrite Ha. }
  destruct F as [k rg d l cs|k rg d l cs|l cs|k lit l cs|k l cs]; cbn [fill_frame].
  3: { rewrite !visit_body. f_equal. unfold visited_stmts, skip_first. destruct l as [|x l]; cbn [app].
       - rewrite Hh. destruct (_ && _); [done|]. apply (Hall []).
       - destruct (_ && _); [apply (Hall l)|apply (Hall (x :: l))]. }
  all: apply Hall.
Qed.

Lemma renders_alike_fill p C t t' :
  same_head t t' → renders_alike p t t' → renders_alike p (fill C t) (fill C t').
Proof.
  intros Hh Ha. induction C as [|F C IH]; [done|]. apply renders_alike_frame; [by apply fill_same_head|done].
Qed.

(** C21: docstrings are left out by position.  Under a policy without docstrings,
    rewriting the docstring of a class or function, adding one or removing it
    leaves the rendering of every statement around it as it was. *)
Theorem docstring_edit_keeps_rendering p C k rg d header doc doc' body :
  include_docstrings p = false → is_def d → forallb expression_like header →
  is_docstring_stmt doc → is_docstring_stmt doc' →
  let def stmts := AStmt k rg d (header ++ [ABody stmts]) in
  render_stmt (fill C (def (doc :: body))) p = render_stmt (fill C (def (doc' :: body))) p ∧
  (match body with s :: _ => is_docstring_stmt s = false | [] => True end →
   render_stmt (fill C (def (doc :: body))) p = render_stmt (fill C (def body)) p).
Proof.
  intros Hp Hd Hh Hdoc Hdoc' def.
  assert (∀ stmts stmts', visited_stmts p true stmts = visited_stmts p true stmts' →
    render_stmt (fill C (def stmts)) p = render_stmt (fill C (def stmts')) p) as H.
  { intros stmts stmts' Hv. unfold render_stmt. f_equal. apply renders_alike_fill.
    - split; [done|]. unfold def. by destruct d.
    - intros r. unfold def. cbn [visit]. fold (visit_all p (header ++ [ABody stmts])).
      change (visit_all p (header ++ [ABody stmts]) (tok_dbg k (open_stmt d r)) =
              visit_all p (header ++ [ABody stmts']) (tok_dbg k (open_stmt d r))).
      rewrite !visit_all_snoc, !visit_body.
      assert (pending_doc_scope (visit_all p header (tok_dbg k (open_stmt d r))) = true) as Hf; [|by rewrite Hf, Hv].
      apply (visit_all_keeps p (λ x, x = true)).
      + apply Forall_forall. intros c Hc%list_elem_of_In r' <-. apply expression_like_pending.
        apply Is_true_true. apply Is_true_true in Hh. by eapply forallb_forall.
      + cbn. unfold open_stmt. apply Is_true_true in Hd. rewrite Hd. by destruct (stmt_is_async d). }
  apply Is_true_true in Hdoc, Hdoc'. split.
  - apply H. unfold visited_stmts, skip_first. by rewrite Hp, Hdoc, Hdoc'.
  - intros Hb. apply H. unfold visited_stmts, skip_first. rewrite Hp, Hdoc.
    destruct body as [|s body]; [done|]. cbn. by rewrite Hb.
Qed.

(** The tree without its ranges. *)
Fixpoint erase_ranges (t : Ast) : Ast :=
  match t with
  | AStmt k _ d cs =>
      let d := match d with
               | FunctionDef n a => FunctionDef (mkIdentifier (id_text n) (0, 0)%N) a
               | ClassDef n => ClassDef (mkIdentifier (id_text n) (0, 0)%N)
               | ImportFrom _ => ImportFrom []
               | ImportStmt _ => ImportStmt []
               | For _ | With _ | ExprStmt | OtherStmt => d
               end in
      AStmt k (0, 0)%N d (erase_ranges <$> cs)
  | AExpr k _ d cs =>
      let d := match d with
               | Attribute a ctx => Attribute (mkIdentifier (id_text a) (0, 0)%N) ctx
               | _ => d
               end in
      AExpr k (0, 0)%N d (erase_ranges <$> cs)
  | ABody cs => ABody (erase_ranges <$> cs)
  | AInterpolated k lit cs => AInterpolated k lit (erase_ranges <$> cs)
  | AIdentifier i => AIdentifier (mkIdentifier (id_text i) (0, 0)%N)
  | AOther k cs => AOther k (erase_ranges <$> cs)
  | AStringLiteral _ _ | ABytesLiteral _ _ | AOperator _ => t
  end.

Lemma erase_string_expr t : is_string_expr (erase_ranges t) = is_string_expr t.
Proof. destruct t as [|k rg d cs| | | | | | |]; try done. by destruct d. Qed.

Lemma erase_docstring t : is_docstring_stmt (erase_ranges t) = is_docstring_stmt t.
Proof.
  destruct t as [k rg d cs| | | | | | | |]; try done. destruct d; try done. simpl.
  destruct cs as [|c [|c' cs]]; try done. apply erase_string_expr.
Qed.

Lemma erase_renders_alike p t : renders_alike p (erase_ranges t) t.
Proof.
  induction t as [t IH] using Ast_ind.
  assert (∀ cs r, Forall (λ t, renders_alike p (erase_ranges t) t) cs →
    visit_all p (erase_ranges <$> cs) r = visit_all p cs r) as Hall.
  { intros cs r H. revert r. induction H as [|c cs Hc _ IHcs]; intros r; [done|].
    cbn. rewrite (Hc r). apply IHcs. }
  intros r. destruct t as [k rg d cs|k rg d cs|stmts|k v|k v|k lit cs|i|op|k cs]; try done; cbn [children_of_node] in *.
  - etrans; [exact (Hall cs _ IH)|]. by destruct d.
  - etrans; [exact (Hall cs _ IH)|]. by destruct d.
  - cbn [erase_ranges]. rewrite !visit_body. f_equal. unfold visited_stmts, skip_first.
    destruct stmts as [|s stmts]; [done|]. cbn [fmap list_fmap]. rewrite erase_docstring.
    destruct (_ && is_docstring_stmt s); cbn [tail]; [|by apply (Hall (s :: stmts))].
    apply Hall. by inversion IH.
  - exact (Hall cs _ IH).
  - exact (Hall cs _ IH).
Qed.

(** Formatting does not matter.  Two statements that differ in where their
    parts stand, and not in the parts, have the same rendering. *)
Theorem rendering_ignores_ranges p t t' :
  erase_ranges t = erase_ranges t' → render_stmt t p = render_stmt t' p.
Proof.
  intros H. unfold render_stmt. rewrite <- (erase_renders_alike p t), <- (erase_renders_alike p t'). by rewrite H.
Qed.

(** ** Entity hashes *)

Section entity_hash.
Context {Ext : External}.

(** The hash of the entity at a range of a parsed file. *)
Definition entity_hash (p : HashPolicy) (body : list Ast) (source : string) (rg : N * N) : ContentHash :=
  hash_entity (entity_normal_form render_stmt (index_statements body) rg source p).

Lemma entity_hash_at p body source rg s :
  NoDup (body ≫= statements).*1 → (rg, s) ∈ body ≫= statements →
  entity_hash p body source rg = hash_bytes (render_stmt s p).
Proof.
  intros Hnd Hin. unfold entity_hash, entity_normal_form. by rewrite (index_statements_complete body rg s).
Qed.

(** C19: the hash of a container follows its members.  Between two versions of a
    file, when a statement in the body of a class, a function or any other statement,
    at any depth and not a docstring the policy leaves out, changes so that its own
    rendering does, the content hash of the container changes, unless the two
    renderings collide in the hash function. *)
Theorem container_hash_follows_members p body body' source source' rg rg' C before s s' after :
  let c := fill (C ++ [FBody before after]) s in
  let c' := fill (C ++ [FBody before after]) s' in
  NoDup (body ≫= statements).*1 → NoDup (body' ≫= statements).*1 →
  (rg, c) ∈ body ≫= statements → (rg', c') ∈ body' ≫= statements →
  well_scoped c → well_scoped c' →
  visible p false (C ++ [FBody before after]) s → visible p false (C ++ [FBody before after]) s' →
  (hash_bytes (render_stmt c p) = hash_bytes (render_stmt c' p) → render_stmt c p = render_stmt c' p) →
  render_stmt s p ≠ render_stmt s' p →
  entity_hash p body source rg ≠ entity_hash p body' source' rg'.
Proof.
  intros c c' Hnd Hnd' Hin Hin' Hs Hs' Hv Hv' Hcoll Hne.
  rewrite (entity_hash_at p body source rg c), (entity_hash_at p body' source' rg' c') by done.
  intros E%Hcoll. revert E. by apply members_change_container.
Qed.
End entity_hash.

(** ** Where the rendering is ambiguous *)

(** A node emits its kind when it is entered and nothing when it is left, so
    the last child of a node renders like a sibling that follows it. *)
Lemma last_child_is_sibling p k cs x r :
  visit_all p [AOther k (cs ++ [x])] r = visit_all p [AOther k cs; x] r.
Proof. exact (visit_all_app p cs [x] (tok_dbg k r)). Qed.

Definition name0 (x : string) : Ast := AExpr "ExprName" (0, 0)%N (Name x LoadCtx) [].
Definition call0 (f : string) (args : list Ast) : Ast :=
  AExpr "ExprCall" (0, 0)%N OtherExpr [name0 f; AOther "Arguments" args].
Definition expr_stmt0 (e : Ast) : Ast := AStmt "StmtExpr" (0, 0)%N ExprStmt [e].
Definition aug_assign0 (x op y : string) : Ast :=
  AStmt "StmtAugAssign" (0, 0)%N OtherStmt
    [AExpr "ExprName" (0, 0)%N (Name x StoreCtx) []; AOperator op; name0 y].
Definition strings0 (parts : list string) : Ast :=
  expr_stmt0 (call0 "f" [AExpr "ExprStringLiteral" (0, 0)%N StringLiteralExpr (AStringLiteral "StringLiteral" <$> parts)]).

(** [f(a, g(b), c)] and [f(a, g(b, c))], [x += y] and [x -= y], and one string
    that holds the separator and two strings, have the same rendering. *)
Theorem rendering_ambiguous p :
  render_stmt (expr_stmt0 (call0 "f" [name0 "a"; call0 "g" [name0 "b"]; name0 "c"])) p =
    render_stmt (expr_stmt0 (call0 "f" [name0 "a"; call0 "g" [name0 "b"; name0 "c"]])) p ∧
  render_stmt (aug_assign0 "x" "Add" "y") p = render_stmt (aug_assign0 "x" "Sub" "y") p ∧
  render_stmt (strings0 ["a"; "b"]) p =
    render_stmt (strings0 ["a" +:+ SEP +:+ "StringLiteral" +:+ SEP +:+ "str" +:+ SEP +:+ "b"]) p.
Proof. done. Qed.

(** ** Witnesses: a class with a method *)

Definition policy0 : HashPolicy := mkHashPolicy true true false false.

Definition ident0 (x : string) : Identifier := mkIdentifier x (0, 0)%N.

Definition doc0 (text : string) : Ast :=
  expr_stmt0 (AExpr "ExprStringLiteral" (0, 0)%N StringLiteralExpr [AStringLiteral "StringLiteral" text]).

Definition return0 (rg : N * N) (x : string) : Ast := AStmt "StmtReturn" rg OtherStmt [name0 x].

Definition method0 (x : string) : Ast :=
  AStmt "StmtFunctionDef" (10, 20)%N (FunctionDef (ident0 "m") false)
    [AIdentifier (ident0 "m"); AOther "Parameters" []; ABody [return0 (15, 20)%N x]].

Definition class0 (x : string) : Ast :=
  AStmt "StmtClassDef" (0, 20)%N (ClassDef (ident0 "A")) [AIdentifier (ident0 "A"); ABody [method0 x]].

(** [if c: "text"], whose string is no docstring. *)
Definition if0 (text : string) : Ast := AStmt "StmtIf" (0, 9)%N OtherStmt [name0 "c"; ABody [doc0 text]].

Lemma leaf_edit_changes_rendering_witness :
  render_stmt (class0 "x") policy0 ≠ render_stmt (class0 "y") policy0 ∧
  render_stmt (if0 "old") policy0 ≠ render_stmt (if0 "new") policy0.
Proof.
  split.
  - apply (leaf_edit_changes_rendering policy0
      [FStmt "StmtClassDef" (0, 20)%N (ClassDef (ident0 "A")) [AIdentifier (ident0 "A")] [];
       FBody [] [];
       FStmt "StmtFunctionDef" (10, 20)%N (FunctionDef (ident0 "m") false)
         [AIdentifier (ident0 "m"); AOther "Parameters" []] [];
       FBody [] []; FStmt "StmtReturn" (15, 20)%N OtherStmt [] []] (name0 "x") (name0 "y") I);
      [apply edit_name; discriminate|exact I|exact I].
  - apply (leaf_edit_changes_rendering policy0
      [FStmt "StmtIf" (0, 9)%N OtherStmt [name0 "c"] []; FBody [] []; FStmt "StmtExpr" (0, 0)%N ExprStmt [] [];
       FExpr "ExprStringLiteral" (0, 0)%N StringLiteralExpr [] []]
      (AStringLiteral "StringLiteral" "old") (AStringLiteral "StringLiteral" "new") I);
      [apply edit_string; discriminate|exact I|exact I].
Defined.

Lemma docstring_edit_keeps_rendering_witness :
  let def stmts := AStmt "StmtFunctionDef" (0, 9)%N (FunctionDef (ident0 "f") false)
                     ([AIdentifier (ident0 "f")] ++ [ABody stmts]) in
  render_stmt (def [doc0 "old"; return0 (5, 9)%N "x"]) policy0 =
    render_stmt (def [doc0 "new"; return0 (5, 9)%N "x"]) policy0 ∧
  render_stmt (def [doc0 "old"; return0 (5, 9)%N "x"]) policy0 = render_stmt (def [return0 (5, 9)%N "x"]) policy0.
Proof.
  destruct (docstring_edit_keeps_rendering policy0 [] "StmtFunctionDef" (0, 9)%N (FunctionDef (ident0 "f") false)
    [AIdentifier (ident0 "f")] (doc0 "old") (doc0 "new") [return0 (5, 9)%N "x"] eq_refl I I I I) as [H1 H2].
  split; [exact H1|exact (H2 eq_refl)].
Defined.

Lemma rendering_ignores_ranges_witness :
  render_stmt (return0 (0, 8)%N "x") policy0 = render_stmt (return0 (4, 30)%N "x") policy0.
Proof. apply (rendering_ignores_ranges policy0). reflexivity. Defined.

Lemma container_hash_follows_members_witness :
  entity_hash (Ext:=external0) policy0 [class0 "x"] "" (0, 20)%N ≠
  entity_hash (Ext:=external0) policy0 [class0 "yy"] "" (0, 20)%N.
Proof.
  apply (container_hash_follows_members policy0 [class0 "x"] [class0 "yy"] "" "" (0, 20)%N (0, 20)%N
    [FStmt "StmtClassDef" (0, 20)%N (ClassDef (ident0 "A")) [AIdentifier (ident0 "A")] []]
    [] (method0 "x") (method0 "yy") []); try exact I; try reflexivity.
  - apply (bool_decide_unpack _). vm_compute. exact I.
  - apply (bool_decide_unpack _). vm_compute. exact I.
  - left.
  - left.
  - intros H. vm_compute in H. discriminate H.
  - intros H. vm_compute in H. discriminate H.
Defined.
