(* ===== verification/EditDistance.v ===== *)
(** * Edit distance ([edit_distance] of [rust/src/identity.rs])

    The two-row dynamic program, on arrays, and its specification: the least
    cost of an alignment of the two character sequences. *)

From S2P Require Import Prelude Str.

(** ** The code *)

Definition inner_step (ai : N) (b : list N) (prev curr : list nat) (j : nat) : list nat :=
  let cost := if bool_decide (ai = b !!! (j - 1)) then 0 else 1 in
  <[ j := (prev !!! j + 1) `min` (curr !!! (j - 1) + 1) `min` (prev !!! (j - 1) + cost) ]> curr.

Definition outer_step (a b : list N) (rows : list nat * list nat) (i : nat) : list nat * list nat :=
  let '(prev, curr) := rows in
  let curr := <[ 0 := i ]> curr in
  let curr := foldl (inner_step (a !!! (i - 1)) b prev) curr (seq 1 (length b)) in
  (curr, prev).

Definition edit_distance_chars (a b : list N) : nat :=
  let m := length b in
  (foldl (outer_step a b) (seq 0 (m + 1), replicate (m + 1) 0) (seq 1 (length a))).1 !!! m.

Definition edit_distance (a b : string) : nat :=
  edit_distance_chars (str_chars a) (str_chars b).

Example edit_distance_kitten : edit_distance "kitten" "sitting" = 3.
Proof. reflexivity. Qed.

(** ** The specification *)

(** [align a b n]: [a] becomes [b] by insertions, deletions and
    substitutions, read from the left, of which [n] cost one. *)
Inductive align : list N → list N → nat → Prop :=
| align_nil : align [] [] 0
| align_delete x a b n : align a b n → align (x :: a) b (S n)
| align_insert y a b n : align a b n → align a (y :: b) (S n)
| align_keep x a b n : align a b n → align (x :: a) (x :: b) n
| align_subst x y a b n : align a b n → align (x :: a) (y :: b) (S n).
#[local] Hint Constructors align : core.

(** The recurrence, on the last characters first. *)
Fixpoint lev (a b : list N) : nat :=
  match a with
  | [] => length b
  | x :: a' =>
      (fix go (b : list N) : nat :=
         match b with
         | [] => S (length a')
         | y :: b' =>
             (lev a' (y :: b') + 1) `min` (go b' + 1)
               `min` (lev a' b' + if bool_decide (x = y) then 0 else 1)
         end) b
  end.

Lemma lev_nil_r a : lev a [] = length a.
Proof. by destruct a. Qed.

Lemma lev_cons x a y b :
  lev (x :: a) (y :: b) =
    (lev a (y :: b) + 1) `min` (lev (x :: a) b + 1)
      `min` (lev a b + if bool_decide (x = y) then 0 else 1).
Proof. done. Qed.

Lemma align_nil_l b : align [] b (length b).
Proof. induction b; simpl; auto. Qed.

Lemma align_nil_r a : align a [] (length a).
Proof. induction a; simpl; auto. Qed.

Lemma lev_align a b : align a b (lev a b).
Proof.
  revert b. induction a as [|x a IHa]; intros b; [apply align_nil_l|].
  induction b as [|y b IHb]; [apply align_nil_r|].
  rewrite lev_cons. case_bool_decide as Hxy; subst.
  - destruct (Nat.min_dec (lev a (y :: b) + 1) (lev (y :: a) b + 1)) as [->| ->];
      match goal with |- context [?u `min` ?v] => destruct (Nat.min_dec u v) as [->| ->] end;
      rewrite ?Nat.add_1_r, ?Nat.add_0_r; auto.
  - destruct (Nat.min_dec (lev a (y :: b) + 1) (lev (x :: a) b + 1)) as [->| ->];
      match goal with |- context [?u `min` ?v] => destruct (Nat.min_dec u v) as [->| ->] end;
      rewrite ?Nat.add_1_r; auto.
Qed.

Lemma align_length a b n : align a b n → length a ≤ length b + n ∧ length b ≤ length a + n.
Proof. induction 1; simpl; lia. Qed.

Lemma lev_minimal a b n : align a b n → lev a b ≤ n.
Proof.
  induction 1 as [|x a b n H IH|y a b n H IH|x a b n H IH|x y a b n H IH]; [done|..].
  - destruct b as [|y b]; [|rewrite lev_cons; lia].
    rewrite lev_nil_r in *. simpl. lia.
  - destruct a as [|x a]; [simpl in *; lia|rewrite lev_cons; lia].
  - rewrite lev_cons, bool_decide_eq_true_2 by done. lia.
  - rewrite lev_cons. case_bool_decide; lia.
Qed.

Lemma align_snoc_delete a b n x : align a b n → align (a ++ [x]) b (S n).
Proof. induction 1; simpl; auto. Qed.

Lemma align_snoc_insert a b n y : align a b n → align a (b ++ [y]) (S n).
Proof. induction 1; simpl; auto. Qed.

Lemma align_snoc_keep a b n x : align a b n → align (a ++ [x]) (b ++ [x]) n.
Proof. induction 1; simpl; auto. Qed.

Lemma align_snoc_subst a b n x y : align a b n → align (a ++ [x]) (b ++ [y]) (S n).
Proof. induction 1; simpl; auto. Qed.

Lemma align_reverse a b n : align a b n → align (reverse a) (reverse b) n.
Proof.
  induction 1; rewrite ?reverse_cons; auto using align_snoc_delete, align_snoc_insert,
    align_snoc_keep, align_snoc_subst.
Qed.

Lemma lev_reverse a b : lev (reverse a) (reverse b) = lev a b.
Proof.
  apply Nat.le_antisymm; apply lev_minimal.
  - apply align_reverse, lev_align.
  - rewrite <- (reverse_involutive a), <- (reverse_involutive b) at 1.
    apply align_reverse, lev_align.
Qed.

(** ** The program computes the recurrence *)

(** Cell [(i, j)] of the table: the distance between the prefixes. *)
Definition cell (a b : list N) (i j : nat) : nat :=
  lev (reverse (take i a)) (reverse (take j b)).

Lemma reverse_take_S (l : list N) i :
  i < length l → reverse (take (S i) l) = l !!! i :: reverse (take i l).
Proof.
  intros Hi. rewrite (take_S_r _ _ (l !!! i)).
  - by rewrite reverse_app.
  - by apply list_lookup_lookup_total_lt.
Qed.

Lemma cell_0_l a b j : j ≤ length b → cell a b 0 j = j.
Proof. intros. unfold cell. simpl. rewrite length_reverse, length_take. lia. Qed.

Lemma cell_0_r a b i : i ≤ length a → cell a b i 0 = i.
Proof.
  intros. unfold cell. rewrite (take_0 b), lev_nil_r, length_reverse, length_take. lia.
Qed.

Lemma cell_S a b i j :
  i < length a → j < length b →
  cell a b (S i) (S j) =
    (cell a b i (S j) + 1) `min` (cell a b (S i) j + 1)
      `min` (cell a b i j + if bool_decide (a !!! i = b !!! j) then 0 else 1).
Proof.
  intros Hi Hj. unfold cell. rewrite (reverse_take_S a i), (reverse_take_S b j) by done.
  apply lev_cons.
Qed.

Definition is_row (a b : list N) (i : nat) (row : list nat) : Prop :=
  length row = length b + 1 ∧ ∀ j, j ≤ length b → row !!! j = cell a b i j.

Lemma inner_loop a b i prev curr k :
  i < length a → is_row a b i prev → length curr = length b + 1 → k ≤ length b →
  curr !!! 0 = S i →
  let curr' := foldl (inner_step (a !!! i) b prev) curr (seq 1 k) in
  length curr' = length b + 1 ∧ ∀ j, j ≤ k → curr' !!! j = cell a b (S i) j.
Proof.
  intros Hi [Hlen Hprev] Hcurr Hk H0. induction k as [|k IH].
  - simpl. split; [done|]. intros j Hj. replace j with 0 by lia.
    rewrite H0, cell_0_r; lia.
  - rewrite seq_S, foldl_snoc. destruct (IH ltac:(lia)) as [IHlen IHrow].
    set (c := foldl _ curr (seq 1 k)) in *. simpl. unfold inner_step.
    rewrite length_insert. split; [done|]. intros j Hj.
    destruct (decide (j = S k)) as [->|Hne].
    + rewrite list_lookup_total_insert_eq by lia. simpl. rewrite Nat.sub_0_r.
      rewrite !Hprev, IHrow by lia. by rewrite cell_S by lia.
    + rewrite list_lookup_total_insert_ne by lia. apply IHrow. lia.
Qed.

Lemma outer_loop a b n :
  n ≤ length a →
  let rows := foldl (outer_step a b) (seq 0 (length b + 1), replicate (length b + 1) 0)
                (seq 1 n) in
  is_row a b n rows.1 ∧ length rows.2 = length b + 1.
Proof.
  intros Hn. induction n as [|n IH].
  - simpl. split; [|by rewrite length_replicate]. split; [by rewrite length_seq|].
    intros j Hj. rewrite cell_0_l by done.
    apply list_lookup_total_correct, lookup_seq. lia.
  - rewrite seq_S, foldl_snoc. destruct (IH ltac:(lia)) as [Hrow Hlen].
    destruct (foldl _ _ (seq 1 n)) as [prev curr]. simpl in *. rewrite Nat.sub_0_r.
    destruct (inner_loop a b n prev (<[0 := S n]> curr) (length b)) as [Hl Hr]; try done.
    + by rewrite length_insert.
    + rewrite list_lookup_total_insert_eq; lia.
    + split; [by split|apply Hrow].
Qed.

Lemma edit_distance_chars_lev a b : edit_distance_chars a b = lev a b.
Proof.
  unfold edit_distance_chars.
  destruct (outer_loop a b (length a) ltac:(done)) as [[_ Hrow] _].
  rewrite Hrow by done. unfold cell. by rewrite !firstn_all, lev_reverse.
Qed.

(** ** Metric laws *)

Lemma align_refl a : align a a 0.
Proof. induction a; auto. Qed.

Lemma align_zero a b n : align a b n → n = 0 → a = b.
Proof. induction 1; intros; simplify_eq; f_equal; auto. Qed.

Lemma align_sym a b n : align a b n → align b a n.
Proof. induction 1; auto. Qed.

Lemma align_trans a b c n m : align a b n → align b c m → ∃ k, k ≤ n + m ∧ align a c k.
Proof.
  intros Hab. revert c m.
  induction Hab as [|x a b n H IH|y a b n H IH|x a b n H IH|x y a b n H IH]; intros c m Hbc.
  - exists m. split; [lia|done].
  - destruct (IH _ _ Hbc) as (k & Hk & Hac). exists (S k). split; [lia|auto].
  - remember (y :: b) as yb eqn:E. revert y b H IH E.
    induction Hbc as [|z b' c m Hbc IHc|z b' c m Hbc IHc|z b' c m Hbc IHc|z w b' c m Hbc IHc];
      intros y b H IH E; simplify_eq.
    + destruct (IH _ _ Hbc) as (k & Hk & Hac). exists k. split; [lia|done].
    + destruct (IHc _ _ H IH eq_refl) as (k & Hk & Hac). exists (S k). split; [lia|auto].
    + destruct (IH _ _ Hbc) as (k & Hk & Hac). exists (S k). split; [lia|auto].
    + destruct (IH _ _ Hbc) as (k & Hk & Hac). exists (S k). split; [lia|auto].
  - remember (x :: b) as xb eqn:E. revert x b H IH E.
    induction Hbc as [|z b' c m Hbc IHc|z b' c m Hbc IHc|z b' c m Hbc IHc|z w b' c m Hbc IHc];
      intros x b H IH E; simplify_eq.
    + destruct (IH _ _ Hbc) as (k & Hk & Hac). exists (S k). split; [lia|auto].
    + destruct (IHc _ _ H IH eq_refl) as (k & Hk & Hac). exists (S k). split; [lia|auto].
    + destruct (IH _ _ Hbc) as (k & Hk & Hac). exists k. split; [lia|auto].
    + destruct (IH _ _ Hbc) as (k & Hk & Hac). exists (S k). split; [lia|auto].
  - remember (y :: b) as yb eqn:E. revert y b H IH E.
    induction Hbc as [|z b' c m Hbc IHc|z b' c m Hbc IHc|z b' c m Hbc IHc|z w b' c m Hbc IHc];
      intros y b H IH E; simplify_eq.
    + destruct (IH _ _ Hbc) as (k & Hk & Hac). exists (S k). split; [lia|auto].
    + destruct (IHc _ _ H IH eq_refl) as (k & Hk & Hac). exists (S k). split; [lia|auto].
    + destruct (IH _ _ Hbc) as (k & Hk & Hac). exists (S k). split; [lia|auto].
    + destruct (IH _ _ Hbc) as (k & Hk & Hac). exists (S k). split; [lia|auto].
Qed.

Lemma lev_triangle a b c : lev a c ≤ lev a b + lev b c.
Proof.
  destruct (align_trans _ _ _ _ _ (lev_align a b) (lev_align b c)) as (k & Hk & Hac).
  etrans; [by apply lev_minimal|done].
Qed.

(** ** Theorems *)

(** C36: the returned number is the cost of an alignment of the two character
    sequences, and no alignment costs less. *)
Theorem edit_distance_is_minimal a b :
  align (str_chars a) (str_chars b) (edit_distance a b) ∧
  ∀ n, align (str_chars a) (str_chars b) n → edit_distance a b ≤ n.
Proof.
  unfold edit_distance. rewrite edit_distance_chars_lev.
  split; [apply lev_align|apply lev_minimal].
Qed.

Lemma edit_distance_self a : edit_distance a a = 0.
Proof. unfold edit_distance. rewrite edit_distance_chars_lev. apply Nat.le_0_r, lev_minimal, align_refl. Qed.

(** The distance is a metric on character sequences. *)
Theorem edit_distance_metric a b c :
  (edit_distance a b = 0 ↔ str_chars a = str_chars b) ∧
  edit_distance a b = edit_distance b a ∧
  edit_distance a c ≤ edit_distance a b + edit_distance b c.
Proof.
  unfold edit_distance. rewrite !edit_distance_chars_lev. split; [split|split].
  - intros H. eapply align_zero; [apply lev_align|done].
  - intros ->. apply Nat.le_0_r, lev_minimal, align_refl.
  - apply Nat.le_antisymm; apply lev_minimal, align_sym, lev_align.
  - apply lev_triangle.
Qed.
