(* ===== verification/Reconcile.v ===== *)
(** * Reconciliation ([reconcile_impl] of [rust/src/identity.rs])

    The four matching passes, the application of their bindings to the
    registry, the retirement of vanished anchors, and the classification of
    the result. *)

From S2P Require Import Prelude Str Paths Content Identity EditDistance.
Import Registry.

(** ** Results *)

Inductive Confidence := Low.

Inductive Binding :=
| Exact (id : DurableId) (old_hash : ContentHash)
| Moved (id : DurableId) (old_path : string) (old_hash : ContentHash)
| Struct (id : DurableId) (confidence : Confidence) (old_hash : ContentHash)
| Minted (id : DurableId).

Definition binding_id (b : Binding) : DurableId :=
  match b with Exact id _ | Moved id _ _ | Struct id _ _ | Minted id => id end.

Record Reconciliation := mkReconciliation {
  rc_bindings : list (string * Binding);
  rc_retired : list DurableId;
  rc_needs_review : list DurableId;
}.

Record MovedBinding := mkMovedBinding {
  mv_id : DurableId;
  mv_old_qualified_path : string;
  mv_new_qualified_path : string;
  mv_old_file : string;
  mv_new_file : string;
}.

Record ReconcileClasses := mkReconcileClasses {
  cl_created : list DurableId;
  cl_changed : list DurableId;
  cl_deleted : list DurableId;
  cl_moved : list MovedBinding;
}.

(** [collect] into a [HashMap] keeps the last entity of a path. *)
Definition entities_by_path (entities : list Entity) : gmap string Entity :=
  foldl (λ m e, <[ e_qualified_path e := e ]> m) ∅ entities.

Definition classify_step (by_path : gmap string Entity) (c : ReconcileClasses)
    (pb : string * Binding) : ReconcileClasses :=
  let '(path, binding) := pb in
  let entity := by_path !! path in
  match binding with
  | Minted id => mkReconcileClasses (cl_created c ++ [id]) (cl_changed c) (cl_deleted c) (cl_moved c)
  | Exact id old_hash | Struct id _ old_hash =>
      if bool_decide (e_content_hash <$> entity = Some old_hash) then c
      else mkReconcileClasses (cl_created c) (cl_changed c ++ [id]) (cl_deleted c) (cl_moved c)
  | Moved id old_path _ =>
      let new_file := default (file_of_qualified_path path) (e_file <$> entity) in
      mkReconcileClasses (cl_created c) (cl_changed c) (cl_deleted c)
        (cl_moved c ++ [mkMovedBinding id old_path path (file_of_qualified_path old_path) new_file])
  end.

Definition classify (rc : Reconciliation) (entities : list Entity) : ReconcileClasses :=
  let c := foldl (classify_step (entities_by_path entities))
             (mkReconcileClasses [] [] [] []) (rc_bindings rc) in
  mkReconcileClasses (cl_created c) (cl_changed c) (rc_retired rc) (cl_moved c).

(** ** The passes *)

Record RState := mkRState {
  bound_ids : gset string;
  matched_entities : gset nat;
  bindings : list (string * Binding);
  bindings_by_path : gmap string Binding;
  needs_review : list string;
}.

Definition rstate_init : RState := mkRState ∅ ∅ [] ∅ [].

(** The bookkeeping every pass ends with when it binds entity [idx]; an id
    flagged for review was pushed first. *)
Definition bind_entity (st : RState) (idx : nat) (e : Entity) (b : Binding) (review : bool) :
    RState :=
  mkRState
    ({[ binding_id b ]} ∪ bound_ids st)
    ({[ idx ]} ∪ matched_entities st)
    (bindings st ++ [(e_qualified_path e, b)])
    (<[ e_qualified_path e := b ]> (bindings_by_path st))
    (if review then needs_review st ++ [binding_id b] else needs_review st).

Definition entity_le (a b : Entity) : bool :=
  if bool_decide (e_qualified_path a = e_qualified_path b)
  then (e_content_hash a <=? e_content_hash b)%N
  else str_le (e_qualified_path a) (e_qualified_path b).

Definition scope_has (scope : option (gset string)) (p : string) : bool :=
  match scope with
  | None => true
  | Some sc => match anchor_file p with Some f => bool_decide (f ∈ sc) | None => false end
  end.

Definition anchor_in_scope (reg : IdentityRegistry) (id : DurableId)
    (scope : option (gset string)) : bool :=
  match scope with
  | None => true
  | Some sc =>
      match get reg id with
      | Some a => scope_has scope (a_qualified_path a)
      | None => false
      end
  end.

(** Pass A: exact match by qualified path. *)
Definition pass_a_step (reg : IdentityRegistry) (st : RState) (ie : nat * Entity) : RState :=
  let '(idx, e) := ie in
  if bool_decide (idx ∈ matched_entities st) then st
  else
    match by_path reg (e_qualified_path e) with
    | Some id =>
        if bool_decide (id ∈ bound_ids st) then st
        else
          let old_hash := default (e_content_hash e) (a_content_hash <$> get reg id) in
          bind_entity st idx e (Exact id old_hash) (bool_decide (old_hash ≠ e_content_hash e))
    | None => st
    end.

(** Pass B: an unconsumed anchor in scope with the same content hash, at
    another path or absent from the path index; the least id wins. *)
Definition move_allowed (reg : IdentityRegistry) (e : Entity) (cid : DurableId) : bool :=
  match get reg cid with
  | Some a =>
      bool_decide (a_qualified_path a ≠ e_qualified_path e) ||
      bool_decide (by_path reg (a_qualified_path a) = None)
  | None => false
  end.

Definition hash_candidates (reg : IdentityRegistry) (scope : option (gset string))
    (bound : gset string) (e : Entity) : list DurableId :=
  filter (λ cid, move_allowed reg e cid)
    (filter (λ cid, anchor_in_scope reg cid scope)
       (filter (λ cid, cid ∉ bound) (by_hash reg (e_content_hash e)))).

Definition pass_b_step (reg : IdentityRegistry) (scope : option (gset string))
    (st : RState) (ie : nat * Entity) : RState :=
  let '(idx, e) := ie in
  if bool_decide (idx ∈ matched_entities st) then st
  else
    match head (sort_by str_le (hash_candidates reg scope (bound_ids st) e)) with
    | Some id =>
        let '(old_path, old_hash) :=
          match get reg id with
          | Some a => (a_qualified_path a, a_content_hash a)
          | None => ("", e_content_hash e)
          end in
        bind_entity st idx e (Moved id old_path old_hash) false
    | None => st
    end.

(** Pass C: an unconsumed anchor in scope with the same name, kind and
    container; the least edit distance between paths wins, then the least id. *)
Definition struct_match (reg : IdentityRegistry) (scope : option (gset string))
    (bound : gset string) (e : Entity) (id : DurableId) (a : Anchor) : Prop :=
  id ∉ bound ∧ anchor_in_scope reg id scope ∧ anchor_name a = e_name e ∧
  a_kind a = e_kind e ∧ anchor_container a = e_container e.

#[global] Instance struct_match_dec reg scope bound e id a :
  Decision (struct_match reg scope bound e id a).
Proof. unfold struct_match. apply _. Defined.

Definition struct_candidates (reg : IdentityRegistry) (scope : option (gset string))
    (bound : gset string) (e : Entity) : list (DurableId * nat) :=
  (λ ia, (ia.1, edit_distance (a_qualified_path ia.2) (e_qualified_path e))) <$>
  filter (λ ia, struct_match reg scope bound e ia.1 ia.2) (map_to_list (r_by_id reg)).

Definition candidate_le (x y : DurableId * nat) : bool :=
  if bool_decide (x.2 = y.2) then str_le x.1 y.1 else x.2 <=? y.2.

Definition pass_c_step (reg : IdentityRegistry) (scope : option (gset string))
    (st : RState) (ie : nat * Entity) : RState :=
  let '(idx, e) := ie in
  if bool_decide (idx ∈ matched_entities st) then st
  else
    match head (sort_by candidate_le (struct_candidates reg scope (bound_ids st) e)) with
    | Some (id, _) =>
        let old_hash := default (e_content_hash e) (a_content_hash <$> get reg id) in
        bind_entity st idx e (Struct id Low old_hash) true
    | None => st
    end.

Section reconcile.
(** [DurableId::mint] draws a new ULID; [mint n] is the [n]-th draw. *)
Context (mint : nat → DurableId).

(** Pass D: every remaining entity gets a new id. *)
Definition pass_d_step (sn : RState * nat) (ie : nat * Entity) : RState * nat :=
  let '(st, n) := sn in
  let '(idx, e) := ie in
  if bool_decide (idx ∈ matched_entities st) then (st, n)
  else (bind_entity st idx e (Minted (mint n)) false, S n).

Definition enumerate {A} (l : list A) : list (nat * A) := imap pair l.

Definition run_passes (reg : IdentityRegistry) (scope : option (gset string))
    (n : nat) (sorted : list Entity) : RState * nat :=
  let st := foldl (pass_a_step reg) rstate_init (enumerate sorted) in
  let st := foldl (pass_b_step reg scope) st (enumerate sorted) in
  let st := foldl (pass_c_step reg scope) st (enumerate sorted) in
  foldl pass_d_step (st, n) (enumerate sorted).

(** ** Applying the bindings *)

(** One entity of the apply loop.  The lookup in [bindings_by_path] is an
    [expect]: [None] is a panic. *)
Definition apply_binding (rev : Revision) (st : RState) (reg : IdentityRegistry) (e : Entity)
    (b : Binding) : IdentityRegistry :=
  match b with
  | Exact id _ | Moved id _ _ | Struct id _ _ =>
      let reg := rebind reg id (e_qualified_path e) (e_content_hash e) rev in
      if bool_decide (id ∈ needs_review st) then reg else set_status reg id Active
  | Minted id =>
      insert reg (mkAnchor id (e_qualified_path e) (e_content_hash e) (e_kind e) rev rev Active)
  end.

Fixpoint apply_loop (rev : Revision) (st : RState) (reg : IdentityRegistry)
    (sorted : list Entity) : option IdentityRegistry :=
  match sorted with
  | [] => Some reg
  | e :: es =>
      match bindings_by_path st !! e_qualified_path e with
      | Some b => apply_loop rev st (apply_binding rev st reg e b) es
      | None => None
      end
  end.

Definition flag_reviews (reg : IdentityRegistry) (ids : list DurableId) : IdentityRegistry :=
  foldl (λ reg id, set_status reg id NeedsReview) reg ids.

(** One id of the retirement loop. *)
Definition retire_step (rev : Revision) (scope : option (gset string)) (bound : gset string)
    (acc : IdentityRegistry * list DurableId) (id : DurableId) :
    IdentityRegistry * list DurableId :=
  let '(reg, retired) := acc in
  if bool_decide (id ∈ bound) then (reg, retired)
  else if negb (anchor_in_scope reg id scope) then (reg, retired)
  else if match get reg id with Some a => bool_decide (a_status a = Orphaned) | None => false end
  then (reg, retired)
  else (retire reg id rev, retired ++ [id]).

(** [by_id.keys()] enumerates a hash map, in an unspecified order; the model fixes
    one.  The order shows in the list of retired ids and nowhere else
    ([ReconcileFacts.retire_order]). *)
Definition all_ids (reg : IdentityRegistry) : list DurableId := elements (dom (r_by_id reg)).

Definition reconcile_impl (reg : IdentityRegistry) (entities : list Entity) (rev : Revision)
    (scope : option (gset string)) (n : nat) :
    option (IdentityRegistry * Reconciliation * nat) :=
  let sorted := sort_by entity_le entities in
  let '(st, n') := run_passes reg scope n sorted in
  match apply_loop rev st reg sorted with
  | None => None
  | Some reg1 =>
      let reg2 := flag_reviews reg1 (needs_review st) in
      let '(reg3, retired) :=
        foldl (retire_step rev scope (bound_ids st)) (reg2, []) (all_ids reg2) in
      Some (reg3, mkReconciliation (bindings st) retired (needs_review st), n')
  end.

Definition reconcile (reg : IdentityRegistry) (entities : list Entity) (rev : Revision) (n : nat) :=
  reconcile_impl reg entities rev None n.

Definition reconcile_scoped (reg : IdentityRegistry) (entities : list Entity) (rev : Revision)
    (scope : gset string) (n : nat) :=
  reconcile_impl reg entities rev (Some scope) n.

End reconcile.
