(* ===== verification/ReconcileFacts.v ===== *)
(** * Correctness of reconciliation

    The passes are shown to take [bind_step]s; the facts about bindings are
    proved by induction on these steps, the facts about the registry by
    induction on the apply and retirement loops. *)

From S2P Require Import Prelude Str Paths Content Identity EditDistance Reconcile.
Import Registry.

(** ** What a binding means *)

(** [justified reg scope mint lo hi e b]: binding [b] of entity [e] is what
    one of the four rules allows. *)
Definition justified (reg : IdentityRegistry) (scope : option (gset string))
    (minted : DurableId → Prop) (e : Entity) (b : Binding) : Prop :=
  match b with
  | Exact id old_hash =>
      by_path reg (e_qualified_path e) = Some id ∧
      old_hash = default (e_content_hash e) (a_content_hash <$> get reg id)
  | Moved id old_path old_hash =>
      ∃ a, get reg id = Some a ∧ a_qualified_path a = old_path ∧ a_content_hash a = old_hash ∧
        id ∈ by_hash reg (e_content_hash e) ∧ anchor_in_scope reg id scope ∧
        (old_path ≠ e_qualified_path e ∨ by_path reg old_path = None)
  | Struct id _ old_hash =>
      ∃ a, get reg id = Some a ∧ a_content_hash a = old_hash ∧ anchor_in_scope reg id scope ∧
        anchor_name a = e_name e ∧ a_kind a = e_kind e ∧ anchor_container a = e_container e
  | Minted id => minted id
  end.

(** Whether a binding is flagged for review. *)
Definition flagged (e : Entity) (b : Binding) : bool :=
  match b with
  | Exact _ old_hash => bool_decide (old_hash ≠ e_content_hash e)
  | Struct _ _ _ => true
  | _ => false
  end.

Inductive bind_step (reg : IdentityRegistry) (scope : option (gset string))
    (minted : DurableId → Prop) (es : list Entity) : RState → RState → Prop :=
| BindStep st idx e b :
    es !! idx = Some e → idx ∉ matched_entities st → binding_id b ∉ bound_ids st →
    justified reg scope minted e b →
    bind_step reg scope minted es st (bind_entity st idx e b (flagged e b)).

Lemma elem_of_enumerate {A} (l : list A) i x : (i, x) ∈ enumerate l ↔ l !! i = Some x.
Proof.
  unfold enumerate. rewrite list_elem_of_lookup. setoid_rewrite list_lookup_imap. split.
  - intros (j & Hj). destruct (l !! j) eqn:E; simplify_eq/=. done.
  - intros H. exists i. by rewrite H.
Qed.

Lemma foldl_rtc {A S} (R : relation S) (f : S → A → S) s l :
  (∀ s x, x ∈ l → f s x = s ∨ R s (f s x)) → rtc R s (foldl f s l).
Proof.
  intros Hf. apply (foldl_ind (λ s', rtc R s s')); [done|].
  intros s' x Hx Hs. destruct (Hf s' x Hx) as [->|HR]; [done|]. by eapply rtc_r.
Qed.

Section passes.
Context (reg : IdentityRegistry) (scope : option (gset string)).
Context (minted : DurableId → Prop) (es : list Entity).

Lemma pass_a_bind st ie :
  ie ∈ enumerate es →
  pass_a_step reg st ie = st ∨ bind_step reg scope minted es st (pass_a_step reg st ie).
Proof.
  destruct ie as [idx e]. intros Hin%elem_of_enumerate. unfold pass_a_step.
  case_bool_decide; [by left|].
  destruct (by_path reg (e_qualified_path e)) as [id|] eqn:E; [|by left].
  case_bool_decide; [by left|]. right.
  apply (BindStep _ _ _ _ _ _ _ (Exact id _)); simpl; auto.
Qed.

Lemma elem_of_head {A} (l : list A) x : head l = Some x → x ∈ l.
Proof. destruct l; simpl; intros; simplify_eq. left. Qed.

Lemma elem_of_hash_candidates bound e cid :
  cid ∈ hash_candidates reg scope bound e ↔
    move_allowed reg e cid ∧ anchor_in_scope reg cid scope ∧ cid ∉ bound ∧
    cid ∈ by_hash reg (e_content_hash e).
Proof. unfold hash_candidates. by rewrite !list_elem_of_filter. Qed.

Lemma move_allowed_spec e cid :
  move_allowed reg e cid ↔
    ∃ a, get reg cid = Some a ∧
      (a_qualified_path a ≠ e_qualified_path e ∨ by_path reg (a_qualified_path a) = None).
Proof.
  unfold move_allowed. destruct (get reg cid) as [a|]; [|naive_solver].
  rewrite orb_True, !bool_decide_spec. naive_solver.
Qed.

Lemma pass_b_bind st ie :
  ie ∈ enumerate es →
  pass_b_step reg scope st ie = st ∨
  bind_step reg scope minted es st (pass_b_step reg scope st ie).
Proof.
  destruct ie as [idx e]. intros Hin%elem_of_enumerate. unfold pass_b_step.
  case_bool_decide; [by left|].
  destruct (head _) as [id|] eqn:E; [|by left]. right.
  apply elem_of_head, elem_of_sort_by, elem_of_hash_candidates in E
    as ((a & Ha & Hpath)%move_allowed_spec & Hsc & Hnb & Hh).
  rewrite Ha. apply (BindStep _ _ _ _ _ _ _ (Moved id _ _)); simpl; auto.
  exists a. naive_solver.
Qed.

Lemma elem_of_struct_candidates bound e id d :
  (id, d) ∈ struct_candidates reg scope bound e ↔
    ∃ a, get reg id = Some a ∧ struct_match reg scope bound e id a ∧
      d = edit_distance (a_qualified_path a) (e_qualified_path e).
Proof.
  unfold struct_candidates. rewrite list_elem_of_fmap. split.
  - intros ([id' a] & [=-> ->] & [Hm Hin]%list_elem_of_filter). simpl in *.
    apply elem_of_map_to_list in Hin. eauto.
  - intros (a & Ha & Hm & ->). exists (id, a). split; [done|].
    apply list_elem_of_filter. split; [done|]. by apply elem_of_map_to_list.
Qed.

Lemma pass_c_bind st ie :
  ie ∈ enumerate es →
  pass_c_step reg scope st ie = st ∨
  bind_step reg scope minted es st (pass_c_step reg scope st ie).
Proof.
  destruct ie as [idx e]. intros Hin%elem_of_enumerate. unfold pass_c_step.
  case_bool_decide; [by left|].
  destruct (head _) as [[id d]|] eqn:E; [|by left]. right.
  apply elem_of_head, elem_of_sort_by, elem_of_struct_candidates in E
    as (a & Ha & (Hnb & Hsc & Hn & Hk & Hc) & _).
  rewrite Ha. apply (BindStep _ _ _ _ _ _ _ (Struct id Low _)); simpl; auto.
  exists a. naive_solver.
Qed.
End passes.

(** ** Invariant of the passes *)

(** [assigned]: the ghost list of (entity index, binding) in binding order. *)
Record passes_inv (reg : IdentityRegistry) (scope : option (gset string))
    (minted : DurableId → Prop) (es : list Entity) (st : RState)
    (assigned : list (nat * Entity * Binding)) : Prop := {
  pi_bindings : bindings st = (λ x, (e_qualified_path x.1.2, x.2)) <$> assigned;
  pi_entity : ∀ i e b, (i, e, b) ∈ assigned → es !! i = Some e ∧ justified reg scope minted e b;
  pi_matched : ∀ i, i ∈ matched_entities st ↔ i ∈ (λ x, x.1.1) <$> assigned;
  pi_bound : ∀ id, id ∈ bound_ids st ↔ id ∈ (λ x, binding_id x.2) <$> assigned;
  pi_nodup_idx : NoDup ((λ x, x.1.1) <$> assigned);
  pi_nodup_id : NoDup ((λ x, binding_id x.2) <$> assigned);
  pi_by_path : ∀ p, is_Some (bindings_by_path st !! p) ↔
    p ∈ (λ x, e_qualified_path x.1.2) <$> assigned;
  pi_by_path_sound : ∀ p b, bindings_by_path st !! p = Some b →
    ∃ i e, (i, e, b) ∈ assigned ∧ e_qualified_path e = p;
  pi_review : ∀ id, id ∈ needs_review st ↔
    ∃ i e b, (i, e, b) ∈ assigned ∧ flagged e b ∧ binding_id b = id;
}.

Section passes_inv.
Context (reg : IdentityRegistry) (scope : option (gset string)).
Context (minted : DurableId → Prop) (es : list Entity).

Lemma passes_inv_init : passes_inv reg scope minted es rstate_init [].
Proof.
  split; simpl; try (done || set_solver); try apply NoDup_nil_2.
  intros p. rewrite lookup_empty, is_Some_alt. set_solver.
Qed.

Lemma bind_step_inv st st' asg :
  passes_inv reg scope minted es st asg → bind_step reg scope minted es st st' →
  ∃ x, passes_inv reg scope minted es st' (asg ++ [x]).
Proof.
  intros Hinv Hstep. destruct Hstep as [st idx e b He Hidx Hid Hj].
  exists (idx, e, b). split; simpl.
  - by rewrite (pi_bindings _ _ _ _ _ _ Hinv), fmap_app.
  - intros i e' b' [Hin|[=-> -> ->]%list_elem_of_singleton]%elem_of_app; [|done].
    by apply (pi_entity _ _ _ _ _ _ Hinv).
  - intros i. rewrite fmap_app, elem_of_app, <- (pi_matched _ _ _ _ _ _ Hinv). set_solver.
  - intros id. rewrite fmap_app, elem_of_app, <- (pi_bound _ _ _ _ _ _ Hinv). set_solver.
  - rewrite fmap_app. apply NoDup_app. split; [apply Hinv|]. split; [|apply NoDup_singleton].
    intros i Hi ->%list_elem_of_singleton. by apply Hidx, (pi_matched _ _ _ _ _ _ Hinv).
  - rewrite fmap_app. apply NoDup_app. split; [apply Hinv|]. split; [|apply NoDup_singleton].
    intros i Hi ->%list_elem_of_singleton. by apply Hid, (pi_bound _ _ _ _ _ _ Hinv).
  - intros p. rewrite fmap_app, elem_of_app, <- (pi_by_path _ _ _ _ _ _ Hinv).
    rewrite lookup_insert. case_decide; simpl; [set_solver|].
    rewrite list_elem_of_singleton. naive_solver.
  - intros p b'. rewrite lookup_insert. case_decide; intros Hp; simplify_eq.
    + exists idx, e. set_solver.
    + apply (pi_by_path_sound _ _ _ _ _ _ Hinv) in Hp as (i & e' & ? & ?).
      exists i, e'. set_solver.
  - intros id.
    transitivity (id ∈ needs_review st ∨ (flagged e b ∧ binding_id b = id)).
    { destruct (flagged e b); set_solver. }
    rewrite (pi_review _ _ _ _ _ _ Hinv). split.
    + intros [(i&e'&b'&?&?&?)|[? ?]]; [exists i, e', b'|exists idx, e, b]; set_solver.
    + intros (i&e'&b'&[?|[=-> -> ->]%list_elem_of_singleton]%elem_of_app&?&?);
        [left; eauto 10|by right].
Qed.

Lemma bind_steps_inv st st' asg :
  rtc (bind_step reg scope minted es) st st' → passes_inv reg scope minted es st asg →
  ∃ new, passes_inv reg scope minted es st' (asg ++ new).
Proof.
  intros Hsteps. revert asg.
  induction Hsteps as [|st st1 st2 Hstep _ IH]; intros asg Hinv.
  { exists []. by rewrite app_nil_r. }
  destruct (bind_step_inv _ _ _ Hinv Hstep) as [x Hinv1].
  destruct (IH _ Hinv1) as [new Hinv2]. exists ([x] ++ new). by rewrite app_assoc.
Qed.
End passes_inv.

Definition is_minted (b : Binding) : bool :=
  match b with Minted _ => true | _ => false end.

Lemma justified_mono reg scope (P Q : DurableId → Prop) e b :
  (∀ id, P id → Q id) → justified reg scope P e b → justified reg scope Q e b.
Proof. destruct b; simpl; auto. Qed.

Lemma passes_inv_mono reg scope (P Q : DurableId → Prop) es st asg :
  (∀ id, P id → Q id) → passes_inv reg scope P es st asg → passes_inv reg scope Q es st asg.
Proof.
  intros HPQ []. split; try done.
  intros i e b Hin. destruct (pi_entity0 i e b Hin). eauto using justified_mono.
Qed.

Lemma justified_known reg scope e b :
  registry_ok reg → justified reg scope (λ _, False) e b → is_Some (get reg (binding_id b)).
Proof.
  intros Hok. destruct b as [id h|id p h|id c h|id]; simpl; [|naive_solver..].
  intros [(a & Ha & _)%(ok_path reg Hok) _]. by exists a.
Qed.

Lemma justified_minted reg scope e b :
  registry_ok reg → justified reg scope (λ id, get reg id = None) e b →
  is_minted b ↔ get reg (binding_id b) = None.
Proof.
  intros Hok Hj. destruct b as [id h|id p h|id c h|id]; simpl in *; try naive_solver.
  destruct Hj as [(a & Ha & _)%(ok_path _ Hok) _]. unfold get. rewrite Ha. naive_solver.
Qed.

(** ** Pass D and the whole run *)

Section mint.
Context (mint : nat → DurableId).

(** ULIDs are never drawn twice, and never equal a registered id. *)
Definition mint_fresh (reg : IdentityRegistry) (n : nat) : Prop :=
  ∀ k, n ≤ k → get reg (mint k) = None.

Definition minted_between (lo hi : nat) (id : DurableId) : Prop :=
  ∃ k, lo ≤ k < hi ∧ id = mint k.

Context (Hinj : Inj (=) (=) mint).

Definition pass_d_inv reg scope es (n : nat) (sn : RState * nat) : Prop :=
  n ≤ sn.2 ∧
  (∀ id, id ∈ bound_ids sn.1 → is_Some (get reg id) ∨ minted_between n sn.2 id) ∧
  ∃ asg, passes_inv reg scope (minted_between n sn.2) es sn.1 asg.

Lemma pass_d_step_inv reg scope es n sn ie :
  mint_fresh reg n → ie ∈ enumerate es →
  pass_d_inv reg scope es n sn → pass_d_inv reg scope es n (pass_d_step mint sn ie).
Proof.
  destruct sn as [st c], ie as [idx e]. intros Hfresh Hin%elem_of_enumerate (Hle & Hb & asg & Hinv).
  unfold pass_d_step. case_bool_decide; [by split; [|split]; eauto|]. simpl in *.
  assert (∀ id, minted_between n c id → minted_between n (S c) id) as Hmono.
  { intros id (k & ? & ->). exists k. split; [lia|done]. }
  assert (mint c ∉ bound_ids st) as Hnew.
  { intros [[a Ha]|(k & Hk & Heq)]%Hb; [by rewrite Hfresh in Ha by lia|].
    apply Hinj in Heq. lia. }
  split; [simpl; lia|split].
  - intros id. simpl. rewrite elem_of_union, elem_of_singleton.
    intros [->|Hid]; [right; exists c; split; [lia|done]|].
    destruct (Hb id Hid); auto.
  - apply (passes_inv_mono _ _ _ (minted_between n (S c))) in Hinv; [|done].
    destruct (bind_step_inv _ _ _ _ _ (bind_entity st idx e (Minted (mint c)) false) _ Hinv)
      as [x Hx]; [|by eexists].
    apply (BindStep _ _ _ _ _ _ _ (Minted (mint c))); simpl; auto.
    exists c. split; [lia|done].
Qed.

Lemma pass_d_matched l sn :
  matched_entities sn.1 ⊆ matched_entities (foldl (pass_d_step mint) sn l).1 ∧
  ∀ i e, (i, e) ∈ l → i ∈ matched_entities (foldl (pass_d_step mint) sn l).1.
Proof.
  clear Hinj. revert sn. induction l as [|[i e] l IH]; intros sn; [set_solver|]. cbn [foldl].
  destruct (IH (pass_d_step mint sn (i, e))) as [IH1 IH2].
  assert (matched_entities sn.1 ⊆ matched_entities (pass_d_step mint sn (i, e)).1 ∧
          i ∈ matched_entities (pass_d_step mint sn (i, e)).1) as [Hsub Hi].
  { destruct sn as [st c]. unfold pass_d_step. case_bool_decide; simpl; set_solver. }
  split; [set_solver|]. intros j e' [[=-> ->]|Hj]%elem_of_cons; [by apply IH1|eauto].
Qed.

(** The state after passes A, B and C. *)
Definition run_abc reg scope es : RState :=
  foldl (pass_c_step reg scope)
    (foldl (pass_b_step reg scope)
      (foldl (pass_a_step reg) rstate_init (enumerate es)) (enumerate es)) (enumerate es).

Lemma run_abc_steps reg scope minted es :
  rtc (bind_step reg scope minted es)
    (foldl (pass_a_step reg) rstate_init (enumerate es)) (run_abc reg scope es).
Proof.
  unfold run_abc. etrans; [|apply foldl_rtc; intros; by apply pass_c_bind].
  apply foldl_rtc. intros. by apply pass_b_bind.
Qed.

Lemma pass_a_steps reg scope minted es :
  rtc (bind_step reg scope minted es) rstate_init
    (foldl (pass_a_step reg) rstate_init (enumerate es)).
Proof. apply foldl_rtc. intros. by apply pass_a_bind. Qed.

Lemma run_passes_inv reg scope n es :
  registry_ok reg → mint_fresh reg n →
  pass_d_inv reg scope es n (run_passes mint reg scope n es).
Proof.
  intros Hok Hfresh. unfold run_passes. fold (run_abc reg scope es).
  destruct (bind_steps_inv reg scope (λ _, False) es rstate_init (run_abc reg scope es) [])
    as [asg Hasg].
  { etrans; [apply pass_a_steps|apply run_abc_steps]. }
  { apply passes_inv_init. }
  apply (foldl_ind (pass_d_inv reg scope es n)).
  - split; [done|split].
    + intros id. rewrite (pi_bound _ _ _ _ _ _ Hasg), list_elem_of_fmap.
      intros ([[i e] b] & -> & Hin). left. eapply justified_known; [done|].
      by apply (pi_entity _ _ _ _ _ _ Hasg) in Hin as [_ ?].
    + exists ([] ++ asg). by eapply passes_inv_mono; [|exact Hasg].
  - intros sn ie Hie. by apply pass_d_step_inv.
Qed.

Lemma run_passes_matched reg scope n es i :
  i < length es → i ∈ matched_entities (run_passes mint reg scope n es).1.
Proof.
  intros [e He]%lookup_lt_is_Some. unfold run_passes.
  eapply pass_d_matched. by apply elem_of_enumerate.
Qed.

(** Every entity is assigned exactly one binding. *)
Lemma assigned_perm reg scope minted es st asg :
  passes_inv reg scope minted es st asg →
  (∀ i, i < length es → i ∈ matched_entities st) →
  (λ x, x.1) <$> asg ≡ₚ enumerate es.
Proof.
  intros Hinv Hall. apply NoDup_Permutation.
  - eapply NoDup_fmap_1. rewrite <- list_fmap_compose. apply (pi_nodup_idx _ _ _ _ _ _ Hinv).
  - apply NoDup_alt. intros i j x. unfold enumerate. rewrite !list_lookup_imap.
    destruct (es !! i), (es !! j); intros; simplify_eq/=; done.
  - intros [i e]. rewrite elem_of_enumerate, list_elem_of_fmap. split.
    + intros ([[i' e'] b] & [=<- <-] & Hin).
      by apply (pi_entity _ _ _ _ _ _ Hinv) in Hin as [? _].
    + intros He. assert (i ∈ matched_entities st) as Hi.
      { apply Hall. by eapply lookup_lt_Some. }
      rewrite (pi_matched _ _ _ _ _ _ Hinv) in Hi.
      apply list_elem_of_fmap in Hi as ([[i' e'] b] & -> & Hin). simpl in *.
      pose proof Hin as [He' _]%(pi_entity _ _ _ _ _ _ Hinv). simplify_eq.
      by eexists (_, _, b).
Qed.
End mint.

(** ** Applying one binding *)

(** The anchor a bound entity ends with.  A known anchor keeps its kind and
    the revision it was first seen at. *)
Definition bound_anchor (reg : IdentityRegistry) (rev : Revision) (e : Entity) (b : Binding)
    (status : IdentityStatus) : Anchor :=
  match get reg (binding_id b) with
  | Some a => mkAnchor (binding_id b) (e_qualified_path e) (e_content_hash e) (a_kind a)
                (a_first_seen_rev a) rev status
  | None => mkAnchor (binding_id b) (e_qualified_path e) (e_content_hash e) (e_kind e)
              rev rev status
  end.

(** Its status between the apply loop and the review loop. *)
Definition applied_status (reg : IdentityRegistry) (st : RState) (b : Binding) : IdentityStatus :=
  match get reg (binding_id b) with
  | Some a => if bool_decide (binding_id b ∈ needs_review st) then a_status a else Active
  | None => Active
  end.

Lemma bound_anchor_path reg rev e b s : a_qualified_path (bound_anchor reg rev e b s) = e_qualified_path e.
Proof. unfold bound_anchor. by destruct (get reg (binding_id b)). Qed.

Lemma bound_anchor_hash reg rev e b s : a_content_hash (bound_anchor reg rev e b s) = e_content_hash e.
Proof. unfold bound_anchor. by destruct (get reg (binding_id b)). Qed.

Lemma bound_anchor_id reg rev e b s : a_id (bound_anchor reg rev e b s) = binding_id b.
Proof. unfold bound_anchor. by destruct (get reg (binding_id b)). Qed.

Lemma set_status_get r id st id' :
  get (set_status r id st) id' =
    if decide (id = id') then
      (λ a, mkAnchor (a_id a) (a_qualified_path a) (a_content_hash a) (a_kind a)
              (a_first_seen_rev a) (a_last_seen_rev a) st) <$> get r id
    else get r id'.
Proof.
  unfold set_status, get. destruct (r_by_id r !! id) as [a|] eqn:E; simpl.
  - rewrite lookup_insert. by case_decide; subst.
  - case_decide; subst; [by rewrite E|done].
Qed.

Lemma set_status_rekey r id a st :
  set_status (rekey r id a) id st =
    rekey r id (mkAnchor (a_id a) (a_qualified_path a) (a_content_hash a) (a_kind a)
                  (a_first_seen_rev a) (a_last_seen_rev a) st).
Proof.
  unfold set_status. rewrite rekey_by_id, lookup_insert_eq, insert_insert_eq.
  unfold rekey. by destruct (r_by_id r !! id).
Qed.

Lemma apply_binding_rekey reg rev st r e b :
  registry_ok r → get r (binding_id b) = get reg (binding_id b) →
  (is_minted b ↔ get reg (binding_id b) = None) →
  apply_binding rev st r e b =
    rekey r (binding_id b) (bound_anchor reg rev e b (applied_status reg st b)).
Proof.
  intros Hok Hget Hm. unfold bound_anchor, applied_status.
  destruct (get reg (binding_id b)) as [a|] eqn:E.
  - pose proof (ok_ids r Hok _ _ Hget) as Hid.
    destruct b as [id h|id p h|id c h|id]; simpl in *;
      [..|by pose proof (proj1 Hm I)]; erewrite rebind_rekey by done; rewrite Hid;
      (case_bool_decide; [done|]); by rewrite set_status_rekey.
  - destruct b; simpl in *; try by destruct (proj2 Hm eq_refl).
Qed.

Lemma flag_reviews_spec r ids :
  registry_ok r →
  registry_ok (flag_reviews r ids) ∧
  r_by_path (flag_reviews r ids) = r_by_path r ∧
  ∀ id, get (flag_reviews r ids) id =
    if decide (id ∈ ids) then
      (λ a, mkAnchor (a_id a) (a_qualified_path a) (a_content_hash a) (a_kind a)
              (a_first_seen_rev a) (a_last_seen_rev a) NeedsReview) <$> get r id
    else get r id.
Proof.
  revert r. induction ids as [|i ids IH]; intros r Hok; simpl; [done|].
  destruct (IH (set_status r i NeedsReview) ltac:(auto with tyo3)) as (Hok' & Hp & Hg).
  split; [done|split].
  - rewrite Hp. unfold set_status. by destruct (r_by_id r !! i).
  - intros id. rewrite Hg, set_status_get.
    repeat case_decide; subst; try set_solver; by destruct (get r id).
Qed.

(** ** The plan the passes produce *)

(** Entity [e] may take over anchor [a] by the hash or the structure rule. *)
Definition claims (e : Entity) (a : Anchor) : Prop :=
  e_content_hash e = a_content_hash a ∨
  anchor_name a = e_name e ∧ a_kind a = e_kind e ∧ anchor_container a = e_container e.

(** Every anchor that carries the path of a new entity is the one the path
    index gives for it, or a retired one that no entity elsewhere claims. *)
Definition no_stale_path (reg : IdentityRegistry) (es : list Entity) : Prop :=
  ∀ id a e, get reg id = Some a → e ∈ es → a_qualified_path a = e_qualified_path e →
    by_path reg (e_qualified_path e) = Some id ∨
    a_status a = Orphaned ∧ ∀ e', e' ∈ es → claims e' a → e_qualified_path e' = a_qualified_path a.

Record plan (reg : IdentityRegistry) (scope : option (gset string)) (es : list Entity)
    (st : RState) (asg : list (nat * Entity * Binding)) : Prop := {
  plan_ok : registry_ok reg;
  plan_inv : passes_inv reg scope (λ id, get reg id = None) es st asg;
  plan_all : ∀ i e, es !! i = Some e → ∃ b, (i, e, b) ∈ asg;
  plan_uniq : NoDup (e_qualified_path <$> es);
  plan_exact : ∀ i e id, es !! i = Some e → by_path reg (e_qualified_path e) = Some id →
    ∃ h, (i, e, Exact id h) ∈ asg;
}.

Section plan.
Context (reg : IdentityRegistry) (scope : option (gset string)) (es : list Entity).
Context (st : RState) (asg : list (nat * Entity * Binding)).
Context (Hplan : plan reg scope es st asg).

Lemma plan_entity i e b : (i, e, b) ∈ asg → es !! i = Some e.
Proof. intros H. by apply (pi_entity _ _ _ _ _ _ (plan_inv _ _ _ _ _ Hplan)) in H as [? _]. Qed.

Lemma plan_justified i e b :
  (i, e, b) ∈ asg → justified reg scope (λ id, get reg id = None) e b.
Proof. intros H. by apply (pi_entity _ _ _ _ _ _ (plan_inv _ _ _ _ _ Hplan)) in H as [_ ?]. Qed.

Lemma NoDup_fmap_eq {A B} (f : A → B) (l : list A) x y :
  NoDup (f <$> l) → x ∈ l → y ∈ l → f x = f y → x = y.
Proof.
  intros Hnd [i Hi]%list_elem_of_lookup [j Hj]%list_elem_of_lookup Hf.
  assert (i = j) as ->; [|congruence].
  eapply (NoDup_lookup _ i j (f x)); [done|..]; rewrite list_lookup_fmap.
  - by rewrite Hi.
  - by rewrite Hj, Hf.
Qed.

Lemma plan_id_inj x y : x ∈ asg → y ∈ asg → binding_id x.2 = binding_id y.2 → x = y.
Proof.
  intros Hx Hy. apply (NoDup_fmap_eq (λ x, binding_id x.2) asg); auto.
  apply (pi_nodup_id _ _ _ _ _ _ (plan_inv _ _ _ _ _ Hplan)).
Qed.

Lemma plan_path_inj i e b i' e' b' :
  (i, e, b) ∈ asg → (i', e', b') ∈ asg → e_qualified_path e = e_qualified_path e' →
  i = i' ∧ e = e' ∧ b = b'.
Proof.
  intros Hx Hy Hp. pose proof (plan_entity _ _ _ Hx) as Hi. pose proof (plan_entity _ _ _ Hy) as Hj.
  assert (i = i') as ->.
  { eapply (NoDup_lookup _ _ _ (e_qualified_path e) (plan_uniq _ _ _ _ _ Hplan));
      rewrite list_lookup_fmap; [by rewrite Hi|by rewrite Hj, Hp]. }
  assert ((i', e, b) = (i', e', b')); [|naive_solver].
  apply (NoDup_fmap_eq (λ x, x.1.1) asg); auto.
  apply (pi_nodup_idx _ _ _ _ _ _ (plan_inv _ _ _ _ _ Hplan)).
Qed.

Lemma plan_lookup i e b : (i, e, b) ∈ asg → bindings_by_path st !! e_qualified_path e = Some b.
Proof.
  intros Hin. pose proof (plan_inv _ _ _ _ _ Hplan) as Hinv.
  destruct (proj2 (pi_by_path _ _ _ _ _ _ Hinv (e_qualified_path e))) as [b' Hb'].
  { apply list_elem_of_fmap. by exists (i, e, b). }
  rewrite Hb'. apply (pi_by_path_sound _ _ _ _ _ _ Hinv) in Hb' as (i' & e' & Hin' & Hp).
  by destruct (plan_path_inj _ _ _ _ _ _ Hin Hin' (eq_sym Hp)) as (-> & -> & ->).
Qed.

Lemma plan_minted i e b : (i, e, b) ∈ asg → is_minted b ↔ get reg (binding_id b) = None.
Proof. intros Hj%plan_justified. eapply justified_minted; [apply Hplan|done]. Qed.

Context (Hstale : no_stale_path reg es).

(** The old path of a bound anchor is no other entity's path. *)
Lemma plan_old_path x y a :
  x ∈ asg → y ∈ asg → get reg (binding_id x.2) = Some a →
  a_qualified_path a = e_qualified_path y.1.2 → x = y.
Proof.
  destruct x as [[i e] b], y as [[i' e'] b']. simpl. intros Hx Hy Ha Hp.
  assert (e' ∈ es) as He'. { apply list_elem_of_lookup. eauto using plan_entity. }
  assert (e ∈ es) as He. { apply list_elem_of_lookup. eauto using plan_entity. }
  destruct (Hstale _ _ _ Ha He' Hp) as [Hbp|[_ Hcl]].
  - destruct (plan_exact _ _ _ _ _ Hplan i' e' _ (plan_entity _ _ _ Hy) Hbp) as [h Hex].
    pose proof (plan_id_inj _ _ Hx Hex eq_refl) as [= -> -> ->].
    by destruct (plan_path_inj _ _ _ _ _ _ Hy Hex eq_refl) as (_ & _ & ->).
  - assert (e_qualified_path e = e_qualified_path e') as Heq.
    { rewrite <- Hp. pose proof (plan_justified _ _ _ Hx) as Hj.
      pose proof (plan_ok _ _ _ _ _ Hplan) as Hok.
      destruct b as [id h|id p h|id c h|id]; simpl in *.
      - destruct Hj as [(a' & Ha' & <-)%(ok_path _ Hok) _]. unfold get in Ha. naive_solver.
      - destruct Hj as (_ & _ & _ & _ & (a' & Ha' & Hh)%(ok_hash _ Hok) & _).
        unfold get in Ha. apply Hcl; [done|]. left. naive_solver.
      - destruct Hj as (a' & Ha' & _ & _ & Hm). apply Hcl; [done|]. right. naive_solver.
      - congruence. }
    by destruct (plan_path_inj _ _ _ _ _ _ Hx Hy Heq) as (-> & -> & ->).
Qed.
End plan.

(** ** The apply loop *)

Section apply.
Context (reg : IdentityRegistry) (scope : option (gset string)) (es : list Entity).
Context (st : RState) (asg : list (nat * Entity * Binding)) (rev : Revision).
Context (Hplan : plan reg scope es st asg) (Hstale : no_stale_path reg es).

(** The registry after the loop has handled the entities [done_]. *)
Record applied (done_ : list Entity) (r : IdentityRegistry) : Prop := {
  ap_ok : registry_ok r;
  ap_path : ∀ i e b, (i, e, b) ∈ asg → e ∈ done_ →
    by_path r (e_qualified_path e) = Some (binding_id b);
  ap_get : ∀ i e b, (i, e, b) ∈ asg → e ∈ done_ →
    get r (binding_id b) = Some (bound_anchor reg rev e b (applied_status reg st b));
  ap_frame : ∀ id, (∀ i e b, (i, e, b) ∈ asg → e ∈ done_ → binding_id b ≠ id) →
    get r id = get reg id;
  ap_path_frame : ∀ p, p ∉ e_qualified_path <$> done_ →
    by_path r p = by_path reg p ∨
    by_path r p = None ∧ ∃ i e b a, (i, e, b) ∈ asg ∧ e ∈ done_ ∧
      get reg (binding_id b) = Some a ∧ a_qualified_path a = p;
}.

Lemma applied_nil : applied [] reg.
Proof. split; try set_solver. apply (plan_ok _ _ _ _ _ Hplan). Qed.

Lemma applied_snoc done_ r i e b :
  applied done_ r → (i, e, b) ∈ asg → e ∉ done_ →
  applied (done_ ++ [e]) (apply_binding rev st r e b).
Proof.
  intros Hap Hin Hnew.
  assert (∀ i' e' b', (i', e', b') ∈ asg → e' ∈ done_ → binding_id b' ≠ binding_id b) as Hids.
  { intros i' e' b' Hin' He' Hid. apply Hnew.
    by pose proof (plan_id_inj _ _ _ _ _ Hplan _ _ Hin' Hin Hid) as [= -> -> ->]. }
  assert (get r (binding_id b) = get reg (binding_id b)) as Hget by by apply (ap_frame _ _ Hap).
  rewrite (apply_binding_rekey reg) by (eauto using plan_minted || apply Hap).
  set (a' := bound_anchor _ _ _ _ _).
  assert (∀ i' e' b', (i', e', b') ∈ asg → e' ∈ done_ ++ [e] →
            e' ∈ done_ ∧ binding_id b' ≠ binding_id b ∧ e_qualified_path e ≠ e_qualified_path e' ∨
            (i', e', b') = (i, e, b)) as Hcases.
  { intros i' e' b' Hin' [He'| ->%list_elem_of_singleton]%elem_of_app.
    - left. split; [done|]. split; [by eapply Hids|]. intros Hp. apply Hnew.
      by destruct (plan_path_inj _ _ _ _ _ Hplan _ _ _ _ _ _ Hin Hin' Hp) as (_ & -> & _).
    - right. by destruct (plan_path_inj _ _ _ _ _ Hplan _ _ _ _ _ _ Hin Hin' eq_refl)
        as (-> & _ & ->). }
  split.
  - apply rekey_ok; [apply Hap|apply bound_anchor_id].
  - intros i' e' b' Hin' He'. unfold by_path. rewrite rekey_by_path. unfold a'.
    rewrite bound_anchor_path.
    destruct (Hcases _ _ _ Hin' He') as [(He0 & Hne & Hp)|[= -> -> ->]].
    + rewrite decide_False by done. rewrite decide_False; [by eapply (ap_path _ _ Hap)|].
      change (r_by_id r !! binding_id b) with (get r (binding_id b)). rewrite Hget.
      intros (a & Ha & Hpa)%fmap_Some.
      apply Hne. by pose proof (plan_old_path _ _ _ _ _ Hplan Hstale (i, e, b) (i', e', b') a
        Hin Hin' Ha (eq_sym Hpa)) as [= -> -> ->].
    + by rewrite decide_True.
  - intros i' e' b' Hin' He'. unfold get. rewrite rekey_by_id, lookup_insert.
    destruct (Hcases _ _ _ Hin' He') as [(He0 & Hne & _)|[= -> -> ->]].
    + rewrite decide_False by done. by eapply (ap_get _ _ Hap).
    + by rewrite decide_True.
  - intros id Hid. unfold get. rewrite rekey_by_id, lookup_insert_ne.
    + apply (ap_frame _ _ Hap). intros. eapply Hid; set_solver.
    + eapply Hid; set_solver.
  - intros p Hp. unfold by_path. rewrite rekey_by_path. unfold a'. rewrite bound_anchor_path.
    rewrite fmap_app in Hp. rewrite decide_False by set_solver.
    case_decide as Hold.
    + right. split; [done|]. change (r_by_id r !! binding_id b) with (get r (binding_id b)) in Hold.
      rewrite Hget in Hold. apply fmap_Some in Hold as (a & Ha & Hpa). exists i, e, b, a. set_solver.
    + destruct (ap_path_frame _ _ Hap p) as [?|(? & i' & e' & b' & a & ?)]; [set_solver|by left|].
      right. split; [done|]. exists i', e', b', a. set_solver.
Qed.

Lemma apply_loop_applied done_ todo r :
  done_ ++ todo = es → applied done_ r →
  ∃ r', apply_loop rev st r todo = Some r' ∧ applied es r'.
Proof.
  revert done_ r. induction todo as [|e todo IH]; intros done_ r Heq Hap.
  { exists r. split; [done|]. by rewrite <- Heq, app_nil_r. }
  assert (es !! length done_ = Some e) as He.
  { rewrite <- Heq. by rewrite list_lookup_middle. }
  destruct (plan_all _ _ _ _ _ Hplan _ _ He) as [b Hb]. cbn [apply_loop].
  rewrite (plan_lookup _ _ _ _ _ Hplan _ _ _ Hb).
  apply (IH (done_ ++ [e])); [by rewrite <- app_assoc|].
  eapply applied_snoc; [done|done|]. intros Hin.
  pose proof (plan_uniq _ _ _ _ _ Hplan) as Hnd. rewrite <- Heq, fmap_app in Hnd.
  apply NoDup_app in Hnd as (_ & Hnd & _). apply (Hnd (e_qualified_path e)); set_solver.
Qed.
End apply.

(** ** The retirement loop *)

(** The ids the loop retires, and the registry it leaves. *)
Definition retires (scope : option (gset string)) (bound : gset string) (r : IdentityRegistry)
    (id : DurableId) : Prop :=
  id ∉ bound ∧ anchor_in_scope r id scope ∧
  ∃ a, get r id = Some a ∧ a_status a ≠ Orphaned.

Definition orphan_anchor (rev : Revision) (a : Anchor) : Anchor :=
  mkAnchor (a_id a) (a_qualified_path a) (a_content_hash a) (a_kind a) (a_first_seen_rev a)
    rev Orphaned.

Record retired_ok (rev : Revision) (scope : option (gset string)) (bound : gset string)
    (r0 : IdentityRegistry) (seen : list DurableId) (acc : IdentityRegistry * list DurableId) :
    Prop := {
  rt_ok : registry_ok acc.1;
  rt_list : ∀ id, id ∈ acc.2 ↔ id ∈ seen ∧ retires scope bound r0 id;
  rt_nodup : NoDup acc.2;
  rt_get : ∀ id, get acc.1 id =
    if decide (id ∈ acc.2) then orphan_anchor rev <$> get r0 id else get r0 id;
  rt_path : ∀ p, by_path acc.1 p = by_path r0 p ∨
    by_path acc.1 p = None ∧ ∃ id a, id ∈ acc.2 ∧ get r0 id = Some a ∧ a_qualified_path a = p;
}.

Lemma anchor_in_scope_same r1 r2 id scope :
  (a_qualified_path <$> get r1 id) = (a_qualified_path <$> get r2 id) →
  anchor_in_scope r1 id scope = anchor_in_scope r2 id scope.
Proof.
  unfold anchor_in_scope. destruct scope; [|done].
  destruct (get r1 id), (get r2 id); simpl; intros Heq; try done. by injection Heq as ->.
Qed.

Lemma retire_step_ok rev scope bound r0 seen acc id :
  id ∉ seen → is_Some (get r0 id) →
  retired_ok rev scope bound r0 seen acc →
  retired_ok rev scope bound r0 (seen ++ [id]) (retire_step rev scope bound acc id).
Proof.
  destruct acc as [r l]. intros Hseen [a Ha] [Hok Hl Hnd Hg Hp]. simpl in *.
  assert (id ∉ l) as Hnl by (rewrite Hl; naive_solver).
  assert (get r id = Some a) as Ha' by by rewrite Hg, decide_False.
  assert (anchor_in_scope r id scope = anchor_in_scope r0 id scope) as Hsc.
  { apply anchor_in_scope_same. by rewrite Ha, Ha'. }
  assert (∀ P : Prop, (retires scope bound r0 id ↔ P) → P ∨ ¬ P →
    (¬ P → retired_ok rev scope bound r0 (seen ++ [id]) (r, l))) as Hskip.
  { intros P HP _ Hn. split; simpl; auto. intros i. rewrite Hl, elem_of_app, list_elem_of_singleton.
    naive_solver. }
  unfold retire_step. case_bool_decide as Hb.
  { apply (Hskip (id ∉ bound ∧ False)); [|naive_solver..]. unfold retires. naive_solver. }
  rewrite Hsc. destruct (anchor_in_scope r0 id scope) eqn:Esc; simpl.
  2:{ apply (Hskip False); [|naive_solver..]. unfold retires. rewrite Esc. naive_solver. }
  rewrite Ha'. case_bool_decide as Hst.
  { apply (Hskip False); [|naive_solver..]. unfold retires. rewrite Ha. naive_solver. }
  assert (retires scope bound r0 id) as Hret.
  { unfold retires. rewrite Esc. naive_solver. }
  split; simpl.
  - auto with tyo3.
  - intros i. rewrite !elem_of_app, !list_elem_of_singleton, Hl. naive_solver.
  - apply NoDup_app. split; [done|]. split; [|apply NoDup_singleton]. set_solver.
  - intros i. unfold retire, get in *. rewrite Ha', bool_decide_eq_false_2 by done. simpl.
    rewrite lookup_insert. destruct (decide (id = i)) as [<-|Hne].
    + by rewrite decide_True, Ha by set_solver.
    + rewrite Hg. repeat case_decide; set_solver.
  - intros p. unfold retire, by_path, get in *. rewrite Ha', bool_decide_eq_false_2 by done. simpl.
    rewrite lookup_delete. case_decide as Hpa.
    + right. split; [done|]. exists id, a. set_solver.
    + destruct (Hp p) as [?|(? & i & a' & ? & ?)]; [by left|].
      right. split; [done|]. exists i, a'. set_solver.
Qed.

Lemma retire_loop_ok rev scope bound r0 ids seen acc :
  NoDup (seen ++ ids) → (∀ id, id ∈ ids → is_Some (get r0 id)) →
  retired_ok rev scope bound r0 seen acc →
  retired_ok rev scope bound r0 (seen ++ ids) (foldl (retire_step rev scope bound) acc ids).
Proof.
  revert seen acc. induction ids as [|id ids IH]; intros seen acc Hnd Hsome Hacc; simpl.
  { by rewrite app_nil_r. }
  replace (seen ++ id :: ids) with ((seen ++ [id]) ++ ids) in * by by rewrite <- app_assoc.
  apply IH; [done|set_solver|]. apply retire_step_ok; [|set_solver|done].
  apply NoDup_app in Hnd as [(_ & H & _)%NoDup_app _]. set_solver.
Qed.

(** ** Pass A finds every exact match *)

Section exact.
Context (reg : IdentityRegistry) (es : list Entity).
Context (Hok : registry_ok reg) (Huniq : NoDup (e_qualified_path <$> es)).

Lemma enumerate_snoc {A} (l : list A) x : enumerate (l ++ [x]) = enumerate l ++ [(length l, x)].
Proof. unfold enumerate. rewrite imap_app. simpl. by rewrite Nat.add_0_r. Qed.

(** Facts about the prefix of the entities handled so far. *)
Lemma pass_a_prefix pre suf :
  es = pre ++ suf →
  let st := foldl (pass_a_step reg) rstate_init (enumerate pre) in
  (∀ i, i ∈ matched_entities st → i < length pre) ∧
  (∀ id, id ∈ bound_ids st → ∃ e, e ∈ pre ∧ by_path reg (e_qualified_path e) = Some id) ∧
  (∀ e id, e ∈ pre → by_path reg (e_qualified_path e) = Some id →
     ∃ h, (e_qualified_path e, Exact id h) ∈ bindings st).
Proof.
  revert suf. induction pre as [|e pre IH] using rev_ind; intros suf Hes; [set_solver|].
  destruct (IH ([e] ++ suf)) as (IHm & IHb & IHx); [by rewrite app_assoc|].
  rewrite enumerate_snoc, foldl_snoc. set (st := foldl _ _ (enumerate pre)) in *. simpl.
  rewrite bool_decide_eq_false_2 by (intros Hi%IHm; lia). rewrite length_app. simpl.
  destruct (by_path reg (e_qualified_path e)) as [id|] eqn:E.
  2:{ split; [intros i Hi%IHm; lia|split].
      - intros i (e' & ? & ?)%IHb. exists e'. set_solver.
      - intros e' id [He'| ->%list_elem_of_singleton]%elem_of_app Hp; [eauto|congruence]. }
  rewrite bool_decide_eq_false_2; simpl.
  2:{ intros (e' & He' & Hp')%IHb.
      destruct (ok_path reg Hok _ _ E) as (a & Ha & Hpa).
      destruct (ok_path reg Hok _ _ Hp') as (a' & Ha' & Hpa').
      rewrite Ha in Ha'. injection Ha' as <-. rewrite Hes, !fmap_app in Huniq. apply NoDup_app in Huniq as [(_ & Hd & _)%NoDup_app _].
      apply (Hd (e_qualified_path e')); [set_solver|]. rewrite <- Hpa', Hpa. set_solver. }
  split; [intros i [->%elem_of_singleton|Hi%IHm]%elem_of_union; lia|split].
  - intros i [->%elem_of_singleton|Hi]%elem_of_union; [exists e; set_solver|].
    destruct (IHb i Hi) as (e' & ? & ?). exists e'. set_solver.
  - intros e' id' [He'| ->%list_elem_of_singleton]%elem_of_app Hp.
    + destruct (IHx e' id' He' Hp) as [h Hh]. exists h. set_solver.
    + rewrite E in Hp. simplify_eq. eexists. apply elem_of_app. right. by apply list_elem_of_singleton.
Qed.
End exact.

Lemma bind_steps_bindings reg scope minted es st st' pb :
  rtc (bind_step reg scope minted es) st st' → pb ∈ bindings st → pb ∈ bindings st'.
Proof.
  induction 1 as [|st st1 st2 Hstep _ IH]; [done|]. intros Hpb. apply IH.
  destruct Hstep. simpl. set_solver.
Qed.

Lemma pass_d_bindings mint l sn pb :
  pb ∈ bindings sn.1 → pb ∈ bindings (foldl (pass_d_step mint) sn l).1.
Proof.
  intros H. apply (foldl_ind (λ sn', pb ∈ bindings sn'.1)); [done|].
  intros [st n] [idx e] _ Hpb. unfold pass_d_step. case_bool_decide; [done|]. simpl in *. set_solver.
Qed.

Lemma run_passes_plan mint reg scope n es :
  Inj (=) (=) mint → registry_ok reg → mint_fresh mint reg n → NoDup (e_qualified_path <$> es) →
  ∃ asg, plan reg scope es (run_passes mint reg scope n es).1 asg.
Proof.
  intros Hinj Hok Hfresh Huniq.
  destruct (run_passes_inv mint Hinj reg scope n es Hok Hfresh) as (_ & _ & asg & Hinv).
  apply (passes_inv_mono _ _ _ (λ id, get reg id = None)) in Hinv.
  2:{ intros id (k & Hk & ->). apply Hfresh. lia. }
  exists asg. split; [done|done| |done|].
  - intros i e He.
    pose proof (assigned_perm _ _ _ _ _ _ Hinv (run_passes_matched mint reg scope n es)) as Hp.
    assert ((i, e) ∈ (λ x, x.1) <$> asg) as Hin by by rewrite Hp, elem_of_enumerate.
    apply list_elem_of_fmap in Hin as ([[i' e'] b] & [=-> ->] & Hin). by exists b.
  - intros i e id He Hp.
    destruct (pass_a_prefix reg es Hok Huniq es []) as (_ & _ & Hx); [by rewrite app_nil_r|].
    destruct (Hx e id) as [h Hh]; [by eapply list_elem_of_lookup_2|done|].
    assert ((e_qualified_path e, Exact id h) ∈ bindings (run_passes mint reg scope n es).1) as Hb.
    { unfold run_passes. fold (run_abc reg scope es). apply pass_d_bindings.
      eapply bind_steps_bindings; [apply (run_abc_steps reg scope (λ _, False))|done]. }
    rewrite (pi_bindings _ _ _ _ _ _ Hinv) in Hb.
    apply list_elem_of_fmap in Hb as ([[i' e'] b] & [= Hpe <-] & Hin). simpl in *.
    pose proof Hin as [He' _]%(pi_entity _ _ _ _ _ _ Hinv). exists h.
    assert (i = i') as ->.
    { eapply (NoDup_lookup _ _ _ (e_qualified_path e) Huniq); rewrite list_lookup_fmap;
        [by rewrite He|by rewrite He', Hpe]. }
    by simplify_eq.
Qed.

(** ** No panic *)

(** A weaker view of the passes that needs no hypothesis on the registry or on
    the minted ids. *)
Definition covers (es : list Entity) (st : RState) : Prop :=
  ∀ i e, es !! i = Some e → i ∈ matched_entities st →
    is_Some (bindings_by_path st !! e_qualified_path e).

Lemma covers_bind es st idx e b r :
  es !! idx = Some e → covers es st → covers es (bind_entity st idx e b r).
Proof.
  intros He Hc i e' He' Hi. simpl in *. rewrite lookup_insert. case_decide; [done|].
  apply (Hc i); [done|]. apply elem_of_union in Hi as [->%elem_of_singleton|]; [|done].
  by simplify_eq.
Qed.

Lemma covers_steps reg scope minted es st st' :
  rtc (bind_step reg scope minted es) st st' → covers es st → covers es st'.
Proof.
  induction 1 as [|st st1 st2 Hstep _ IH]; [done|]. intros. apply IH.
  destruct Hstep. by apply covers_bind.
Qed.

Lemma run_passes_covers mint reg scope n es e :
  e ∈ es → is_Some (bindings_by_path (run_passes mint reg scope n es).1 !! e_qualified_path e).
Proof.
  intros [i He]%list_elem_of_lookup.
  assert (covers es (run_passes mint reg scope n es).1) as Hc.
  { unfold run_passes. fold (run_abc reg scope es).
    apply (foldl_ind (λ sn, covers es sn.1)).
    - eapply (covers_steps reg scope (λ _, False));
        [etrans; [apply pass_a_steps|apply run_abc_steps]|]. intros ???. set_solver.
    - intros [st k] [idx e'] Hin%elem_of_enumerate Hc. unfold pass_d_step.
      case_bool_decide; [done|]. by apply covers_bind. }
  apply (Hc i); [done|]. apply run_passes_matched. by eapply lookup_lt_Some.
Qed.

Lemma apply_loop_total rev st reg es :
  (∀ e, e ∈ es → is_Some (bindings_by_path st !! e_qualified_path e)) →
  is_Some (apply_loop rev st reg es).
Proof.
  revert reg. induction es as [|e es IH]; intros reg Hall; [done|]. cbn [apply_loop].
  destruct (Hall e) as [b ->]; [by left|]. apply IH. intros e' He'. apply Hall. by right.
Qed.

Lemma reconcile_impl_total mint reg es rev scope n :
  is_Some (reconcile_impl mint reg es rev scope n).
Proof.
  unfold reconcile_impl. pose proof (run_passes_covers mint reg scope n (sort_by entity_le es)) as Hc.
  destruct (run_passes _ _ _ _ _) as [st k]. simpl in Hc.
  destruct (apply_loop_total rev st reg _ Hc) as [r1 ->].
  destruct (foldl _ _ _). by eexists.
Qed.

Lemma apply_binding_ok rev st r e b : registry_ok r → registry_ok (apply_binding rev st r e b).
Proof.
  intros. unfold apply_binding. destruct b; try case_bool_decide; auto 6 with tyo3.
Qed.

Lemma apply_loop_ok rev st r es r' :
  registry_ok r → apply_loop rev st r es = Some r' → registry_ok r'.
Proof.
  revert r. induction es as [|e es IH]; intros r Hok; cbn [apply_loop]; [naive_solver|].
  destruct (bindings_by_path st !! _); [|done]. eauto using apply_binding_ok.
Qed.

(** *** The order of the ids *)

(** Two ways of retiring that differ in the order of the ids they list. *)
Definition same_retired (x y : IdentityRegistry * list DurableId) : Prop := x.1 = y.1 ∧ x.2 ≡ₚ y.2.

Lemma retire_get_ne reg id id' rev : id ≠ id' → get (retire reg id rev) id' = get reg id'.
Proof.
  intros Hne. unfold retire, get. destruct (r_by_id reg !! id) as [a|]; [|done].
  case_bool_decide; [done|]. simpl. by rewrite lookup_insert_ne.
Qed.

Lemma retire_comm reg id id' rev : retire (retire reg id rev) id' rev = retire (retire reg id' rev) id rev.
Proof.
  destruct (decide (id = id')) as [->|Hne]; [done|].
  pose proof (retire_get_ne reg id id' rev Hne) as H1. pose proof (retire_get_ne reg id' id rev (not_eq_sym Hne)) as H2.
  unfold get in H1, H2. unfold retire at 1 3. rewrite H1, H2. unfold retire.
  destruct (r_by_id reg !! id) as [a|], (r_by_id reg !! id') as [a'|]; repeat case_bool_decide; try done.
  f_equal; simpl; [by rewrite insert_insert_ne|apply delete_delete].
Qed.

(** Whether the loop passes an id over depends on its own anchor. *)
Definition passed_over (scope : option (gset string)) (bound : gset string) (reg : IdentityRegistry) (id : DurableId) : bool :=
  bool_decide (id ∈ bound) || negb (anchor_in_scope reg id scope) ||
  match get reg id with Some a => bool_decide (a_status a = Orphaned) | None => false end.

Lemma retire_step_eq rev scope bound reg l id :
  retire_step rev scope bound (reg, l) id =
    if passed_over scope bound reg id then (reg, l) else (retire reg id rev, l ++ [id]).
Proof.
  unfold retire_step, passed_over. case_bool_decide; [done|]. destruct (negb _); [done|]. simpl. by destruct (get reg id).
Qed.

Lemma passed_over_retire rev scope bound reg id id' :
  id ≠ id' → passed_over scope bound (retire reg id rev) id' = passed_over scope bound reg id'.
Proof. intros Hne. unfold passed_over, anchor_in_scope. by rewrite retire_get_ne. Qed.

Lemma retire_step_comm rev scope bound acc id id' : id ≠ id' →
  same_retired (retire_step rev scope bound (retire_step rev scope bound acc id) id')
    (retire_step rev scope bound (retire_step rev scope bound acc id') id).
Proof.
  intros Hne. destruct acc as [reg l]. rewrite !retire_step_eq.
  destruct (passed_over scope bound reg id) eqn:E, (passed_over scope bound reg id') eqn:E';
    rewrite !retire_step_eq, ?passed_over_retire, ?E, ?E' by done; try done.
  split; simpl; [apply retire_comm|solve_Permutation].
Qed.

Lemma retire_step_same rev scope bound acc acc' id :
  same_retired acc acc' → same_retired (retire_step rev scope bound acc id) (retire_step rev scope bound acc' id).
Proof.
  destruct acc as [reg l], acc' as [reg' l']. intros [E Hl]. simpl in E, Hl. subst reg'. rewrite !retire_step_eq.
  destruct (passed_over _ _ _ _); split; simpl; [done|done|done|by rewrite Hl].
Qed.

Lemma retire_loop_same rev scope bound ids acc acc' :
  same_retired acc acc' →
  same_retired (foldl (retire_step rev scope bound) acc ids) (foldl (retire_step rev scope bound) acc' ids).
Proof. revert acc acc'. induction ids as [|id ids IH]; intros acc acc' H; [done|]. by apply IH, retire_step_same. Qed.

(** The order in which the ids of the hash map are enumerated does not reach the
    registry; the retired ids are the same, in the order of the enumeration. *)
Lemma retire_order rev scope bound ids ids' acc :
  NoDup ids → ids ≡ₚ ids' →
  same_retired (foldl (retire_step rev scope bound) acc ids) (foldl (retire_step rev scope bound) acc ids').
Proof.
  intros Hnd H. revert acc Hnd. induction H as [|id ids ids' _ IH|id id' ids|ids ids' ids'' H1 IH1 _ IH2]; intros acc Hnd.
  - done.
  - apply IH. by apply NoDup_cons in Hnd as [_ ?].
  - simpl. apply retire_loop_same, retire_step_comm. apply NoDup_cons in Hnd as [Hn _]. set_solver.
  - destruct (IH1 acc Hnd) as [E Hp]. destruct (IH2 acc) as [E' Hp']; [by rewrite <- H1|]. split; [congruence|by etrans].
Qed.

Lemma all_ids_loop rev scope bound r :
  registry_ok r →
  retired_ok rev scope bound r (all_ids r)
    (foldl (retire_step rev scope bound) (r, []) (all_ids r)).
Proof.
  intros Hok. apply (retire_loop_ok rev scope bound r (all_ids r) [] (r, [])).
  - simpl. unfold all_ids. apply NoDup_elements.
  - intros id. unfold all_ids. by rewrite elem_of_elements, elem_of_dom.
  - split; simpl; try set_solver. apply NoDup_nil_2.
Qed.

Lemma reconcile_impl_inv mint reg es rev scope n reg' rc n' :
  reconcile_impl mint reg es rev scope n = Some (reg', rc, n') →
  ∃ st r1, run_passes mint reg scope n (sort_by entity_le es) = (st, n') ∧
    apply_loop rev st reg (sort_by entity_le es) = Some r1 ∧
    let r2 := flag_reviews r1 (needs_review st) in
    foldl (retire_step rev scope (bound_ids st)) (r2, []) (all_ids r2) = (reg', rc_retired rc) ∧
    rc_bindings rc = bindings st ∧ rc_needs_review rc = needs_review st.
Proof.
  unfold reconcile_impl. destruct (run_passes _ _ _ _ _) as [st k].
  destruct (apply_loop _ _ _ _) as [r1|] eqn:E; [|done].
  destruct (foldl _ _ _) as [r3 l] eqn:F. intros [= <- <- <-].
  exists st, r1. by rewrite E.
Qed.

Lemma reconcile_impl_ok mint reg es rev scope n reg' rc n' :
  registry_ok reg → reconcile_impl mint reg es rev scope n = Some (reg', rc, n') →
  registry_ok reg'.
Proof.
  intros Hok (st & r1 & _ & Hap & Hret & _)%reconcile_impl_inv.
  apply apply_loop_ok in Hap; [|done].
  destruct (flag_reviews_spec r1 (needs_review st) Hap) as (Hok2 & _ & _).
  pose proof (all_ids_loop rev scope (bound_ids st) _ Hok2) as Hr. rewrite Hret in Hr. apply Hr.
Qed.

Lemma sorted_paths es :
  NoDup (e_qualified_path <$> es) → NoDup (e_qualified_path <$> sort_by entity_le es).
Proof. intros H. by rewrite (sort_by_perm entity_le es). Qed.

Lemma no_stale_sorted reg es : no_stale_path reg es → no_stale_path reg (sort_by entity_le es).
Proof.
  intros H id a e Ha He Hp. rewrite elem_of_sort_by in He.
  destruct (H id a e Ha He Hp) as [?|[? Hcl]]; [by left|right]. split; [done|].
  intros e'. rewrite elem_of_sort_by. apply Hcl.
Qed.

(** The specification of a whole reconciliation, for entities with distinct
    paths none of which is held by an anchor outside the path index. *)
Section spec.
Context (mint : nat → DurableId) (reg : IdentityRegistry) (es : list Entity).
Context (rev : Revision) (scope : option (gset string)) (n : nat).
Context (Hinj : Inj (=) (=) mint) (Hok : registry_ok reg) (Hfresh : mint_fresh mint reg n).
Context (Huniq : NoDup (e_qualified_path <$> es)) (Hstale : no_stale_path reg es).
Context (reg' : IdentityRegistry) (rc : Reconciliation) (n' : nat).
Context (Hrun : reconcile_impl mint reg es rev scope n = Some (reg', rc, n')).

(** The outcome, in terms of the assignment the passes computed. *)
Record outcome (asg : list (nat * Entity * Binding)) (bound : gset string) : Prop := {
  oc_bindings : rc_bindings rc = (λ x, (e_qualified_path x.1.2, x.2)) <$> asg;
  oc_all : ∀ e, e ∈ es → ∃ i b, (i, e, b) ∈ asg;
  oc_entity : ∀ i e b, (i, e, b) ∈ asg → e ∈ es;
  oc_justified : ∀ i e b, (i, e, b) ∈ asg →
    justified reg scope (λ id, get reg id = None) e b;
  oc_exact : ∀ e id, e ∈ es → by_path reg (e_qualified_path e) = Some id →
    ∃ i h, (i, e, Exact id h) ∈ asg;
  oc_id_inj : ∀ x y, x ∈ asg → y ∈ asg → binding_id x.2 = binding_id y.2 → x = y;
  oc_bound : ∀ id, id ∈ bound ↔ id ∈ (λ x, binding_id x.2) <$> asg;
  oc_review : ∀ id, id ∈ rc_needs_review rc ↔
    ∃ i e b, (i, e, b) ∈ asg ∧ flagged e b ∧ binding_id b = id;
  oc_retired : ∀ id, id ∈ rc_retired rc ↔ retires scope bound reg id;
  oc_retired_nodup : NoDup (rc_retired rc);
  oc_get_bound : ∀ i e b, (i, e, b) ∈ asg →
    get reg' (binding_id b) =
      Some (bound_anchor reg rev e b (if flagged e b then NeedsReview else Active));
  oc_get_retired : ∀ id, retires scope bound reg id → get reg' id = orphan_anchor rev <$> get reg id;
  oc_get_other : ∀ id, id ∉ bound → ¬ retires scope bound reg id → get reg' id = get reg id;
  oc_path : ∀ i e b, (i, e, b) ∈ asg → by_path reg' (e_qualified_path e) = Some (binding_id b);
  oc_path_other : ∀ p, p ∉ e_qualified_path <$> es →
    by_path reg' p = by_path reg p ∨
    by_path reg' p = None ∧ ∃ id a, get reg id = Some a ∧ a_qualified_path a = p ∧
      (retires scope bound reg id ∨ id ∈ bound);
  oc_ok : registry_ok reg';
}.

(** The review loop leaves unbound anchors alone, so the retirement loop
    sees them as they were. *)
Lemma retires_same bound r2 id :
  (id ∉ bound → get r2 id = get reg id) → retires scope bound r2 id ↔ retires scope bound reg id.
Proof.
  intros Hg. unfold retires. split; intros (Hb & Hsc & a & Ha & Hs); rewrite Hg in * by done;
    (split; [done|split; [|eauto]]); erewrite anchor_in_scope_same; try done; by rewrite Hg.
Qed.

(** The registry between the review loop and the retirement loop. *)
Record midway (st : RState) (asg : list (nat * Entity * Binding)) (r2 : IdentityRegistry) : Prop := {
  mw_plan : plan reg scope (sort_by entity_le es) st asg;
  mw_bindings : rc_bindings rc = bindings st;
  mw_review : rc_needs_review rc = needs_review st;
  mw_frame : ∀ id, id ∉ bound_ids st → get r2 id = get reg id;
  mw_get : ∀ i e b, (i, e, b) ∈ asg →
    get r2 (binding_id b) =
      Some (bound_anchor reg rev e b (if flagged e b then NeedsReview else Active));
  mw_path : ∀ i e b, (i, e, b) ∈ asg → by_path r2 (e_qualified_path e) = Some (binding_id b);
  mw_path_other : ∀ p, p ∉ e_qualified_path <$> es →
    by_path r2 p = by_path reg p ∨
    by_path r2 p = None ∧ ∃ id a, get reg id = Some a ∧ a_qualified_path a = p ∧ id ∈ bound_ids st;
  mw_retire : retired_ok rev scope (bound_ids st) r2 (all_ids r2) (reg', rc_retired rc);
}.

Lemma plan_bound st asg i e b :
  plan reg scope (sort_by entity_le es) st asg → (i, e, b) ∈ asg → binding_id b ∈ bound_ids st.
Proof.
  intros Hpl Hin. apply (pi_bound _ _ _ _ _ _ (plan_inv _ _ _ _ _ Hpl)), list_elem_of_fmap.
  by exists (i, e, b).
Qed.

Lemma plan_mem st asg i e b :
  plan reg scope (sort_by entity_le es) st asg → (i, e, b) ∈ asg → e ∈ sort_by entity_le es.
Proof. intros Hpl Hin. eapply list_elem_of_lookup_2. by eapply plan_entity. Qed.

Lemma plan_flagged st asg i e b :
  plan reg scope (sort_by entity_le es) st asg → (i, e, b) ∈ asg →
  binding_id b ∈ needs_review st ↔ flagged e b.
Proof.
  intros Hpl Hin. rewrite (pi_review _ _ _ _ _ _ (plan_inv _ _ _ _ _ Hpl)). split; [|eauto 10].
  intros (i' & e' & b' & Hin' & Hf & Hid).
  by pose proof (plan_id_inj _ _ _ _ _ Hpl _ _ Hin' Hin Hid) as [= -> -> ->].
Qed.

Lemma flagged_anchor st asg i e b r1 :
  plan reg scope (sort_by entity_le es) st asg → (i, e, b) ∈ asg →
  get r1 (binding_id b) = Some (bound_anchor reg rev e b (applied_status reg st b)) →
  registry_ok r1 →
  get (flag_reviews r1 (needs_review st)) (binding_id b) =
    Some (bound_anchor reg rev e b (if flagged e b then NeedsReview else Active)).
Proof.
  intros Hpl Hin Hg Hok1. destruct (flag_reviews_spec r1 (needs_review st) Hok1) as (_ & _ & ->).
  rewrite Hg. pose proof (plan_flagged _ _ _ _ _ Hpl Hin) as Hfl.
  unfold applied_status, bound_anchor. case_decide as Hd; rewrite Hfl in Hd.
  - destruct (flagged e b); [|done]. by destruct (get reg (binding_id b)).
  - destruct (flagged e b); [done|]. destruct (get reg (binding_id b)); [|done].
    rewrite bool_decide_eq_false_2; [done|]. by rewrite Hfl.
Qed.

Lemma spec_midway : ∃ st asg r2, midway st asg r2.
Proof.
  destruct (reconcile_impl_inv _ _ _ _ _ _ _ _ _ Hrun) as (st & r1 & Hst & Hap & Hret & Hb & Hnr).
  set (es' := sort_by entity_le es) in *.
  destruct (run_passes_plan mint reg scope n es' Hinj Hok Hfresh (sorted_paths _ Huniq)) as [asg Hpl].
  rewrite Hst in Hpl. simpl in Hpl.
  destruct (apply_loop_applied reg scope es' st asg rev Hpl (no_stale_sorted _ _ Hstale) [] es' reg)
    as (r1' & Hap' & Hdone); [done| |].
  { exact (applied_nil _ _ _ _ _ _ Hpl (no_stale_sorted _ _ Hstale)). }
  rewrite Hap in Hap'. simplify_eq. pose proof (ap_ok _ _ _ _ _ _ Hdone) as Hok1.
  destruct (flag_reviews_spec r1' (needs_review st) Hok1) as (Hok2 & Hp2 & Hg2).
  exists st, asg, (flag_reviews r1' (needs_review st)). split; auto.
  - intros id Hid. rewrite Hg2, decide_False.
    + apply (ap_frame _ _ _ _ _ _ Hdone). intros i e b Hin _ <-.
      by eapply Hid, plan_bound.
    + rewrite (pi_review _ _ _ _ _ _ (plan_inv _ _ _ _ _ Hpl)).
      intros (i & e & b & Hin & _ & <-). by eapply Hid, plan_bound.
  - intros i e b Hin. eapply flagged_anchor; eauto.
    eapply (ap_get _ _ _ _ _ _ Hdone); eauto using plan_mem.
  - intros i e b Hin. unfold by_path. rewrite Hp2.
    by eapply (ap_path _ _ _ _ _ _ Hdone); eauto using plan_mem.
  - intros p Hp. unfold by_path. rewrite Hp2.
    destruct (ap_path_frame _ _ _ _ _ _ Hdone p) as [H|(H & i & e & b & a & Hin & _ & Ha & Hpa)].
    + unfold es'. by rewrite (sort_by_perm entity_le es).
    + by left.
    + right. split; [done|]. exists (binding_id b), a. eauto using plan_bound.
  - rewrite <- Hret. by apply all_ids_loop.
Qed.

Lemma spec_outcome : ∃ asg bound, outcome asg bound.
Proof.
  destruct spec_midway as (st & asg & r2 & [Hpl Hb Hnr Hframe Hget Hpath Hother [Hok3 Hlist Hnd Hg3 Hp3]]).
  simpl in *. pose proof (plan_inv _ _ _ _ _ Hpl) as Hinv.
  assert (∀ e, e ∈ sort_by entity_le es ↔ e ∈ es) as Hes by (intros; apply elem_of_sort_by).
  assert (∀ id, id ∈ rc_retired rc ↔ retires scope (bound_ids st) reg id) as Hrlist.
  { intros id. rewrite Hlist, (retires_same (bound_ids st) r2 id (Hframe id)).
    unfold all_ids. rewrite elem_of_elements, elem_of_dom. split; [naive_solver|].
    intros Hr. split; [|done]. destruct Hr as (Hb' & _ & a & Ha & _).
    change (is_Some (get r2 id)). rewrite Hframe by done. by exists a. }
  exists asg, (bound_ids st). split; auto.
  - rewrite Hb. apply (pi_bindings _ _ _ _ _ _ Hinv).
  - intros e He. rewrite <- Hes in He. apply list_elem_of_lookup in He as [i He].
    exists i. by apply (plan_all _ _ _ _ _ Hpl).
  - intros i e b Hin. by eapply Hes, plan_mem.
  - intros. by eapply plan_justified.
  - intros e id He Hp. rewrite <- Hes in He. apply list_elem_of_lookup in He as [i He].
    exists i. by apply (plan_exact _ _ _ _ _ Hpl).
  - apply (plan_id_inj _ _ _ _ _ Hpl).
  - apply (pi_bound _ _ _ _ _ _ Hinv).
  - rewrite Hnr. apply (pi_review _ _ _ _ _ _ Hinv).
  - intros i e b Hin. rewrite Hg3, decide_False; [by eapply Hget|].
    rewrite Hrlist. intros (Hx & _). by eapply Hx, plan_bound.
  - intros id Hr. rewrite Hg3, decide_True by by apply Hrlist. rewrite Hframe; [done|apply Hr].
  - intros id Hb' Hr. rewrite Hg3, decide_False by by rewrite Hrlist. by apply Hframe.
  - intros i e b Hin. destruct (Hp3 (e_qualified_path e)) as [->|(_ & id & a & Hid & Ha & Hpa)];
      [by eapply Hpath|]. exfalso. apply Hrlist in Hid as (Hnb & _ & a' & Ha' & Hlive).
    rewrite Hframe in Ha by done. pose proof (plan_mem _ _ _ _ _ Hpl Hin) as He.
    destruct (Hstale _ _ _ Ha (proj1 (Hes e) He) Hpa) as [Hbp|[Hdead _]]; [|naive_solver].
    apply list_elem_of_lookup in He as [j He].
    destruct (plan_exact _ _ _ _ _ Hpl j e id He Hbp) as [h Hex].
    by eapply Hnb, (plan_bound _ _ _ _ _ Hpl Hex).
  - intros p Hp. destruct (Hp3 p) as [->|(-> & id & a & Hid & Ha & Hpa)].
    + destruct (Hother p Hp) as [?|(? & id & a & ? & ? & ?)]; [by left|]. right. split; [done|].
      exists id, a. auto.
    + right. split; [done|]. apply Hrlist in Hid as Hr. exists id, a.
      rewrite <- Hframe by apply Hr. auto.
Qed.
End spec.
