(* ===== verification/ReconcileTheorems.v ===== *)
(** * Theorems on reconciliation

    What one reconciliation pass promises to the commit that runs it: it
    never panics, binds one-to-one, is independent of the order of its
    input, keeps the registry's indexes, and reports exactly the difference
    between the registry before and after. *)

From stdpp Require Import pretty.
From S2P Require Import Prelude Str Paths Content Identity Entity EditDistance Reconcile.
From S2P Require Import ReconcileFacts.
Import Registry.

(** ** Sorting entities *)

Lemma entity_le_spec x y :
  entity_le x y ↔
    (e_qualified_path x = e_qualified_path y ∧ (e_content_hash x <= e_content_hash y)%N) ∨
    (e_qualified_path x ≠ e_qualified_path y ∧ str_le (e_qualified_path x) (e_qualified_path y)).
Proof.
  unfold entity_le. case_bool_decide; rewrite ?Is_true_true, ?N.leb_le; naive_solver.
Qed.

Lemma entity_le_trans x y z : entity_le x y → entity_le y z → entity_le x z.
Proof.
  rewrite !entity_le_spec. intros [[Hp Hh]|[Hp Hh]] [[Hp' Hh']|[Hp' Hh']].
  - left. split; [congruence|lia].
  - right. by rewrite Hp.
  - right. by rewrite <- Hp'.
  - right. split; [|by eapply str_le_trans]. intros Heq. rewrite Heq in Hh.
    by destruct Hp'; apply str_le_antisym.
Qed.

Lemma entity_le_total x y : entity_le x y ∨ entity_le y x.
Proof.
  unfold entity_le. repeat case_bool_decide; try congruence; [|apply str_le_total].
  destruct (N.leb_spec (e_content_hash x) (e_content_hash y)); [by left|right].
  apply Is_true_true, N.leb_le. lia.
Qed.

Lemma entity_le_antisym x y :
  entity_le x y → entity_le y x → e_qualified_path x = e_qualified_path y ∧ e_content_hash x = e_content_hash y.
Proof.
  rewrite !entity_le_spec. intros [[Hp Hh]|[Hp Hh]] [[Hp' Hh']|[Hp' Hh']]; try congruence; [split; [done|lia]|].
  by destruct Hp; apply str_le_antisym.
Qed.

(** Entities that share a path and a hash are one. *)
Definition told_apart (es : list Entity) : Prop :=
  ∀ x y, x ∈ es → y ∈ es → e_qualified_path x = e_qualified_path y → e_content_hash x = e_content_hash y → x = y.

Lemma sort_entities_perm es es' :
  told_apart es → es ≡ₚ es' → sort_by entity_le es = sort_by entity_le es'.
Proof.
  intros Ht. apply sort_by_unique; [apply entity_le_trans|apply entity_le_total|].
  intros x y Hx Hy Hxy Hyx. by destruct (entity_le_antisym x y Hxy Hyx); apply Ht.
Qed.

Lemma enumerate_values {A B} (f : A → B) l : (λ ie, f ie.2) <$> enumerate l = f <$> l.
Proof.
  apply list_eq. intros i. unfold enumerate. rewrite !list_lookup_fmap, list_lookup_imap.
  by destruct (l !! i).
Qed.

(** ** Data for the witnesses *)

Definition mint0 (k : nat) : DurableId := "M" +:+ pretty k.

#[global] Instance mint0_inj : Inj (=) (=) mint0.
Proof. intros i j H. unfold mint0 in H. by apply (inj pretty), (inj (String.app "M")). Qed.

Lemma mint0_fresh reg n :
  (∀ id, is_Some (get reg id) → ¬ ∃ s, id = "M" +:+ s) → mint_fresh mint0 reg n.
Proof.
  intros H k _. apply eq_None_not_Some. intros Hs. apply H in Hs. destruct Hs. by exists (pretty k).
Qed.

Definition entity0 (file name : string) (kind : SymbolKind) (h : N) : Entity :=
  mkEntity (file +:+ "::" +:+ name) kind h None name file (0, 0)%N (0, 0)%N name.

(** Two live anchors, [a.py::f] and [b.py::g]. *)
Definition registry0 : IdentityRegistry :=
  insert (insert empty_registry (mkAnchor "A1" "a.py::f" 7 Function_ 1 1 Active))
    (mkAnchor "A2" "b.py::g" 9 Class_ 1 1 Active).

(** [f] changed body, [g] moved to another file, [h] is new. *)
Definition entities0 : list Entity :=
  [entity0 "c.py" "g" Class_ 9; entity0 "a.py" "f" Function_ 8; entity0 "a.py" "h" Function_ 5].

Lemma registry0_ok : registry_ok registry0.
Proof. unfold registry0. auto with tyo3. Qed.

Lemma registry0_cases id : is_Some (get registry0 id) → id = "A1" ∨ id = "A2".
Proof.
  unfold get. rewrite <- elem_of_dom. intros H.
  assert (id ∈ ({["A1"; "A2"]} : gset string)); [|set_solver].
  by replace ({["A1"; "A2"]} : gset string) with (dom (r_by_id registry0)) by reflexivity.
Qed.

Lemma registry0_fresh n : mint_fresh mint0 registry0 n.
Proof. apply mint0_fresh. by intros id [->| ->]%registry0_cases [s [=]]. Qed.

Lemma entities0_paths : NoDup (e_qualified_path <$> entities0).
Proof. by apply (bool_decide_unpack _). Qed.

Lemma registry0_no_stale : no_stale_path registry0 entities0.
Proof.
  intros id a e Ha He Hp. assert (is_Some (get registry0 id)) as Hs by by exists a.
  unfold entities0 in He. repeat setoid_rewrite elem_of_cons in He.
  apply registry0_cases in Hs as [->| ->]; vm_compute in Ha; simplify_eq;
    destruct He as [->|[->|[->|He]]]; try (by vm_compute in Hp); try (by apply not_elem_of_nil in He); by left.
Qed.

(** ** Totality and order independence *)

(** C28: reconciliation returns: the lookup the code marks as an [expect] never
    fails, whatever the registry, the entities and the minted ids. *)
Theorem reconcile_never_panics mint reg es rev scope n :
  is_Some (reconcile_impl mint reg es rev scope n).
Proof. apply reconcile_impl_total. Qed.

(** C27: the result does not depend on the order of the entities, as long as two
    different entities differ in path or in content hash: a redefinition with
    another body may stand anywhere, and only definitions that share both, which
    the sort leaves in the order they come in, could tell. *)
Theorem reconcile_order_independent mint reg es es' rev scope n :
  told_apart es → es ≡ₚ es' →
  reconcile_impl mint reg es rev scope n = reconcile_impl mint reg es' rev scope n.
Proof. intros Ht Hp. unfold reconcile_impl. by rewrite (sort_entities_perm es es'). Qed.

(** Reconciliation keeps the indexes of the registry sound. *)
Theorem reconcile_keeps_indexes mint reg es rev scope n reg' rc n' :
  registry_ok reg → reconcile_impl mint reg es rev scope n = Some (reg', rc, n') →
  registry_ok reg'.
Proof. apply reconcile_impl_ok. Qed.

(** C9: every entity gets one binding, and no id is bound twice. *)
Theorem reconcile_one_to_one mint reg es rev scope n reg' rc n' :
  Inj (=) (=) mint → registry_ok reg → mint_fresh mint reg n →
  reconcile_impl mint reg es rev scope n = Some (reg', rc, n') →
  (rc_bindings rc).*1 ≡ₚ e_qualified_path <$> es ∧
  NoDup ((λ pb, binding_id pb.2) <$> rc_bindings rc).
Proof.
  intros Hinj Hok Hfresh (st & r1 & Hst & _ & _ & Hb & _)%reconcile_impl_inv. rewrite Hb.
  destruct (run_passes_inv mint Hinj reg scope n (sort_by entity_le es) Hok Hfresh)
    as (_ & _ & asg & Hinv).
  pose proof (assigned_perm _ _ _ _ _ _ Hinv
    (run_passes_matched mint reg scope n (sort_by entity_le es))) as Hp.
  rewrite Hst in Hinv. simpl in Hinv. rewrite (pi_bindings _ _ _ _ _ _ Hinv). split.
  - apply (fmap_Permutation (λ ie, e_qualified_path ie.2)) in Hp.
    rewrite enumerate_values, <- list_fmap_compose in Hp. rewrite <- list_fmap_compose.
    etrans; [exact Hp|]. apply fmap_Permutation, sort_by_perm.
  - rewrite <- list_fmap_compose. apply (pi_nodup_id _ _ _ _ _ _ Hinv).
Qed.

(** ** The specification *)

(** The case the following theorems are about.  Ids are never drawn twice and the
    indexes of the registry are sound, which every run gives; the entities of the
    pass have distinct paths, and an anchor at one of them is the one the path index
    gives, or a retired one that no entity claims.  The last two are not the rule: a
    redefinition or an overload breaks the first and, after it, the second; what
    happens then is in [IdentityLimits]. *)
Record reconcile_pre (mint : nat → DurableId) (reg : IdentityRegistry) (es : list Entity) (n : nat) :
    Prop := {
  pre_inj : Inj (=) (=) mint;
  pre_ok : registry_ok reg;
  pre_fresh : mint_fresh mint reg n;
  pre_uniq : NoDup (e_qualified_path <$> es);
  pre_stale : no_stale_path reg es;
}.

Lemma pre_outcome mint reg es rev scope n reg' rc n' :
  reconcile_pre mint reg es n → reconcile_impl mint reg es rev scope n = Some (reg', rc, n') →
  ∃ asg bound, outcome reg es rev scope reg' rc asg bound.
Proof. intros [? ? ? ? ?]. by eapply spec_outcome. Qed.

Lemma outcome_bound reg es rev scope reg' rc asg bound i e b :
  outcome reg es rev scope reg' rc asg bound → (i, e, b) ∈ asg → binding_id b ∈ bound.
Proof.
  intros Hoc Hin. apply (oc_bound _ _ _ _ _ _ _ _ Hoc), list_elem_of_fmap. by exists (i, e, b).
Qed.

(** An id of the new registry was bound, retired or left alone. *)
Lemma outcome_cases reg es rev scope reg' rc asg bound id :
  outcome reg es rev scope reg' rc asg bound →
  (∃ i e b, (i, e, b) ∈ asg ∧ binding_id b = id) ∨
  retires scope bound reg id ∨
  id ∉ bound ∧ ¬ retires scope bound reg id ∧ get reg' id = get reg id.
Proof.
  intros Hoc. destruct (decide (id ∈ bound)) as [Hb|Hb].
  - left. apply (oc_bound _ _ _ _ _ _ _ _ Hoc), list_elem_of_fmap in Hb as ([[i e] b] & -> & Hin).
    eauto.
  - right. destruct (decide (id ∈ rc_retired rc)) as [Hr|Hr];
      rewrite (oc_retired _ _ _ _ _ _ _ _ Hoc) in Hr; [by left|right].
    split; [done|]. split; [done|]. by apply (oc_get_other _ _ _ _ _ _ _ _ Hoc).
Qed.

(** The ids of the new registry are old or were drawn in this reconciliation. *)
Lemma reconcile_new_ids mint reg es rev scope n reg' rc n' id :
  reconcile_pre mint reg es n → reconcile_impl mint reg es rev scope n = Some (reg', rc, n') →
  is_Some (get reg' id) → is_Some (get reg id) ∨ minted_between mint n n' id.
Proof.
  intros Hpre Hrun [a Ha]. destruct (pre_outcome _ _ _ _ _ _ _ _ _ Hpre Hrun) as (asg & bound & Hoc).
  destruct (outcome_cases _ _ _ _ _ _ _ _ id Hoc) as [(i & e & b & Hin & <-)|[(_ & _ & a' & Ha' & _)|(_ & _ & E)]];
    [|left; by exists a'|left; rewrite <- E; by exists a].
  destruct Hpre as [Hinj Hok Hfresh _ _].
  destruct (reconcile_impl_inv _ _ _ _ _ _ _ _ _ Hrun) as (st & r1 & Hst & _ & _ & Hb & _).
  destruct (run_passes_inv mint Hinj reg scope n (sort_by entity_le es) Hok Hfresh) as (_ & _ & asg' & Hinv).
  rewrite Hst in Hinv. simpl in Hinv.
  assert ((e_qualified_path e, b) ∈ rc_bindings rc) as Hbd.
  { rewrite (oc_bindings _ _ _ _ _ _ _ _ Hoc). apply list_elem_of_fmap. by exists (i, e, b). }
  rewrite Hb, (pi_bindings _ _ _ _ _ _ Hinv) in Hbd. apply list_elem_of_fmap in Hbd as ([[j e'] b'] & [= _ ->] & Hin').
  apply (pi_entity _ _ _ _ _ _ Hinv) in Hin' as [_ Hj].
  destruct b' as [x h|x p h|x c h|x]; simpl in *; [|naive_solver..].
  destruct Hj as [(a' & Ha' & _)%(ok_path _ Hok) _]. left. by exists a'.
Qed.

Lemma reconcile_keeps_fresh mint reg es rev scope n reg' rc n' :
  reconcile_pre mint reg es n → reconcile_impl mint reg es rev scope n = Some (reg', rc, n') →
  mint_fresh mint reg' n'.
Proof.
  intros Hpre Hrun. assert (n ≤ n') as Hle.
  { destruct Hpre as [Hinj Hok Hfresh _ _].
    destruct (reconcile_impl_inv _ _ _ _ _ _ _ _ _ Hrun) as (st & r1 & Hst & _).
    destruct (run_passes_inv mint Hinj reg scope n (sort_by entity_le es) Hok Hfresh) as (H & _). by rewrite Hst in H. }
  intros k Hk. destruct (get reg' (mint k)) as [a|] eqn:E; [|done]. exfalso.
  destruct (reconcile_new_ids _ _ _ _ _ _ _ _ _ (mint k) Hpre Hrun) as [[a' Ha]|(j & Hj & Ej)]; [by exists a| |].
  - by rewrite (pre_fresh _ _ _ _ Hpre) in Ha by lia.
  - apply (pre_inj _ _ _ _ Hpre) in Ej. lia.
Qed.

(** An entity of the pass is found under its path afterwards. *)
Lemma reconcile_finds mint reg es rev scope n reg' rc n' e :
  reconcile_pre mint reg es n → reconcile_impl mint reg es rev scope n = Some (reg', rc, n') → e ∈ es →
  ∃ id a, by_path reg' (e_qualified_path e) = Some id ∧ get reg' id = Some a ∧ a_id a = id.
Proof.
  intros Hpre Hrun He. destruct (pre_outcome _ _ _ _ _ _ _ _ _ Hpre Hrun) as (asg & bound & Hoc).
  destruct (oc_all _ _ _ _ _ _ _ _ Hoc e He) as (i & b & Hin). exists (binding_id b).
  rewrite (oc_path _ _ _ _ _ _ _ _ Hoc _ _ _ Hin), (oc_get_bound _ _ _ _ _ _ _ _ Hoc _ _ _ Hin).
  eexists. do 2 (split; [done|]). apply bound_anchor_id.
Qed.

(** The anchor that entity [e] takes over, when it does. *)
Lemma justified_old reg scope e b a :
  registry_ok reg → justified reg scope (λ id, get reg id = None) e b →
  get reg (binding_id b) = Some a →
  match b with
  | Exact _ h => h = a_content_hash a ∧ a_qualified_path a = e_qualified_path e
  | Moved _ p h => h = a_content_hash a ∧ h = e_content_hash e ∧ p = a_qualified_path a
  | Struct _ _ h => h = a_content_hash a
  | Minted _ => False
  end.
Proof.
  intros Hok Hj Ha. destruct b as [id h|id p h|id c h|id]; simpl in *.
  - destruct Hj as [(a' & Ha' & Hp)%(ok_path _ Hok) ->]. unfold get in *. rewrite Ha. naive_solver.
  - destruct Hj as (a' & Ha' & <- & <- & (a2 & Ha2 & <-)%(ok_hash _ Hok) & _). unfold get in *.
    naive_solver.
  - naive_solver.
  - congruence.
Qed.

(** C8: in a pass whose entities have distinct paths, over a registry in which no
    anchor that the path index lost stands at one of them ([reconcile_pre]), every
    entity ends bound to one id: the path index leads to it, its anchor has the
    entity's path and content hash, and the kind and first revision of the anchor
    that had the id before, if one had; and the binding follows one of the four
    rules. *)
Theorem reconcile_binds_entities mint reg es rev scope n reg' rc n' :
  reconcile_pre mint reg es n → reconcile_impl mint reg es rev scope n = Some (reg', rc, n') →
  ∀ e, e ∈ es → ∃ b,
    (e_qualified_path e, b) ∈ rc_bindings rc ∧
    justified reg scope (λ id, get reg id = None) e b ∧
    by_path reg' (e_qualified_path e) = Some (binding_id b) ∧
    get reg' (binding_id b) =
      Some (bound_anchor reg rev e b (if flagged e b then NeedsReview else Active)).
Proof.
  intros Hpre Hrun e He. destruct (pre_outcome _ _ _ _ _ _ _ _ _ Hpre Hrun) as (asg & bound & Hoc).
  destruct (oc_all _ _ _ _ _ _ _ _ Hoc e He) as (i & b & Hin). exists b. split.
  - rewrite (oc_bindings _ _ _ _ _ _ _ _ Hoc). apply list_elem_of_fmap. by exists (i, e, b).
  - split; [by eapply (oc_justified _ _ _ _ _ _ _ _ Hoc)|].
    split; [by eapply (oc_path _ _ _ _ _ _ _ _ Hoc)|by eapply (oc_get_bound _ _ _ _ _ _ _ _ Hoc)].
Qed.

Lemma in_scope_anchor reg id a scope :
  get reg id = Some a → anchor_in_scope reg id scope ↔ scope_has scope (a_qualified_path a).
Proof. intros Ha. unfold anchor_in_scope. rewrite Ha. by destruct scope. Qed.


(** ** Classification *)

Lemma entities_by_path_lookup es e :
  NoDup (e_qualified_path <$> es) → e ∈ es → entities_by_path es !! e_qualified_path e = Some e.
Proof.
  unfold entities_by_path. induction es as [|x es IH] using rev_ind; [set_solver|].
  rewrite fmap_app, foldl_app. intros (Hnd & Hx & _)%NoDup_app. simpl in *.
  rewrite elem_of_app, list_elem_of_singleton. intros [He| ->]; [|by rewrite lookup_insert_eq].
  rewrite lookup_insert_ne; [by apply IH|]. intros Heq.
  apply (Hx (e_qualified_path e)); set_solver.
Qed.

(** Whether a binding of [e] changes the content of its id. *)
Definition hash_changed (m : gmap string Entity) (pb : string * Binding) : bool :=
  match pb.2 with
  | Exact _ h | Struct _ _ h => bool_decide (e_content_hash <$> m !! pb.1 ≠ Some h)
  | _ => false
  end.

Definition moved_binding (m : gmap string Entity) (pb : string * Binding) : option MovedBinding :=
  match pb.2 with
  | Moved id p _ => Some (mkMovedBinding id p pb.1 (file_of_qualified_path p)
                            (default (file_of_qualified_path pb.1) (e_file <$> m !! pb.1)))
  | _ => None
  end.

(** [classify] as three filters of the bindings. *)
Lemma classify_fold m l c :
  foldl (classify_step m) c l =
    mkReconcileClasses
      (cl_created c ++ ((λ pb, binding_id pb.2) <$> filter (λ pb, is_minted pb.2) l))
      (cl_changed c ++ ((λ pb, binding_id pb.2) <$> filter (λ pb, hash_changed m pb) l))
      (cl_deleted c)
      (cl_moved c ++ omap (moved_binding m) l).
Proof.
  revert c. induction l as [|[p b] l IH]; intros c; simpl; [by rewrite !app_nil_r; destruct c|].
  rewrite IH, !filter_cons.
  destruct b as [id h|id q h|id cf h|id]; simpl;
    try case_bool_decide as Hh; simpl; try case_decide as Hc;
    try (unfold hash_changed in Hc; simpl in Hc; rewrite bool_decide_spec in Hc; done);
    try done; simpl; by rewrite <- ?app_assoc.
Qed.

Lemma elem_of_classes rc es :
  (∀ id, id ∈ cl_created (classify rc es) ↔ ∃ p, (p, Minted id) ∈ rc_bindings rc) ∧
  (∀ id, id ∈ cl_changed (classify rc es) ↔ ∃ pb, pb ∈ rc_bindings rc ∧ binding_id pb.2 = id ∧
     hash_changed (entities_by_path es) pb) ∧
  (∀ mv, mv ∈ cl_moved (classify rc es) ↔ ∃ pb, pb ∈ rc_bindings rc ∧
     moved_binding (entities_by_path es) pb = Some mv).
Proof.
  unfold classify. rewrite classify_fold. simpl. split; [|split].
  - intros id. rewrite list_elem_of_fmap. setoid_rewrite list_elem_of_filter. split.
    + intros ([p b] & -> & Hm & Hin). exists p. by destruct b.
    + intros [p Hp]. by exists (p, Minted id).
  - intros id. rewrite list_elem_of_fmap. setoid_rewrite list_elem_of_filter. naive_solver.
  - intros mv. by rewrite list_elem_of_omap.
Qed.

Section classes.
Context (reg : IdentityRegistry) (es : list Entity) (rev : Revision) (scope : option (gset string)).
Context (reg' : IdentityRegistry) (rc : Reconciliation).
Context (asg : list (nat * Entity * Binding)) (bound : gset string).
Context (Hok : registry_ok reg) (Huniq : NoDup (e_qualified_path <$> es)).
Context (Hoc : outcome reg es rev scope reg' rc asg bound).

Lemma outcome_bindings p b :
  (p, b) ∈ rc_bindings rc ↔ ∃ i e, (i, e, b) ∈ asg ∧ p = e_qualified_path e.
Proof.
  rewrite (oc_bindings _ _ _ _ _ _ _ _ Hoc), list_elem_of_fmap. split.
  - intros ([[i e] b'] & [= -> ->] & Hin). eauto.
  - intros (i & e & Hin & ->). by exists (i, e, b).
Qed.

Lemma outcome_created id :
  (∃ p, (p, Minted id) ∈ rc_bindings rc) ↔ get reg id = None ∧ is_Some (get reg' id).
Proof.
  split.
  - intros (p & (i & e & Hin & ->)%outcome_bindings).
    split; [by apply (oc_justified _ _ _ _ _ _ _ _ Hoc) in Hin|].
    apply (oc_get_bound _ _ _ _ _ _ _ _ Hoc) in Hin. by eexists.
  - intros [Hn Hs]. destruct (outcome_cases _ _ _ _ _ _ _ _ id Hoc)
      as [(i & e & b & Hin & <-)|[(_ & _ & a & Ha & _)|(_ & _ & Hg)]];
      [|congruence|by rewrite Hg, Hn, is_Some_alt in Hs].
    apply (justified_minted _ _ _ _ Hok (oc_justified _ _ _ _ _ _ _ _ Hoc _ _ _ Hin)) in Hn.
    destruct b; try done. eexists. apply outcome_bindings. eauto.
Qed.

(** A bound id changes content exactly when its binding says so. *)
Lemma outcome_hash_changed i e b a :
  (i, e, b) ∈ asg → get reg (binding_id b) = Some a →
  hash_changed (entities_by_path es) (e_qualified_path e, b) ↔
    a_content_hash a ≠ e_content_hash e.
Proof.
  intros Hin Ha. pose proof (oc_justified _ _ _ _ _ _ _ _ Hoc _ _ _ Hin) as Hj.
  pose proof (justified_old _ _ _ _ _ Hok Hj Ha) as Hold. unfold hash_changed. simpl.
  rewrite (entities_by_path_lookup es e Huniq) by by eapply (oc_entity _ _ _ _ _ _ _ _ Hoc).
  destruct b; simpl in *; rewrite ?bool_decide_spec; destruct_and?; try done;
    (split; [intros ? ?; congruence || done|intros Hne; congruence || by destruct Hne; congruence]).
Qed.

Lemma outcome_changed id :
  (∃ pb, pb ∈ rc_bindings rc ∧ binding_id pb.2 = id ∧ hash_changed (entities_by_path es) pb) ↔
  ∃ a a', get reg id = Some a ∧ get reg' id = Some a' ∧ a_content_hash a ≠ a_content_hash a'.
Proof.
  split.
  - intros ([p b] & (i & e & Hin & ->)%outcome_bindings & <- & Hc). simpl in *.
    destruct (get reg (binding_id b)) as [a|] eqn:Ha.
    + eexists a, _. split; [done|]. split; [by eapply (oc_get_bound _ _ _ _ _ _ _ _ Hoc)|].
      rewrite bound_anchor_hash. by eapply outcome_hash_changed.
    + apply (justified_minted _ _ _ _ Hok (oc_justified _ _ _ _ _ _ _ _ Hoc _ _ _ Hin)) in Ha.
      by destruct b.
  - intros (a & a' & Ha & Ha' & Hne). destruct (outcome_cases _ _ _ _ _ _ _ _ id Hoc)
      as [(i & e & b & Hin & <-)|[Hr|(_ & _ & Hg)]].
    + exists (e_qualified_path e, b). split; [apply outcome_bindings; eauto|]. split; [done|].
      eapply outcome_hash_changed; [done..|].
      rewrite (oc_get_bound _ _ _ _ _ _ _ _ Hoc _ _ _ Hin) in Ha'. simplify_eq.
      by rewrite bound_anchor_hash in Hne.
    + rewrite (oc_get_retired _ _ _ _ _ _ _ _ Hoc _ Hr), Ha in Ha'. by simplify_eq/=.
    + congruence.
Qed.

Lemma outcome_deleted id :
  id ∈ rc_retired rc ↔
  ∃ a a', get reg id = Some a ∧ get reg' id = Some a' ∧
    a_status a ≠ Orphaned ∧ a_status a' = Orphaned.
Proof.
  rewrite (oc_retired _ _ _ _ _ _ _ _ Hoc). split.
  - intros Hr. pose proof Hr as (_ & _ & a & Ha & Hs). exists a, (orphan_anchor rev a).
    by rewrite (oc_get_retired _ _ _ _ _ _ _ _ Hoc _ Hr), Ha.
  - intros (a & a' & Ha & Ha' & Hs & Hs'). destruct (outcome_cases _ _ _ _ _ _ _ _ id Hoc)
      as [(i & e & b & Hin & <-)|[Hr|(_ & _ & Hg)]]; [|done|congruence].
    rewrite (oc_get_bound _ _ _ _ _ _ _ _ Hoc _ _ _ Hin) in Ha'. simplify_eq.
    exfalso. revert Hs'. unfold bound_anchor. rewrite Ha. simpl. by destruct (flagged e b).
Qed.
End classes.

(** The registry before and after a pass, as the classes a commit reports. *)
Record registry_difference (reg reg' : IdentityRegistry) (created changed deleted : list DurableId) : Prop := {
  rd_created : ∀ id, id ∈ created ↔ get reg id = None ∧ is_Some (get reg' id);
  rd_changed : ∀ id, id ∈ changed ↔ ∃ a a', get reg id = Some a ∧ get reg' id = Some a' ∧
    a_content_hash a ≠ a_content_hash a';
  rd_deleted : ∀ id, id ∈ deleted ↔ ∃ a a', get reg id = Some a ∧ get reg' id = Some a' ∧
    a_status a ≠ Orphaned ∧ a_status a' = Orphaned;
}.

Lemma classes_difference mint reg es rev scope n reg' rc n' :
  reconcile_pre mint reg es n → reconcile_impl mint reg es rev scope n = Some (reg', rc, n') →
  let c := classify rc es in registry_difference reg reg' (cl_created c) (cl_changed c) (cl_deleted c).
Proof.
  intros Hpre Hrun. destruct (pre_outcome _ _ _ _ _ _ _ _ _ Hpre Hrun) as (asg & bound & Hoc).
  destruct (elem_of_classes rc es) as (Hcr & Hch & _). split; intros id.
  - rewrite Hcr. eapply outcome_created; eauto using pre_ok.
  - rewrite Hch. eapply outcome_changed; eauto using pre_ok, pre_uniq.
  - simpl. by eapply outcome_deleted.
Qed.

(** The classes a commit reports are the difference between the registry
    before and after it: created ids are the new ones, changed ids are those
    whose content hash differs, deleted ids are those that became orphaned,
    and a moved id keeps its content and goes from the old to the new path. *)
Theorem classify_is_difference mint reg es rev scope n reg' rc n' :
  reconcile_pre mint reg es n → reconcile_impl mint reg es rev scope n = Some (reg', rc, n') →
  let c := classify rc es in
  registry_difference reg reg' (cl_created c) (cl_changed c) (cl_deleted c) ∧
  (∀ mv, mv ∈ cl_moved c → ∃ a a', get reg (mv_id mv) = Some a ∧ get reg' (mv_id mv) = Some a' ∧
     a_content_hash a = a_content_hash a' ∧
     a_qualified_path a = mv_old_qualified_path mv ∧ a_qualified_path a' = mv_new_qualified_path mv).
Proof.
  intros Hpre Hrun c. split; [by eapply classes_difference|].
  destruct (pre_outcome _ _ _ _ _ _ _ _ _ Hpre Hrun) as (asg & bound & Hoc).
  destruct (elem_of_classes rc es) as (_ & _ & Hmv).
  intros mv. unfold c. rewrite Hmv.
  intros ([p b] & (i & e & Hin & ->)%(outcome_bindings _ _ _ _ _ _ _ _ Hoc) & Hm).
  unfold moved_binding in Hm. destruct b as [| id q h | |]; simplify_eq/=.
  pose proof (oc_justified _ _ _ _ _ _ _ _ Hoc _ _ _ Hin) as Hj.
  pose proof Hj as (a & Ha & Hq & Hh & _). eexists a, _. split; [done|].
  split; [exact (oc_get_bound _ _ _ _ _ _ _ _ Hoc _ _ _ Hin)|].
  rewrite bound_anchor_hash, bound_anchor_path.
  destruct (justified_old _ _ _ _ _ (pre_ok _ _ _ _ Hpre) Hj Ha) as (? & ? & ?). split; congruence || done.
Qed.

(** ** The path index, scope and idempotence *)

(** The old path of a bound anchor is in scope when the entities are. *)
Lemma outcome_bound_scope reg es rev scope reg' rc asg bound id a :
  registry_ok reg → outcome reg es rev scope reg' rc asg bound →
  (∀ e, e ∈ es → scope_has scope (e_qualified_path e)) →
  id ∈ bound → get reg id = Some a → scope_has scope (a_qualified_path a).
Proof.
  intros Hok Hoc Hes Hid Ha.
  apply (oc_bound _ _ _ _ _ _ _ _ Hoc), list_elem_of_fmap in Hid as ([[i e] b] & -> & Hin).
  pose proof (oc_justified _ _ _ _ _ _ _ _ Hoc _ _ _ Hin) as Hj.
  pose proof (justified_old _ _ _ _ _ Hok Hj Ha) as Hold. simpl in *.
  assert (∀ id, anchor_in_scope reg id scope → get reg id = Some a →
            scope_has scope (a_qualified_path a)) as Hsc.
  { intros id Hs Hg. unfold anchor_in_scope in Hs. rewrite Hg in Hs. by destruct scope. }
  destruct b as [id h|id p h|id c h|id]; simpl in *.
  - destruct Hold as [_ ->]. apply Hes. by eapply (oc_entity _ _ _ _ _ _ _ _ Hoc).
  - destruct Hj as (_ & _ & _ & _ & _ & Hs & _). eauto.
  - destruct Hj as (_ & _ & _ & Hs & _). eauto.
  - done.
Qed.

(** The path index stays complete: every anchor that is not retired is
    found under its path. *)
Theorem reconcile_paths_complete mint reg es rev scope n reg' rc n' :
  reconcile_pre mint reg es n → (∀ e, e ∈ es → scope_has scope (e_qualified_path e)) →
  reconcile_impl mint reg es rev scope n = Some (reg', rc, n') →
  paths_complete reg → paths_complete reg'.
Proof.
  intros Hpre Hes Hrun Hpc id a Ha Hlive.
  destruct (pre_outcome _ _ _ _ _ _ _ _ _ Hpre Hrun) as (asg & bound & Hoc).
  pose proof (pre_ok _ _ _ _ Hpre) as Hok. change (get reg' id = Some a) in Ha.
  destruct (outcome_cases _ _ _ _ _ _ _ _ id Hoc) as [(i & e & b & Hin & <-)|[Hr|(Hnb & Hnr & Hg)]].
  - rewrite (oc_get_bound _ _ _ _ _ _ _ _ Hoc _ _ _ Hin) in Ha. simplify_eq.
    rewrite bound_anchor_path. by eapply (oc_path _ _ _ _ _ _ _ _ Hoc).
  - rewrite (oc_get_retired _ _ _ _ _ _ _ _ Hoc _ Hr) in Ha.
    apply fmap_Some in Ha as (a0 & _ & ->). done.
  - rewrite Hg in Ha. pose proof (Hpc _ _ Ha Hlive) as Hp.
    destruct (decide (a_qualified_path a ∈ e_qualified_path <$> es)) as [He|He].
    { apply list_elem_of_fmap in He as (e & Hpe & He). rewrite Hpe in Hp.
      destruct (oc_exact _ _ _ _ _ _ _ _ Hoc e id He Hp) as (i & h & Hin).
      by destruct Hnb; eapply (outcome_bound _ _ _ _ _ _ _ _ _ _ _ Hoc Hin). }
    destruct (oc_path_other _ _ _ _ _ _ _ _ Hoc _ He) as [Heq|(_ & id2 & a2 & Ha2 & Hp2 & Hor)];
      [by unfold by_path in Heq; rewrite Heq|].
    exfalso. apply Hnr. split; [done|]. split; [|eauto].
    rewrite (in_scope_anchor _ _ a), <- Hp2 by done.
    destruct Hor as [(_ & Hs & _)|Hb2]; [by rewrite <- in_scope_anchor|].
    by eapply outcome_bound_scope.
Qed.

(** C26: a scoped reconciliation of entities of the files in its scope, with
    distinct paths and no anchor lost to the path index at them ([reconcile_pre]),
    touches nothing outside these files: neither their anchors nor their paths. *)
Theorem reconcile_scoped_frame mint reg es rev sc n reg' rc n' :
  reconcile_pre mint reg es n → (∀ e, e ∈ es → scope_has (Some sc) (e_qualified_path e)) →
  reconcile_scoped mint reg es rev sc n = Some (reg', rc, n') →
  (∀ id a, get reg id = Some a → ¬ scope_has (Some sc) (a_qualified_path a) →
     get reg' id = Some a) ∧
  (∀ p, ¬ scope_has (Some sc) p → by_path reg' p = by_path reg p).
Proof.
  intros Hpre Hes Hrun. destruct (pre_outcome _ _ _ _ _ _ _ _ _ Hpre Hrun) as (asg & bound & Hoc).
  pose proof (pre_ok _ _ _ _ Hpre) as Hok. split.
  - intros id a Ha Hout. rewrite (oc_get_other _ _ _ _ _ _ _ _ Hoc); [done|..].
    + intros Hb. apply Hout. by eapply outcome_bound_scope.
    + intros (_ & Hs & _). apply Hout. by eapply in_scope_anchor.
  - intros p Hout. destruct (oc_path_other _ _ _ _ _ _ _ _ Hoc p) as [?|(_ & id & a & Ha & <- & Hor)];
      [|done|exfalso].
    { intros (e & -> & He)%list_elem_of_fmap. by apply Hout, Hes. }
    apply Hout. destruct Hor as [(_ & Hs & _)|Hb]; [by eapply in_scope_anchor|].
    by eapply outcome_bound_scope.
Qed.

(** The precondition holds again for the same entities. *)
Lemma outcome_no_stale reg es rev scope reg' rc asg bound :
  NoDup (e_qualified_path <$> es) → no_stale_path reg es →
  outcome reg es rev scope reg' rc asg bound → no_stale_path reg' es.
Proof.
  intros Huniq Hstale Hoc id a e Ha He Hp.
  assert (∀ a0, id ∉ bound → get reg id = Some a0 → a_qualified_path a0 = e_qualified_path e →
            a_status a0 = Orphaned ∧
            ∀ e', e' ∈ es → claims e' a0 → e_qualified_path e' = a_qualified_path a0) as Hold.
  { intros a0 Hnb Ha0 Hp0. destruct (Hstale _ _ _ Ha0 He Hp0) as [Hbp|?]; [|done].
    destruct (oc_exact _ _ _ _ _ _ _ _ Hoc e id He Hbp) as (i & h & Hin).
    by destruct Hnb; eapply (outcome_bound _ _ _ _ _ _ _ _ _ _ _ Hoc Hin). }
  destruct (outcome_cases _ _ _ _ _ _ _ _ id Hoc) as [(i & e' & b & Hin & <-)|[Hr|(Hnb & Hnr & Hg)]].
  - left. rewrite (oc_get_bound _ _ _ _ _ _ _ _ Hoc _ _ _ Hin) in Ha. simplify_eq.
    rewrite bound_anchor_path in Hp. rewrite <- Hp. by eapply (oc_path _ _ _ _ _ _ _ _ Hoc).
  - exfalso. pose proof Hr as (Hnb & _ & a0 & Ha0 & Hlive).
    rewrite (oc_get_retired _ _ _ _ _ _ _ _ Hoc _ Hr), Ha0 in Ha. simplify_eq/=.
    by destruct (Hold a0 Hnb Ha0 Hp).
  - right. rewrite Hg in Ha. by apply Hold.
Qed.

(** Reconciling again finds every entity under its path, unchanged. *)
Lemma outcome_all_exact reg es rev scope reg' rc asg bound i e b :
  registry_ok reg → (∀ e, e ∈ es → ∃ id a, by_path reg (e_qualified_path e) = Some id ∧
    get reg id = Some a ∧ a_content_hash a = e_content_hash e) →
  outcome reg es rev scope reg' rc asg bound → (i, e, b) ∈ asg →
  NoDup (e_qualified_path <$> es) →
  ∃ id, b = Exact id (e_content_hash e) ∧ by_path reg (e_qualified_path e) = Some id.
Proof.
  intros Hok Hsame Hoc Hin Huniq.
  pose proof (oc_entity _ _ _ _ _ _ _ _ Hoc _ _ _ Hin) as He.
  destruct (Hsame e He) as (id & a & Hp & Ha & Hh).
  destruct (oc_exact _ _ _ _ _ _ _ _ Hoc e id He Hp) as (j & h & Hex).
  assert (b = Exact id h) as ->.
  { pose proof (oc_path _ _ _ _ _ _ _ _ Hoc _ _ _ Hin) as H1.
    pose proof (oc_path _ _ _ _ _ _ _ _ Hoc _ _ _ Hex) as H2. rewrite H1 in H2. simplify_eq.
    by pose proof (oc_id_inj _ _ _ _ _ _ _ _ Hoc _ _ Hin Hex ltac:(done)) as [= -> ->]. }
  pose proof (oc_justified _ _ _ _ _ _ _ _ Hoc _ _ _ Hex) as Hj.
  destruct (justified_old _ _ _ _ _ Hok Hj Ha) as [-> _]. exists id. by rewrite Hh.
Qed.

(** Ids live and in scope after a pass were bound by it, so a second pass
    that binds the same paths retires nothing. *)
Lemma outcome_second_retires reg es rev scope reg' rc asg bound rev2 reg2 rc2 asg2 bound2 :
  outcome reg es rev scope reg' rc asg bound → outcome reg' es rev2 scope reg2 rc2 asg2 bound2 →
  rc_retired rc2 = [].
Proof.
  intros Hoc Hoc2. apply elem_of_nil_inv.
  intros id (Hnb2 & Hs & a & Ha & Hlive)%(oc_retired _ _ _ _ _ _ _ _ Hoc2).
  destruct (outcome_cases _ _ _ _ _ _ _ _ id Hoc) as [(i & e & b & Hin & <-)|[Hr|(Hnb & Hnr & Hg)]].
  - apply Hnb2. destruct (oc_exact _ _ _ _ _ _ _ _ Hoc2 e (binding_id b)) as (j & h & Hex).
    + by eapply (oc_entity _ _ _ _ _ _ _ _ Hoc).
    + by eapply (oc_path _ _ _ _ _ _ _ _ Hoc).
    + apply (outcome_bound _ _ _ _ _ _ _ _ _ _ _ Hoc2 Hex).
  - rewrite (oc_get_retired _ _ _ _ _ _ _ _ Hoc _ Hr) in Ha. by apply fmap_Some in Ha as (a0 & _ & ->).
  - apply Hnr. split; [done|]. split; [|rewrite <- Hg; eauto].
    by rewrite <- (anchor_in_scope_same reg' reg id scope) by by rewrite Hg.
Qed.

(** C25: reconciliation settles.  When the entities have distinct paths and no anchor
    that the path index lost stands at one of them ([reconcile_pre]), a second pass
    over the same entities reports no change and asks for no review.  Redefinitions
    are left out, and do not settle ([IdentityLimits]). *)
Theorem reconcile_idempotent mint reg es rev scope n reg' rc n' rev2 n2 reg2 rc2 n2' :
  reconcile_pre mint reg es n → reconcile_impl mint reg es rev scope n = Some (reg', rc, n') →
  mint_fresh mint reg' n2 →
  reconcile_impl mint reg' es rev2 scope n2 = Some (reg2, rc2, n2') →
  classify rc2 es = mkReconcileClasses [] [] [] [] ∧ rc_needs_review rc2 = [].
Proof.
  intros Hpre Hrun Hfresh Hrun2.
  destruct (pre_outcome _ _ _ _ _ _ _ _ _ Hpre Hrun) as (asg & bound & Hoc).
  pose proof (pre_uniq _ _ _ _ Hpre) as Huniq. pose proof (oc_ok _ _ _ _ _ _ _ _ Hoc) as Hok'.
  assert (reconcile_pre mint reg' es n2) as Hpre2.
  { split; try done; [apply Hpre|]. eapply outcome_no_stale; eauto using pre_stale. }
  destruct (pre_outcome _ _ _ _ _ _ _ _ _ Hpre2 Hrun2) as (asg2 & bound2 & Hoc2).
  assert (∀ i e b, (i, e, b) ∈ asg2 → ∃ id, b = Exact id (e_content_hash e) ∧
            by_path reg' (e_qualified_path e) = Some id) as Hex.
  { intros i e b Hin. eapply outcome_all_exact; eauto. intros e' He'.
    destruct (oc_all _ _ _ _ _ _ _ _ Hoc e' He') as (j & b' & Hin'). eexists _, _.
    split; [by eapply (oc_path _ _ _ _ _ _ _ _ Hoc)|].
    split; [by eapply (oc_get_bound _ _ _ _ _ _ _ _ Hoc)|]. apply bound_anchor_hash. }
  split.
  - unfold classify. rewrite classify_fold, (outcome_second_retires _ _ _ _ _ _ _ _ _ _ _ _ _ Hoc Hoc2).
    assert (∀ pb, pb ∈ rc_bindings rc2 → ¬ is_minted pb.2 ∧
              ¬ hash_changed (entities_by_path es) pb ∧
              moved_binding (entities_by_path es) pb = None) as Hq.
    { intros [p b] (i & e & Hin & ->)%(outcome_bindings _ _ _ _ _ _ _ _ Hoc2).
      destruct (Hex _ _ _ Hin) as (id & -> & _). split; [auto|]. split; [|done].
      unfold hash_changed. simpl. rewrite (entities_by_path_lookup es e Huniq).
      - simpl. rewrite bool_decide_spec. auto.
      - by eapply (oc_entity _ _ _ _ _ _ _ _ Hoc2). }
    simpl. f_equal.
    + by rewrite (proj2 (filter_nil_not_elem _ _)); [|naive_solver].
    + by rewrite (proj2 (filter_nil_not_elem _ _)); [|naive_solver].
    + apply elem_of_nil_inv. intros mv (pb & Hpb & Hm)%list_elem_of_omap.
      destruct (Hq pb Hpb) as (_ & _ & Hnone). congruence.
  - apply elem_of_nil_inv. intros id (i & e & b & Hin & Hf & _)%(oc_review _ _ _ _ _ _ _ _ Hoc2).
    destruct (Hex _ _ _ Hin) as (id' & -> & _). simpl in Hf. by rewrite bool_decide_spec in Hf.
Qed.

(** ** The structure rule *)

Lemma anchor_split a c name :
  anchor_container a = Some c → anchor_name a = name → a_qualified_path a = c +:+ "::" +:+ name.
Proof.
  unfold anchor_container, anchor_name, str_rfind, rsplit_first.
  destruct (rsplit_once "::" (a_qualified_path a)) as [[x y]|] eqn:E; simpl; [|done].
  apply rsplit_once_Some in E. case_bool_decide; [done|]. intros [= <-] <-.
  rewrite E at 2. by rewrite E, str_take_app.
Qed.

(** An entity that the structure rule matches has the very path of the
    anchor it takes over, and is not at the top level of its file: no edit
    distance but zero is ever compared. *)
Theorem struct_match_same_path file reg scope bound e id a :
  entity_wf file e → (∃ f rest, f ≠ "" ∧ no_colon rest ∧ a_qualified_path a = f +:+ "::" +:+ rest) →
  struct_match reg scope bound e id a →
  e_container e ≠ None ∧ a_qualified_path a = e_qualified_path e ∧
  edit_distance (a_qualified_path a) (e_qualified_path e) = 0.
Proof.
  intros (_ & Hpath & _) (f & rest & Hf & Hrest & Ha) (_ & _ & Hn & _ & Hc).
  destruct (e_container e) as [c|]; simpl in Hpath.
  - rewrite (anchor_split _ _ _ Hc Hn), <- Hpath. split; [done|]. split; [done|].
    apply edit_distance_self.
  - exfalso. unfold anchor_container, str_rfind in Hc. rewrite Ha, rsplit_once_path in Hc by done.
    simpl in Hc. case_bool_decide as H0; [|done]. apply Hf. by destruct f.
Qed.

(** ** Witnesses *)

Definition run0 (scope : option (gset string)) : option (IdentityRegistry * Reconciliation * nat) :=
  reconcile_impl mint0 registry0 entities0 2 scope 0.

Definition out0 (scope : option (gset string)) : IdentityRegistry * Reconciliation * nat :=
  default (empty_registry, mkReconciliation [] [] [], 0) (run0 scope).

Definition reg0' scope := (out0 scope).1.1.
Definition rc0 scope := (out0 scope).1.2.
Definition scope0 : gset string := {["a.py"; "b.py"; "c.py"]}.

Lemma pre0 : reconcile_pre mint0 registry0 entities0 0.
Proof.
  split; [apply _|apply registry0_ok|apply registry0_fresh|apply entities0_paths|apply registry0_no_stale].
Qed.

Lemma run0_eq : reconcile_impl mint0 registry0 entities0 2 None 0 = Some (reg0' None, rc0 None, 1).
Proof. by vm_compute. Qed.

Lemma run0_scoped_eq : reconcile_scoped mint0 registry0 entities0 2 scope0 0 = Some (reg0' (Some scope0), rc0 (Some scope0), 1).
Proof. by vm_compute. Qed.

(** A function and its redefinition. *)
Definition redefined0 : list Entity := [entity0 "a.py" "f" Function_ 8; entity0 "a.py" "f" Function_ 5].

Lemma reconcile_order_independent_witness :
  reconcile_impl mint0 registry0 redefined0 2 None 0 =
  reconcile_impl mint0 registry0 (reverse redefined0) 2 None 0.
Proof.
  apply (reconcile_order_independent mint0 registry0 redefined0 (reverse redefined0) 2 None 0).
  - intros x y [->|[->|[]%elem_of_nil]%elem_of_cons]%elem_of_cons [->|[->|[]%elem_of_nil]%elem_of_cons]%elem_of_cons _;
      simpl; congruence.
  - symmetry. apply reverse_Permutation.
Defined.

Lemma reconcile_keeps_indexes_witness : registry_ok (reg0' None).
Proof.
  apply (reconcile_keeps_indexes mint0 registry0 entities0 2 None 0 _ _ _ registry0_ok run0_eq).
Defined.

Lemma reconcile_one_to_one_witness :
  (rc_bindings (rc0 None)).*1 ≡ₚ ["c.py::g"; "a.py::f"; "a.py::h"] ∧
  ((λ pb, binding_id pb.2) <$> rc_bindings (rc0 None)) = ["A1"; "A2"; "M0"].
Proof.
  split; [|by vm_compute].
  apply (reconcile_one_to_one mint0 registry0 entities0 2 None 0 _ _ _ mint0_inj registry0_ok
    (registry0_fresh 0) run0_eq).
Defined.

Lemma reconcile_binds_entities_witness :
  ∃ b, by_path (reg0' None) "c.py::g" = Some (binding_id b) ∧
    ("c.py::g", b) ∈ rc_bindings (rc0 None).
Proof.
  destruct (reconcile_binds_entities _ _ _ _ _ _ _ _ _ pre0 run0_eq (entity0 "c.py" "g" Class_ 9))
    as (b & ? & _ & ? & _); [left|]. exists b. split; assumption.
Defined.

(** Only [f] is left: [A2] is retired, and out of the scope [a.py] it is not. *)
Definition solo0 : list Entity := [entity0 "a.py" "f" Function_ 8].

Definition solo_run0 (scope : option (gset string)) : IdentityRegistry * Reconciliation * nat :=
  default (empty_registry, mkReconciliation [] [] [], 0) (reconcile_impl mint0 registry0 solo0 2 scope 0).

Lemma solo_run0_eq scope :
  reconcile_impl mint0 registry0 solo0 2 scope 0 = Some ((solo_run0 scope).1.1, (solo_run0 scope).1.2, (solo_run0 scope).2).
Proof.
  unfold solo_run0. destruct (reconcile_impl_total mint0 registry0 solo0 2 scope 0) as [[[r rc] n] ->]. done.
Qed.

Lemma solo_pre0 : reconcile_pre mint0 registry0 solo0 0.
Proof.
  destruct pre0 as [? ? ? _ Hs]. split; [done..|by apply (bool_decide_unpack _)|].
  intros id a e Ha ->%list_elem_of_singleton Hp.
  destruct (Hs id a (entity0 "a.py" "f" Function_ 8) Ha) as [?|[? Hc]]; [right; left|done|by left|right].
  split; [done|]. intros e' ->%list_elem_of_singleton. apply Hc. right. left.
Qed.


Lemma classify_is_difference_witness :
  cl_changed (classify (rc0 None) entities0) = ["A1"] ∧
  ∃ a a', get registry0 "A1" = Some a ∧ get (reg0' None) "A1" = Some a' ∧
    a_content_hash a ≠ a_content_hash a'.
Proof.
  split; [by vm_compute|].
  apply (rd_changed _ _ _ _ _ (proj1 (classify_is_difference _ _ _ _ _ _ _ _ _ pre0 run0_eq))).
  by vm_compute; left.
Defined.

Lemma registry0_complete : paths_complete registry0.
Proof.
  intros id a Ha _. assert (is_Some (get registry0 id)) as Hs by by exists a.
  apply registry0_cases in Hs as [->| ->]; vm_compute in Ha; by simplify_eq.
Qed.

Lemma entities0_in_scope e : e ∈ entities0 → scope_has (Some scope0) (e_qualified_path e).
Proof. unfold entities0. intros [->|[->|[->|[]%not_elem_of_nil]%elem_of_cons]%elem_of_cons]%elem_of_cons; by vm_compute. Qed.

Lemma reconcile_paths_complete_witness : paths_complete (reg0' None).
Proof.
  eapply (reconcile_paths_complete mint0 registry0 entities0 2 None 0);
    [exact pre0|done|exact run0_eq|exact registry0_complete].
Defined.

Lemma reconcile_scoped_frame_witness :
  by_path (reg0' (Some scope0)) "d.py::x" = None.
Proof.
  pose proof (reconcile_scoped_frame mint0 registry0 entities0 2 scope0 0 _ _ _ pre0
    entities0_in_scope run0_scoped_eq) as [_ H]. apply H. by vm_compute.
Defined.

Lemma reg0'_fresh : mint_fresh mint0 (reg0' None) 1.
Proof.
  intros k Hk. apply eq_None_not_Some. unfold get. rewrite <- elem_of_dom.
  assert (dom (r_by_id (reg0' None)) = {["A1"; "A2"; "M0"]}) as -> by by vm_compute.
  rewrite !elem_of_union, !elem_of_singleton. intros [[[=]|[=]]|H].
  change "M0" with (mint0 0) in H. apply (inj mint0) in H. lia.
Qed.

Lemma reconcile_idempotent_witness :
  ∃ reg2 rc2, reconcile_impl mint0 (reg0' None) entities0 3 None 1 = Some (reg2, rc2, 1) ∧
    classify rc2 entities0 = mkReconcileClasses [] [] [] [].
Proof.
  destruct (reconcile_impl mint0 (reg0' None) entities0 3 None 1) as [[[reg2 rc2] n2]|] eqn:E.
  - pose proof (reconcile_idempotent _ _ _ _ _ _ _ _ _ _ _ _ _ _ pre0 run0_eq reg0'_fresh E) as [H _].
    exists reg2, rc2. split; [|exact H]. vm_compute in E. by injection E as <- <- <-.
  - by vm_compute in E.
Defined.

Lemma struct_match_same_path_witness :
  let e := mkEntity "a.py::C::m" Method 4 (Some "a.py::C") "m" "a.py" (0, 1)%N (0, 1)%N "C.m" in
  let a := mkAnchor "A" "a.py::C::m" 3 Method 1 1 Orphaned in
  edit_distance (a_qualified_path a) (e_qualified_path e) = 0.
Proof.
  intros e a.
  apply (struct_match_same_path "a.py" (insert empty_registry a) None ∅ e "A" a).
  - split; [done|]. split; [done|]. intros c [= <-]. by exists "C".
  - by exists "a.py::C", "m".
  - by apply (bool_decide_unpack _).
Defined.
