(* ===== verification/IdentityLimits.v ===== *)
(** * Where durable identity is lost

    Concrete runs of reconciliation, from an empty registry, that fall outside
    the precondition of the reconciliation theorems, and what the code does
    there. *)

From S2P Require Import Prelude Str Paths Content Identity Entity EditDistance Reconcile.
From S2P Require Import ReconcileFacts ReconcileTheorems.
Import Registry.

(** One commit after another: the entities each of them extracts. *)
Fixpoint run_commits (reg : IdentityRegistry) (rev : Revision) (n : nat)
    (commits : list (list Entity)) : option (IdentityRegistry * nat) :=
  match commits with
  | [] => Some (reg, n)
  | es :: rest =>
      match reconcile mint0 reg es rev n with
      | Some (reg', _, n') => run_commits reg' (u64_succ rev) n' rest
      | None => None
      end
  end.

(** The registry after the commits. *)
Definition after (commits : list (list Entity)) : IdentityRegistry :=
  match run_commits empty_registry 1 0 commits with
  | Some (reg, _) => reg
  | None => empty_registry
  end.

(** [foo] is deleted, another [foo] is written at its path, and then the
    first one comes back in another file. *)
Definition revived_elsewhere : list (list Entity) :=
  [ [entity0 "a.py" "foo" Function_ 1]; [];
    [entity0 "a.py" "foo" Class_ 2];
    [entity0 "a.py" "foo" Class_ 2; entity0 "z.py" "foo" Function_ 1] ].

(** When a retired id is revived at another path, [rebind] removes the
    index entry of whichever id now lives at the old path: the live id stays
    Active but is no longer found under its path.  The next edit of its body
    gives the entity a new id and orphans the old one, and the retirement
    removes the new id's index entry in turn. *)
Theorem revival_unindexes_live_id :
  let reg := after revived_elsewhere in
  let reg' := after (revived_elsewhere ++
    [[entity0 "a.py" "foo" Class_ 3; entity0 "z.py" "foo" Function_ 1]]) in
  ¬ paths_complete reg ∧
  (status_of reg "M1", by_path reg "a.py::foo") = (Some Active, None) ∧
  (status_of reg' "M1", status_of reg' "M2", by_path reg' "a.py::foo") =
    (Some Orphaned, Some Active, None).
Proof.
  intros reg reg'. split; [|split; by vm_compute].
  intros Hpc. assert (get reg "M1" = Some (mkAnchor "M1" "a.py::foo" 2 Class_ 3 4 Active)) as Ha
    by (vm_compute; reflexivity).
  assert (by_path reg "a.py::foo" = None) as Hp by (vm_compute; reflexivity).
  assert (by_path reg "a.py::foo" = Some "M1") as Hp'; [|rewrite Hp in Hp'; discriminate].
  apply (Hpc _ _ Ha). discriminate.
Qed.

(** A function defined twice in one file. *)
Definition redefined : list Entity :=
  [entity0 "a.py" "f" Function_ 1; entity0 "a.py" "f" Function_ 2].

(** Two definitions with one qualified path never settle: committing the
    same source again and again mints a new id each time, orphans the one
    before, and leaves the path index without the entity. *)
Theorem redefinition_never_settles :
  let reg3 := after [redefined; redefined; redefined] in
  let reg4 := after [redefined; redefined; redefined; redefined] in
  (status_of reg3 "M3", by_path reg3 "a.py::f") = (Some Active, None) ∧
  (status_of reg4 "M3", status_of reg4 "M4", by_path reg4 "a.py::f") =
    (Some Orphaned, Some Active, None).
Proof. split; vm_compute; reflexivity. Qed.

(** Of two definitions with one path, the unchanged one is reported as changed:
    the classification compares its hash with that of the last entity at the path.
    Here [A1] has the hash 7 before and after. *)
Theorem redefinition_reported_as_change :
  let es := [entity0 "a.py" "f" Function_ 7; entity0 "a.py" "f" Function_ 9; entity0 "b.py" "g" Class_ 9] in
  match reconcile_impl mint0 registry0 es 2 None 0 with
  | Some (reg, rc, _) => cl_changed (classify rc es) = ["A1"] ∧
      a_content_hash <$> get registry0 "A1" = Some 7%N ∧ a_content_hash <$> get reg "A1" = Some 7%N
  | None => False
  end.
Proof. vm_compute. done. Qed.

(** An anchor keeps the kind it was minted with when the symbol at its
    path becomes a symbol of another kind. *)
Theorem rebind_keeps_stale_kind :
  a_kind <$> get (after [[entity0 "a.py" "x" Function_ 1]; [entity0 "a.py" "x" Class_ 2]]) "M0" =
    Some Function_.
Proof. vm_compute. reflexivity. Qed.

(** A registry that the operations reach and the debug assertion rejects: a
    retired anchor whose path a new entity has taken. *)
Theorem retired_path_reused :
  let reg := after [[entity0 "a.py" "foo" Function_ 1]; []; [entity0 "a.py" "foo" Class_ 2]] in
  (status_of reg "M0", status_of reg "M1", assert_consistent reg) =
    (Some Orphaned, Some Active, false).
Proof. vm_compute. reflexivity. Qed.
