(* ===== verification/Json.v ===== *)
(** * JSON values and number formats

    [serde_json::Value] with the accessors the crate uses, and the decimal and
    hexadecimal text of unsigned integers ([to_string], [{:032x}], [parse],
    [from_str_radix]).  Reading and writing JSON text is the library's: it is
    an instance of [SerdeJson]. *)

From Stdlib Require Import Ascii.
From S2P Require Import Prelude Str.

(** ** Values *)

(** Integers are [JNumber]; a number with a fraction or an exponent is
    [JFloat], its text unread here. *)
Inductive Json :=
| JNull
| JBool (b : bool)
| JNumber (z : Z)
| JFloat (text : string)
| JString (s : string)
| JArray (l : list Json)
| JObject (fields : list (string * Json)).

(** [value["key"]]: [Null] when the value is no object or has no such key. *)
Fixpoint field (fields : list (string * Json)) (key : string) : option Json :=
  match fields with
  | [] => None
  | (k, v) :: fields => if String.eqb k key then Some v else field fields key
  end.

Definition index (v : Json) (key : string) : Json :=
  match v with JObject fields => default JNull (field fields key) | _ => JNull end.

Definition as_u64 (v : Json) : option N :=
  match v with
  | JNumber z => if ((0 <=? z) && (z <? 2 ^ 64))%Z then Some (Z.to_N z) else None
  | _ => None
  end.

Definition as_str (v : Json) : option string := match v with JString s => Some s | _ => None end.

Definition as_array (v : Json) : option (list Json) := match v with JArray l => Some l | _ => None end.

Definition u64_json (n : N) : Json := JNumber (Z.of_N n).

Lemma as_u64_json n : (n < u64_modulus)%N → as_u64 (u64_json n) = Some n.
Proof.
  intros H. unfold as_u64, u64_json, u64_modulus in *.
  rewrite (proj2 (Z.leb_le _ _)), (proj2 (Z.ltb_lt _ _)) by lia. simpl. by rewrite N2Z.id.
Qed.

Class SerdeJson := {
  from_str : string → result string Json;
  to_vec_pretty : Json → string;
}.

(** ** Unsigned integers in a radix *)

Definition u128_modulus : N := (2 ^ 128)%N.

Definition digit_char (d : N) : ascii :=
  ascii_of_N (if (d <? 10)%N then 48 + d else 87 + d)%N.

(** The value of a digit or letter. *)
Definition char_value (c : ascii) : option N :=
  let b := N_of_ascii c in
  if ((48 <=? b) && (b <=? 57))%N then Some (b - 48)%N
  else if ((97 <=? b) && (b <=? 122))%N then Some (b - 87)%N
  else if ((65 <=? b) && (b <=? 90))%N then Some (b - 55)%N
  else None.

(** [char::to_digit] *)
Definition char_digit (radix : N) (c : ascii) : option N :=
  match char_value c with
  | Some d => if (d <? radix)%N then Some d else None
  | None => None
  end.

Fixpoint digits (fuel : nat) (radix n : N) : list ascii :=
  match fuel with
  | O => []
  | S fuel =>
      if (n <? radix)%N then [digit_char n]
      else digits fuel radix (n / radix) ++ [digit_char (n mod radix)]
  end.

(** A [u128] has at most 128 digits in any radix. *)
Definition to_radix (radix n : N) : list ascii := digits 128 radix n.

Definition u128_to_string (n : N) : string := String.string_of_list_ascii (to_radix 10 n).

(** [format!("{:032x}", n)] *)
Definition u128_to_hex (n : N) : string :=
  let ds := to_radix 16 n in
  String.string_of_list_ascii (replicate (32 - length ds) (digit_char 0) ++ ds).

(** One digit of [from_str_radix]: [checked_mul] then [checked_add]. *)
Definition radix_step (radix limit : N) (acc : option N) (c : ascii) : option N :=
  match acc, char_digit radix c with
  | Some n, Some d =>
      let n' := (n * radix + d)%N in if (n' <? limit)%N then Some n' else None
  | _, _ => None
  end.

Definition from_str_radix (radix limit : N) (s : string) : option N :=
  let cs := String.list_ascii_of_string s in
  let cs := match cs with c :: (_ :: _ as rest) => if Ascii.eqb c "+" then rest else cs | _ => cs end in
  match cs with
  | [] => None
  | _ => foldl (radix_step radix limit) (Some 0%N) cs
  end.

Lemma char_value_of d : (d < 16)%N → char_value (digit_char d) = Some d.
Proof.
  intros Hd. destruct d as [|p]; [by vm_compute|].
  do 5 (try (destruct p as [p|p|]; try lia)); by vm_compute.
Qed.

Lemma char_digit_of radix d : (d < radix ≤ 16)%N → char_digit radix (digit_char d) = Some d.
Proof.
  intros [Hd Hr]. unfold char_digit. rewrite char_value_of by lia. by rewrite (proj2 (N.ltb_lt _ _)).
Qed.

Lemma digits_read fuel radix limit n :
  (2 ≤ radix ≤ 16)%N → (n < 2 ^ N.of_nat fuel)%N → fuel ≠ 0 → (n < limit)%N →
  foldl (radix_step radix limit) (Some 0%N) (digits fuel radix n) = Some n.
Proof.
  intros Hr. revert n. induction fuel as [|fuel IH]; intros n Hn Hf Hl; [done|]. cbn [digits].
  destruct (N.ltb_spec n radix) as [Hlt|Hge].
  - simpl. rewrite char_digit_of by lia. by rewrite (proj2 (N.ltb_lt _ _)) by lia.
  - rewrite foldl_app, IH; simpl.
    + rewrite char_digit_of by (split; [apply N.mod_lt|]; lia).
      assert (n / radix * radix + n mod radix = n)%N as -> by (rewrite N.mul_comm; symmetry; apply N.div_mod; lia).
      by rewrite (proj2 (N.ltb_lt _ _)).
    + rewrite Nat2N.inj_succ, N.pow_succ_r' in Hn. apply N.Div0.div_lt_upper_bound. nia.
    + intros ->. simpl in Hn. lia.
    + eapply N.le_lt_trans; [|exact Hl]. apply N.Div0.div_le_upper_bound. nia.
Qed.

Lemma digits_nonempty fuel radix n : fuel ≠ 0 → digits fuel radix n ≠ [].
Proof.
  destruct fuel; [done|]. intros _. cbn [digits]. destruct (n <? radix)%N; [done|].
  intros H. by apply app_eq_nil in H as [_ ?].
Qed.

(** Reading a text that starts with a digit. *)
Lemma from_str_radix_digits radix limit cs c rest :
  cs = c :: rest → is_Some (char_digit radix c) →
  from_str_radix radix limit (String.string_of_list_ascii cs) = foldl (radix_step radix limit) (Some 0%N) cs.
Proof.
  intros -> [d Hd]. unfold from_str_radix.
  rewrite String.list_ascii_of_string_of_list_ascii. destruct rest; [done|].
  destruct (Ascii.eqb_spec c "+") as [->|]; [|done]. vm_compute in Hd. done.
Qed.

Lemma digits_all fuel radix n :
  (2 ≤ radix ≤ 16)%N → Forall (λ c, is_Some (char_digit radix c)) (digits fuel radix n).
Proof.
  intros Hr. revert n. induction fuel as [|fuel IH]; intros n; cbn [digits]; [constructor|].
  destruct (N.ltb_spec n radix).
  - repeat constructor. rewrite char_digit_of by lia. eauto.
  - apply Forall_app. split; [done|]. repeat constructor.
    rewrite char_digit_of by (split; [apply N.mod_lt|]; lia). eauto.
Qed.

(** A zero-padded numeral reads back as its number. *)
Lemma padded_read radix limit n pad :
  (2 ≤ radix ≤ 16)%N → (n < u128_modulus)%N → (n < limit)%N →
  from_str_radix radix limit
    (String.string_of_list_ascii (replicate pad (digit_char 0) ++ to_radix radix n)) = Some n.
Proof.
  intros Hr Hn Hl.
  assert (Forall (λ c, is_Some (char_digit radix c)) (replicate pad (digit_char 0) ++ to_radix radix n))
    as Hall.
  { apply Forall_app. split; [|by apply digits_all]. apply Forall_replicate.
    rewrite char_digit_of by lia. eauto. }
  destruct (replicate pad (digit_char 0) ++ to_radix radix n) as [|c rest] eqn:E.
  { apply app_eq_nil in E as [_ E]. by apply digits_nonempty in E. }
  apply Forall_cons in Hall as [Hc _]. rewrite (from_str_radix_digits _ _ _ c rest) by done.
  rewrite <- E, foldl_app.
  assert (∀ k, foldl (radix_step radix limit) (Some 0%N) (replicate k (digit_char 0)) = Some 0%N) as ->.
  { induction k as [|k IH]; simpl; [done|]. rewrite char_digit_of by lia. simpl.
    by rewrite (proj2 (N.ltb_lt _ _)) by lia. }
  by apply digits_read.
Qed.

Lemma u128_decimal_read n :
  (n < u128_modulus)%N → from_str_radix 10 u128_modulus (u128_to_string n) = Some n.
Proof. intros H. by apply (padded_read 10 u128_modulus n 0). Qed.

Lemma u128_hex_read n :
  (n < u128_modulus)%N → from_str_radix 16 u128_modulus (u128_to_hex n) = Some n.
Proof. intros H. by apply padded_read. Qed.

#[global] Arguments as_u64 : simpl never.
#[global] Arguments u64_json : simpl never.
#[global] Arguments from_str_radix : simpl never.
#[global] Arguments u128_to_hex : simpl never.
#[global] Arguments u128_to_string : simpl never.
