(* ===== verification/IdentityFormat.v ===== *)
(** * The registry's file format ([IdentityRegistry::to_json_value],
    [from_json] of [rust/src/identity.rs])

    Writing a registry and reading it back, on every branch of the reader. *)

From S2P Require Import Prelude Str Paths Content Identity Json.
Import Registry.

Inductive FormatError :=
| FormatJson (msg : string)
| MissingField (name : string)
| UnknownVersion (v : N).

Definition kind_to_str (k : SymbolKind) : string :=
  match k with
  | Module_ => "module" | Class_ => "class" | Function_ => "function" | Method => "method"
  | Constructor_ => "constructor" | Variable_ => "variable" | Constant => "constant"
  | Field_ => "field" | Parameter_ => "parameter" | Property_ => "property"
  | TypeParameter => "type_parameter" | Import_ => "import"
  end.

Definition all_kinds : list SymbolKind :=
  [Module_; Class_; Function_; Method; Constructor_; Variable_; Constant; Field_; Parameter_;
   Property_; TypeParameter; Import_].

(** The match on the text; an unknown text is a variable. *)
Definition str_to_kind (s : string) : SymbolKind :=
  match list_find (λ k, kind_to_str k = s) all_kinds with
  | Some (_, k) => k
  | None => Variable_
  end.

Definition status_to_str (s : IdentityStatus) : string :=
  match s with Active => "active" | NeedsReview => "needs_review" | Orphaned => "orphaned" end.

Definition str_to_status (s : string) : IdentityStatus :=
  if String.eqb s "needs_review" then NeedsReview
  else if String.eqb s "orphaned" then Orphaned
  else Active.

Definition anchor_to_json (a : Anchor) : Json :=
  JObject
    [("id", JString (a_id a));
     ("qualified_path", JString (a_qualified_path a));
     ("content_hash", JString (u128_to_string (a_content_hash a)));
     ("kind", JString (kind_to_str (a_kind a)));
     ("first_seen_rev", u64_json (a_first_seen_rev a));
     ("last_seen_rev", u64_json (a_last_seen_rev a));
     ("status", JString (status_to_str (a_status a)))].

(** The anchors in the order of their ids. *)
Definition sorted_anchors (r : IdentityRegistry) : list Anchor :=
  sort_by (λ a b, str_le (a_id a) (a_id b)) (map_to_list (r_by_id r)).*2.

Definition to_json_value (r : IdentityRegistry) : Json :=
  JObject [("format_version", u64_json 1); ("anchors", JArray (anchor_to_json <$> sorted_anchors r))].

(** One entry of the loop of [from_json]. *)
Definition anchor_of_json (entry : Json) : result FormatError Anchor :=
  let? id := ok_or (as_str (index entry "id")) (MissingField "id") in
  let? path := ok_or (as_str (index entry "qualified_path")) (MissingField "qualified_path") in
  let? hash_str := ok_or (as_str (index entry "content_hash")) (MissingField "content_hash") in
  let? kind_str := ok_or (as_str (index entry "kind")) (MissingField "kind") in
  let? first := ok_or (as_u64 (index entry "first_seen_rev")) (MissingField "first_seen_rev") in
  let? last := ok_or (as_u64 (index entry "last_seen_rev")) (MissingField "last_seen_rev") in
  let status_str := default "active" (as_str (index entry "status")) in
  let? hash := ok_or (from_str_radix 10 u128_modulus hash_str)
                 (FormatJson ("invalid content_hash: " +:+ hash_str)) in
  Ok (mkAnchor id path hash (str_to_kind kind_str) first last (str_to_status status_str)).

Definition registry_of_json (root : Json) : result FormatError IdentityRegistry :=
  let? version := ok_or (as_u64 (index root "format_version")) (MissingField "format_version") in
  if (1 <? version)%N then Err (UnknownVersion version)
  else
    let? anchors := ok_or (as_array (index root "anchors")) (MissingField "anchors") in
    foldM (λ reg entry, let? a := anchor_of_json entry in Ok (insert reg a)) empty_registry anchors.

Section text.
Context {SJ : SerdeJson}.

Definition registry_to_bytes (r : IdentityRegistry) : string := to_vec_pretty (to_json_value r).

(** [utf8 bytes] is [None] when the bytes are not UTF-8 text. *)
Definition registry_from_bytes (utf8 : string → option string) (bytes : string) :
    result FormatError IdentityRegistry :=
  let? text := ok_or (utf8 bytes) (FormatJson "invalid utf-8") in
  let? root := match from_str text with Ok v => Ok v | Err e => Err (FormatJson e) end in
  registry_of_json root.
End text.

(** ** One anchor *)

(** The numbers of an anchor fit their machine types. *)
Definition anchor_wf (a : Anchor) : Prop :=
  (a_content_hash a < u128_modulus)%N ∧ (a_first_seen_rev a < u64_modulus)%N ∧
  (a_last_seen_rev a < u64_modulus)%N.

Lemma str_to_kind_to_str k : str_to_kind (kind_to_str k) = k.
Proof. by destruct k. Qed.

Lemma str_to_status_to_str s : str_to_status (status_to_str s) = s.
Proof. by destruct s. Qed.

Lemma anchor_json_read a : anchor_wf a → anchor_of_json (anchor_to_json a) = Ok a.
Proof.
  intros (Hh & Hf & Hl). unfold anchor_of_json.
  change (index (anchor_to_json a) "first_seen_rev") with (u64_json (a_first_seen_rev a)).
  change (index (anchor_to_json a) "last_seen_rev") with (u64_json (a_last_seen_rev a)).
  rewrite !as_u64_json by done. cbn [ok_or result_bind].
  change (as_str (index (anchor_to_json a) "content_hash")) with (Some (u128_to_string (a_content_hash a))).
  cbn [ok_or result_bind]. rewrite u128_decimal_read by done. cbn.
  rewrite str_to_kind_to_str, str_to_status_to_str. by destruct a.
Qed.

(** ** The whole registry *)

Lemma registry_json_read r :
  (∀ a, a ∈ sorted_anchors r → anchor_wf a) →
  registry_of_json (to_json_value r) = Ok (foldl insert empty_registry (sorted_anchors r)).
Proof.
  intros Hwf. unfold registry_of_json.
  change (as_array (index (to_json_value r) "anchors")) with (Some (anchor_to_json <$> sorted_anchors r)).
  change (as_u64 (index (to_json_value r) "format_version")) with (Some 1%N).
  cbn [ok_or result_bind]. change (1 <? 1)%N with false. cbn iota.
  apply foldM_fmap_ok. intros reg a Ha. by rewrite anchor_json_read by auto.
Qed.

(** Inserting anchors with distinct ids into an empty registry. *)
Record loaded (l : list Anchor) (r : IdentityRegistry) : Prop := {
  ld_ok : registry_ok r;
  ld_get : ∀ id a, get r id = Some a ↔ a ∈ l ∧ a_id a = id;
  ld_path : ∀ p, by_path r p = a_id <$> last (filter (λ a, a_qualified_path a = p) l);
}.

Lemma insert_anchors_loaded l :
  NoDup (a_id <$> l) → loaded l (foldl insert empty_registry l).
Proof.
  induction l as [|a l IH] using rev_ind; intros Hnd.
  { split; simpl; [apply empty_ok| |done]. intros id a. unfold get. simpl. set_solver. }
  rewrite fmap_app in Hnd. apply NoDup_app in Hnd as (Hnd & Hnew & _).
  rewrite foldl_app. destruct (IH Hnd) as [Hok Hget Hpath]. cbn [foldl].
  set (r := foldl insert empty_registry l) in *.
  assert (get r (a_id a) = None) as Hnone.
  { apply eq_None_not_Some. intros [a' [Ha' Hid]%Hget]. apply (Hnew (a_id a)); [|simpl; left].
    rewrite <- Hid. by apply list_elem_of_fmap_2. }
  split.
  - auto with tyo3.
  - intros id a'. rewrite insert_rekey. unfold get. rewrite rekey_by_id, lookup_insert.
    rewrite elem_of_app, list_elem_of_singleton. case_decide as Hid.
    + split; [naive_solver|]. intros [[Ha'| ->] Hid']; [|done]. exfalso.
      assert (get r (a_id a) = Some a') as Hs by (apply Hget; naive_solver). congruence.
    + change (r_by_id r !! id) with (get r id). rewrite Hget. naive_solver.
  - intros p. rewrite insert_rekey. unfold by_path. rewrite rekey_by_path, filter_app.
    change (r_by_id r !! a_id a) with (get r (a_id a)). rewrite Hnone, filter_cons, filter_nil.
    case_decide as Hp.
    + by rewrite last_snoc.
    + rewrite app_nil_r. by apply Hpath.
Qed.

Lemma sorted_anchors_spec r :
  registry_ok r →
  NoDup (a_id <$> sorted_anchors r) ∧
  ∀ a, a ∈ sorted_anchors r ↔ get r (a_id a) = Some a.
Proof.
  intros Hok. unfold sorted_anchors. split.
  - rewrite sort_by_perm, <- list_fmap_compose.
    replace (_ <$> map_to_list (r_by_id r)) with ((map_to_list (r_by_id r)).*1);
      [apply NoDup_fst_map_to_list|].
    apply list_fmap_ext. intros i [id a] Hi. simpl. symmetry. apply (ok_ids r Hok).
    apply elem_of_map_to_list. by eapply list_elem_of_lookup_2.
  - intros a. rewrite elem_of_sort_by, list_elem_of_fmap. split.
    + intros ([id a'] & -> & Hin%elem_of_map_to_list). simpl. by rewrite (ok_ids r Hok _ _ Hin).
    + intros Ha. exists (a_id a, a). split; [done|]. by apply elem_of_map_to_list.
Qed.

(** C30: a registry written and read back keeps every anchor and the hash
    index; a path leads to its anchor again when no other anchor carries it,
    and otherwise to the greatest id that does. *)
Theorem registry_roundtrip {SJ : SerdeJson} utf8 r :
  registry_ok r → (∀ id a, get r id = Some a → anchor_wf a) →
  utf8 (registry_to_bytes r) = Some (registry_to_bytes r) →
  from_str (registry_to_bytes r) = Ok (to_json_value r) →
  ∃ r', registry_from_bytes utf8 (registry_to_bytes r) = Ok r' ∧
    r_by_id r' = r_by_id r ∧ registry_ok r' ∧ (∀ h, by_hash r' h ≡ₚ by_hash r h) ∧
    (∀ p, by_path r' p = a_id <$> last (filter (λ a, a_qualified_path a = p) (sorted_anchors r))) ∧
    (∀ id a, get r id = Some a →
       (∀ id' a', get r id' = Some a' → a_qualified_path a' = a_qualified_path a → id' = id) →
       by_path r' (a_qualified_path a) = Some id).
Proof.
  intros Hok Hwf Hutf Htext. destruct (sorted_anchors_spec r Hok) as [Hnd Hin].
  destruct (insert_anchors_loaded _ Hnd) as [Hok' Hget Hpath].
  exists (foldl insert empty_registry (sorted_anchors r)).
  assert (r_by_id (foldl insert empty_registry (sorted_anchors r)) = r_by_id r) as Hid.
  { apply map_eq. intros id. apply option_eq. intros a. change (get ?x id) with (r_by_id x !! id) in *.
    rewrite (Hget id a), Hin. split; [naive_solver|]. intros Ha.
    by rewrite (ok_ids r Hok _ _ Ha). }
  split.
  { unfold registry_from_bytes. rewrite Hutf. simpl. rewrite Htext. simpl.
    apply registry_json_read. intros a Ha%Hin. by eapply Hwf. }
  split; [done|]. split; [done|]. split; [|split; [done|]].
  - intros h. apply NoDup_Permutation; [apply Hok'|apply Hok|]. intros id.
    by rewrite (ok_hash _ Hok'), (ok_hash _ Hok), Hid.
  - intros id a Ha Huniq. rewrite Hpath.
    assert (∀ x, x ∈ filter (λ x, a_qualified_path x = a_qualified_path a) (sorted_anchors r) → a_id x = id)
      as Hall.
    { intros x [Hp Hx%Hin]%list_elem_of_filter. by eapply Huniq. }
    assert (a ∈ filter (λ x, a_qualified_path x = a_qualified_path a) (sorted_anchors r)) as Ha'.
    { apply list_elem_of_filter. split; [done|]. apply Hin. by rewrite (ok_ids r Hok _ _ Ha). }
    destruct (last _) as [x|] eqn:E; [|by rewrite last_None in E; rewrite E in Ha'; set_solver].
    simpl. f_equal. apply Hall. by apply last_Some_elem_of.
Qed.

(** [B] was deleted from [a.py::f], then [A] moved there. *)
Definition reload0 : IdentityRegistry :=
  rebind
    (retire
       (insert (insert empty_registry (mkAnchor "A" "a.py::g" 1 Function_ 1 1 Active))
          (mkAnchor "B" "a.py::f" 2 Function_ 1 1 Active))
       "B" 2)
    "A" "a.py::f" 1 3.

(** Reading a registry back puts retired anchors into the path index: a
    retired id with a greater name takes the path from the live one. *)
Theorem reload_indexes_orphans :
  by_path reload0 "a.py::f" = Some "A" ∧ status_of reload0 "B" = Some Orphaned ∧
  match registry_of_json (to_json_value reload0) with
  | Ok r' => by_path r' "a.py::f" = Some "B" ∧ status_of r' "A" = Some Active
  | Err _ => False
  end.
Proof. vm_compute. auto. Qed.

(** A registry written by a newer version of the format is refused, and so
    is a file without a version, without anchors, or with an anchor whose
    fields are missing or whose hash is no 128-bit decimal number. *)
Theorem registry_format_errors root :
  match registry_of_json root with
  | Ok _ =>
      (∃ v, as_u64 (index root "format_version") = Some v ∧ (v ≤ 1)%N) ∧
      ∃ entries, as_array (index root "anchors") = Some entries ∧
        ∀ x, x ∈ entries → ∃ a, anchor_of_json x = Ok a
  | Err (UnknownVersion v) => as_u64 (index root "format_version") = Some v ∧ (1 < v)%N
  | Err _ =>
      as_u64 (index root "format_version") = None ∨ as_array (index root "anchors") = None ∨
      ∃ entries x, as_array (index root "anchors") = Some entries ∧ x ∈ entries ∧
        is_ok (anchor_of_json x) = false
  end.
Proof.
  unfold registry_of_json.
  destruct (as_u64 (index root "format_version")) as [v|]; simpl; [|by left].
  destruct (N.ltb_spec 1 v); [by split|].
  destruct (as_array (index root "anchors")) as [entries|]; simpl; [|by right; left].
  assert (∀ reg l, match foldM (λ reg entry, let? a := anchor_of_json entry in Ok (insert reg a)) reg l with
            | Ok _ => ∀ x, x ∈ l → ∃ a, anchor_of_json x = Ok a
            | Err (UnknownVersion _) => False
            | Err _ => ∃ x, x ∈ l ∧ is_ok (anchor_of_json x) = false
            end) as Hloop.
  { intros reg l. revert reg. induction l as [|x l IH]; intros reg; simpl; [set_solver|].
    destruct (anchor_of_json x) as [a|e] eqn:E; simpl.
    - specialize (IH (insert reg a)). destruct (foldM _ _ _) as [|[]]; set_solver.
    - destruct e; [exists x; rewrite E; split; [left|done]..|].
      unfold anchor_of_json, ok_or, result_bind in E. repeat case_match; simplify_eq. }
  specialize (Hloop empty_registry entries). destruct (foldM _ _ _) as [r|[| |]].
  - split; [exists v; split; [done|lia]|]. by exists entries.
  - right; right. destruct Hloop as (x & Hx & Hf). by exists entries, x.
  - right; right. destruct Hloop as (x & Hx & Hf). by exists entries, x.
  - done.
Qed.

(** Witness. *)
Definition roundtrip0 : IdentityRegistry :=
  insert empty_registry (mkAnchor "A" "a.py::g" 1 Function_ 1 1 NeedsReview).

Definition serde0 : SerdeJson :=
  {| from_str := λ _, Ok (to_json_value roundtrip0); to_vec_pretty := λ _, "" |}.

Lemma roundtrip0_get id a :
  get roundtrip0 id = Some a → id = "A" ∧ a = mkAnchor "A" "a.py::g" 1 Function_ 1 1 NeedsReview.
Proof.
  unfold get, roundtrip0. rewrite insert_rekey, rekey_by_id. simpl.
  by intros [[<- <-]|[_ Ha]]%lookup_insert_Some.
Qed.

Lemma registry_roundtrip_witness :
  ∃ r', registry_from_bytes (SJ:=serde0) Some "" = Ok r' ∧ by_path r' "a.py::g" = Some "A".
Proof.
  destruct (registry_roundtrip (SJ:=serde0) Some roundtrip0) as (r' & Hr & _ & _ & _ & _ & Hp).
  - unfold roundtrip0. auto with tyo3.
  - intros id a [_ ->]%roundtrip0_get. by vm_compute.
  - reflexivity.
  - reflexivity.
  - exists r'. split; [exact Hr|].
    apply (Hp "A" (mkAnchor "A" "a.py::g" 1 Function_ 1 1 NeedsReview)); [reflexivity|].
    by intros id' a' [-> _]%roundtrip0_get _.
Defined.
