(* ===== verification/Authored.v ===== *)
(** * Authored records ([rust/src/authored.rs])

    The versioned store of authored values and its file format. *)

From Stdlib Require Import Ascii.
From S2P Require Import Prelude Str Paths Content Json.

Definition AUTHORED_FORMAT_VERSION : N := 2.

Record AuthoredVersion := mkAuthoredVersion {
  v_value : Json;
  v_revision : N;
  v_reviewed_hash : option ContentHash;
}.

Record AuthoredRecordDoc := mkAuthoredRecordDoc {
  doc_format_version : N;
  doc_layer : string;
  doc_durable_id : string;
  doc_current : AuthoredVersion;
  doc_history : list AuthoredVersion;
}.

Record AuthoredRecord := mkAuthoredRecord {
  rec_current : AuthoredVersion;
  rec_history : list AuthoredVersion;
}.

(** Keyed by [(layer, durable_id)]. *)
Abbreviation AuthoredMap := (gmap (string * string) AuthoredRecord) (only parsing).

(** ** The store *)

Module AuthoredStore.

Definition put (m : AuthoredMap) (layer id : string) (version : AuthoredVersion)
    (keep_history : bool) : AuthoredMap :=
  let history :=
    match m !! (layer, id) with
    | Some prev => if keep_history then rec_history prev ++ [rec_current prev] else []
    | None => []
    end in
  <[ (layer, id) := mkAuthoredRecord version history ]> m.

Definition value (m : AuthoredMap) (layer id : string) : option AuthoredVersion :=
  rec_current <$> m !! (layer, id).

Definition value_at (m : AuthoredMap) (layer id : string) (at_ : N) : option AuthoredVersion :=
  match m !! (layer, id) with
  | None => None
  | Some rec =>
      if (v_revision (rec_current rec) <=? at_)%N then Some (rec_current rec)
      else snd <$> list_find (λ v, (v_revision v <=? at_)%N) (reverse (rec_history rec))
  end.

Definition records_get (m : AuthoredMap) (layer id : string) : option AuthoredRecord :=
  m !! (layer, id).

(** In the order of the hash map: unspecified. *)
Definition ids_in_layer (m : AuthoredMap) (layer : string) : list string :=
  (λ kr, kr.1.2) <$> filter (λ kr, kr.1.1 = layer) (map_to_list m).

End AuthoredStore.
Import AuthoredStore.

(** The versions of a record, oldest first. *)
Definition versions (m : AuthoredMap) (layer id : string) : list AuthoredVersion :=
  match m !! (layer, id) with
  | Some rec => rec_history rec ++ [rec_current rec]
  | None => []
  end.

Lemma last_filter_find (l : list AuthoredVersion) (at_ : N) :
  last (filter (λ v, (v_revision v <=? at_)%N) l) =
    snd <$> list_find (λ v, (v_revision v <=? at_)%N) (reverse l).
Proof.
  induction l as [|v l IH] using rev_ind; [done|].
  rewrite filter_app, reverse_app, last_app. cbn [reverse rev_append list_find app].
  rewrite filter_cons, filter_nil. simpl. case_decide; simpl; [done|].
  rewrite IH. by destruct (list_find _ (reverse l)) as [[]|].
Qed.

Lemma value_at_versions m layer id at_ :
  value_at m layer id at_ = last (filter (λ v, (v_revision v <=? at_)%N) (versions m layer id)).
Proof.
  unfold value_at, versions. destruct (m !! (layer, id)) as [rec|]; [|done].
  rewrite filter_app, last_app, filter_cons, filter_nil, last_filter_find.
  destruct (v_revision (rec_current rec) <=? at_)%N; done.
Qed.

Lemma versions_put m layer id v keep layer' id' :
  versions (put m layer id v keep) layer' id' =
    if decide ((layer, id) = (layer', id')) then
      (if keep then versions m layer id else []) ++ [v]
    else versions m layer' id'.
Proof.
  unfold versions, put. rewrite lookup_insert. case_decide as Hk; [|done]. simpl.
  destruct (m !! (layer, id)); [|by destruct keep]. by destruct keep.
Qed.

(** A sequence of author edits of one record in a layer that keeps history. *)
Definition put_all (m : AuthoredMap) (layer id : string) (vs : list AuthoredVersion) : AuthoredMap :=
  foldl (λ m v, put m layer id v true) m vs.

Lemma versions_put_all m layer id vs layer' id' :
  versions (put_all m layer id vs) layer' id' =
    if decide ((layer, id) = (layer', id')) then versions m layer id ++ vs else versions m layer' id'.
Proof.
  revert m. induction vs as [|v vs IH]; intros m; cbn [put_all foldl].
  - case_decide; simplify_eq; by rewrite ?app_nil_r.
  - fold (put_all (put m layer id v true) layer id vs). rewrite IH, !versions_put.
    rewrite (decide_True (P:=(layer, id) = (layer, id))) by done.
    case_decide; [|done]. by rewrite <- app_assoc.
Qed.

(** The last version not after [at_] of versions with increasing revisions. *)
Lemma last_filter_greatest vs at_ v :
  StronglySorted (λ a b, (v_revision a < v_revision b)%N) vs →
  last (filter (λ v, (v_revision v <=? at_)%N) vs) = Some v →
  v ∈ vs ∧ (v_revision v ≤ at_)%N ∧
  ∀ w, w ∈ vs → (v_revision w ≤ at_)%N → (v_revision w ≤ v_revision v)%N.
Proof.
  intros Hsort [l' E]%last_Some.
  assert (v ∈ filter (λ v, (v_revision v <=? at_)%N) vs) as [Hv Hin]%list_elem_of_filter
    by (rewrite E; set_solver).
  split; [done|]. split; [by apply N.leb_le, Is_true_true|]. intros w Hw Hle.
  apply (StronglySorted_filter _ (λ v, (v_revision v <=? at_)%N)) in Hsort. rewrite E in Hsort.
  assert (w ∈ l' ++ [v]) as [Hw'| ->%list_elem_of_singleton]%elem_of_app; [|apply N.lt_le_incl|done].
  - rewrite <- E. apply list_elem_of_filter. split; [by apply Is_true_true, N.leb_le|done].
  - eapply StronglySorted_app_1_elem_of in Hsort; [|done|by left]. done.
Qed.

(** A layer with history is a log: after edits at increasing revisions,
    the value at a revision is the one with the greatest revision not after
    it, the current value is the last one, and other records are untouched. *)
Theorem value_at_is_time_travel m layer id vs :
  m !! (layer, id) = None → StronglySorted (λ a b, (v_revision a < v_revision b)%N) vs →
  let m' := put_all m layer id vs in
  (∀ at_, match value_at m' layer id at_ with
          | Some v => v ∈ vs ∧ (v_revision v ≤ at_)%N ∧
              ∀ w, w ∈ vs → (v_revision w ≤ at_)%N → (v_revision w ≤ v_revision v)%N
          | None => ∀ w, w ∈ vs → (at_ < v_revision w)%N
          end) ∧
  value m' layer id = last vs ∧
  ∀ layer' id', (layer, id) ≠ (layer', id') → versions m' layer' id' = versions m layer' id'.
Proof.
  intros Hnone Hsort m'.
  assert (versions m' layer id = vs) as Hvs.
  { unfold m'. rewrite versions_put_all, decide_True by done. unfold versions. by rewrite Hnone. }
  split; [|split].
  - intros at_. rewrite value_at_versions, Hvs. destruct (last _) as [v|] eqn:E.
    + by apply last_filter_greatest.
    + apply last_None in E. rewrite filter_nil_not_elem in E. intros w Hw. apply N.lt_nge.
      intros Hle. apply (E w Hw). by apply Is_true_true, N.leb_le.
  - unfold value. rewrite <- Hvs. unfold versions. destruct (m' !! (layer, id)); [|done].
    by rewrite last_snoc.
  - intros layer' id' Hne. unfold m'. by rewrite versions_put_all, decide_False.
Qed.

(** Without history an edit leaves the new version alone: a read before
    its revision finds nothing. *)
Theorem put_without_history m layer id v at_ :
  value_at (put m layer id v false) layer id at_ =
    if (v_revision v <=? at_)%N then Some v else None.
Proof.
  rewrite value_at_versions, versions_put, decide_True by done. simpl.
  rewrite filter_cons, filter_nil. by destruct (v_revision v <=? at_)%N.
Qed.

(** A record kept from a session that had reached revision 5, edited again at
    revision 1 of the next session, where revisions start over. *)
Definition reopened : AuthoredMap :=
  put_all ∅ "notes" "A" [mkAuthoredVersion (JString "old") 5 None; mkAuthoredVersion (JString "new") 1 None].

(** A time-travel read returns the latest written version whose revision
    is not after the requested one, which is not the one with the greatest
    revision when revisions start over. *)
Theorem reopened_value_at :
  v_revision <$> value_at reopened "notes" "A" 5 = Some 1%N ∧
  ∃ v, v ∈ versions reopened "notes" "A" ∧ v_revision v = 5%N.
Proof. split; [by vm_compute|]. eexists. split; [by vm_compute; left|done]. Qed.

(** ** The file format *)

Inductive AuthoredLoadError :=
| AuthoredJson (msg : string)
| AuthoredUnknownVersion (v : N).

(** [derive(Serialize)] with [skip_serializing_if]: an absent hash and an
    empty history leave no key. *)
Definition version_to_json (v : AuthoredVersion) : Json :=
  JObject ([("value", v_value v); ("revision", u64_json (v_revision v))] ++
           match v_reviewed_hash v with
           | Some h => [("reviewed_hash", JString (u128_to_hex h))]
           | None => []
           end).

Definition doc_to_json (d : AuthoredRecordDoc) : Json :=
  JObject ([("format_version", u64_json (doc_format_version d));
            ("layer", JString (doc_layer d));
            ("durable_id", JString (doc_durable_id d));
            ("current", version_to_json (doc_current d))] ++
           match doc_history d with
           | [] => []
           | h => [("history", JArray (version_to_json <$> h))]
           end).

(** [derive(Deserialize)]: a required field is present and of its type; a
    field with [default] may be absent. *)
Definition json_field (v : Json) (key : string) : option Json :=
  match v with JObject fields => field fields key | _ => None end.

Definition hash_of_json (o : option Json) : option (option ContentHash) :=
  match o with
  | None | Some JNull => Some None
  | Some (JString s) => Some <$> from_str_radix 16 u128_modulus s
  | Some _ => None
  end.

Definition version_of_json (v : Json) : option AuthoredVersion :=
  value ← json_field v "value";
  revision ← json_field v "revision" ≫= as_u64;
  hash ← hash_of_json (json_field v "reviewed_hash");
  Some (mkAuthoredVersion value revision hash).

Definition as_u32 (v : Json) : option N :=
  n ← as_u64 v; if (n <? 2 ^ 32)%N then Some n else None.

Definition doc_of_json (v : Json) : option AuthoredRecordDoc :=
  version ← json_field v "format_version" ≫= as_u32;
  layer ← json_field v "layer" ≫= as_str;
  id ← json_field v "durable_id" ≫= as_str;
  current ← json_field v "current" ≫= version_of_json;
  history ← match json_field v "history" with
            | None => Some []
            | Some h => l ← as_array h; mapM version_of_json l
            end;
  Some (mkAuthoredRecordDoc version layer id current history).

Section text.
Context {SJ : SerdeJson}.

Definition doc_to_bytes (d : AuthoredRecordDoc) : string :=
  to_vec_pretty (doc_to_json d) +:+ String (Ascii.ascii_of_N 10) EmptyString.

Definition doc_from_bytes (bytes : string) : result AuthoredLoadError AuthoredRecordDoc :=
  match from_str bytes with
  | Err e => Err (AuthoredJson e)
  | Ok v =>
      match doc_of_json v with
      | None => Err (AuthoredJson "invalid record")
      | Some doc =>
          if (AUTHORED_FORMAT_VERSION <? doc_format_version doc)%N
          then Err (AuthoredUnknownVersion (doc_format_version doc)) else Ok doc
      end
  end.
End text.

Definition version_wf (v : AuthoredVersion) : Prop :=
  (v_revision v < u64_modulus)%N ∧ ∀ h, v_reviewed_hash v = Some h → (h < u128_modulus)%N.

Lemma version_json_read v : version_wf v → version_of_json (version_to_json v) = Some v.
Proof.
  intros [Hr Hh]. unfold version_of_json.
  change (json_field (version_to_json v) "value") with (Some (v_value v)).
  change (json_field (version_to_json v) "revision") with (Some (u64_json (v_revision v))).
  simpl. rewrite as_u64_json by done. simpl. destruct v as [val r [h|]]; simpl in *.
  - by rewrite u128_hex_read by auto.
  - done.
Qed.

Lemma history_json_read h :
  (∀ v, v ∈ h → version_wf v) → mapM version_of_json (version_to_json <$> h) = Some h.
Proof.
  intros Hwf. apply mapM_Some, Forall2_fmap_l, Forall_Forall2_diag, Forall_forall.
  intros v Hv. by apply version_json_read, Hwf.
Qed.

Lemma doc_read {SJ : SerdeJson} d :
  (doc_format_version d < 2 ^ 32)%N → version_wf (doc_current d) →
  (∀ v, v ∈ doc_history d → version_wf v) →
  from_str (doc_to_bytes d) = Ok (doc_to_json d) →
  doc_from_bytes (doc_to_bytes d) =
    if (doc_format_version d <=? AUTHORED_FORMAT_VERSION)%N then Ok d
    else Err (AuthoredUnknownVersion (doc_format_version d)).
Proof.
  intros Hv Hc Hh Htext. unfold doc_from_bytes. rewrite Htext.
  assert (doc_of_json (doc_to_json d) = Some d) as ->.
  { unfold doc_of_json.
    change (json_field (doc_to_json d) "format_version") with (Some (u64_json (doc_format_version d))).
    change (json_field (doc_to_json d) "current") with (Some (version_to_json (doc_current d))).
    simpl. unfold as_u32. rewrite as_u64_json by (unfold u64_modulus; lia). simpl.
    rewrite (proj2 (N.ltb_lt _ _)) by done. simpl. rewrite version_json_read by done. simpl.
    destruct d as [ver layer id cur [|h hs]]; [done|].
    pose proof (history_json_read (h :: hs) Hh) as Hm. simpl in *. by rewrite Hm. }
  rewrite N.ltb_antisym. by destruct (_ <=? _)%N.
Qed.

(** An authored record written and read back is the same record, and a
    record of a newer format is refused. *)
Theorem authored_doc_roundtrip {SJ : SerdeJson} d :
  (doc_format_version d < 2 ^ 32)%N → version_wf (doc_current d) →
  (∀ v, v ∈ doc_history d → version_wf v) →
  from_str (doc_to_bytes d) = Ok (doc_to_json d) →
  doc_from_bytes (doc_to_bytes d) =
    if (doc_format_version d <=? AUTHORED_FORMAT_VERSION)%N then Ok d
    else Err (AuthoredUnknownVersion (doc_format_version d)).
Proof. apply doc_read. Qed.

(** Witnesses. *)
Definition version0 : AuthoredVersion := mkAuthoredVersion (JString "x") 1 (Some 255%N).
Definition version1 : AuthoredVersion := mkAuthoredVersion (JString "y") 3 None.

Lemma value_at_is_time_travel_witness :
  value_at (put_all ∅ "notes" "A" [version0; version1]) "notes" "A" 2 = Some version0 ∧
  value (put_all ∅ "notes" "A" [version0; version1]) "notes" "A" = Some version1.
Proof.
  split; [by vm_compute|].
  apply (value_at_is_time_travel ∅ "notes" "A" [version0; version1]); [reflexivity|].
  by repeat constructor.
Defined.

Definition doc0 : AuthoredRecordDoc := mkAuthoredRecordDoc 2 "notes" "A" version1 [version0].

Definition authored_serde0 : SerdeJson :=
  {| from_str := λ _, Ok (doc_to_json doc0); to_vec_pretty := λ _, "" |}.

Lemma authored_doc_roundtrip_witness :
  doc_from_bytes (SJ:=authored_serde0) (doc_to_bytes (SJ:=authored_serde0) doc0) = Ok doc0.
Proof.
  apply (authored_doc_roundtrip (SJ:=authored_serde0) doc0).
  - reflexivity.
  - by split.
  - intros v ->%list_elem_of_singleton. split; [reflexivity|]. intros h [= <-]. reflexivity.
  - reflexivity.
Defined.
