(* ===== verification/CodeLayer.v ===== *)
(** * The code layer ([rust/src/code_layer.rs])

    The canonical graph of one revision: nodes, edges and the maintained
    reverse-dependency index, the affected closure of a commit, and the diff
    between two layers. *)

From Stdlib Require Import NArith.
From S2P Require Import Prelude Str.

(** ** Identifiers of synthetic nodes *)

Definition EXTERNAL_FILE : string := "<external>".
Definition MODULE_QUALIFIED_NAME : string := "<module>".

Definition make_module_durable_id (file : string) : string := MODULE_QUALIFIED_NAME +:+ file.

Definition make_external_module_id (package : string) : string :=
  package +:+ "::" +:+ MODULE_QUALIFIED_NAME.

Definition make_external_symbol_id (package_or_file name : string) : string :=
  package_or_file +:+ "::" +:+ name.

Inductive Population := PEntity | PModule | PExternal.

#[global] Instance Population_eq_dec : EqDecision Population.
Proof. solve_decision. Defined.

Definition is_module_id (durable_id : string) : bool := starts_with MODULE_QUALIFIED_NAME durable_id.

(** ** Edges *)

Inductive EdgeKind := Defines | Contains | References | Imports | Inherits | Overrides.

#[global] Instance EdgeKind_eq_dec : EqDecision EdgeKind.
Proof. solve_decision. Defined.

(** The discriminant: the order [derive(Ord)] gives the kinds. *)
Definition EdgeKind_index (k : EdgeKind) : N :=
  match k with
  | Defines => 0 | Contains => 1 | References => 2 | Imports => 3 | Inherits => 4 | Overrides => 5
  end.

Definition EdgeKind_of_index (n : N) : EdgeKind :=
  match n with
  | 0%N => Defines | 1%N => Contains | 2%N => References | 3%N => Imports | 4%N => Inherits
  | _ => Overrides
  end.

#[global] Instance EdgeKind_countable : Countable EdgeKind.
Proof. apply (inj_countable' EdgeKind_index EdgeKind_of_index). by intros []. Defined.

Definition EdgeKind_as_str (k : EdgeKind) : string :=
  match k with
  | Defines => "defines" | Contains => "contains" | References => "references"
  | Imports => "imports" | Inherits => "inherits" | Overrides => "overrides"
  end.

Definition is_dependency (k : EdgeKind) : bool :=
  match k with References | Imports | Inherits | Overrides => true | _ => false end.

Abbreviation RangeTuple := (N * N * N * N)%type (only parsing).

Record Edge := mkEdge {
  source : string;
  target : string;
  ekind : EdgeKind;
  role : option string;
  efile : option string;
  erange : option RangeTuple;
}.

#[global] Instance Edge_eq_dec : EqDecision Edge.
Proof. solve_decision. Defined.

(** The fields are encoded side by side: nesting pairs would double the code of
    the first fields at each level. *)
Definition edge_code (e : Edge) : list positive :=
  [encode (source e); encode (target e); encode (ekind e); encode (role e); encode (efile e);
   encode (erange e)].

Definition edge_of_code (c : list positive) : option Edge :=
  match c with
  | [s; t; k; r; f; g] =>
      s ← decode s; t ← decode t; k ← decode k; r ← decode r; f ← decode f; g ← decode g;
      Some (mkEdge s t k r f g)
  | _ => None
  end.

#[global] Instance Edge_countable : Countable Edge.
Proof.
  apply (inj_countable edge_code edge_of_code). intros [].
  unfold edge_of_code, edge_code. by rewrite !decode_encode.
Defined.

(** [derive(Ord)] on [Edge]: the fields in order, [None] before [Some]. *)
Definition then_compare (a b : comparison) : comparison := match a with Eq => b | _ => a end.

Definition option_compare {A} (cmp : A → A → comparison) (a b : option A) : comparison :=
  match a, b with
  | None, None => Eq
  | None, Some _ => Lt
  | Some _, None => Gt
  | Some x, Some y => cmp x y
  end.

Definition range_compare (a b : RangeTuple) : comparison :=
  let '(a1, a2, a3, a4) := a in
  let '(b1, b2, b3, b4) := b in
  then_compare (N.compare a1 b1)
    (then_compare (N.compare a2 b2) (then_compare (N.compare a3 b3) (N.compare a4 b4))).

Definition edge_compare (a b : Edge) : comparison :=
  then_compare (String.compare (source a) (source b))
    (then_compare (String.compare (target a) (target b))
      (then_compare (N.compare (EdgeKind_index (ekind a)) (EdgeKind_index (ekind b)))
        (then_compare (option_compare String.compare (role a) (role b))
          (then_compare (option_compare String.compare (efile a) (efile b))
            (option_compare range_compare (erange a) (erange b)))))).

Definition edge_le (a b : Edge) : bool := match edge_compare a b with Gt => false | _ => true end.

(** ** Nodes *)

Record NodeData := mkNodeData {
  n_name : string;
  n_qualified_name : string;
  n_kind : string;
  n_file : string;
  n_range : RangeTuple;
  n_name_range : option RangeTuple;
  n_content_hash : option string;
  n_content_hashes : gmap string string;
  n_external : bool;
  n_package : option string;
}.

#[global] Instance NodeData_eq_dec : EqDecision NodeData.
Proof. solve_decision. Defined.

Definition population (n : NodeData) (durable_id : string) : Population :=
  if n_external n then PExternal else if is_module_id durable_id then PModule else PEntity.

Definition structurally_same (a b : NodeData) : bool :=
  bool_decide (n_name a = n_name b) && bool_decide (n_qualified_name a = n_qualified_name b) &&
  bool_decide (n_kind a = n_kind b) && bool_decide (n_content_hash a = n_content_hash b) &&
  Bool.eqb (n_external a) (n_external b).

(** ** The layer *)

Record CodeLayer := mkCodeLayer {
  nodes : gmap string NodeData;
  edges : gset Edge;
  reverse_deps : gmap string (gset string);
  file_to_nodes : gmap string (list string);
}.

Definition CodeLayer_new : CodeLayer := mkCodeLayer ∅ ∅ ∅ ∅.

Definition CodeLayer_is_empty (l : CodeLayer) : bool :=
  bool_decide (nodes l = ∅) && bool_decide (edges l = ∅).

Definition upsert_node (l : CodeLayer) (durable_id : string) (n : NodeData) : CodeLayer :=
  mkCodeLayer (<[ durable_id := n ]> (nodes l)) (edges l) (reverse_deps l) (file_to_nodes l).

(** [entry(target).or_default().insert(source)] *)
Definition add_dep (m : gmap string (gset string)) (e : Edge) : gmap string (gset string) :=
  if is_dependency (ekind e)
  then <[ target e := {[ source e ]} ∪ default ∅ (m !! target e) ]> m else m.

Definition add_edge (l : CodeLayer) (e : Edge) : CodeLayer * bool :=
  (mkCodeLayer (nodes l) ({[ e ]} ∪ edges l) (add_dep (reverse_deps l) e) (file_to_nodes l),
   bool_decide (e ∉ edges l)).

Definition remove_edge (l : CodeLayer) (e : Edge) : CodeLayer * bool :=
  let removed := bool_decide (e ∈ edges l) in
  let es := edges l ∖ {[ e ]} in
  let rd :=
    if removed && is_dependency (ekind e) then
      if existsb (λ x, is_dependency (ekind x) && bool_decide (source x = source e) &&
                       bool_decide (target x = target e)) (elements es)
      then reverse_deps l
      else
        match reverse_deps l !! target e with
        | Some sources =>
            let sources' := sources ∖ {[ source e ]} in
            if bool_decide (sources' = ∅) then delete (target e) (reverse_deps l)
            else <[ target e := sources' ]> (reverse_deps l)
        | None => reverse_deps l
        end
    else reverse_deps l in
  (mkCodeLayer (nodes l) es rd (file_to_nodes l), removed).

Definition derived_reverse_deps (l : CodeLayer) : gmap string (gset string) :=
  foldl add_dep ∅ (sort_by edge_le (elements (edges l))).

(** ** The affected closure *)

(** The ids the breadth-first walk pushes for [id]. *)
Definition pushed (l : CodeLayer) (id : string) (visited : gset string) : list string :=
  match reverse_deps l !! id with
  | Some sources => filter (λ s, s ∉ visited) (btree_elements sources)
  | None => []
  end.

(** The loop; [None] is an exhausted fuel. *)
Fixpoint closure_loop (fuel : nat) (l prev : CodeLayer) (deleted visited : gset string)
    (queue : list string) : option (gset string) :=
  match queue with
  | [] => Some visited
  | id :: queue =>
      match fuel with
      | O => None
      | S fuel =>
          if bool_decide (id ∈ visited) then closure_loop fuel l prev deleted visited queue
          else
            let visited := {[ id ]} ∪ visited in
            let queue := queue ++ pushed l id visited in
            let queue := if bool_decide (id ∈ deleted) then queue ++ pushed prev id visited else queue in
            closure_loop fuel l prev deleted visited queue
      end
  end.

(** A bound on the number of pops: the seeds, and each id's sources once. *)
Definition degree (l prev : CodeLayer) (id : string) : nat :=
  size (default ∅ (reverse_deps l !! id)) + size (default ∅ (reverse_deps prev !! id)).

Definition potential (l prev : CodeLayer) (visited : gset string) : nat :=
  sum_list (degree l prev <$>
    elements ((dom (reverse_deps l) ∪ dom (reverse_deps prev)) ∖ visited)).

Definition affected_closure_with_deleted (l prev : CodeLayer) (seeds deleted : gset string) :
    option (gset string) :=
  closure_loop (size seeds + potential l prev ∅) l prev deleted ∅ (btree_elements seeds).

(** ** The diff *)

Record CodeNodeMoved := mkCodeNodeMoved {
  m_file : string;
  m_range : RangeTuple;
  m_name_range : option RangeTuple;
}.

Record CodeDelta := mkCodeDelta {
  d_revision : N;
  d_rescan : bool;
  nodes_upserted : list (string * NodeData);
  nodes_removed : list string;
  nodes_moved : list (string * CodeNodeMoved);
  edges_added : list Edge;
  edges_removed : list Edge;
}.

(** What one node of the new layer contributes. *)
Definition node_upserted (prev : CodeLayer) (did : string) (n : NodeData) : bool :=
  match nodes prev !! did with
  | None => true
  | Some p => negb (structurally_same p n)
  end.

Definition node_moved (prev : CodeLayer) (did : string) (n : NodeData) : bool :=
  match nodes prev !! did with
  | None => false
  | Some p =>
      structurally_same p n &&
      (bool_decide (n_file p ≠ n_file n) || bool_decide (n_range p ≠ n_range n))
  end.

Definition diff_from (l prev : CodeLayer) (revision : N) (rescan : bool) : CodeDelta :=
  mkCodeDelta revision rescan
    (filter (λ kn, node_upserted prev kn.1 kn.2) (btree_items (nodes l)))
    (filter (λ k, nodes l !! k = None) (btree_keys (nodes prev)))
    ((λ kn, (kn.1, mkCodeNodeMoved (n_file kn.2) (n_range kn.2) (n_name_range kn.2))) <$>
     filter (λ kn, node_moved prev kn.1 kn.2) (btree_items (nodes l)))
    (sort_by edge_le (elements (edges l ∖ edges prev)))
    (sort_by edge_le (elements (edges prev ∖ edges l))).

(** ** The maintained index

    [reverse_deps] lists, for each target, the sources of its dependency
    edges, and has no empty entry: it is a function of the edges. *)

Definition sources_of (m : gmap string (gset string)) (t : string) : gset string := default ∅ (m !! t).

Definition is_index (m : gmap string (gset string)) (P : Edge → Prop) : Prop :=
  (∀ t s, s ∈ sources_of m t ↔
     ∃ e, P e ∧ is_dependency (ekind e) ∧ target e = t ∧ source e = s) ∧
  ∀ t, m !! t ≠ Some ∅.

Definition index_ok (l : CodeLayer) : Prop := reverse_deps l = derived_reverse_deps l.

Lemma is_index_unique m1 m2 P : is_index m1 P → is_index m2 P → m1 = m2.
Proof.
  intros [H1 N1] [H2 N2]. apply map_eq. intros t.
  assert (sources_of m1 t = sources_of m2 t) as Heq by (apply set_eq; intros s; by rewrite H1, H2).
  unfold sources_of in Heq. specialize (N1 t). specialize (N2 t).
  destruct (m1 !! t), (m2 !! t); simpl in *; congruence.
Qed.

Lemma sources_of_add m e t :
  sources_of (add_dep m e) t =
    if decide (is_dependency (ekind e) ∧ target e = t) then {[ source e ]} ∪ sources_of m t
    else sources_of m t.
Proof.
  unfold sources_of, add_dep. destruct (is_dependency (ekind e)); simpl.
  - rewrite lookup_insert. repeat case_decide; subst; naive_solver.
  - done.
Qed.

Lemma add_dep_index m e (P Q : Edge → Prop) :
  (∀ x, Q x ↔ x = e ∨ P x) → is_index m P → is_index (add_dep m e) Q.
Proof.
  intros HQ [Hm Hn]. split.
  - intros t s. rewrite sources_of_add. setoid_rewrite HQ. case_decide as Hd.
    + rewrite elem_of_union, elem_of_singleton, Hm. naive_solver.
    + rewrite Hm. naive_solver.
  - intros t. unfold add_dep. destruct (is_dependency (ekind e)); [|apply Hn].
    rewrite lookup_insert. case_decide; [|apply Hn]. intros [= Hemp].
    apply (not_elem_of_empty (C:=gset string) (source e)). rewrite <- Hemp. set_solver.
Qed.

Lemma is_index_ext m (P Q : Edge → Prop) : (∀ e, P e ↔ Q e) → is_index m P → is_index m Q.
Proof. intros HPQ [Hi Hn]. split; [|done]. intros t s. rewrite Hi. by setoid_rewrite HPQ. Qed.

Lemma derived_index l : is_index (derived_reverse_deps l) (.∈ edges l).
Proof.
  unfold derived_reverse_deps.
  assert (∀ es m P, is_index m P → is_index (foldl add_dep m es) (λ e, e ∈ es ∨ P e)) as Hfold.
  { induction es as [|e es IH]; intros m P Hm; simpl.
    - eapply is_index_ext, Hm. set_solver.
    - eapply is_index_ext, (IH (add_dep m e) (λ x, x = e ∨ P x)); [set_solver|].
      by eapply add_dep_index. }
  eapply is_index_ext, (Hfold _ ∅ (λ _, False)).
  - intros e. simpl. rewrite elem_of_sort_by, elem_of_elements. naive_solver.
  - split; [|done]. intros t s. unfold sources_of. rewrite lookup_empty.
    split; [set_solver|]. by intros (? & [] & _).
Qed.

Lemma index_ok_alt l : index_ok l ↔ is_index (reverse_deps l) (.∈ edges l).
Proof.
  split.
  - intros ->. apply derived_index.
  - intros H. eapply is_index_unique; [done|apply derived_index].
Qed.

Lemma new_index : index_ok CodeLayer_new.
Proof. done. Qed.

Lemma upsert_node_index l did n : index_ok l → index_ok (upsert_node l did n).
Proof. done. Qed.

Lemma add_edge_index l e : index_ok l → index_ok (add_edge l e).1.
Proof.
  rewrite !index_ok_alt. simpl. apply add_dep_index. set_solver.
Qed.

Lemma elem_of_add_edge l e x : x ∈ edges (add_edge l e).1 ↔ x = e ∨ x ∈ edges l.
Proof. simpl. set_solver. Qed.

(** Dropping one source of a target, and the entry when it was the last. *)
Definition drop_source (m : gmap string (gset string)) (t s : string) : gmap string (gset string) :=
  match m !! t with
  | Some sources =>
      let sources' := sources ∖ {[ s ]} in
      if bool_decide (sources' = ∅) then delete t m else <[ t := sources' ]> m
  | None => m
  end.

Lemma drop_source_spec m t s t' :
  (∀ t, m !! t ≠ Some ∅) →
  sources_of (drop_source m t s) t' =
    (if decide (t = t') then sources_of m t' ∖ {[ s ]} else sources_of m t') ∧
  drop_source m t s !! t' ≠ Some ∅.
Proof.
  intros Hn. unfold sources_of, drop_source. specialize (Hn t').
  destruct (m !! t) as [ss|] eqn:E.
  - case_bool_decide as He; rewrite ?lookup_delete, ?lookup_insert; case_decide; subst; try done.
    + rewrite E. simpl. by rewrite He.
    + rewrite E. simpl. split; congruence.
  - case_decide; subst; rewrite ?E; split; set_solver.
Qed.

Lemma remove_edge_index l e : index_ok l → index_ok (remove_edge l e).1.
Proof.
  rewrite !index_ok_alt. intros [Hi Hn]. unfold remove_edge. simpl.
  case_bool_decide as Hin; simpl.
  2:{ replace (edges l ∖ {[e]}) with (edges l) by set_solver. done. }
  destruct (is_dependency (ekind e)) eqn:Hd.
  2:{ split; [|done]. intros t s. rewrite Hi. split; intros (x & Hx & Hdx & ?);
        exists x; (split; [|done]); [|set_solver]. assert (x ≠ e) by (intros ->; by rewrite Hd in Hdx).
      set_solver. }
  destruct (existsb _ _) eqn:Hex.
  - apply existsb_exists in Hex as (x & Hx & Hc).
    apply list_elem_of_In, elem_of_elements in Hx.
    apply andb_prop in Hc as [[Hdx Hs%bool_decide_eq_true]%andb_prop Ht%bool_decide_eq_true].
    split; [|done]. intros t s. rewrite Hi. split; intros (y & Hy & ?); [|exists y; set_solver].
    destruct (decide (y = e)) as [->|]; [exists x|exists y; set_solver].
    split; [done|]. rewrite Hdx. naive_solver.
  - assert (∀ x, x ∈ edges l ∖ {[e]} → is_dependency (ekind x) →
              ¬ (source x = source e ∧ target x = target e)) as Hno.
    { intros x Hx Hdx [Hs Ht]. rewrite <- not_true_iff_false in Hex. apply Hex, existsb_exists.
      exists x. split; [by apply list_elem_of_In, elem_of_elements|].
      rewrite Is_true_true in Hdx. by rewrite Hdx, !bool_decide_eq_true_2. }
    fold (drop_source (reverse_deps l) (target e) (source e)). split.
    + intros t s. rewrite (proj1 (drop_source_spec _ _ _ t Hn)).
      case_decide as Ht; rewrite ?elem_of_difference, ?elem_of_singleton, Hi; split.
      * intros [(x & Hx & Hdx & ? & ?) Hs]. exists x. split; [set_solver|done].
      * intros (x & Hx & Hdx & Htx & Hsx). split; [exists x; set_solver|].
        intros ->. apply (Hno x Hx Hdx). naive_solver.
      * intros (x & Hx & ?). exists x. split; [|done]. set_solver.
      * intros (x & Hx & ?). exists x. set_solver.
    + intros t. by apply drop_source_spec.
Qed.

#[export] Hint Resolve new_index upsert_node_index add_edge_index remove_edge_index : tyo3.

(** Mutations of a layer, as the producer sequences them. *)
Inductive layer_op :=
| OpUpsert (did : string) (n : NodeData)
| OpAddEdge (e : Edge)
| OpRemoveEdge (e : Edge).

Definition exec_layer_op (l : CodeLayer) (op : layer_op) : CodeLayer :=
  match op with
  | OpUpsert did n => upsert_node l did n
  | OpAddEdge e => (add_edge l e).1
  | OpRemoveEdge e => (remove_edge l e).1
  end.

(** After any sequence of mutations of a new layer the maintained
    reverse-dependency index is the one derived from the edges. *)
Theorem reverse_deps_maintained ops :
  let l := foldl exec_layer_op CodeLayer_new ops in reverse_deps l = derived_reverse_deps l.
Proof.
  simpl. fold (index_ok (foldl exec_layer_op CodeLayer_new ops)).
  apply (foldl_ind index_ok); [auto with tyo3|]. intros l [] _ Hl; cbn [exec_layer_op]; auto with tyo3.
Qed.

(** ** The closure is reachability *)

(** [depends l prev deleted id s]: [s] is a source the walk follows from [id]. *)
Definition depends (l prev : CodeLayer) (deleted : gset string) (id s : string) : Prop :=
  s ∈ sources_of (reverse_deps l) id ∨ id ∈ deleted ∧ s ∈ sources_of (reverse_deps prev) id.

Lemma elem_of_pushed l id visited s :
  s ∈ pushed l id visited ↔ s ∈ sources_of (reverse_deps l) id ∧ s ∉ visited.
Proof.
  unfold pushed, sources_of. destruct (reverse_deps l !! id); simpl; [|set_solver].
  rewrite list_elem_of_filter, elem_of_btree_elements. naive_solver.
Qed.

Lemma length_pushed l id visited : length (pushed l id visited) ≤ size (sources_of (reverse_deps l) id).
Proof.
  unfold pushed, sources_of. destruct (reverse_deps l !! id) as [ss|]; simpl; [|lia].
  etrans; [apply length_filter|]. unfold btree_elements. by rewrite sort_by_perm.
Qed.

Section closure.
Context (l prev : CodeLayer) (deleted : gset string).

Lemma potential_visit id visited :
  id ∉ visited → potential l prev visited = degree l prev id + potential l prev ({[ id ]} ∪ visited).
Proof.
  intros Hid. unfold potential. set (u := dom (reverse_deps l) ∪ dom (reverse_deps prev)).
  destruct (decide (id ∈ u)) as [Hu|Hu].
  - assert (u ∖ visited = {[ id ]} ∪ u ∖ ({[ id ]} ∪ visited)) as ->.
    { apply set_eq. intros x. destruct (decide (x = id)); set_solver. }
    rewrite elements_union_singleton by set_solver. done.
  - assert (u ∖ visited = u ∖ ({[ id ]} ∪ visited)) as -> by set_solver.
    assert (degree l prev id = 0) as ->; [|done]. unfold degree.
    assert (reverse_deps l !! id = None ∧ reverse_deps prev !! id = None) as [-> ->]; [|done].
    rewrite <- !not_elem_of_dom. set_solver.
Qed.

(** The invariant of the loop. *)
Record walk_inv (seeds visited : gset string) (queue : list string) : Prop := {
  wi_seeds : ∀ s, s ∈ seeds → s ∈ visited ∨ s ∈ queue;
  wi_closed : ∀ x y, x ∈ visited → depends l prev deleted x y → y ∈ visited ∨ y ∈ queue;
  wi_reach : ∀ x, x ∈ visited ∨ x ∈ queue → ∃ s, s ∈ seeds ∧ rtc (depends l prev deleted) s x;
}.

(** The queue after visiting [id]. *)
Definition next_queue (id : string) (visited : gset string) (queue : list string) : list string :=
  let queue := queue ++ pushed l id visited in
  if bool_decide (id ∈ deleted) then queue ++ pushed prev id visited else queue.

Lemma elem_of_next_queue id visited queue x :
  x ∈ next_queue id visited queue ↔ x ∈ queue ∨ (depends l prev deleted id x ∧ x ∉ visited).
Proof.
  unfold next_queue, depends. case_bool_decide; rewrite !elem_of_app, !elem_of_pushed; naive_solver.
Qed.

Lemma length_next_queue id visited queue :
  length (next_queue id visited queue) ≤ length queue + degree l prev id.
Proof.
  unfold next_queue, degree. pose proof (length_pushed l id visited).
  pose proof (length_pushed prev id visited). unfold sources_of in *.
  case_bool_decide; rewrite !length_app; lia.
Qed.

Lemma walk_visit seeds visited id queue :
  id ∉ visited → walk_inv seeds visited (id :: queue) →
  walk_inv seeds ({[ id ]} ∪ visited) (next_queue id ({[ id ]} ∪ visited) queue).
Proof.
  intros Hid [Hs Hc Hr]. split.
  - intros s Hin. rewrite elem_of_next_queue. specialize (Hs s Hin). set_solver.
  - intros x y [->%elem_of_singleton|Hx]%elem_of_union Hxy; rewrite elem_of_next_queue.
    + destruct (decide (y ∈ {[ id ]} ∪ visited)); auto.
    + specialize (Hc x y Hx Hxy). set_solver.
  - intros x. rewrite elem_of_next_queue. intros [Hx|[Hx|[Hx _]]].
    + apply Hr. set_solver.
    + apply Hr. set_solver.
    + destruct (Hr id) as (s & Hin & Hreach); [set_solver|]. exists s. split; [done|].
      by eapply rtc_r.
Qed.

Lemma closure_loop_spec seeds fuel visited queue :
  walk_inv seeds visited queue → length queue + potential l prev visited ≤ fuel →
  ∃ r, closure_loop fuel l prev deleted visited queue = Some r ∧ walk_inv seeds r [].
Proof.
  revert visited queue. induction fuel as [|fuel IH]; intros visited [|id queue] Hinv Hfuel;
    simpl in *; eauto; [lia|]. case_bool_decide as Hid.
  - apply IH; [|lia]. destruct Hinv as [Hs Hc Hr]. split.
    + intros s Hin. specialize (Hs s Hin). set_solver.
    + intros x y Hx Hxy. specialize (Hc x y Hx Hxy). set_solver.
    + intros x Hx. apply Hr. set_solver.
  - apply IH; [by apply walk_visit|].
    pose proof (length_next_queue id ({[ id ]} ∪ visited) queue).
    rewrite (potential_visit id visited Hid) in Hfuel. unfold next_queue in *. lia.
Qed.
End closure.

Lemma affected_closure_spec l prev seeds deleted :
  ∃ r, affected_closure_with_deleted l prev seeds deleted = Some r ∧ walk_inv l prev deleted seeds r [].
Proof.
  apply closure_loop_spec.
  - split; setoid_rewrite elem_of_btree_elements; [by right|set_solver|].
    intros x [Hx|Hx]; [set_solver|]. exists x. split; [done|]. apply rtc_refl.
  - unfold btree_elements. by rewrite sort_by_perm.
Qed.

(** One step of dependency: [d] has an edge to [t] in the new layer or, when
    [t] was deleted, in the previous one. *)
Definition dependent (l prev : CodeLayer) (deleted : gset string) (t d : string) : Prop :=
  ∃ e, (e ∈ edges l ∨ t ∈ deleted ∧ e ∈ edges prev) ∧
    is_dependency (ekind e) ∧ target e = t ∧ source e = d.

Lemma depends_dependent l prev deleted t d :
  index_ok l → index_ok prev → depends l prev deleted t d ↔ dependent l prev deleted t d.
Proof.
  intros Hl%index_ok_alt Hp%index_ok_alt. unfold depends. rewrite (proj1 Hl), (proj1 Hp). split.
  - intros [(e & ? & ?)|(? & e & ? & ?)]; exists e; auto.
  - intros (e & [?|[? ?]] & ?); [left|right; split; [done|]]; exists e; auto.
Qed.

Lemma affected_closure_reach l prev seeds deleted :
  index_ok l → index_ok prev →
  ∃ r, affected_closure_with_deleted l prev seeds deleted = Some r ∧
  ∀ x, x ∈ r ↔ ∃ s, s ∈ seeds ∧ rtc (dependent l prev deleted) s x.
Proof.
  intros Hl Hp. destruct (affected_closure_spec l prev seeds deleted) as (r & Hr & [Hs Hc Hreach]).
  exists r. split; [exact Hr|]. intros x. split.
  - intros Hx. destruct (Hreach x) as (s & Hin & Hsx); [by left|]. exists s. split; [done|].
    eapply rtc_subrel; [|done]. intros t d. by apply depends_dependent.
  - intros (s & Hin & Hsx). assert (s ∈ r) as Hsr by (destruct (Hs s Hin); set_solver).
    clear Hin. induction Hsx as [|t d x Htd _ IH]; [done|].
    apply IH. destruct (Hc t d Hsr); [by apply depends_dependent|done|set_solver].
Qed.

(** The affected closure is computed, and is exactly what depends on a
    seed, directly or not: along dependency edges of the new layer, and along
    those of the previous layer into deleted ids. *)
Theorem affected_closure_is_reachability l prev seeds deleted :
  index_ok l → index_ok prev →
  ∃ r, affected_closure_with_deleted l prev seeds deleted = Some r ∧
  ∀ x, x ∈ r ↔ ∃ s, s ∈ seeds ∧
    rtc (λ t d, ∃ e, (e ∈ edges l ∨ t ∈ deleted ∧ e ∈ edges prev) ∧
           is_dependency (ekind e) ∧ target e = t ∧ source e = d) s x.
Proof. apply affected_closure_reach. Qed.

(** ** The diff carries one layer to the next *)

(** What a consumer does with a delta: removals, upserts, moves, edges. *)
Definition move_node (m : CodeNodeMoved) (n : NodeData) : NodeData :=
  mkNodeData (n_name n) (n_qualified_name n) (n_kind n) (m_file m) (m_range m) (m_name_range m)
    (n_content_hash n) (n_content_hashes n) (n_external n) (n_package n).

Definition apply_nodes (d : CodeDelta) (m : gmap string NodeData) : gmap string NodeData :=
  let m := foldl (λ m k, delete k m) m (nodes_removed d) in
  let m := foldl (λ m kn, <[ kn.1 := kn.2 ]> m) m (nodes_upserted d) in
  foldl (λ m km, alter (move_node km.2) km.1 m) m (nodes_moved d).

Definition apply_edges (d : CodeDelta) (es : gset Edge) : gset Edge :=
  (es ∖ list_to_set (edges_removed d)) ∪ list_to_set (edges_added d).

(** The facts of a node the diff tracks. *)
Definition node_agrees (a b : NodeData) : Prop :=
  structurally_same a b ∧ n_file a = n_file b ∧ n_range a = n_range b.

Lemma structurally_same_refl n : structurally_same n n.
Proof.
  unfold structurally_same. rewrite !bool_decide_eq_true_2 by done. by destruct (n_external n).
Qed.

Lemma foldl_delete_lookup {V} (ks : list string) (m : gmap string V) k :
  foldl (λ m k, delete k m) m ks !! k = if decide (k ∈ ks) then None else m !! k.
Proof.
  revert m. induction ks as [|k' ks IH]; intros m; cbn [foldl].
  - by rewrite decide_False by apply not_elem_of_nil.
  - rewrite IH, lookup_delete. repeat case_decide; set_solver.
Qed.

Lemma foldl_insert_lookup {V} (f : gmap string V) (l : list (string * V)) (m : gmap string V) k :
  (∀ k v, (k, v) ∈ l → f !! k = Some v) →
  foldl (λ m kn, <[ kn.1 := kn.2 ]> m) m l !! k = if decide (k ∈ l.*1) then f !! k else m !! k.
Proof.
  revert m. induction l as [|[k' v] l IH]; intros m Hf; cbn [foldl].
  - by rewrite decide_False by apply not_elem_of_nil.
  - rewrite IH by (intros; apply Hf; by right). simpl. rewrite lookup_insert.
    assert (f !! k' = Some v) by (apply Hf; left). repeat case_decide; set_solver.
Qed.

Lemma foldl_move_lookup (f : gmap string CodeNodeMoved) l (m : gmap string NodeData) k :
  (∀ k v, (k, v) ∈ l → f !! k = Some v) →
  foldl (λ m km, alter (move_node km.2) km.1 m) m l !! k =
    if decide (k ∈ l.*1)
    then match f !! k with Some v => move_node v <$> m !! k | None => m !! k end
    else m !! k.
Proof.
  revert m. induction l as [|[k' v] l IH]; intros m Hf; cbn [foldl].
  - by rewrite decide_False by apply not_elem_of_nil.
  - rewrite IH by (intros; apply Hf; by right). simpl. rewrite lookup_alter.
    assert (f !! k' = Some v) as Hv by (apply Hf; left).
    destruct (decide (k' = k)) as [->|Hne]; [|repeat case_decide; set_solver].
    rewrite Hv. destruct (m !! k); simpl; repeat case_decide; set_solver.
Qed.

Section diff.
Context (l prev : CodeLayer) (rev : N) (rescan : bool).
Definition the_diff : CodeDelta := diff_from l prev rev rescan.

Lemma upserted_keys k :
  k ∈ (nodes_upserted the_diff).*1 ↔ ∃ n, nodes l !! k = Some n ∧ node_upserted prev k n.
Proof.
  simpl. rewrite list_elem_of_fmap. setoid_rewrite list_elem_of_filter. split.
  - intros ([k' n] & -> & Hu & Hin%elem_of_btree_items). eauto.
  - intros (n & Hn%elem_of_btree_items & Hu). by exists (k, n).
Qed.

Lemma moved_keys k :
  k ∈ (nodes_moved the_diff).*1 ↔ ∃ n, nodes l !! k = Some n ∧ node_moved prev k n.
Proof.
  simpl. rewrite <- list_fmap_compose, list_elem_of_fmap. setoid_rewrite list_elem_of_filter. split.
  - intros ([k' n] & -> & Hu & Hin%elem_of_btree_items). eauto.
  - intros (n & Hn%elem_of_btree_items & Hu). by exists (k, n).
Qed.

Lemma apply_nodes_lookup k :
  apply_nodes the_diff (nodes prev) !! k =
    match nodes l !! k with
    | None => None
    | Some n =>
        if node_upserted prev k n then Some n
        else if node_moved prev k n
        then move_node (mkCodeNodeMoved (n_file n) (n_range n) (n_name_range n)) <$> nodes prev !! k
        else nodes prev !! k
    end.
Proof.
  unfold apply_nodes.
  rewrite (foldl_move_lookup ((λ n, mkCodeNodeMoved (n_file n) (n_range n) (n_name_range n)) <$> nodes l)),
    (foldl_insert_lookup (nodes l)), foldl_delete_lookup.
  2:{ intros k' n [_ Hin%elem_of_btree_items]%list_elem_of_filter. done. }
  2:{ intros k' v ([k2 n] & [= -> ->] & [_ Hin%elem_of_btree_items]%list_elem_of_filter)%list_elem_of_fmap.
      by rewrite lookup_fmap, Hin. }
  assert (k ∈ nodes_removed the_diff ↔ nodes l !! k = None ∧ is_Some (nodes prev !! k)) as Hrem.
  { simpl. by rewrite list_elem_of_filter, elem_of_btree_keys. }
  pose proof (upserted_keys k) as Hup. pose proof (moved_keys k) as Hmv. rewrite lookup_fmap.
  destruct (nodes l !! k) as [n|] eqn:E.
  - rewrite (decide_False (P:=k ∈ nodes_removed the_diff)) by naive_solver.
    assert (k ∈ (nodes_upserted the_diff).*1 ↔ node_upserted prev k n) as Hup'
      by (rewrite Hup; split; [by intros (? & [= <-] & ?)|eauto]).
    assert (k ∈ (nodes_moved the_diff).*1 ↔ node_moved prev k n) as Hmv'
      by (rewrite Hmv; split; [by intros (? & [= <-] & ?)|eauto]).
    assert (node_moved prev k n → ¬ node_upserted prev k n) as Hexcl.
    { unfold node_upserted, node_moved. destruct (nodes prev !! k) as [p|]; [|done].
      destruct (structurally_same p n); simpl; tauto. }
    destruct (decide (k ∈ (nodes_moved the_diff).*1)) as [H1|H1],
      (decide (k ∈ (nodes_upserted the_diff).*1)) as [H2|H2];
      rewrite ?Hmv' in H1; rewrite ?Hup' in H2; clear Hup Hmv Hup' Hmv';
      destruct (node_upserted prev k n), (node_moved prev k n); simpl in *; done || tauto.
  - rewrite (decide_False (P:=k ∈ (nodes_moved the_diff).*1)) by (rewrite Hmv; by intros (? & ? & _)).
    rewrite decide_False by (rewrite Hup; by intros (? & ? & _)).
    case_decide as Hr; [done|]. apply eq_None_not_Some. intros Hs. by apply Hr, Hrem.
Qed.
End diff.

(** Applied to the empty graph, the diff from the empty layer is the layer. *)
Lemma diff_from_nothing l rev rescan :
  let d := diff_from l CodeLayer_new rev rescan in
  apply_nodes d ∅ = nodes l ∧ apply_edges d ∅ = edges l ∧ nodes_removed d = [] ∧ nodes_moved d = [].
Proof.
  intros d.
  assert (∀ ns : list (string * NodeData), filter (λ kn, node_moved CodeLayer_new kn.1 kn.2) ns = []) as Hm.
  { intros ns. induction ns as [|kn ns IH]; [done|]. rewrite filter_cons_False; [exact IH|].
    unfold node_moved. simpl. rewrite lookup_empty. tauto. }
  split; [|split; [|split]].
  - apply map_eq. intros k.
    change (apply_nodes (the_diff l CodeLayer_new rev rescan) (nodes CodeLayer_new) !! k = nodes l !! k).
    rewrite apply_nodes_lookup. destruct (nodes l !! k) as [n|]; [|done].
    reflexivity.
  - unfold apply_edges, d, diff_from. simpl. apply set_eq. intros e.
    rewrite elem_of_union, !elem_of_list_to_set, elem_of_sort_by, elem_of_elements. set_solver.
  - reflexivity.
  - unfold d, diff_from. cbn [nodes_moved]. by rewrite Hm.
Qed.

(** The diff carries the previous layer to the new one: applied to it, it
    gives the new edges, and the new nodes up to the facts it tracks. *)
Theorem diff_from_carries l prev rev rescan :
  let d := diff_from l prev rev rescan in
  apply_edges d (edges prev) = edges l ∧
  (∀ k, option_Forall2 node_agrees (apply_nodes d (nodes prev) !! k) (nodes l !! k)).
Proof.
  intros d. split.
  - unfold apply_edges, d, diff_from. simpl. apply set_eq. intros e.
    rewrite elem_of_union, elem_of_difference, !elem_of_list_to_set, !elem_of_sort_by, !elem_of_elements.
    destruct (decide (e ∈ edges l)), (decide (e ∈ edges prev)); set_solver.
  - intros k. unfold d. fold (the_diff l prev rev rescan). rewrite apply_nodes_lookup.
    destruct (nodes l !! k) as [n|]; [|constructor]. unfold node_upserted, node_moved, node_agrees.
    destruct (nodes prev !! k) as [p|]; simpl;
      [|constructor; split; [apply structurally_same_refl|done]].
    destruct (structurally_same p n) eqn:Es; simpl;
      [|constructor; split; [apply structurally_same_refl|done]].
    repeat case_bool_decide; simpl; constructor; unfold structurally_same in *; simpl;
      rewrite Es; naive_solver.
Qed.

(** ** Witnesses *)

(** [c] refers to [b], which inherits from [a]; in the previous layer [d]
    imported [a]. *)
Definition layer_edge0 (s t : string) (k : EdgeKind) : Edge := mkEdge s t k None None None.
Definition layer0 : CodeLayer :=
  (add_edge (add_edge CodeLayer_new (layer_edge0 "b" "a" Inherits)).1 (layer_edge0 "c" "b" References)).1.
Definition layer0_prev : CodeLayer := (add_edge layer0 (layer_edge0 "d" "a" Imports)).1.

Lemma layer0_index : index_ok layer0 ∧ index_ok layer0_prev.
Proof. unfold layer0_prev, layer0. auto 10 with tyo3. Qed.

Lemma affected_closure_is_reachability_witness :
  ∃ r, affected_closure_with_deleted layer0 layer0_prev {["a"]} {["a"]} = Some r ∧
    "c" ∈ r ∧ "d" ∈ r.
Proof.
  destruct (affected_closure_is_reachability layer0 layer0_prev {["a"]} {["a"]}
    (proj1 layer0_index) (proj2 layer0_index)) as (r & Hr & Hx).
  exists r. split; [exact Hr|]. rewrite !Hx. split; exists "a"; (split; [by apply elem_of_singleton|]).
  - eapply rtc_l; [exists (layer_edge0 "b" "a" Inherits)|apply rtc_once; exists (layer_edge0 "c" "b" References)];
      (split; [left; unfold layer0; rewrite !elem_of_add_edge; auto|repeat split]).
  - apply rtc_once. exists (layer_edge0 "d" "a" Imports).
    split; [right; split; [by apply elem_of_singleton|]|repeat split].
    unfold layer0_prev. rewrite elem_of_add_edge. auto.
Defined.
