(* ===== verification/CodeBuilder.v ===== *)
(** * The producer of the code layer ([rust/src/code_layer.rs], [Builder])

    The passes that fill a layer from the answers of the analysis engine, the
    full build and the scoped rebuild of a commit.  The five queries the
    producer makes are a record: their answers come from the [ty] crates. *)

From Stdlib Require Import NArith Ascii.
From S2P Require Import Prelude Str CodeLayer.

(** ** What the queries return *)

Inductive SymbolKindDto :=
| KModule | KClass | KFunction | KMethod | KConstructor | KVariable | KConstant | KField
| KParameter | KProperty | KTypeParameter | KImport | KUnknown.

#[global] Instance SymbolKindDto_eq_dec : EqDecision SymbolKindDto.
Proof. solve_decision. Defined.

Record SymbolDto := mkSymbol {
  s_name : string;
  s_qualified_name : option string;
  s_kind : SymbolKindDto;
  s_path : string;
  s_range : RangeTuple;
  s_selection_range : option RangeTuple;
  s_container_name : option string;
  s_deprecated : bool;
  s_durable_id : option string;
  s_content_hash : option string;
  s_content_hashes : gmap string string;
}.

Inductive ReferenceRoleDto := RRead | RWrite | RImport | RDefinition | ROther.

#[global] Instance ReferenceRoleDto_eq_dec : EqDecision ReferenceRoleDto.
Proof. solve_decision. Defined.

Record NameOccurrenceDto := mkOccurrence {
  o_range : RangeTuple;
  o_name : option string;
  o_target_file : option string;
  o_target_name : option string;
  o_target_qualified_name : option string;
  o_role : ReferenceRoleDto;
}.

Record TypeHierarchyItemDto := mkHierarchyItem {
  t_name : string;
  t_detail : option string;
  t_path : string;
  t_full_range : RangeTuple;
  t_selection_range : RangeTuple;
}.

(** One state of the project as the producer sees it: the answers of
    [compute_files], [compute_document_symbols], [compute_file_occurrences],
    [compute_navigate] with goto-definition (the paths of the targets) and
    [compute_supertypes].  [None] is a failed query. *)
Record ProjectView := mkProjectView {
  pv_files : list string;
  pv_document_symbols : string → option (list SymbolDto);
  pv_file_occurrences : string → option (list NameOccurrenceDto);
  pv_goto_definition : string → N → N → option (list string);
  pv_supertypes : string → N → N → option (list TypeHierarchyItemDto);
}.

(** ** Kinds, roles, names *)

Definition symbol_kind_str (k : SymbolKindDto) : string :=
  match k with
  | KModule => "module" | KClass => "class_" | KFunction => "function" | KMethod => "method"
  | KConstructor => "constructor" | KVariable => "variable" | KConstant => "constant"
  | KField => "field" | KParameter => "parameter" | KProperty => "property"
  | KTypeParameter => "type_parameter" | KImport => "import_" | KUnknown => "unknown"
  end.

Definition role_str (r : ReferenceRoleDto) : string :=
  match r with
  | RRead => "read" | RWrite => "write" | RImport => "import" | RDefinition => "definition"
  | ROther => "other"
  end.

Definition module_range : RangeTuple := (1, 1, 1, 1)%N.

Definition file_stem (file : string) : string :=
  let base := rsplit_first "/" file in
  match rsplit_once "." base with
  | Some (stem, _) => if bool_decide (stem = "") then base else stem
  | None => base
  end.

(** The segment after the first ["site-packages"] that has one. *)
Fixpoint after_site_packages (parts : list string) : option string :=
  match parts with
  | part :: ((next :: _) as parts') =>
      if bool_decide (part = "site-packages") then Some next else after_site_packages parts'
  | _ => None
  end.

Definition venv_package (sep file_path : string) : option string :=
  match split_once sep file_path with
  | None => None
  | Some (_, rest) =>
      let parts := split_char "/"%char rest in
      if bool_decide (2 < length parts) && bool_decide (head parts = Some "lib")
      then after_site_packages parts else None
  end.

Definition infer_package (file_path : string) : option string :=
  let site :=
    match split_once "site-packages/" file_path with
    | Some (_, rest) =>
        match head (split_char "/"%char rest) with
        | Some first => if bool_decide (first = "") then None else Some first
        | None => None
        end
    | None => None
    end in
  match site with
  | Some first => Some first
  | None =>
      if str_contains "/lib/python" file_path || str_contains "typeshed" file_path
      then Some "stdlib"
      else match venv_package "/.venv/" file_path with
           | Some p => Some p
           | None => venv_package "/venv/" file_path
           end
  end.

(** ** State *)

Abbreviation RangeCacheEntry := (RangeTuple * string)%type (only parsing).

Record FileSymbols := mkFileSymbols {
  fs_graph_path : string;
  fs_native_path : string;
  fs_symbols : list SymbolDto;
}.

Record Builder := mkBuilder {
  layer : CodeLayer;
  (** [""] marks a short-name collision. *)
  name_to_id : gmap (string * string) string;
  b_file_to_nodes : gmap string (list string);
  range_cache : gmap string (list RangeCacheEntry);
  project_files : gset string;
}.

Definition Builder_new : Builder := mkBuilder CodeLayer_new ∅ ∅ ∅ ∅.

Definition set_layer (l : CodeLayer) (b : Builder) : Builder :=
  mkBuilder l (name_to_id b) (b_file_to_nodes b) (range_cache b) (project_files b).

Definition set_name_to_id (m : gmap (string * string) string) (b : Builder) : Builder :=
  mkBuilder (layer b) m (b_file_to_nodes b) (range_cache b) (project_files b).

(** ** Nodes and names *)

Definition register_name (m : gmap (string * string) string) (file name did : string) :
    gmap (string * string) string :=
  match m !! (file, name) with
  | None => <[ (file, name) := did ]> m
  | Some existing => if bool_decide (existing = did) then m else <[ (file, name) := "" ]> m
  end.

(** [entry(file).or_default().push(did)] *)
Definition push_node (m : gmap string (list string)) (file did : string) : gmap string (list string) :=
  <[ file := default [] (m !! file) ++ [did] ]> m.

Definition module_node (file : string) : NodeData :=
  mkNodeData (file_stem file) MODULE_QUALIFIED_NAME "module" file module_range None None ∅ false None.

Definition symbol_qn (s : SymbolDto) : string := default (s_name s) (s_qualified_name s).

Definition symbol_node (file : string) (s : SymbolDto) : NodeData :=
  mkNodeData (s_name s) (symbol_qn s) (symbol_kind_str (s_kind s)) file (s_range s)
    (s_selection_range s) (s_content_hash s) (s_content_hashes s) false None.

Definition materialize_module (file : string) (b : Builder) : Builder :=
  let module_id := make_module_durable_id file in
  if bool_decide (is_Some (nodes (layer b) !! module_id)) then b
  else mkBuilder (upsert_node (layer b) module_id (module_node file))
         (<[ (file, MODULE_QUALIFIED_NAME) := module_id ]> (name_to_id b))
         (push_node (b_file_to_nodes b) file module_id) (range_cache b) (project_files b).

Definition materialize_symbol (file : string) (b : Builder) (s : SymbolDto) : Builder :=
  match s_durable_id s with
  | None => b
  | Some did =>
      if bool_decide (is_Some (nodes (layer b) !! did)) then b
      else mkBuilder (upsert_node (layer b) did (symbol_node file s))
             (register_name (register_name (name_to_id b) file (s_name s) did) file (symbol_qn s) did)
             (push_node (b_file_to_nodes b) file did) (range_cache b) (project_files b)
  end.

Definition materialize_file_nodes (file : string) (symbols : list SymbolDto) (b : Builder) : Builder :=
  foldl (materialize_symbol file) (materialize_module file b) symbols.

Definition stub_node (name qualified_name kind package : string) : NodeData :=
  mkNodeData name qualified_name kind EXTERNAL_FILE module_range None None ∅ true (Some package).

Definition add_stub_node (did name qualified_name kind package : string) (b : Builder) : Builder :=
  if bool_decide (is_Some (nodes (layer b) !! did)) then b
  else set_layer (upsert_node (layer b) did (stub_node name qualified_name kind package)) b.

(** ** Lookups *)

Definition node_named (l : CodeLayer) (name did : string) : bool :=
  match nodes l !! did with
  | Some n => bool_decide (n_name n = name) || bool_decide (n_qualified_name n = name)
  | None => false
  end.

Definition find_symbol_in_file (b : Builder) (file name : string) : option string :=
  let scan := snd <$> list_find (node_named (layer b) name) (default [] (b_file_to_nodes b !! file)) in
  match name_to_id b !! (file, name) with
  | Some cached => if bool_decide (cached = "") then scan else Some cached
  | None => scan
  end.

Definition u32_modulus : N := (2 ^ 32)%N.

(** [a - b] on [u32], wrapping. *)
Definition u32_sub (a b : N) : N := ((a + u32_modulus - b) mod u32_modulus)%N.

(** The tuple [(line span, end column)] and its order. *)
Definition range_size (r : RangeTuple) : N * N :=
  let '(sl, sc, el, ec) := r in (u32_sub el sl, ec).

Definition pair_le (a b : N * N) : bool :=
  (a.1 <? b.1)%N || ((a.1 =? b.1)%N && (a.2 <=? b.2)%N).

Definition entry_le (a b : RangeCacheEntry) : bool := pair_le (range_size a.1) (range_size b.1).

Definition cache_entry (l : CodeLayer) (did : string) : option RangeCacheEntry :=
  match nodes l !! did with
  | Some n => if bool_decide (n_kind n = "module") then None else Some (n_range n, did)
  | None => None
  end.

Definition file_ranges (b : Builder) (file : string) : list RangeCacheEntry :=
  sort_by entry_le (omap (cache_entry (layer b)) (default [] (b_file_to_nodes b !! file))).

Definition build_range_cache (file : string) (b : Builder) : Builder :=
  mkBuilder (layer b) (name_to_id b) (b_file_to_nodes b)
    (<[ file := file_ranges b file ]> (range_cache b)) (project_files b).

Definition range_start (r : RangeTuple) : N * N := let '(sl, sc, _, _) := r in (sl, sc).
Definition range_end (r : RangeTuple) : N * N := let '(_, _, el, ec) := r in (el, ec).

(** The entry's range contains the range, as positions. *)
Definition encloses (r : RangeTuple) (e : RangeCacheEntry) : bool :=
  pair_le (range_start e.1) (range_start r) && pair_le (range_end r) (range_end e.1).

Definition find_enclosing_symbol (b : Builder) (file : string) (r : RangeTuple) : option string :=
  match list_find (encloses r) (default [] (range_cache b !! file)) with
  | Some (_, e) => Some e.2
  | None =>
      let module_id := make_module_durable_id file in
      if bool_decide (is_Some (nodes (layer b) !! module_id)) then Some module_id else None
  end.

(** ** Edges *)

Definition try_add_edge (e : Edge) (b : Builder) : Builder :=
  if bool_decide (is_Some (nodes (layer b) !! source e)) &&
     bool_decide (is_Some (nodes (layer b) !! target e))
  then set_layer (add_edge (layer b) e).1 b else b.

Definition containment_edge (file : string) (b : Builder) (s : SymbolDto) : Builder :=
  let module_id := make_module_durable_id file in
  match s_durable_id s with
  | None => b
  | Some did =>
      let parent_id :=
        match s_container_name s with
        | Some cn => default module_id (find_symbol_in_file b file cn)
        | None => module_id
        end in
      if bool_decide (is_Some (nodes (layer b) !! parent_id)) then
        let kind := if bool_decide (parent_id = module_id) then Defines else Contains in
        try_add_edge (mkEdge parent_id did kind None None None) b
      else b
  end.

Definition add_containment_edges (file : string) (symbols : list SymbolDto) (b : Builder) : Builder :=
  foldl (containment_edge file) b symbols.

Section build.
Context (root : string) (pv : ProjectView).

(** ** Paths *)

Definition to_graph_path (native : string) : string :=
  match strip_prefix root native with
  | Some rest =>
      let rest := default rest (strip_prefix "/" rest) in
      if bool_decide (rest = "") then native else rest
  | None => native
  end.

Definition normalize_target (b : Builder) (native : string) : string :=
  let candidate := to_graph_path native in
  if bool_decide (candidate ∈ project_files b) then candidate else native.

(** ** References and imports *)

Definition ensure_external_target (target_file target_name : string) (b : Builder) :
    option (string * Builder) :=
  if bool_decide (target_file ∈ project_files b) then None
  else
    let package := infer_package target_file in
    let ext_did := make_external_symbol_id (default target_file package) target_name in
    Some (ext_did, add_stub_node ext_did target_name target_name "unknown" (default "unknown" package) b).

Definition add_import_edge (source_file target_file : string) (r : RangeTuple) (b : Builder) : Builder :=
  let source_module := make_module_durable_id source_file in
  let import target_module b :=
    try_add_edge (mkEdge source_module target_module Imports None (Some source_file) (Some r)) b in
  if bool_decide (is_Some (nodes (layer b) !! source_module)) then
    let target_module := make_module_durable_id target_file in
    if bool_decide (is_Some (nodes (layer b) !! target_module)) then import target_module b
    else if bool_decide (target_file ∈ project_files b) then b
    else
      let package := default "unknown" (infer_package target_file) in
      let target_module := make_external_module_id package in
      import target_module (add_stub_node target_module package MODULE_QUALIFIED_NAME "module" package b)
  else b.

Definition resolve_import_via_goto (native_file file : string) (r : RangeTuple) (b : Builder) : Builder :=
  let '(sl, sc) := range_start r in
  match pv_goto_definition pv native_file sl sc with
  | Some (path :: _) =>
      let target_file := normalize_target b path in
      if bool_decide (target_file = file) then b else add_import_edge file target_file r b
  | _ => b
  end.

(** The node an occurrence resolves to, with the stub made for it. *)
Definition occurrence_target (b : Builder) (o : NameOccurrenceDto) (target_file target_name : string) :
    option (string * Builder) :=
  let found :=
    match o_target_qualified_name o ≫= find_symbol_in_file b target_file with
    | Some did => Some did
    | None => find_symbol_in_file b target_file target_name
    end in
  match found with
  | Some did => Some (did, b)
  | None => ensure_external_target target_file target_name b
  end.

Definition resolve_occurrence (file native_file : string) (b : Builder) (o : NameOccurrenceDto) : Builder :=
  if bool_decide (o_role o = RImport) && bool_decide (o_target_file o = None)
  then resolve_import_via_goto native_file file (o_range o) b
  else
    match o_target_file o, o_target_name o with
    | Some target_file_raw, Some target_name =>
        let target_file := normalize_target b target_file_raw in
        match occurrence_target b o target_file target_name with
        | None => b
        | Some (target_did, b) =>
            match find_enclosing_symbol b file (o_range o) with
            | None => b
            | Some enclosing_id =>
                let import b :=
                  if bool_decide (target_file = file) then b
                  else add_import_edge file target_file (o_range o) b in
                if bool_decide (enclosing_id = target_did) then b
                else if bool_decide (o_role o = RImport) then import b
                else import (try_add_edge (mkEdge enclosing_id target_did References
                               (Some (role_str (o_role o))) (Some file) (Some (o_range o))) b)
            end
        end
    | _, _ => b
    end.

Definition resolve_references (file native_file : string) (b : Builder) : Builder :=
  match pv_file_occurrences pv native_file with
  | Some occurrences => foldl (resolve_occurrence file native_file) b occurrences
  | None => b
  end.

(** ** Inheritance *)

Definition super_target (b : Builder) (st : TypeHierarchyItemDto) : option (string * Builder) :=
  let super_file := normalize_target b (t_path st) in
  match find_symbol_in_file b super_file (t_name st) with
  | Some did => Some (did, b)
  | None =>
      let package :=
        match infer_package super_file with
        | Some p => Some p
        | None => if bool_decide (is_Some (b_file_to_nodes b !! super_file)) then None else Some "unknown"
        end in
      match package with
      | Some pkg =>
          let ext_did := make_external_symbol_id pkg (t_name st) in
          Some (ext_did, add_stub_node ext_did (t_name st) (pkg +:+ "." +:+ t_name st) "class_" pkg b)
      | None => None
      end
  end.

Definition inherits_edge (did : string) (b : Builder) (st : TypeHierarchyItemDto) : Builder :=
  match super_target b st with
  | Some (super_did, b) => try_add_edge (mkEdge did super_did Inherits None None None) b
  | None => b
  end.

Definition inherits_symbol (native_file : string) (b : Builder) (s : SymbolDto) : Builder :=
  if bool_decide (s_kind s = KClass) then
    match s_durable_id s with
    | None => b
    | Some did =>
        let '(line, column) := range_start (default (s_range s) (s_selection_range s)) in
        match pv_supertypes pv native_file line column with
        | Some supertypes => foldl (inherits_edge did) b supertypes
        | None => b
        end
    end
  else b.

Definition inherits_pass (native_file : string) (symbols : list SymbolDto) (b : Builder) : Builder :=
  foldl (inherits_symbol native_file) b symbols.
End build.

(** *** Overrides *)

(** The edges in the order of the [BTreeSet]. *)
Definition btree_edges (l : CodeLayer) : list Edge := sort_by edge_le (elements (edges l)).

Definition is_containment (k : EdgeKind) : bool :=
  match k with Defines | Contains => true | _ => false end.

Definition child_step (did : string) (acc : gset string * list string) (e : Edge) :
    gset string * list string :=
  let '(seen, out) := acc in
  if bool_decide (source e = did) && is_containment (ekind e) && bool_decide (target e ∉ seen)
  then ({[ target e ]} ∪ seen, out ++ [target e]) else acc.

Definition children_of (l : CodeLayer) (did : string) : list string :=
  (foldl (child_step did) (∅, []) (btree_edges l)).2.

Definition is_method_kind (kind : string) : bool :=
  bool_decide (kind = "method") || bool_decide (kind = "constructor").

Definition add_ancestor_method (l : CodeLayer) (methods : gmap string string) (child : string) :
    gmap string string :=
  match nodes l !! child with
  | Some n =>
      if is_method_kind (n_kind n) && bool_decide (methods !! n_name n = None)
      then <[ n_name n := child ]> methods else methods
  | None => methods
  end.

Definition parents_of (l : CodeLayer) (did : string) : list string :=
  target <$> filter (λ e, source e = did ∧ ekind e = Inherits) (btree_edges l).

Record Walk := mkWalk {
  wk_methods : gmap string string;
  wk_visited : gset string;
  wk_queue : list string;
}.

Definition visit_parent (l : CodeLayer) (w : Walk) (parent_did : string) : Walk :=
  let methods := foldl (add_ancestor_method l) (wk_methods w) (children_of l parent_did) in
  if bool_decide (parent_did ∈ wk_visited w) then mkWalk methods (wk_visited w) (wk_queue w)
  else mkWalk methods ({[ parent_did ]} ∪ wk_visited w) (wk_queue w ++ [parent_did]).

(** The breadth-first walk of the INHERITS chain; [None] is exhausted fuel. *)
Fixpoint ancestors_loop (fuel : nat) (l : CodeLayer) (w : Walk) : option (gmap string string) :=
  match wk_queue w with
  | [] => Some (wk_methods w)
  | current :: queue =>
      match fuel with
      | O => None
      | S fuel =>
          ancestors_loop fuel l
            (foldl (visit_parent l) (mkWalk (wk_methods w) (wk_visited w) queue) (parents_of l current))
      end
  end.

(** Every pop is of the class itself or of the target of an edge, once. *)
Definition ancestor_methods (l : CodeLayer) (did : string) : option (gmap string string) :=
  ancestors_loop (S (size (edges l))) l (mkWalk ∅ {[ did ]} [did]).

Definition is_method_of (cls s : SymbolDto) : bool :=
  (bool_decide (s_kind s = KMethod) || bool_decide (s_kind s = KConstructor)) &&
  bool_decide (s_container_name s = Some (s_name cls)).

Definition override_edge (methods : gmap string string) (b : Builder) (m : SymbolDto) : Builder :=
  match methods !! s_name m, s_durable_id m with
  | Some parent, Some method_did => try_add_edge (mkEdge method_did parent Overrides None None None) b
  | _, _ => b
  end.

Definition overrides_symbol (file : string) (symbols : list SymbolDto) (b : Builder) (s : SymbolDto) :
    Builder :=
  if bool_decide (s_kind s = KClass) then
    match find_symbol_in_file b file (symbol_qn s) with
    | None => b
    | Some did =>
        match filter (is_method_of s) symbols with
        | [] => b
        | child_methods =>
            match ancestor_methods (layer b) did with
            | Some methods => foldl (override_edge methods) b child_methods
            | None => b
            end
        end
    end
  else b.

Definition overrides_pass (file : string) (symbols : list SymbolDto) (b : Builder) : Builder :=
  foldl (overrides_symbol file symbols) b symbols.

(** ** The full build *)

Definition set_project_files (s : gset string) (b : Builder) : Builder :=
  mkBuilder (layer b) (name_to_id b) (b_file_to_nodes b) (range_cache b) s.

Definition sync_file_to_nodes (b : Builder) : Builder :=
  let l := layer b in
  set_layer (mkCodeLayer (nodes l) (edges l) (reverse_deps l) (b_file_to_nodes b)) b.

Section passes.
Context (root : string) (pv : ProjectView).

(** Pass 2: all nodes, before any edge. *)
Definition materialize_files (files : list FileSymbols) (b : Builder) : Builder :=
  foldl (λ b f, materialize_file_nodes (fs_graph_path f) (fs_symbols f) b) b files.

(** Pass 3: containment edges and range caches. *)
Definition contain_files (files : list FileSymbols) (b : Builder) : Builder :=
  foldl (λ b f, build_range_cache (fs_graph_path f)
                  (add_containment_edges (fs_graph_path f) (fs_symbols f) b)) b files.

(** Passes 4 and 5: references and imports, then inheritance in two passes. *)
Definition relate_files (files : list FileSymbols) (b : Builder) : Builder :=
  let b := foldl (λ b f, resolve_references root pv (fs_graph_path f) (fs_native_path f) b) b files in
  let b := foldl (λ b f, inherits_pass root pv (fs_native_path f) (fs_symbols f) b) b files in
  foldl (λ b f, overrides_pass (fs_graph_path f) (fs_symbols f) b) b files.

Definition run_build_passes (files : list FileSymbols) (b : Builder) : Builder :=
  relate_files files (contain_files files (materialize_files files b)).

(** The project files of the listing: (graph path, native path). *)
Definition listed_files : list (string * string) :=
  filter (λ gn, gn.1 ≠ gn.2) ((λ native, (to_graph_path root native, native)) <$> pv_files pv).

Definition collect_symbols (listed : list (string * string)) : list FileSymbols :=
  omap (λ gn, mkFileSymbols gn.1 gn.2 <$> pv_document_symbols pv gn.2) listed.

Definition build : Builder :=
  let b := set_project_files (list_to_set listed_files.*1) Builder_new in
  sync_file_to_nodes (run_build_passes (collect_symbols listed_files) b).

Definition produce_code_delta (prev : CodeLayer) (revision : N) (rescan : bool) : CodeLayer * CodeDelta :=
  let next := layer build in
  (next, diff_from next prev revision (rescan || CodeLayer_is_empty prev)).

(** ** The scoped rebuild *)

(** One node's names, registered again. *)
Definition replay_name (l : CodeLayer) (file : string) (m : gmap (string * string) string) (id : string) :
    gmap (string * string) string :=
  match nodes l !! id with
  | None => m
  | Some n =>
      if bool_decide (n_qualified_name n = MODULE_QUALIFIED_NAME)
      then <[ (file, MODULE_QUALIFIED_NAME) := id ]> m
      else register_name (register_name m file (n_name n) id) file (n_qualified_name n) id
  end.

Definition seed_file (b : Builder) (file : string) : Builder :=
  let ids := default [] (b_file_to_nodes b !! file) in
  build_range_cache file (set_name_to_id (foldl (replay_name (layer b) file) (name_to_id b) ids) b).

Definition seeded (prev : CodeLayer) : Builder :=
  let b := mkBuilder prev ∅ (file_to_nodes prev) ∅ ∅ in
  foldl seed_file b (btree_keys (file_to_nodes prev)).

Definition evict_file (b : Builder) (file : string) : Builder :=
  let ids := default [] (b_file_to_nodes b !! file) in
  let outgoing := filter (λ e, source e ∈ ids) (btree_edges (layer b)) in
  let l := foldl (λ l e, (remove_edge l e).1) (layer b) outgoing in
  let l := mkCodeLayer (foldl (λ m id, delete id m) (nodes l) ids) (edges l) (reverse_deps l)
             (file_to_nodes l) in
  mkBuilder l (filter (λ kv, kv.1.1 ≠ file) (name_to_id b)) (delete file (b_file_to_nodes b))
    (delete file (range_cache b)) (project_files b).

(** The files of modules that import a seed file, after the previous layer. *)
Definition importers (l : CodeLayer) (seed_dirty : gset string) : list string :=
  let seed_modules : gset string := set_map make_module_durable_id seed_dirty in
  omap (λ e,
    if bool_decide (ekind e = Imports) && bool_decide (target e ∈ seed_modules) then
      match nodes l !! source e with
      | Some n => if bool_decide (n_file n ≠ "") && bool_decide (n_file n ≠ EXTERNAL_FILE)
                  then Some (n_file n) else None
      | None => None
      end
    else None) (btree_edges l).

Definition dirty_scope (l : CodeLayer) (seed_dirty : gset string) : gset string :=
  seed_dirty ∪ list_to_set (importers l seed_dirty).

Definition gc_external_stubs (b : Builder) : Builder :=
  let l := layer b in
  let referenced : gset string := set_map target (edges l) in
  let keep kn := ¬ (population kn.2 kn.1 = PExternal ∧ kn.1 ∉ referenced) in
  set_layer (mkCodeLayer (filter keep (nodes l)) (edges l) (reverse_deps l) (file_to_nodes l)) b.

Definition build_scoped (seed_dirty : gset string) (b : Builder) : Builder :=
  let b := set_project_files (list_to_set listed_files.*1) b in
  let current_native : gmap string string := list_to_map (reverse listed_files) in
  let dirty := dirty_scope (layer b) seed_dirty in
  let b := foldl evict_file b (elements dirty) in
  let dirty_existing :=
    omap (λ f, (λ native, (f, native)) <$> current_native !! f) (btree_elements dirty) in
  sync_file_to_nodes (gc_external_stubs (run_build_passes (collect_symbols dirty_existing) b)).

Definition produce_code_delta_scoped (prev : CodeLayer) (seed_dirty : gset string) (revision : N) :
    CodeLayer * CodeDelta :=
  let next := layer (build_scoped seed_dirty (seeded prev)) in
  (next, diff_from next prev revision false).
End passes.
