(* ===== verification/EdgeOrder.v ===== *)
(** * The order of edges ([derive(Ord)] on [Edge] in [rust/src/code_layer.rs])

    A [BTreeSet] of edges is walked in the order of the edges' fields.  The
    order is linear, so a walk depends on the set alone, and a walk that only
    looks at some edges depends on those alone. *)

From Stdlib Require Import NArith.
From S2P Require Import Prelude CodeLayer CodeBuilder.

(** ** Lawful comparisons *)

(** What [Ord] promises of [cmp], up to the equivalence [cmp a b = Eq]. *)
Class Lawful {A} (cmp : A → A → comparison) : Prop := {
  cmp_opp a b : cmp b a = CompOpp (cmp a b);
  cmp_lt_trans a b c : cmp a b = Lt → cmp b c = Lt → cmp a c = Lt;
  cmp_eq_l a b c : cmp a b = Eq → cmp a c = cmp b c;
}.

Arguments cmp_opp {_} cmp {_} _ _.
Arguments cmp_lt_trans {_} cmp {_} _ _ _ _ _.
Arguments cmp_eq_l {_} cmp {_} _ _ _ _.

Section lawful.
Context {A} (cmp : A → A → comparison) `{!Lawful cmp}.

Lemma cmp_eq_r a b c : cmp a b = Eq → cmp c a = cmp c b.
Proof. intros H. rewrite (cmp_opp cmp a c), (cmp_opp cmp b c). by rewrite (cmp_eq_l cmp a b c H). Qed.

Lemma cmp_le_trans a b c : cmp a b ≠ Gt → cmp b c ≠ Gt → cmp a c ≠ Gt.
Proof.
  intros H1 H2. destruct (cmp a b) eqn:E1; [by rewrite (cmp_eq_l cmp a b c E1)| |done].
  destruct (cmp b c) eqn:E2; [|by rewrite (cmp_lt_trans cmp a b c E1 E2)|done].
  by rewrite <- (cmp_eq_r b c a E2), E1.
Qed.

Lemma cmp_le_total a b : cmp a b ≠ Gt ∨ cmp b a ≠ Gt.
Proof. rewrite (cmp_opp cmp a b). destruct (cmp a b); simpl; auto. Qed.

Lemma cmp_le_antisym a b : cmp a b ≠ Gt → cmp b a ≠ Gt → cmp a b = Eq.
Proof. rewrite (cmp_opp cmp a b). by destruct (cmp a b). Qed.
End lawful.

(** Comparing a field, two keys in turn, and optional values. *)
#[global] Instance lawful_on {A B} (f : A → B) cmp : Lawful cmp → Lawful (λ a b, cmp (f a) (f b)).
Proof.
  intros []. split; eauto.
Qed.

#[global] Instance lawful_then {A} (c1 c2 : A → A → comparison) :
  Lawful c1 → Lawful c2 → Lawful (λ a b, then_compare (c1 a b) (c2 a b)).
Proof.
  intros H1 H2. split.
  - intros a b. rewrite (cmp_opp c1 a b), (cmp_opp c2 a b). by destruct (c1 a b).
  - intros a b c. destruct (c1 a b) eqn:E1; simpl; [..|done].
    + rewrite (cmp_eq_l c1 a b c E1). destruct (c1 b c); simpl; [apply (cmp_lt_trans c2)|done..].
    + intros _. destruct (c1 b c) eqn:E2; simpl; [| |done].
      * intros _. by rewrite <- (cmp_eq_r c1 b c a E2), E1.
      * intros _. by rewrite (cmp_lt_trans c1 a b c E1 E2).
  - intros a b c. destruct (c1 a b) eqn:E1; simpl; [|done..]. intros E2.
    by rewrite (cmp_eq_l c1 a b c E1), (cmp_eq_l c2 a b c E2).
Qed.

#[global] Instance lawful_option {A} (cmp : A → A → comparison) : Lawful cmp → Lawful (option_compare cmp).
Proof.
  intros H. split.
  - intros [a|] [b|]; simpl; [apply (cmp_opp cmp)|done..].
  - intros [a|] [b|] [c|]; simpl; [apply (cmp_lt_trans cmp)|done..].
  - intros [a|] [b|] [c|]; simpl; [apply (cmp_eq_l cmp)|done..].
Qed.

#[global] Instance lawful_N : Lawful N.compare.
Proof.
  split.
  - intros a b. apply N.compare_antisym.
  - intros a b c. rewrite !N.compare_lt_iff. lia.
  - intros a b c ->%N.compare_eq_iff. done.
Qed.

#[global] Instance lawful_string : Lawful String.compare.
Proof.
  split.
  - intros a b. apply String.compare_antisym.
  - intros a b c H1 H2.
    assert (String.le a c) as H by (etrans; [|]; unfold String.le, String.leb; [rewrite H1|rewrite H2]; done).
    unfold String.le, String.leb in H. destruct (String.compare a c) eqn:E; [|done..].
    apply String.compare_eq_iff in E as ->. rewrite String.compare_antisym, H1 in H2. done.
  - intros a b c ->%String.compare_eq_iff. done.
Qed.

#[global] Instance lawful_range : Lawful range_compare.
Proof.
  assert (Lawful (λ a b : RangeTuple, then_compare (N.compare a.1.1.1 b.1.1.1)
    (then_compare (N.compare a.1.1.2 b.1.1.2) (then_compare (N.compare a.1.2 b.1.2) (N.compare a.2 b.2))))) as [H1 H2 H3].
  { apply lawful_then; [exact (lawful_on (λ a : RangeTuple, a.1.1.1) _ _)|].
    apply lawful_then; [exact (lawful_on (λ a : RangeTuple, a.1.1.2) _ _)|].
    apply lawful_then; [exact (lawful_on (λ a : RangeTuple, a.1.2) _ _)|exact (lawful_on (λ a : RangeTuple, a.2) _ _)]. }
  split.
  - intros [[[a1 a2] a3] a4] [[[b1 b2] b3] b4]. apply (H1 (a1, a2, a3, a4) (b1, b2, b3, b4)).
  - intros [[[a1 a2] a3] a4] [[[b1 b2] b3] b4] [[[c1 c2] c3] c4].
    apply (H2 (a1, a2, a3, a4) (b1, b2, b3, b4) (c1, c2, c3, c4)).
  - intros [[[a1 a2] a3] a4] [[[b1 b2] b3] b4] [[[c1 c2] c3] c4].
    apply (H3 (a1, a2, a3, a4) (b1, b2, b3, b4) (c1, c2, c3, c4)).
Qed.

#[global] Instance lawful_edge : Lawful edge_compare.
Proof.
  unfold edge_compare. apply lawful_then; [exact (lawful_on source _ _)|].
  apply lawful_then; [exact (lawful_on target _ _)|].
  apply lawful_then; [exact (lawful_on (λ e, EdgeKind_index (ekind e)) _ _)|].
  apply lawful_then; [exact (lawful_on role _ _)|].
  apply lawful_then; [exact (lawful_on efile _ _)|exact (lawful_on erange _ _)].
Qed.

(** ** The order is linear *)

Lemma then_compare_eq a b : then_compare a b = Eq → a = Eq ∧ b = Eq.
Proof. by destruct a. Qed.

Lemma option_compare_eq {A} (cmp : A → A → comparison) :
  (∀ a b, cmp a b = Eq → a = b) → ∀ a b, option_compare cmp a b = Eq → a = b.
Proof. intros H [a|] [b|]; simpl; [|done..]. intros ->%H. done. Qed.

Lemma range_compare_eq a b : range_compare a b = Eq → a = b.
Proof.
  destruct a as [[[a1 a2] a3] a4], b as [[[b1 b2] b3] b4]. simpl.
  intros [->%N.compare_eq_iff [->%N.compare_eq_iff [->%N.compare_eq_iff ->%N.compare_eq_iff]%then_compare_eq]%then_compare_eq]%then_compare_eq.
  done.
Qed.

Lemma EdgeKind_index_inj a b : EdgeKind_index a = EdgeKind_index b → a = b.
Proof. by destruct a, b. Qed.

Lemma edge_compare_eq a b : edge_compare a b = Eq → a = b.
Proof.
  destruct a, b. unfold edge_compare. simpl.
  intros [->%String.compare_eq_iff H]%then_compare_eq. apply then_compare_eq in H as [->%String.compare_eq_iff H].
  apply then_compare_eq in H as [->%N.compare_eq_iff%EdgeKind_index_inj H].
  apply then_compare_eq in H as [->%(option_compare_eq _ String.compare_eq_iff) H].
  apply then_compare_eq in H as [->%(option_compare_eq _ String.compare_eq_iff) H].
  by apply (option_compare_eq _ range_compare_eq) in H as ->.
Qed.

Lemma edge_le_spec a b : edge_le a b ↔ edge_compare a b ≠ Gt.
Proof. unfold edge_le. by destruct (edge_compare a b). Qed.

Lemma edge_le_trans a b c : edge_le a b → edge_le b c → edge_le a c.
Proof. rewrite !edge_le_spec. apply (cmp_le_trans edge_compare). Qed.

Lemma edge_le_total a b : edge_le a b ∨ edge_le b a.
Proof. rewrite !edge_le_spec. apply (cmp_le_total edge_compare). Qed.

Lemma edge_le_antisym a b : edge_le a b → edge_le b a → a = b.
Proof. rewrite !edge_le_spec. intros H1 H2. by apply edge_compare_eq, (cmp_le_antisym edge_compare). Qed.

#[export] Hint Resolve edge_le_trans edge_le_total edge_le_antisym : tyo3.

(** ** Walks of a set of edges *)

(** What a walk sees of the edges with [P] depends on those edges alone. *)
Lemma btree_edges_filter (P : Edge → Prop) `{∀ e, Decision (P e)} (l l' : CodeLayer) :
  (∀ e, P e → e ∈ edges l ↔ e ∈ edges l') → filter P (btree_edges l) = filter P (btree_edges l').
Proof.
  intros HP. unfold btree_edges. apply (sorted_unique edge_le).
  - eauto with tyo3.
  - apply StronglySorted_filter, sort_by_sorted; eauto with tyo3.
  - apply StronglySorted_filter, sort_by_sorted; eauto with tyo3.
  - rewrite !sort_by_perm. apply NoDup_Permutation; [apply NoDup_filter, NoDup_elements..|].
    intros e. rewrite !list_elem_of_filter, !elem_of_elements. specialize (HP e). tauto.
Qed.

(** The parents of a class depend on its inheritance edges. *)
Lemma parents_of_ext l l' did :
  (∀ e, source e = did → ekind e = Inherits → e ∈ edges l ↔ e ∈ edges l') → parents_of l did = parents_of l' did.
Proof. intros H. unfold parents_of. f_equal. apply btree_edges_filter. intros e [Hs He]. auto. Qed.

Lemma child_steps_filter did es acc :
  foldl (child_step did) acc es =
    foldl (child_step did) acc (filter (λ e, source e = did ∧ is_containment (ekind e)) es).
Proof.
  revert acc. induction es as [|e es IH]; intros acc; [done|]. rewrite filter_cons. case_decide as He; simpl; [apply IH|].
  rewrite <- IH. f_equal. unfold child_step. destruct acc as [seen out].
  case_bool_decide as Hs; simpl; [|done]. destruct (is_containment (ekind e)) eqn:Hk; [|done]. by destruct He.
Qed.

(** The children of a node depend on its containment edges. *)
Lemma children_of_ext l l' did :
  (∀ e, source e = did → is_containment (ekind e) → e ∈ edges l ↔ e ∈ edges l') → children_of l did = children_of l' did.
Proof.
  intros H. unfold children_of. rewrite child_steps_filter, (child_steps_filter did (btree_edges l')).
  rewrite (btree_edges_filter (λ e, source e = did ∧ is_containment (ekind e)) l l'); [done|].
  intros e [Hs Hk]. auto.
Qed.
