(* ===== verification/CodeBuilderFacts.v ===== *)
(** * The producer of the code layer: invariants

    Every pass is a sequence of five kinds of step on the builder; the
    invariants of the layer are proved once per kind of step and hold of the
    full build, and of the scoped rebuild after its evictions. *)

From Stdlib Require Import NArith Ascii.
From S2P Require Import Prelude Str CodeLayer CodeBuilder.

(** ** Generic facts *)

Lemma foldl_steps {A S} (R : S → S → Prop) (inv : S → Prop) (f : S → A → S) s l :
  (∀ s s', inv s → R s s' → inv s') →
  (∀ s x, x ∈ l → inv s → rtc R s (f s x)) → inv s → rtc R s (foldl f s l).
Proof.
  intros Hpres. revert s. induction l as [|x l IH]; intros s Hf Hs; simpl; [done|].
  assert (rtc R s (f s x)) as Hx by (apply Hf; [left|done]).
  etrans; [done|]. apply IH; [intros; apply Hf; [by right|done]|].
  clear -Hx Hs Hpres. induction Hx; eauto.
Qed.

Lemma rtc_inv {S} (R : S → S → Prop) (inv : S → Prop) s s' :
  (∀ s s', inv s → R s s' → inv s') → rtc R s s' → inv s → inv s'.
Proof. intros Hpres. induction 1; eauto. Qed.

(** ** Ids *)

Definition ids_of (b : Builder) (file : string) : list string := default [] (b_file_to_nodes b !! file).

(** Ids of external stubs contain ["::"]; durable ids do not. *)
Definition stub_id (id : string) : bool := str_contains "::" id.

Lemma external_symbol_stub p n : stub_id (make_external_symbol_id p n).
Proof. unfold stub_id, make_external_symbol_id. by rewrite str_contains_middle. Qed.

Lemma external_module_stub p : stub_id (make_external_module_id p).
Proof. unfold stub_id, make_external_module_id. by rewrite str_contains_middle. Qed.

#[export] Hint Resolve external_symbol_stub external_module_stub : tyo3.

Lemma ids_of_push m file did f :
  default [] (push_node m file did !! f) =
    default [] (m !! f) ++ (if decide (f = file) then [did] else []).
Proof.
  unfold push_node. rewrite lookup_insert. repeat case_decide; subst; simpl; try done.
  by rewrite app_nil_r.
Qed.

Lemma elem_of_ids_push m file did f id :
  id ∈ default [] (push_node m file did !! f) ↔ id ∈ default [] (m !! f) ∨ f = file ∧ id = did.
Proof. rewrite ids_of_push, elem_of_app. case_decide; set_solver. Qed.

(** ** Steps

    [F] are the files whose nodes may be added, [ok] what is known of their
    symbols; under [strict] no durable id looks like a stub's. *)

Section steps.
Context (F : gset string) (ok : SymbolDto → Prop) (strict : Prop).

Inductive bstep (b : Builder) : Builder → Prop :=
| step_module file :
    file ∈ F → nodes (layer b) !! make_module_durable_id file = None → range_cache b !! file = None →
    bstep b (materialize_module file b)
| step_symbol file s did :
    file ∈ F → ok s → s_durable_id s = Some did → nodes (layer b) !! did = None →
    range_cache b !! file = None → bstep b (materialize_symbol file b s)
| step_stub did n :
    nodes (layer b) !! did = None → n_external n = true → n_file n = EXTERNAL_FILE → stub_id did →
    bstep b (set_layer (upsert_node (layer b) did n) b)
| step_edge e :
    is_Some (nodes (layer b) !! source e) → is_Some (nodes (layer b) !! target e) →
    (strict → stub_id (source e) = false) → bstep b (set_layer (add_edge (layer b) e).1 b)
| step_cache file : file ∈ F → bstep b (build_range_cache file b).

(** The effect of a step: a listed node, a stub, an edge or a cache entry. *)
Lemma materialize_module_new file b :
  nodes (layer b) !! make_module_durable_id file = None →
  materialize_module file b =
    mkBuilder (upsert_node (layer b) (make_module_durable_id file) (module_node file))
      (<[ (file, MODULE_QUALIFIED_NAME) := make_module_durable_id file ]> (name_to_id b))
      (push_node (b_file_to_nodes b) file (make_module_durable_id file)) (range_cache b) (project_files b).
Proof. intros Hn. unfold materialize_module. rewrite bool_decide_eq_false_2; [done|]. rewrite Hn. by intros []. Qed.

Lemma materialize_symbol_new file s did b :
  s_durable_id s = Some did → nodes (layer b) !! did = None →
  materialize_symbol file b s =
    mkBuilder (upsert_node (layer b) did (symbol_node file s))
      (register_name (register_name (name_to_id b) file (s_name s) did) file (symbol_qn s) did)
      (push_node (b_file_to_nodes b) file did) (range_cache b) (project_files b).
Proof.
  intros Hs Hn. unfold materialize_symbol. rewrite Hs, bool_decide_eq_false_2; [done|].
  rewrite Hn. by intros [].
Qed.

Ltac bstep_cases H :=
  destruct H as [file HF Hn Hc|file s did HF Hok Hs Hn Hc|did n Hn He Hf Hst|e Hsrc Htgt Hst|file HF];
  rewrite ?materialize_module_new, ?(materialize_symbol_new _ _ did) by done; simpl.

(** Nodes are added and never changed, in the files of [F] or as stubs. *)
Lemma bstep_nodes b b' : bstep b b' →
  nodes (layer b) ⊆ nodes (layer b') ∧
  ∀ id n, nodes (layer b') !! id = Some n →
    nodes (layer b) !! id = Some n ∨
    (if n_external n then stub_id id ∧ n_file n = EXTERNAL_FILE else n_file n ∈ F).
Proof.
  intros H. bstep_cases H; try (split; [by apply insert_subseteq|]);
    try (intros id m; rewrite lookup_insert_Some; intros [[<- <-]|[_ ?]]; [right|by left]); simpl; auto.
  by rewrite He.
Qed.

Lemma bstep_edges b b' : bstep b b' →
  edges (layer b) ⊆ edges (layer b') ∧
  ∀ e, e ∈ edges (layer b') → e ∈ edges (layer b) ∨
    is_Some (nodes (layer b) !! source e) ∧ is_Some (nodes (layer b) !! target e) ∧
    (strict → stub_id (source e) = false).
Proof.
  intros H. bstep_cases H; try (split; [done|by auto]).
  split; [set_solver|]. intros e'. rewrite elem_of_union, elem_of_singleton. intros [->|]; auto.
Qed.

Lemma bstep_index b b' : bstep b b' → index_ok (layer b) → index_ok (layer b').
Proof. intros H Hi. bstep_cases H; try exact Hi. by apply add_edge_index. Qed.

Lemma bstep_files b b' : bstep b b' → file_to_nodes (layer b') = file_to_nodes (layer b) ∧
  project_files b' = project_files b.
Proof. intros H. by bstep_cases H. Qed.

(** ** The invariant *)

Record builder_inv (b : Builder) : Prop := {
  bi_listed : ∀ file id, id ∈ ids_of b file →
    ∃ n, nodes (layer b) !! id = Some n ∧ n_file n = file ∧ n_external n = false;
  bi_nodup : ∀ file, NoDup (ids_of b file);
  bi_placed : ∀ id n, nodes (layer b) !! id = Some n →
    if n_external n then n_file n = EXTERNAL_FILE else id ∈ ids_of b (n_file n);
  bi_names : ∀ file name did, name_to_id b !! (file, name) = Some did → did = "" ∨ did ∈ ids_of b file;
  bi_ranges : ∀ file c, range_cache b !! file = Some c → c = file_ranges b file;
  bi_stubs : strict → ∀ id n, nodes (layer b) !! id = Some n → n_external n = stub_id id;
}.

Lemma register_name_lookup m file name did f x d :
  register_name m file name did !! (f, x) = Some d →
  m !! (f, x) = Some d ∨ f = file ∧ x = name ∧ (d = did ∨ d = "").
Proof.
  unfold register_name. destruct (m !! (file, name)) as [ex|]; [case_bool_decide; [by left|]|];
    rewrite lookup_insert_Some; naive_solver.
Qed.

(** A listed node's range does not depend on nodes added later. *)
Lemma file_ranges_mono b b' file :
  (∀ id, id ∈ ids_of b file → is_Some (nodes (layer b) !! id)) →
  nodes (layer b) ⊆ nodes (layer b') → ids_of b' file = ids_of b file →
  file_ranges b' file = file_ranges b file.
Proof.
  unfold file_ranges, ids_of. intros Hs Hsub ->. f_equal.
  induction (default [] (b_file_to_nodes b !! file)) as [|id l IH]; csimpl; [done|].
  rewrite IH by (intros; apply Hs; by right).
  destruct (Hs id) as [n Hn]; [left|]. unfold cache_entry. by rewrite Hn, (lookup_weaken _ _ _ _ Hn Hsub).
Qed.

Context (HFplain : strict → ∀ f, f ∈ F → stub_id (make_module_durable_id f) = false).
Context (Hokplain : strict → ∀ s did, ok s → s_durable_id s = Some did → stub_id did = false).

(** Adding one listed node with its names keeps the invariant. *)
Lemma inv_add_node b b' did n names :
  builder_inv b → nodes (layer b) !! did = None → n_external n = false →
  range_cache b !! n_file n = None → (strict → stub_id did = false) →
  (∀ f x d, names !! (f, x) = Some d →
     name_to_id b !! (f, x) = Some d ∨ f = n_file n ∧ (d = did ∨ d = "")) →
  b' = mkBuilder (upsert_node (layer b) did n) names (push_node (b_file_to_nodes b) (n_file n) did)
         (range_cache b) (project_files b) →
  builder_inv b'.
Proof.
  intros [Hl Hd Hp Hnm Hr Hst] Hn He Hc Hplain Hnames ->. split; unfold ids_of; simpl.
  - intros f id. rewrite elem_of_ids_push. intros [Hin|[-> ->]].
    + destruct (Hl f id Hin) as (m & Hm & ?). exists m. split; [|done].
      rewrite lookup_insert_ne; [done|]. intros ->. congruence.
    + exists n. by rewrite lookup_insert_eq.
  - intros f. rewrite ids_of_push. case_decide as Hf; [|by rewrite app_nil_r; apply Hd].
    apply NoDup_app. split; [apply Hd|]. split; [|apply NoDup_singleton].
    intros x Hx Hx'%list_elem_of_singleton. subst x. destruct (Hl f did Hx) as (m & Hm & _). congruence.
  - intros id m. rewrite lookup_insert_Some. intros [[<- <-]|[_ Hm]].
    + rewrite He. apply elem_of_ids_push. by right.
    + specialize (Hp id m Hm). destruct (n_external m); [done|]. apply elem_of_ids_push. by left.
  - intros f x d [Hx|[-> [->| ->]]]%Hnames; [|right; apply elem_of_ids_push; by right|by left].
    destruct (Hnm f x d Hx); [by left|]. right. apply elem_of_ids_push. by left.
  - intros f c Hfc. rewrite (Hr f c Hfc). symmetry. apply file_ranges_mono; simpl.
    + intros id Hin. destruct (Hl f id Hin) as (m & Hm & _). by exists m.
    + by apply insert_subseteq.
    + unfold ids_of. simpl. rewrite ids_of_push. case_decide; [congruence|]. by rewrite app_nil_r.
  - intros Hs id m. rewrite lookup_insert_Some. intros [[<- <-]|[_ Hm]]; [|by apply Hst].
    by rewrite He, Hplain.
Qed.

Lemma bstep_inv b b' : builder_inv b → bstep b b' → builder_inv b'.
Proof.
  intros Hb H. bstep_cases H.
  - eapply (inv_add_node b _ _ (module_node file)); [done..| |intros; by apply HFplain| |done]; [done|].
    intros f x d. rewrite lookup_insert_Some. naive_solver.
  - eapply (inv_add_node b _ did (symbol_node file s)); [done..|intros; by eapply Hokplain| |done].
    simpl. intros f x d Hx. apply register_name_lookup in Hx as [Hx|?]; [|naive_solver].
    apply register_name_lookup in Hx. naive_solver.
  - destruct Hb as [Hl Hd Hp Hnm Hr Hs]. split; simpl; try done.
    + intros f id Hin. destruct (Hl f id Hin) as (m & Hm & ?). exists m. split; [|done].
      rewrite lookup_insert_ne; [done|]. intros ->. congruence.
    + intros id m. rewrite lookup_insert_Some. intros [[<- <-]|[_ Hm]]; [by rewrite He|by apply Hp].
    + intros f c Hfc. rewrite (Hr f c Hfc). symmetry. apply file_ranges_mono; simpl; [|by apply insert_subseteq|done].
      intros id Hin. destruct (Hl f id Hin) as (m & Hm & _). by exists m.
    + intros Hstr id m. rewrite lookup_insert_Some. intros [[<- <-]|[_ Hm]]; [|by apply Hs].
      rewrite He. by destruct (stub_id did).
  - destruct Hb as [Hl Hd Hp Hnm Hr Hs]. by split.
  - destruct Hb as [Hl Hd Hp Hnm Hr Hs]. split; simpl; try done.
    intros f c. rewrite lookup_insert_Some. intros [[<- <-]|[_ Hc]]; [done|by apply Hr].
Qed.

(** ** Lookups return listed ids *)

Lemma find_symbol_listed b file name did :
  builder_inv b → find_symbol_in_file b file name = Some did → did ∈ ids_of b file.
Proof.
  intros Hb. unfold find_symbol_in_file. fold (ids_of b file).
  assert (snd <$> list_find (λ x, node_named (layer b) name x) (ids_of b file) = Some did →
          did ∈ ids_of b file) as Hscan.
  { destruct (list_find _ _) as [[i x]|] eqn:E; [|done]. intros [= <-].
    apply list_find_Some in E as (Hi & _). by eapply list_elem_of_lookup_2. }
  destruct (name_to_id b !! (file, name)) as [c|] eqn:E; [|done].
  case_bool_decide; [done|]. intros [= <-]. by destruct (bi_names b Hb _ _ _ E).
Qed.

Lemma listed_plain b file did :
  builder_inv b → did ∈ ids_of b file → strict → stub_id did = false.
Proof.
  intros Hb Hin Hs. destruct (bi_listed b Hb _ _ Hin) as (n & Hn & _ & <-).
  symmetry. by apply (bi_stubs b Hb Hs).
Qed.

Lemma elem_of_file_ranges b file r did :
  (r, did) ∈ file_ranges b file ↔
  did ∈ ids_of b file ∧ ∃ n, nodes (layer b) !! did = Some n ∧ n_kind n ≠ "module" ∧ n_range n = r.
Proof.
  unfold file_ranges. rewrite elem_of_sort_by, list_elem_of_omap. fold (ids_of b file).
  unfold cache_entry. split.
  - intros (id & Hin & He). destruct (nodes (layer b) !! id) as [n|] eqn:En; [|done].
    case_bool_decide; simplify_eq. eauto.
  - intros (Hin & n & Hn & Hk & <-). exists did. rewrite Hn, bool_decide_eq_false_2 by done. done.
Qed.

Lemma find_enclosing_cases b file r did :
  builder_inv b → find_enclosing_symbol b file r = Some did →
  did ∈ ids_of b file ∨ did = make_module_durable_id file.
Proof.
  intros Hb. unfold find_enclosing_symbol.
  destruct (list_find _ _) as [[i [q x]]|] eqn:E.
  - intros [= <-]. left. apply list_find_Some in E as (Hi%list_elem_of_lookup_2 & _).
    destruct (range_cache b !! file) as [c|] eqn:Ec; [|by apply not_elem_of_nil in Hi].
    simpl in Hi. rewrite (bi_ranges b Hb _ _ Ec), elem_of_file_ranges in Hi. apply Hi.
  - case_bool_decide; [|done]. intros [= <-]. by right.
Qed.

Lemma find_enclosing_plain b file r did :
  builder_inv b → file ∈ F → find_enclosing_symbol b file r = Some did → strict → stub_id did = false.
Proof.
  intros Hb HF [Hin| ->]%find_enclosing_cases Hs; [|by apply HFplain|done]. by eapply listed_plain.
Qed.

(** ** The passes are sequences of steps *)

Notation steps := (rtc bstep).

Lemma steps_inv b b' : steps b b' → builder_inv b → builder_inv b'.
Proof. apply rtc_inv. exact bstep_inv. Qed.

Lemma try_add_edge_steps e b : (strict → stub_id (source e) = false) → steps b (try_add_edge e b).
Proof.
  intros Hs. unfold try_add_edge. do 2 (case_bool_decide; simpl; [|done]).
  apply rtc_once. by constructor.
Qed.

Lemma add_stub_steps did name qn kind pkg b : stub_id did → steps b (add_stub_node did name qn kind pkg b).
Proof.
  intros Hs. unfold add_stub_node. case_bool_decide as H; [done|].
  apply rtc_once. constructor; [by apply eq_None_not_Some|done..].
Qed.

Lemma containment_steps file b s : builder_inv b → file ∈ F → steps b (containment_edge file b s).
Proof.
  intros Hb HF. unfold containment_edge. destruct (s_durable_id s) as [did|]; [|done].
  set (parent := match s_container_name s with Some _ => _ | None => _ end).
  case_bool_decide; [|done]. apply try_add_edge_steps. simpl. intros Hs. unfold parent.
  destruct (s_container_name s) as [cn|]; [|by apply HFplain].
  destruct (find_symbol_in_file b file cn) as [d|] eqn:E; [|by apply HFplain].
  eapply listed_plain; [done| |done]. by eapply find_symbol_listed.
Qed.

Lemma add_import_steps src tgt r b : src ∈ F → steps b (add_import_edge src tgt r b).
Proof.
  intros HF. unfold add_import_edge. case_bool_decide; [|done].
  assert (∀ t b, steps b (try_add_edge (mkEdge (make_module_durable_id src) t Imports None (Some src) (Some r)) b))
    as Hi by (intros; apply try_add_edge_steps; intros; by apply HFplain).
  case_bool_decide; [apply Hi|]. case_bool_decide; [done|].
  etrans; [|apply Hi]. apply add_stub_steps. auto with tyo3.
Qed.

Context (root : string) (pv : ProjectView).

Lemma occurrence_target_steps b o tf tn did b' :
  occurrence_target b o tf tn = Some (did, b') → steps b b'.
Proof.
  unfold occurrence_target, ensure_external_target. intros H.
  destruct (match o_target_qualified_name o ≫= _ with Some _ => _ | None => _ end); [by simplify_eq|].
  case_bool_decide; simplify_eq. apply add_stub_steps. auto with tyo3.
Qed.

Lemma resolve_occurrence_steps file native b o :
  builder_inv b → file ∈ F → steps b (resolve_occurrence root pv file native b o).
Proof.
  intros Hb HF. unfold resolve_occurrence. destruct (_ && _).
  { unfold resolve_import_via_goto. destruct (range_start _) as [sl sc].
    destruct (pv_goto_definition pv native sl sc) as [[|p ps]|]; [done| |done].
    case_bool_decide; [done|]. by apply add_import_steps. }
  destruct (o_target_file o) as [raw|], (o_target_name o) as [tn|]; try done.
  destruct (occurrence_target _ _ _ _) as [[did b1]|] eqn:E; [|done].
  apply occurrence_target_steps in E. etrans; [exact E|].
  destruct (find_enclosing_symbol b1 file (o_range o)) as [enc|] eqn:Ee; [|done].
  destruct (bool_decide (enc = did)); [done|].
  assert (∀ b2, steps b2 (if bool_decide (normalize_target root b raw = file) then b2
    else add_import_edge file (normalize_target root b raw) (o_range o) b2)) as Hi.
  { intros b2; case_bool_decide; [done|by apply add_import_steps]. }
  destruct (bool_decide (o_role o = RImport)); [apply Hi|].
  etrans; [apply try_add_edge_steps|apply Hi].
  simpl. intros Hs. eapply (find_enclosing_plain b1); [by eapply steps_inv|done..].
Qed.

Lemma inherits_edge_steps did b st : (strict → stub_id did = false) → steps b (inherits_edge root did b st).
Proof.
  intros Hs. unfold inherits_edge, super_target.
  destruct (find_symbol_in_file _ _ _); [by apply try_add_edge_steps|].
  set (pkg := match infer_package _ with Some _ => _ | None => _ end).
  destruct pkg as [p|]; [|done].
  etrans; [|by apply try_add_edge_steps]. apply add_stub_steps. auto with tyo3.
Qed.

Lemma foldl_inv_steps {A} (f : Builder → A → Builder) l b :
  (∀ b x, x ∈ l → builder_inv b → steps b (f b x)) → builder_inv b → steps b (foldl f b l).
Proof. apply foldl_steps. exact bstep_inv. Qed.

Lemma inherits_symbol_steps native b s : builder_inv b → ok s → steps b (inherits_symbol root pv native b s).
Proof.
  intros Hb Hok. unfold inherits_symbol. case_bool_decide; [|done].
  destruct (s_durable_id s) as [did|] eqn:E; [|done]. destruct (range_start _) as [l c].
  destruct (pv_supertypes pv native l c); [|done]. apply foldl_inv_steps; [|done].
  intros b' st _ _. apply inherits_edge_steps. eauto.
Qed.

Lemma overrides_symbol_steps file symbols b s :
  builder_inv b → (∀ s, s ∈ symbols → ok s) → steps b (overrides_symbol file symbols b s).
Proof.
  intros Hb Hok. unfold overrides_symbol. case_bool_decide; [|done].
  destruct (find_symbol_in_file _ _ _) as [did|]; [|done].
  destruct (filter _ symbols) as [|m ms] eqn:Ef; [done|].
  destruct (ancestor_methods _ _) as [methods|]; [|done]. apply foldl_inv_steps; [|done].
  intros b' x Hx _. rewrite <- Ef in Hx. apply list_elem_of_filter in Hx as [_ Hx].
  unfold override_edge. destruct (methods !! s_name x), (s_durable_id x) as [d|] eqn:Ed; try done.
  apply try_add_edge_steps. simpl. eauto.
Qed.

(** Pass 2, while the files it fills have no range cache yet. *)
Lemma materialize_steps file symbols b :
  file ∈ F → (∀ s, s ∈ symbols → ok s) → range_cache b !! file = None →
  steps b (materialize_file_nodes file symbols b) ∧
  range_cache (materialize_file_nodes file symbols b) = range_cache b.
Proof.
  intros HF Hok Hc. unfold materialize_file_nodes.
  assert (steps b (materialize_module file b) ∧ range_cache (materialize_module file b) = range_cache b) as [H1 Hc1].
  { destruct (nodes (layer b) !! make_module_durable_id file) eqn:E.
    - unfold materialize_module. by rewrite bool_decide_eq_true_2.
    - split; [by apply rtc_once, step_module|]. by rewrite materialize_module_new. }
  set (b1 := materialize_module file b) in *. rewrite <- Hc1 in *.
  cut (steps b1 (foldl (materialize_symbol file) b1 symbols) ∧
       range_cache (foldl (materialize_symbol file) b1 symbols) = range_cache b1).
  { intros [H2 Hc2]. split; [by etrans|done]. }
  clear H1 Hc1. revert Hc. generalize b1. clear b1.
  induction symbols as [|s symbols IH]; intros b1 Hc; simpl; [done|].
  assert (steps b1 (materialize_symbol file b1 s) ∧ range_cache (materialize_symbol file b1 s) = range_cache b1) as [H1 Hc1].
  { destruct (s_durable_id s) as [did|] eqn:Es; [|unfold materialize_symbol; by rewrite Es].
    destruct (nodes (layer b1) !! did) eqn:E.
    - unfold materialize_symbol. by rewrite Es, bool_decide_eq_true_2.
    - split; [|by rewrite (materialize_symbol_new _ _ did)].
      apply rtc_once. eapply step_symbol; [done|apply Hok; left|done..]. }
  destruct (IH (λ s Hs, Hok s (list_elem_of_further _ _ _ Hs)) (materialize_symbol file b1 s)) as [H2 Hc2].
  { by rewrite Hc1. }
  split; [by etrans|congruence].
Qed.

Definition files_in (files : list FileSymbols) : Prop :=
  ∀ f, f ∈ files → fs_graph_path f ∈ F ∧ ∀ s, s ∈ fs_symbols f → ok s.

Lemma materialize_all_steps files b :
  files_in files → (∀ f, f ∈ F → range_cache b !! f = None) →
  steps b (materialize_files files b).
Proof.
  unfold materialize_files. revert b. induction files as [|f files IH]; intros b Hin Hc; simpl; [done|].
  destruct (Hin f) as [HF Hok]; [left|].
  destruct (materialize_steps (fs_graph_path f) (fs_symbols f) b HF Hok (Hc _ HF)) as [H1 H2].
  etrans; [exact H1|]. apply IH; [intros g Hg; apply Hin; by right|]. by rewrite H2.
Qed.

(** One pass over the files. *)
Lemma pass_steps (f : Builder → FileSymbols → Builder) files b :
  files_in files →
  (∀ b x, x ∈ files → fs_graph_path x ∈ F → (∀ s, s ∈ fs_symbols x → ok s) → builder_inv b → steps b (f b x)) →
  builder_inv b → steps b (foldl f b files).
Proof.
  intros Hin Hf Hb. apply foldl_inv_steps; [|done].
  intros b1 x Hx Hb1. destruct (Hin x Hx). by apply Hf.
Qed.

Lemma contain_files_steps files b : files_in files → builder_inv b → steps b (contain_files files b).
Proof.
  intros Hin. apply pass_steps; [done|]. intros b0 x Hx HF Hok Hb0.
  transitivity (add_containment_edges (fs_graph_path x) (fs_symbols x) b0);
    [apply foldl_inv_steps; [|done]|apply rtc_once; by constructor].
  intros b' s _ Hb'. by apply containment_steps.
Qed.

Lemma relate_files_steps files b : files_in files → builder_inv b → steps b (relate_files root pv files b).
Proof.
  intros Hin Hb. unfold relate_files. set (b1 := foldl _ b files). set (b2 := foldl _ b1 files).
  assert (steps b b1) as H1.
  { apply pass_steps; [done| |done]. intros b0 x Hx HF Hok Hb0. unfold resolve_references.
    destruct (pv_file_occurrences _ _); [|done].
    apply foldl_inv_steps; [|done]. intros b' o _ Hb'. by apply resolve_occurrence_steps. }
  pose proof (steps_inv _ _ H1 Hb) as Hb1.
  assert (steps b1 b2) as H2.
  { apply pass_steps; [done| |done]. intros b0 x Hx HF Hok Hb0. apply foldl_inv_steps; [|done].
    intros b' s Hs Hb'. apply inherits_symbol_steps; auto. }
  pose proof (steps_inv _ _ H2 Hb1) as Hb2.
  etrans; [exact H1|]. etrans; [exact H2|]. apply pass_steps; [done| |done].
  intros b0 x Hx HF Hok Hb0. apply foldl_inv_steps; [|done].
  intros b' s Hs Hb'. by apply overrides_symbol_steps.
Qed.

Lemma link_files_steps files b :
  files_in files → builder_inv b → steps b (relate_files root pv files (contain_files files b)).
Proof.
  intros Hin Hb. pose proof (contain_files_steps files b Hin Hb) as H.
  etrans; [exact H|]. apply relate_files_steps; [done|]. by eapply steps_inv.
Qed.

Lemma run_build_passes_steps files b :
  files_in files → builder_inv b → (∀ f, f ∈ F → range_cache b !! f = None) →
  steps b (run_build_passes root pv files b).
Proof.
  intros Hin Hb Hc. pose proof (materialize_all_steps files b Hin Hc) as H.
  etrans; [exact H|]. apply link_files_steps; [done|]. by eapply steps_inv.
Qed.
End steps.
