(* ===== verification/CodeProducer.v ===== *)
(** * The producer of the code layer: what it guarantees

    The layer a full build returns is well-formed and closed; a scoped rebuild
    keeps it well-formed, leaves the files outside its scope alone, and keeps it
    closed under the condition its design relies on. *)

From Stdlib Require Import NArith Ascii.
From S2P Require Import Prelude Str CodeLayer CodeBuilder CodeBuilderFacts.

(** ** Well-formed layers *)

Record layer_wf (l : CodeLayer) : Prop := {
  lw_index : index_ok l;
  lw_listed : ∀ file id, id ∈ default [] (file_to_nodes l !! file) →
    ∃ n, nodes l !! id = Some n ∧ n_file n = file ∧ n_external n = false;
  lw_nodup : ∀ file, NoDup (default [] (file_to_nodes l !! file));
  lw_placed : ∀ id n, nodes l !! id = Some n →
    if n_external n then n_file n = EXTERNAL_FILE else id ∈ default [] (file_to_nodes l !! n_file n);
}.

(** Both ends of every edge are nodes. *)
Definition closed (l : CodeLayer) : Prop :=
  ∀ e, e ∈ edges l → is_Some (nodes l !! source e) ∧ is_Some (nodes l !! target e).

(** The external nodes are those with a stub's id, and never the source of an edge. *)
Definition stubs_apart (l : CodeLayer) : Prop :=
  (∀ id n, nodes l !! id = Some n → n_external n = stub_id id) ∧
  ∀ e, e ∈ edges l → stub_id (source e) = false.

Lemma synced_wf strict b :
  builder_inv strict b → index_ok (layer b) → layer_wf (layer (sync_file_to_nodes b)).
Proof. intros [Hl Hd Hp _ _ _] Hi. by split. Qed.

(** What a run of steps preserves of the layer. *)
Lemma steps_nodes F ok strict b b' : rtc (bstep F ok strict) b b' →
  nodes (layer b) ⊆ nodes (layer b') ∧
  ∀ id n, nodes (layer b') !! id = Some n →
    nodes (layer b) !! id = Some n ∨
    (if n_external n then stub_id id ∧ n_file n = EXTERNAL_FILE else n_file n ∈ F).
Proof.
  induction 1 as [b|b1 b2 b3 H12 _ [Hs Hn]]; [by auto|].
  destruct (bstep_nodes _ _ _ _ _ H12) as [Hs' Hn']. split; [by etrans|].
  intros id n [H|H]%Hn; [by apply Hn'|by right].
Qed.

Lemma steps_edges F ok strict b b' : rtc (bstep F ok strict) b b' →
  edges (layer b) ⊆ edges (layer b') ∧
  ∀ e, e ∈ edges (layer b') → e ∈ edges (layer b) ∨
    is_Some (nodes (layer b') !! source e) ∧ is_Some (nodes (layer b') !! target e) ∧
    (strict → stub_id (source e) = false).
Proof.
  induction 1 as [b|b1 b2 b3 H12 H23 [Hs He]]; [by auto|].
  destruct (bstep_edges _ _ _ _ _ H12) as [Hs' He']. split; [set_solver|].
  intros e [H|H]%He; [|by auto]. destruct (He' e H) as [?|([m Hm] & [n Hn] & ?)]; [by left|right].
  assert (nodes (layer b1) ⊆ nodes (layer b3)) as Hsub.
  { etrans; [apply (bstep_nodes _ _ _ _ _ H12)|]. apply (steps_nodes _ _ _ _ _ H23). }
  split; [|split; [|done]]; eexists; by eapply lookup_weaken.
Qed.

Lemma steps_index F ok strict b b' : rtc (bstep F ok strict) b b' → index_ok (layer b) → index_ok (layer b').
Proof.
  apply (rtc_inv _ (λ b, index_ok (layer b))). intros s s' Hi Hs. by apply (bstep_index _ _ _ _ _ Hs).
Qed.

(** ** Pass 2 makes every node *)

Definition present (b : Builder) (f : FileSymbols) : Prop :=
  is_Some (nodes (layer b) !! make_module_durable_id (fs_graph_path f)) ∧
  ∀ s did, s ∈ fs_symbols f → s_durable_id s = Some did → is_Some (nodes (layer b) !! did).

Lemma present_mono b b' f : nodes (layer b) ⊆ nodes (layer b') → present b f → present b' f.
Proof.
  intros Hsub [[m Hm] Hs]. split; [eexists; by eapply lookup_weaken|].
  intros s did Hin Hd. destruct (Hs s did Hin Hd) as [n Hn]. eexists. by eapply lookup_weaken.
Qed.

Lemma materialize_symbol_nodes file b s :
  nodes (layer b) ⊆ nodes (layer (materialize_symbol file b s)) ∧
  ∀ did, s_durable_id s = Some did → is_Some (nodes (layer (materialize_symbol file b s)) !! did).
Proof.
  unfold materialize_symbol. destruct (s_durable_id s) as [did|]; [|by split].
  case_bool_decide as H; [split; [done|congruence]|]. simpl. split.
  - apply insert_subseteq. by apply eq_None_not_Some.
  - intros ? [= <-]. by rewrite lookup_insert_eq.
Qed.

Lemma materialize_symbols_nodes file symbols b :
  nodes (layer b) ⊆ nodes (layer (foldl (materialize_symbol file) b symbols)) ∧
  ∀ s did, s ∈ symbols → s_durable_id s = Some did →
    is_Some (nodes (layer (foldl (materialize_symbol file) b symbols)) !! did).
Proof.
  revert b. induction symbols as [|s symbols IH]; intros b; simpl; [by split; [|set_solver]|].
  destruct (IH (materialize_symbol file b s)) as [Hs Hp].
  destruct (materialize_symbol_nodes file b s) as [Hs' Hp']. split; [by etrans|].
  intros s' did [->|Hin]%elem_of_cons Hd; [|by eapply Hp].
  destruct (Hp' did Hd) as [n Hn]. eexists. by eapply lookup_weaken.
Qed.

Lemma materialize_file_present f b :
  let b' := materialize_file_nodes (fs_graph_path f) (fs_symbols f) b in
  nodes (layer b) ⊆ nodes (layer b') ∧ present b' f.
Proof.
  simpl. unfold materialize_file_nodes.
  assert (nodes (layer b) ⊆ nodes (layer (materialize_module (fs_graph_path f) b)) ∧
    is_Some (nodes (layer (materialize_module (fs_graph_path f) b)) !! make_module_durable_id (fs_graph_path f)))
    as [H1 [m Hm]].
  { unfold materialize_module. case_bool_decide as H; [by split|]. simpl.
    split; [apply insert_subseteq; by apply eq_None_not_Some|by rewrite lookup_insert_eq]. }
  destruct (materialize_symbols_nodes (fs_graph_path f) (fs_symbols f) (materialize_module (fs_graph_path f) b))
    as [H2 Hp].
  split; [by etrans|]. split; [eexists; by eapply lookup_weaken|done].
Qed.

Lemma materialize_files_present files b f : f ∈ files → present (materialize_files files b) f.
Proof.
  unfold materialize_files. revert b. induction files as [|g files IH]; intros b; simpl; [set_solver|].
  intros [->|Hin]%elem_of_cons; [|by apply IH].
  destruct (materialize_file_present g b) as [_ Hp]. revert Hp.
  generalize (materialize_file_nodes (fs_graph_path g) (fs_symbols g) b). clear.
  induction files as [|h files IH]; intros b Hp; simpl; [done|].
  apply IH. eapply present_mono; [|done]. apply materialize_file_present.
Qed.

(** ** Views of the project *)

(** No durable id and no module id of the project looks like a stub's. *)
Definition view_plain (root : string) (pv : ProjectView) : Prop :=
  ∀ g native, (g, native) ∈ listed_files root pv →
    stub_id (make_module_durable_id g) = false ∧
    ∀ symbols s did, pv_document_symbols pv native = Some symbols → s ∈ symbols →
      s_durable_id s = Some did → stub_id did = false.

Section producer.
Context (root : string) (pv : ProjectView).

Definition plain_symbol (strict : Prop) (s : SymbolDto) : Prop :=
  strict → ∀ did, s_durable_id s = Some did → stub_id did = false.

Lemma plain_symbol_elim strict s did :
  strict → plain_symbol strict s → s_durable_id s = Some did → stub_id did = false.
Proof. unfold plain_symbol. eauto. Qed.

Lemma collect_symbols_in strict (F : gset string) listed :
  (strict → view_plain root pv) → listed ⊆ listed_files root pv → (∀ g n, (g, n) ∈ listed → g ∈ F) →
  files_in F (plain_symbol strict) (collect_symbols pv listed).
Proof.
  intros Hv Hl HF f. unfold collect_symbols. rewrite list_elem_of_omap.
  intros ([g n] & Hin & Hf). simpl in Hf. destruct (pv_document_symbols pv n) as [syms|] eqn:E; [|done].
  simplify_eq/=. split; [by eapply HF|]. intros s Hs Hstr did. by eapply (Hv Hstr g n (Hl _ Hin)).
Qed.

Lemma empty_inv strict S : builder_inv strict (set_project_files S Builder_new).
Proof.
  split; unfold ids_of; simpl; try done; [|intros; apply NoDup_nil_2]. intros ? ? []%not_elem_of_nil.
Qed.

(** The full build, with or without the reading of stub ids. *)
Lemma build_spec strict :
  (strict → view_plain root pv) →
  let b := build root pv in
  builder_inv strict b ∧ layer_wf (layer b) ∧ closed (layer b) ∧
  (strict → ∀ e, e ∈ edges (layer b) → stub_id (source e) = false) ∧
  ∀ f, f ∈ collect_symbols pv (listed_files root pv) → present b f.
Proof.
  intros Hv. simpl. unfold build. set (S := list_to_set _). set (files := collect_symbols _ _).
  set (b0 := set_project_files S Builder_new).
  assert (files_in S (plain_symbol strict) files) as Hin.
  { apply collect_symbols_in; [done..|]. intros g n Hg. unfold S.
    apply elem_of_list_to_set, list_elem_of_fmap. by exists (g, n). }
  assert (strict → ∀ f, f ∈ S → stub_id (make_module_durable_id f) = false) as HF.
  { intros Hs f Hf. apply elem_of_list_to_set, list_elem_of_fmap in Hf as ([g n] & -> & Hg).
    by apply (Hv Hs g n Hg). }
  pose proof (run_build_passes_steps S (plain_symbol strict) strict HF (λ s x d, plain_symbol_elim _ x d s)
    root pv files b0 Hin (empty_inv strict S) (λ _ _, eq_refl)) as Hst.
  pose proof (steps_inv _ _ _ HF (λ s x d, plain_symbol_elim _ x d s) _ _ Hst (empty_inv strict S)) as Hb.
  pose proof (steps_index _ _ _ _ _ Hst new_index) as Hi.
  destruct (steps_edges _ _ _ _ _ Hst) as [_ He].
  split; [by destruct Hb|]. split; [by eapply synced_wf|].
  split; [intros e [H|(? & ? & _)]%He; [by apply not_elem_of_empty in H|done]|].
  split; [intros Hs e [H|(_ & _ & ?)]%He; [by apply not_elem_of_empty in H|auto]|].
  intros f Hf. change (present (relate_files root pv files (contain_files files (materialize_files files b0))) f).
  eapply (present_mono (materialize_files files b0)); [|by apply materialize_files_present].
  apply (steps_nodes S (plain_symbol strict) strict).
  apply link_files_steps; [done| |done|].
  - intros s x d. by apply plain_symbol_elim.
  - eapply steps_inv; [done|intros s x d; by apply plain_symbol_elim| |apply (empty_inv strict S)].
    by apply materialize_all_steps.
Qed.

(** C17: the full build returns a well-formed layer, whatever the engine answers:
    the reverse-dependency index is the one its edges derive, so the debug
    assertion of the producer holds; both ends of every edge are nodes; every
    node is an external stub or is listed once, under its own file; and every
    project file whose symbols are known has its module node and a node for
    each symbol with an id. *)
Theorem build_layer_ok :
  let l := layer (build root pv) in
  layer_wf l ∧ closed l ∧
  ∀ g native symbols,
    (g, native) ∈ listed_files root pv → pv_document_symbols pv native = Some symbols →
    is_Some (nodes l !! make_module_durable_id g) ∧
    ∀ s did, s ∈ symbols → s_durable_id s = Some did → is_Some (nodes l !! did).
Proof.
  destruct (build_spec False) as (_ & Hwf & Hcl & _ & Hp); [done|]. simpl. split; [done|]. split; [done|].
  intros g native symbols Hin Hs. apply (Hp (mkFileSymbols g native symbols)).
  apply list_elem_of_omap. exists (g, native). simpl. by rewrite Hs.
Qed.
End producer.

(** ** Seeding *)

(** The names of one file, registered in the order of its listing. *)
Definition replayed (l : CodeLayer) (file : string) (ids : list string) : gmap (string * string) string :=
  foldl (replay_name l file) ∅ ids.

(** Two name tables that agree on one file. *)
Definition agree_on (file : string) (m1 m2 : gmap (string * string) string) : Prop :=
  ∀ name, m1 !! (file, name) = m2 !! (file, name).

Lemma register_name_other m file name did f x :
  f ≠ file → register_name m file name did !! (f, x) = m !! (f, x).
Proof.
  intros Hf. unfold register_name. destruct (m !! (file, name)) as [ex|]; [case_bool_decide; [done|]|];
    rewrite lookup_insert_ne; congruence.
Qed.

Lemma register_name_agree m1 m2 file name did :
  agree_on file m1 m2 → agree_on file (register_name m1 file name did) (register_name m2 file name did).
Proof.
  intros H x. unfold register_name. rewrite <- (H name).
  destruct (m1 !! (file, name)) as [ex|]; [case_bool_decide; [apply H|]|];
    rewrite !lookup_insert; case_decide; auto.
Qed.

Lemma replay_name_other l file m id f x : f ≠ file → replay_name l file m id !! (f, x) = m !! (f, x).
Proof.
  intros Hf. unfold replay_name. destruct (nodes l !! id) as [n|]; [|done]. case_bool_decide.
  - rewrite lookup_insert_ne; congruence.
  - by rewrite !register_name_other.
Qed.

Lemma replay_name_agree l file m1 m2 id :
  agree_on file m1 m2 → agree_on file (replay_name l file m1 id) (replay_name l file m2 id).
Proof.
  intros H. unfold replay_name. destruct (nodes l !! id) as [n|]; [|done]. case_bool_decide.
  - intros x. rewrite !lookup_insert. by case_decide.
  - by apply register_name_agree, register_name_agree.
Qed.

Lemma replay_fold_other l file m ids f x :
  f ≠ file → foldl (replay_name l file) m ids !! (f, x) = m !! (f, x).
Proof.
  intros Hf. revert m. induction ids as [|id ids IH]; intros m; simpl; [done|].
  rewrite IH. by apply replay_name_other.
Qed.

Lemma replay_fold_agree l file m1 m2 ids :
  agree_on file m1 m2 → agree_on file (foldl (replay_name l file) m1 ids) (foldl (replay_name l file) m2 ids).
Proof.
  revert m1 m2. induction ids as [|id ids IH]; intros m1 m2 H; simpl; [done|].
  by apply IH, replay_name_agree.
Qed.

Lemma replayed_listed l file ids name did :
  replayed l file ids !! (file, name) = Some did → did = "" ∨ did ∈ ids.
Proof.
  unfold replayed. revert did. induction ids as [|id ids IH] using rev_ind; intros did; simpl; [done|].
  rewrite foldl_snoc. set (m := foldl _ _ _) in *. rewrite elem_of_app, list_elem_of_singleton.
  unfold replay_name. destruct (nodes l !! id) as [n|]; [|intros Hx%IH; naive_solver].
  case_bool_decide.
  - rewrite lookup_insert_Some. intros [[_ <-]|[_ Hx%IH]]; naive_solver.
  - intros Hx. apply register_name_lookup in Hx as [Hx|?]; [|naive_solver].
    apply register_name_lookup in Hx as [Hx%IH|?]; naive_solver.
Qed.

(** The seeded builder: the previous layer, its listing, and per listed file
    the replayed names and the range cache. *)
Lemma seed_file_fields b file :
  layer (seed_file b file) = layer b ∧ b_file_to_nodes (seed_file b file) = b_file_to_nodes b ∧
  project_files (seed_file b file) = project_files b.
Proof. done. Qed.

Lemma seed_files_spec b files :
  NoDup files → (∀ f x, f ∈ files → name_to_id b !! (f, x) = None) →
  let b' := foldl seed_file b files in
  layer b' = layer b ∧ b_file_to_nodes b' = b_file_to_nodes b ∧ project_files b' = project_files b ∧
  (∀ f x, name_to_id b' !! (f, x) =
     if decide (f ∈ files) then replayed (layer b) f (ids_of b f) !! (f, x) else name_to_id b !! (f, x)) ∧
  (∀ f, range_cache b' !! f = if decide (f ∈ files) then Some (file_ranges b f) else range_cache b !! f).
Proof.
  revert b. induction files as [|g files IH]; intros b Hnd Hnone; simpl; [done|].
  apply NoDup_cons in Hnd as [Hg Hnd].
  destruct (IH (seed_file b g) Hnd) as (Hl & Hf & Hp & Hn & Hr); simpl in *.
  { intros f x Hin. simpl. rewrite replay_fold_other; [apply Hnone; by right|]. intros ->. done. }
  split; [done|]. split; [done|]. split; [done|]. split.
  - intros f x. rewrite Hn. unfold ids_of. simpl.
    destruct (decide (f ∈ files)) as [Hin|Hin].
    + rewrite decide_True by (by right). done.
    + destruct (decide (f = g)) as [->|Hne].
      * rewrite decide_True by left. unfold replayed. apply replay_fold_agree.
        intros y. rewrite lookup_empty. apply Hnone. left.
      * rewrite replay_fold_other by done. by rewrite decide_False by set_solver.
  - intros f. rewrite Hr. destruct (decide (f ∈ files)) as [Hin|Hin].
    + rewrite decide_True by (by right). done.
    + rewrite lookup_insert. case_decide as Hfg; [subst; by rewrite decide_True by left|].
      by rewrite decide_False by set_solver.
Qed.

Lemma seeded_spec prev :
  let b := seeded prev in
  layer b = prev ∧ b_file_to_nodes b = file_to_nodes prev ∧
  (∀ f x, name_to_id b !! (f, x) = replayed prev f (ids_of b f) !! (f, x)) ∧
  (∀ f, default [] (range_cache b !! f) = file_ranges b f) ∧
  (∀ f c, range_cache b !! f = Some c → c = file_ranges b f).
Proof.
  unfold seeded. set (b0 := mkBuilder prev ∅ (file_to_nodes prev) ∅ ∅).
  destruct (seed_files_spec b0 (btree_keys (file_to_nodes prev))) as (Hl & Hf & _ & Hn & Hr).
  { apply NoDup_btree_keys. }
  { done. }
  set (b := foldl seed_file b0 _) in *. cbv zeta.
  assert (∀ f, file_ranges b f = file_ranges b0 f) as Hfr.
  { intros f. unfold file_ranges. by rewrite Hl, Hf. }
  assert (∀ f, f ∉ btree_keys (file_to_nodes prev) → file_to_nodes prev !! f = None) as Hout.
  { intros f Hin. apply eq_None_not_Some. by rewrite <- elem_of_btree_keys. }
  split; [done|]. split; [done|]. split; [|split].
  - intros f x. rewrite Hn. unfold ids_of. rewrite Hf. case_decide as Hin; [done|].
    simpl. by rewrite (Hout f Hin).
  - intros f. rewrite Hr, Hfr. case_decide as Hin; [done|]. unfold file_ranges. simpl. by rewrite (Hout f Hin).
  - intros f c. rewrite Hr, Hfr. case_decide; [by intros [= <-]|done].
Qed.

Lemma seeded_inv (strict : Prop) prev :
  layer_wf prev → (strict → stubs_apart prev) → builder_inv strict (seeded prev).
Proof.
  intros [Hi Hli Hnd Hp] Hst. destruct (seeded_spec prev) as (Hl & Hf & Hn & _ & Hr).
  split; unfold ids_of in *; rewrite ?Hl, ?Hf in *; try done.
  - intros file name did. rewrite Hn. apply replayed_listed.
  - intros Hs. by apply Hst.
Qed.

(** ** Eviction *)

Lemma and_iff_compat_l_impl (P Q R : Prop) : (P → Q ↔ R) → P ∧ Q ↔ P ∧ R.
Proof. tauto. Qed.

Lemma remove_edges_spec l es :
  let l' := foldl (λ l e, (remove_edge l e).1) l es in
  nodes l' = nodes l ∧ file_to_nodes l' = file_to_nodes l ∧
  (∀ e, e ∈ edges l' ↔ e ∈ edges l ∧ e ∉ es) ∧ (index_ok l → index_ok l').
Proof.
  revert l. induction es as [|x es IH]; intros l; simpl; [set_solver|].
  destruct (IH (remove_edge l x).1) as (Hn & Hf & He & Hi). split; [done|]. split; [done|]. split.
  - intros e. rewrite He. simpl. set_solver.
  - intros H. by apply Hi, remove_edge_index.
Qed.

Lemma delete_all_lookup (m : gmap string NodeData) ids id :
  foldl (λ m id, delete id m) m ids !! id = if decide (id ∈ ids) then None else m !! id.
Proof.
  revert m. induction ids as [|x ids IH]; intros m; simpl; [done|].
  rewrite IH, lookup_delete. repeat case_decide; set_solver.
Qed.

Lemma evict_spec b file :
  let b' := evict_file b file in
  (∀ id, nodes (layer b') !! id = if decide (id ∈ ids_of b file) then None else nodes (layer b) !! id) ∧
  (∀ e, e ∈ edges (layer b') ↔ e ∈ edges (layer b) ∧ source e ∉ ids_of b file) ∧
  (index_ok (layer b) → index_ok (layer b')) ∧
  (∀ f, ids_of b' f = if decide (f = file) then [] else ids_of b f) ∧
  (∀ f, range_cache b' !! f = if decide (f = file) then None else range_cache b !! f) ∧
  (∀ f x, name_to_id b' !! (f, x) = if decide (f = file) then None else name_to_id b !! (f, x)).
Proof.
  simpl. unfold evict_file. fold (ids_of b file).
  set (out := filter _ (btree_edges _)).
  destruct (remove_edges_spec (layer b) out) as (Hn & _ & He & Hi). set (l := foldl _ (layer b) out) in *.
  simpl. split; [|split; [|split; [|split; [|split]]]].
  - intros id. by rewrite delete_all_lookup, Hn.
  - intros e. rewrite He. unfold out, btree_edges.
    rewrite list_elem_of_filter, elem_of_sort_by, elem_of_elements. naive_solver.
  - intros H. by apply Hi in H.
  - intros f. unfold ids_of. simpl. rewrite lookup_delete. by repeat case_decide.
  - intros f. rewrite lookup_delete. by repeat case_decide.
  - intros f x. destruct (decide (f = file)) as [->|Hne].
    + apply map_lookup_filter_None_2. right. intros y _ H. by apply H.
    + destruct (name_to_id b !! (f, x)) as [d|] eqn:E.
      * by apply map_lookup_filter_Some_2.
      * apply map_lookup_filter_None_2. by left.
Qed.

(** A listed id is a project node of that file. *)
Lemma listed_iff strict b file id :
  builder_inv strict b →
  id ∈ ids_of b file ↔ ∃ n, nodes (layer b) !! id = Some n ∧ n_file n = file ∧ n_external n = false.
Proof.
  intros Hb. split; [apply (bi_listed _ b Hb)|]. intros (n & Hn & <- & He).
  pose proof (bi_placed _ b Hb id n Hn) as H. by rewrite He in H.
Qed.

Lemma evict_inv strict b file : builder_inv strict b → builder_inv strict (evict_file b file).
Proof.
  intros Hb. destruct (evict_spec b file) as (Hn & _ & _ & Hids & Hr & Hnm).
  set (b' := evict_file b file) in *. clearbody b'. cbv zeta in *.
  assert (∀ f id, f ≠ file → id ∈ ids_of b f → id ∉ ids_of b file) as Hdisj.
  { intros f id Hne (n & Hid & Hf & _)%(listed_iff _ _ _ _ Hb) (m & Hid' & Hf' & _)%(listed_iff _ _ _ _ Hb).
    congruence. }
  split.
  - intros f id. rewrite Hids. case_decide as Hne; [set_solver|]. intros Hin.
    rewrite Hn, decide_False by eauto. by apply (bi_listed _ b Hb).
  - intros f. rewrite Hids. case_decide; [apply NoDup_nil_2|apply (bi_nodup _ b Hb)].
  - intros id n. rewrite Hn. case_decide as Hin; [done|]. intros Hid.
    pose proof (bi_placed _ b Hb id n Hid) as H. destruct (n_external n); [done|].
    rewrite Hids. case_decide; [congruence|done].
  - intros f x d. rewrite Hnm, Hids. case_decide; [done|]. apply (bi_names _ b Hb).
  - intros f c. rewrite Hr. case_decide as Hne; [done|]. intros Hc.
    rewrite (bi_ranges _ b Hb _ _ Hc). unfold file_ranges. fold (ids_of b f) (ids_of b' f).
    rewrite Hids, decide_False by done. f_equal. specialize (Hdisj f). revert Hdisj.
    generalize (ids_of b f). intros l Hl. induction l as [|id l IH]; csimpl; [done|].
    rewrite IH by (intros; apply Hl; [done|by right]).
    assert (cache_entry (layer b') id = cache_entry (layer b) id) as ->; [|done].
    unfold cache_entry. rewrite Hn, decide_False; [done|]. apply Hl; [done|left].
  - intros Hs id n. rewrite Hn. case_decide; [done|]. by apply (bi_stubs _ b Hb).
Qed.

Lemma evict_files_spec strict b fs :
  builder_inv strict b →
  let b' := foldl evict_file b fs in
  builder_inv strict b' ∧ (index_ok (layer b) → index_ok (layer b')) ∧
  (∀ id n, nodes (layer b') !! id = Some n ↔
     nodes (layer b) !! id = Some n ∧ (n_external n = true ∨ n_file n ∉ fs)) ∧
  (∀ e, e ∈ edges (layer b') ↔ e ∈ edges (layer b) ∧ ∀ f, f ∈ fs → source e ∉ ids_of b f) ∧
  (∀ f, f ∈ fs → range_cache b' !! f = None) ∧
  (∀ f, range_cache b !! f = None → range_cache b' !! f = None).
Proof.
  revert b. induction fs as [|g fs IH]; intros b Hb; simpl; [set_solver|].
  destruct (evict_spec b g) as (Hn & He & Hi & Hids & Hr & _).
  pose proof (evict_inv _ _ g Hb) as Hb1.
  destruct (IH (evict_file b g) Hb1) as (Hb' & Hi' & Hn' & He' & Hr' & Hr'').
  split; [done|]. split; [auto|]. split; [|split; [|split]].
  - intros id n. rewrite Hn', Hn. destruct (decide (id ∈ ids_of b g)) as [Hin|Hin].
    + split; [by intros [? _]|]. intros [Hid Hor].
      apply (listed_iff _ _ _ _ Hb) in Hin as (m & Hm & Hf & Hx). simplify_eq.
      destruct Hor as [|Hnin]; [congruence|]. destruct Hnin. by left.
    + apply and_iff_compat_l_impl. intros Hid. pose proof (bi_placed _ b Hb id n Hid) as H.
      destruct (n_external n); [by split; left|]. rewrite not_elem_of_cons.
      assert (n_file n ≠ g) by congruence. naive_solver.
  - intros e. rewrite He', He. setoid_rewrite Hids. split.
    + intros [[Hin Hg] Hfs]. split; [done|]. intros f [->|Hf]%elem_of_cons; [done|].
      specialize (Hfs f Hf). case_decide; [by subst|done].
    + intros [Hin Hfs]. split; [split; [done|apply Hfs; left]|].
      intros f Hf. case_decide; [apply not_elem_of_nil|]. apply Hfs. by right.
  - intros f [->|Hf]%elem_of_cons; [|by apply Hr']. apply Hr''. by rewrite Hr, decide_True.
  - intros f Hf. apply Hr''. rewrite Hr. by case_decide.
Qed.

(** ** The scoped rebuild *)

Lemma gc_spec b :
  let b' := gc_external_stubs b in
  edges (layer b') = edges (layer b) ∧
  ∀ id n, nodes (layer b') !! id = Some n ↔
    nodes (layer b) !! id = Some n ∧ (n_external n = true → ∃ e, e ∈ edges (layer b) ∧ target e = id).
Proof.
  simpl. split; [done|]. intros id n. rewrite map_lookup_filter_Some. apply and_iff_compat_l_impl. intros _.
  set (R := set_map target (edges (layer b)) : gset string).
  assert (id ∈ R ↔ ∃ e, e ∈ edges (layer b) ∧ target e = id) as <-.
  { unfold R. rewrite elem_of_map. naive_solver. }
  unfold population. simpl. destruct (n_external n).
  - destruct (decide (id ∈ R)); naive_solver.
  - split; [done|]. intros _ [H _]. by destruct (is_module_id id).
Qed.

Lemma gc_inv strict b : builder_inv strict b → builder_inv strict (gc_external_stubs b).
Proof.
  intros Hb. destruct (gc_spec b) as [_ Hn]. cbv zeta in Hn.
  assert (∀ f id, id ∈ ids_of b f → nodes (layer (gc_external_stubs b)) !! id = nodes (layer b) !! id) as Hsame.
  { intros f id (n & Hid & _ & He)%(listed_iff _ _ _ _ Hb). rewrite Hid. apply Hn. split; [done|congruence]. }
  set (b' := gc_external_stubs b) in *.
  assert (b_file_to_nodes b' = b_file_to_nodes b ∧ name_to_id b' = name_to_id b ∧
          range_cache b' = range_cache b) as (Hf & Hnm & Hr) by done.
  clearbody b'. split; unfold ids_of; rewrite ?Hf, ?Hnm, ?Hr.
  - intros f id Hin. rewrite (Hsame f id Hin). by apply (bi_listed _ b Hb).
  - apply (bi_nodup _ b Hb).
  - intros id n [Hid _]%Hn. by apply (bi_placed _ b Hb).
  - apply (bi_names _ b Hb).
  - intros f c Hc. rewrite (bi_ranges _ b Hb _ _ Hc). unfold file_ranges. rewrite Hf. f_equal.
    specialize (Hsame f). unfold ids_of in Hsame. revert Hsame. generalize (default [] (b_file_to_nodes b !! f)).
    intros l Hl. induction l as [|id l IH]; csimpl; [done|].
    rewrite IH by (intros; apply Hl; by right). unfold cache_entry. by rewrite Hl by left.
  - intros Hs id n [Hid _]%Hn. by apply (bi_stubs _ b Hb Hs).
Qed.

Section scoped.
Context (root : string) (pv : ProjectView) (prev : CodeLayer) (seed : gset string).
Let dirty := dirty_scope prev seed.

Lemma elem_of_dirty_scope f :
  f ∈ dirty ↔ f ∈ seed ∨ ∃ e g n, e ∈ edges prev ∧ ekind e = Imports ∧ g ∈ seed ∧
    target e = make_module_durable_id g ∧ nodes prev !! source e = Some n ∧
    n_file n = f ∧ f ≠ "" ∧ f ≠ EXTERNAL_FILE.
Proof.
  unfold dirty, dirty_scope. rewrite elem_of_union, elem_of_list_to_set. unfold importers.
  rewrite list_elem_of_omap. unfold btree_edges. split; (intros [H|H]; [by left|right]).
  - destruct H as (e & He & Hsome). rewrite elem_of_sort_by, elem_of_elements in He.
    do 2 (case_bool_decide; [|done]). destruct (nodes prev !! source e) as [n|] eqn:En; [|done].
    simpl in Hsome. do 2 (case_bool_decide; [|done]). simplify_eq/=.
    match goal with Ht : target e ∈ _ |- _ => apply elem_of_map in Ht as (g & Hg & Hs) end.
    by exists e, g, n.
  - destruct H as (e & g & n & He & Hk & Hg & Ht & Hn & <- & H1 & H2). exists e.
    rewrite elem_of_sort_by, elem_of_elements. split; [done|].
    rewrite !bool_decide_eq_true_2, Hn; [by rewrite !bool_decide_eq_true_2|apply elem_of_map; eauto|done].
Qed.

(** The files of the scope that still exist. *)
Definition rederived : list FileSymbols :=
  collect_symbols pv
    (omap (λ f, (λ native, (f, native)) <$> (list_to_map (reverse (listed_files root pv)) : gmap string string) !! f)
       (btree_elements dirty)).

Lemma rederived_listed f : f ∈ rederived →
  fs_graph_path f ∈ dirty ∧ (fs_graph_path f, fs_native_path f) ∈ listed_files root pv ∧
  pv_document_symbols pv (fs_native_path f) = Some (fs_symbols f).
Proof.
  unfold rederived, collect_symbols. rewrite list_elem_of_omap. intros ([g native] & Hin & Hf).
  apply list_elem_of_omap in Hin as (g' & Hg%elem_of_btree_elements & Hl). simpl in *.
  destruct (list_to_map _ !! g') as [nat|] eqn:E; simplify_eq/=.
  destruct (pv_document_symbols pv native) eqn:Es; simplify_eq/=. split; [done|].
  apply elem_of_list_to_map_2, elem_of_reverse in E. rewrite reverse_involutive in E. split; [exact E|exact Es].
Qed.

Lemma build_scoped_spec (strict : Prop) :
  layer_wf prev → (strict → stubs_apart prev ∧ view_plain root pv) →
  ∃ b0 b (F : gset string), F ⊆ dirty ∧
    build_scoped root pv seed (seeded prev) = sync_file_to_nodes (gc_external_stubs b) ∧
    (∀ id n, nodes (layer b0) !! id = Some n ↔
       nodes prev !! id = Some n ∧ (n_external n = true ∨ n_file n ∉ dirty)) ∧
    (∀ e, e ∈ edges (layer b0) ↔ e ∈ edges prev ∧
       ∀ f, f ∈ dirty → source e ∉ default [] (file_to_nodes prev !! f)) ∧
    rtc (bstep F (plain_symbol strict) strict) b0 b ∧
    builder_inv strict b ∧ index_ok (layer b) ∧ ∀ f, f ∈ rederived → present b f.
Proof.
  intros Hwf Hs. pose proof (seeded_inv strict prev Hwf (λ H, proj1 (Hs H))) as Hb.
  destruct (seeded_spec prev) as (Hl & Hf & _ & _ & _).
  set (bs := set_project_files (list_to_set (listed_files root pv).*1) (seeded prev)).
  assert (builder_inv strict bs) as Hbs by by destruct Hb.
  destruct (evict_files_spec strict bs (elements dirty) Hbs) as (Hb0 & Hi0 & Hn0 & He0 & Hr0 & _).
  set (b0 := foldl evict_file bs (elements dirty)) in *.
  set (F := list_to_set (fs_graph_path <$> rederived) : gset string).
  assert (∀ f, f ∈ F → ∃ x, x ∈ rederived ∧ f = fs_graph_path x) as HF.
  { intros f (x & -> & Hx)%elem_of_list_to_set%list_elem_of_fmap. eauto. }
  assert (files_in F (plain_symbol strict) rederived) as Hin.
  { intros f Hfin. split; [apply elem_of_list_to_set, list_elem_of_fmap; eauto|].
    apply rederived_listed in Hfin as (_ & Hli & Hsy).
    intros s Hsin Hstr did Hdid. by eapply (proj2 (Hs Hstr) _ _ Hli). }
  assert (strict → ∀ f, f ∈ F → stub_id (make_module_durable_id f) = false) as HFp.
  { intros Hstr f (x & (_ & Hli & _)%rederived_listed & ->)%HF. by apply (proj2 (Hs Hstr) _ _ Hli). }
  assert (∀ f, f ∈ F → range_cache b0 !! f = None) as Hc.
  { intros f (x & (Hd & _)%rederived_listed & ->)%HF. by apply Hr0, elem_of_elements. }
  pose proof (materialize_all_steps F _ strict rederived b0 Hin Hc) as Hst1.
  pose proof (steps_inv _ _ _ HFp (λ s x d, plain_symbol_elim _ x d s) _ _ Hst1 Hb0) as Hb1.
  pose proof (link_files_steps F _ strict HFp (λ s x d, plain_symbol_elim _ x d s) root pv rederived _ Hin Hb1) as Hst2.
  pose proof (steps_inv _ _ _ HFp (λ s x d, plain_symbol_elim _ x d s) _ _ Hst2 Hb1) as Hb2.
  exists b0, (relate_files root pv rederived (contain_files rederived (materialize_files rederived b0))), F.
  split; [intros f (x & (? & _)%rederived_listed & ->)%HF; done|].
  split.
  { unfold build_scoped. fold bs. change (layer bs) with (layer (seeded prev)). rewrite Hl. reflexivity. }
  split; [intros id n; rewrite Hn0, elem_of_elements; simpl; by rewrite Hl|].
  split; [intros e; rewrite He0; unfold ids_of; simpl; rewrite Hl, Hf; by setoid_rewrite elem_of_elements|].
  split; [by etrans|]. split; [done|]. split.
  - eapply steps_index; [exact Hst2|]. eapply steps_index; [exact Hst1|]. apply Hi0. simpl. rewrite Hl. apply Hwf.
  - intros f Hfin. eapply present_mono; [|by apply materialize_files_present]. apply (steps_nodes _ _ _ _ _ Hst2).
Qed.

Lemma scoped_wf : layer_wf prev → layer_wf (layer (build_scoped root pv seed (seeded prev))).
Proof.
  intros Hwf. destruct (build_scoped_spec False Hwf) as (b0 & b & F & _ & -> & _ & _ & _ & Hb & Hi & _); [done|].
  eapply synced_wf; [by apply gc_inv|done].
Qed.

(** A scoped rebuild of a well-formed layer returns a well-formed layer, and
    re-derives the dirty scope only: the nodes of the other files and the edges
    that start at them are carried over unchanged, and every new node is a stub
    or belongs to a file of the scope. *)
Theorem scoped_layer_ok rev :
  layer_wf prev →
  let l := (produce_code_delta_scoped root pv prev seed rev).1 in
  layer_wf l ∧
  (∀ id n, nodes prev !! id = Some n → n_external n = false → n_file n ∉ dirty → nodes l !! id = Some n) ∧
  (∀ e n, e ∈ edges prev → nodes prev !! source e = Some n → n_external n = true ∨ n_file n ∉ dirty →
     e ∈ edges l) ∧
  (∀ id n, nodes l !! id = Some n → nodes prev !! id = Some n ∨ n_external n = true ∨ n_file n ∈ dirty).
Proof.
  intros Hwf. destruct (build_scoped_spec False Hwf) as (b0 & b & F & HF & Heq & Hn0 & He0 & Hst & Hb & Hi & _);
    [done|].
  cbv zeta. unfold produce_code_delta_scoped. cbn [fst]. rewrite Heq. destruct (gc_spec b) as [Hge Hgn]. cbv zeta in *.
  destruct (steps_nodes _ _ _ _ _ Hst) as [Hsub Hnew]. destruct (steps_edges _ _ _ _ _ Hst) as [Hesub _].
  split; [rewrite <- Heq; by apply scoped_wf|]. split; [|split].
  - intros id n Hid Hx Hf. apply Hgn. split; [|congruence]. eapply lookup_weaken; [|done]. apply Hn0. auto.
  - intros e n He Hs Hor. simpl. apply Hesub, He0. split; [done|]. intros f Hf Hin.
    destruct (lw_listed _ Hwf _ _ Hin) as (m & Hm & <- & Hx). destruct Hor; congruence.
  - intros id n [Hid _]%Hgn. destruct (Hnew id n Hid) as [[H _]%Hn0|H]; [by left|right].
    destruct (n_external n); [by left|]. right. set_solver.
Qed.

(** What the design of the scoped rebuild relies on: an edge into another
    project file comes with an import of that file's module... *)
Definition imports_cover : Prop :=
  ∀ e ns nt, e ∈ edges prev → nodes prev !! source e = Some ns → nodes prev !! target e = Some nt →
    n_external nt = false → n_file ns = n_file nt ∨
    ∃ i m, i ∈ edges prev ∧ ekind i = Imports ∧ target i = make_module_durable_id (n_file nt) ∧
      nodes prev !! source i = Some m ∧ n_file m = n_file ns.

(** ... and the importers of a dirty file, which are not dirty themselves,
    answer with the ids they had. *)
Definition importers_stable : Prop :=
  ∀ f id, f ∈ dirty → f ∉ seed → id ∈ default [] (file_to_nodes prev !! f) →
    ∃ x, x ∈ rederived ∧
      (id = make_module_durable_id (fs_graph_path x) ∨ ∃ s, s ∈ fs_symbols x ∧ s_durable_id s = Some id).

(** Project files have a name that is not the one of the stubs. *)
Definition files_named (l : CodeLayer) : Prop :=
  ∀ id n, nodes l !! id = Some n → n_external n = false → n_file n ≠ "" ∧ n_file n ≠ EXTERNAL_FILE.

(** The target of an edge that survived the eviction is a node of the rebuilt layer. *)
Lemma scoped_target_kept e :
  layer_wf prev → closed prev → stubs_apart prev → files_named prev → imports_cover → importers_stable →
  e ∈ edges prev → (∀ f, f ∈ dirty → source e ∉ default [] (file_to_nodes prev !! f)) →
  ∃ nt, nodes prev !! target e = Some nt ∧
    (n_external nt = true ∨ n_file nt ∉ dirty ∨
     ∃ x, x ∈ rederived ∧
      (target e = make_module_durable_id (fs_graph_path x) ∨ ∃ s, s ∈ fs_symbols x ∧ s_durable_id s = Some (target e))).
Proof.
  intros Hwf Hcl [Hst Hsrc] Hnamed Hcov Hstable He Hout.
  destruct (Hcl e He) as [[ns Hns] [nt Hnt]]. exists nt. split; [done|].
  destruct (n_external nt) eqn:Ext; [by left|right].
  destruct (decide (n_file nt ∈ dirty)) as [Hd|]; [right|by left].
  assert (n_external ns = false) as Exs by (rewrite (Hst _ _ Hns); by apply Hsrc).
  pose proof (lw_placed _ Hwf _ _ Hns) as Hps. rewrite Exs in Hps.
  pose proof (lw_placed _ Hwf _ _ Hnt) as Hpt. rewrite Ext in Hpt.
  assert (n_file ns ∉ dirty) as Hnd by (intros H; by apply (Hout _ H)).
  apply (Hstable (n_file nt)); [done| |done]. intros Hseed.
  destruct (Hcov e ns nt He Hns Hnt Ext) as [Heq|(i & m & Hi & Hk & Ht & Hm & Hmf)]; [congruence|].
  apply Hnd, elem_of_dirty_scope. right. destruct (Hnamed _ _ Hns Exs).
  exists i, (n_file nt), m. by rewrite Hmf.
Qed.

(** C22: a scoped rebuild keeps the layer closed, with its stubs apart, when
    every edge between two project files is covered by an import of the target's
    module and the importers of the changed files keep their symbols: no edge is
    left pointing at a node that is gone. *)
Theorem scoped_layer_closed rev :
  layer_wf prev → closed prev → stubs_apart prev → files_named prev → view_plain root pv →
  imports_cover → importers_stable →
  let l := (produce_code_delta_scoped root pv prev seed rev).1 in closed l ∧ stubs_apart l.
Proof.
  intros Hwf Hcl Hsa Hnamed Hv Hcov Hstable.
  destruct (build_scoped_spec True Hwf) as (b0 & b & F & HF & Heq & Hn0 & He0 & Hst & Hb & Hi & Hpres); [done|].
  cbv zeta. unfold produce_code_delta_scoped. cbn [fst]. rewrite Heq. destruct (gc_spec b) as [Hge Hgn]. cbv zeta in *.
  destruct (steps_nodes _ _ _ _ _ Hst) as [Hsub Hnew]. destruct (steps_edges _ _ _ _ _ Hst) as [Hesub Henew].
  assert (∀ e, e ∈ edges (layer b) → stub_id (source e) = false) as Hsrc.
  { intros e [[He _]%He0|(_ & _ & H)]%Henew; [by apply Hsa|auto]. }
  assert (∀ e, e ∈ edges (layer b) → is_Some (nodes (layer b) !! source e) ∧ is_Some (nodes (layer b) !! target e)) as Hclb.
  { intros e [He|(? & ? & _)]%Henew; [|done]. apply He0 in He as [He Hout]. split.
    - destruct (Hcl e He) as [[n Hn] _]. exists n. eapply lookup_weaken; [|done]. apply Hn0. split; [done|]. right.
      intros Hd. apply (Hout _ Hd). pose proof (lw_placed _ Hwf _ _ Hn) as H.
      assert (n_external n = false) as Ex by (rewrite (proj1 Hsa _ _ Hn); by apply Hsa). by rewrite Ex in H.
    - destruct (scoped_target_kept e) as (nt & Hnt & H); [done..|].
      destruct H as [H|[H|(x & Hx & H)]].
      + exists nt. eapply lookup_weaken; [|done]. apply Hn0. auto.
      + exists nt. eapply lookup_weaken; [|done]. apply Hn0. auto.
      + destruct (Hpres x Hx) as [Hm Hs]. destruct H as [->|(s & Hin & Hd)]; [done|by eapply Hs]. }
  split.
  - intros e He. simpl in He. destruct (Hclb e He) as [[ns Hns] [nt Hnt]]. simpl. split.
    + exists ns. apply Hgn. split; [done|]. rewrite (bi_stubs _ b Hb I _ _ Hns), (Hsrc e He). done.
    + exists nt. apply Hgn. split; [done|]. intros _. by exists e.
  - split; [intros id n [Hid _]%Hgn; by apply (bi_stubs _ b Hb I)|exact Hsrc].
Qed.
End scoped.
