(* ===== verification/CodeLookup.v ===== *)
(** * The producer's lookups

    The name and range indexes of the builder against the listing of the nodes,
    their reconstruction from a stored layer, and the walk over ancestors. *)

From Stdlib Require Import NArith Ascii.
From S2P Require Import Prelude Str CodeLayer CodeBuilder CodeBuilderFacts CodeProducer.

(** ** The name index is a function of the listing *)

Definition names_ok (b : Builder) : Prop :=
  ∀ f, agree_on f (name_to_id b) (replayed (layer b) f (ids_of b f)).

Lemma replayed_ext l l' f ids :
  (∀ id, id ∈ ids → nodes l' !! id = nodes l !! id) → replayed l' f ids = replayed l f ids.
Proof.
  unfold replayed. generalize (∅ : gmap (string * string) string).
  induction ids as [|id ids IH]; intros m H; simpl; [done|].
  rewrite IH by (intros; apply H; by right). 
  assert (replay_name l' f m id = replay_name l f m id) as ->; [|done].
  unfold replay_name. by rewrite H by left.
Qed.

(** A symbol is never taken for a module. *)
Definition named_symbol (s : SymbolDto) : Prop := symbol_qn s ≠ MODULE_QUALIFIED_NAME.

Lemma names_ok_push b b' did n :
  (∀ f id, id ∈ ids_of b f → is_Some (nodes (layer b) !! id)) → names_ok b →
  nodes (layer b) !! did = None → nodes (layer b') = <[ did := n ]> (nodes (layer b)) →
  b_file_to_nodes b' = push_node (b_file_to_nodes b) (n_file n) did →
  (∀ f, agree_on f (name_to_id b') (replay_name (layer b') (n_file n) (name_to_id b) did)) →
  names_ok b'.
Proof.
  intros Hl Hb Hnew Hn Hf Hnm f x. rewrite Hnm.
  assert (ids_of b' f = ids_of b f ++ if decide (f = n_file n) then [did] else []) as ->.
  { unfold ids_of. rewrite Hf. apply ids_of_push. }
  assert (replayed (layer b') f (ids_of b f) = replayed (layer b) f (ids_of b f)) as Hr.
  { apply replayed_ext. intros id Hin. rewrite Hn, lookup_insert_ne; [done|].
    intros ->. destruct (Hl f id Hin). congruence. }
  case_decide as Heq.
  - subst f. unfold replayed. rewrite foldl_snoc. fold (replayed (layer b') (n_file n) (ids_of b (n_file n))).
    apply replay_name_agree. intros y. rewrite Hr. apply Hb.
  - rewrite app_nil_r, Hr, replay_name_other by done. apply Hb.
Qed.

Lemma bstep_names F b b' :
  builder_inv False b → names_ok b → bstep F named_symbol False b b' → names_ok b'.
Proof.
  intros Hb Hok H.
  assert (∀ f id, id ∈ ids_of b f → is_Some (nodes (layer b) !! id)) as Hl.
  { intros f id (n & Hn & _)%(bi_listed _ b Hb). by exists n. }
  assert (∀ did n, nodes (layer b) !! did = None →
    names_ok (set_layer (upsert_node (layer b) did n) b)) as Hstub.
  { intros did n Hn f x. rewrite Hok. unfold ids_of. simpl. f_equal. symmetry. apply replayed_ext. simpl.
    intros id Hin. rewrite lookup_insert_ne; [done|]. intros ->. destruct (Hl f id Hin). congruence. }
  destruct H as [file HF Hn Hc|file s did HF Hs Hd Hn Hc|did n Hn He Hf Hst|e Hsrc Htgt Hst|file HF].
  - rewrite materialize_module_new by done.
    eapply (names_ok_push b _ _ (module_node file)); [done..|].
    intros f x. simpl. unfold replay_name. simpl. by rewrite lookup_insert_eq.
  - rewrite (materialize_symbol_new _ _ did) by done.
    eapply (names_ok_push b _ did (symbol_node file s)); [done..|].
    intros f x. simpl. unfold replay_name. simpl. rewrite lookup_insert_eq. simpl.
    by rewrite bool_decide_eq_false_2.
  - by apply Hstub.
  - exact Hok.
  - exact Hok.
Qed.

(** ** The builder after a full build *)

Lemma bstep_cache_mono F ok strict b b' f :
  bstep F ok strict b b' → is_Some (range_cache b !! f) → is_Some (range_cache b' !! f).
Proof.
  intros H Hs. destruct H as [file HF Hn Hc|file s did HF Hok Hd Hn Hc| | |file HF]; simpl.
  - by rewrite materialize_module_new.
  - by rewrite (materialize_symbol_new _ _ did).
  - done.
  - done.
  - rewrite lookup_insert. by case_decide.
Qed.

Lemma steps_cache_mono F ok strict b b' f :
  rtc (bstep F ok strict) b b' → is_Some (range_cache b !! f) → is_Some (range_cache b' !! f).
Proof.
  apply (rtc_inv _ (λ b, is_Some (range_cache b !! f))). intros s s' Hs H. by eapply bstep_cache_mono.
Qed.

Lemma bstep_listing F ok strict b b' :
  bstep F ok strict b b' → (∀ f, ids_of b f ≠ [] → f ∈ F) → ∀ f, ids_of b' f ≠ [] → f ∈ F.
Proof.
  intros H Hl f. unfold ids_of in *.
  destruct H as [file HF Hn Hc|file s did HF Hok Hd Hn Hc| | |file HF]; simpl; try apply Hl.
  - rewrite materialize_module_new by done. simpl. rewrite ids_of_push.
    case_decide; [by subst|]. rewrite app_nil_r. apply Hl.
  - rewrite (materialize_symbol_new _ _ did) by done. simpl. rewrite ids_of_push.
    case_decide; [by subst|]. rewrite app_nil_r. apply Hl.
Qed.

Section built.
Context (root : string) (pv : ProjectView).

(** The symbols of project files have names of their own. *)
Definition view_named : Prop :=
  ∀ g native symbols s, (g, native) ∈ listed_files root pv → pv_document_symbols pv native = Some symbols →
    s ∈ symbols → named_symbol s.

Lemma contain_files_cached F ok files b f :
  files_in F ok files → f ∈ files → builder_inv False b →
  is_Some (range_cache (contain_files files b) !! fs_graph_path f).
Proof.
  unfold contain_files. revert b. induction files as [|g files IH]; intros b Hin Hf Hb; simpl; [set_solver|].
  set (b1 := build_range_cache _ _).
  assert (files_in F ok files) as Hin' by (intros x Hx; apply Hin; by right).
  assert (rtc (bstep F ok False) b b1) as Hst.
  { apply (contain_files_steps F ok False (False_ind _) (λ H, False_ind _ H) [g] b); [|done].
    intros x ->%list_elem_of_singleton. apply Hin. left. }
  assert (builder_inv False b1) as Hb1.
  { eapply steps_inv; [| |exact Hst|done]; intros []. }
  apply elem_of_cons in Hf as [->|Hf]; [|by apply IH].
  eapply (steps_cache_mono F ok False b1).
  - apply (contain_files_steps F ok False (False_ind _) (λ H, False_ind _ H) files b1); done.
  - unfold b1. simpl. by rewrite lookup_insert_eq.
Qed.

Lemma build_indexes :
  view_named →
  let b := build root pv in
  builder_inv False b ∧ names_ok b ∧ ∀ f, default [] (range_cache b !! f) = file_ranges b f.
Proof.
  intros Hv. simpl. unfold build. set (files := collect_symbols _ _). set (S := list_to_set _).
  set (b0 := set_project_files S Builder_new).
  set (F := list_to_set (fs_graph_path <$> files) : gset string).
  assert (files_in F named_symbol files) as Hin.
  { intros f Hf. split; [apply elem_of_list_to_set, list_elem_of_fmap; eauto|].
    unfold files, collect_symbols in Hf. apply list_elem_of_omap in Hf as ([g n] & Hg & Hf). simpl in Hf.
    destruct (pv_document_symbols pv n) eqn:E; simplify_eq/=. intros s. by eapply Hv. }
  assert (∀ b b', rtc (bstep F named_symbol False) b b' → builder_inv False b → builder_inv False b') as Hpres.
  { intros b b' Hst. eapply steps_inv; [| |exact Hst]; intros []. }
  set (b1 := materialize_files files b0).
  assert (rtc (bstep F named_symbol False) b0 b1) as H1 by (by apply materialize_all_steps).
  assert (builder_inv False b1) as Hb1 by (eapply Hpres, empty_inv; exact H1).
  set (b2 := contain_files files b1).
  assert (rtc (bstep F named_symbol False) b1 b2) as H2.
  { apply contain_files_steps; [intros []..|done|done]. }
  assert (builder_inv False b2) as Hb2 by (by eapply Hpres).
  set (b3 := relate_files root pv files b2).
  assert (rtc (bstep F named_symbol False) b2 b3) as H3.
  { apply relate_files_steps; [intros []..|done|done]. }
  assert (builder_inv False b3) as Hb3 by (by eapply Hpres).
  assert (rtc (bstep F named_symbol False) b0 b3) as Hst by (etrans; [exact H1|by etrans]).
  assert (builder_inv False b3 ∧ names_ok b3 ∧ ∀ f, ids_of b3 f ≠ [] → f ∈ F) as (_ & Hn3 & Hl3).
  { apply (rtc_inv _ (λ b, builder_inv False b ∧ names_ok b ∧ ∀ f, ids_of b f ≠ [] → f ∈ F) _ _) with (2:=Hst).
    - intros b b' (Hb & Hn & Hl) H. split; [eapply Hpres; [by apply rtc_once|done]|].
      split; [by eapply bstep_names|by eapply bstep_listing].
    - split; [apply empty_inv|]. by split; [intros f x|]. }
  change (run_build_passes root pv files b0) with b3.
  split; [by destruct Hb3|]. split; [exact Hn3|]. intros f.
  change (default [] (range_cache b3 !! f) = file_ranges b3 f).
  destruct (range_cache b3 !! f) as [c|] eqn:Ec; simpl; [by apply (bi_ranges _ b3 Hb3)|].
  destruct (ids_of b3 f) as [|i ids] eqn:Ei.
  - unfold file_ranges. fold (ids_of b3 f). by rewrite Ei.
  - exfalso. assert (f ∈ F) as HF by (apply Hl3; by rewrite Ei).
    apply elem_of_list_to_set, list_elem_of_fmap in HF as (x & -> & Hx).
    assert (is_Some (range_cache b3 !! fs_graph_path x)) as [c Hc]; [|congruence].
    eapply steps_cache_mono; [exact H3|]. by eapply contain_files_cached.
Qed.

(** C24: a builder seeded from the layer of a full build is the builder that
    produced it, as far as the producer can tell: the same nodes and listing, and every
    name and every range resolves to the same node. *)
Theorem seeded_agrees :
  view_named →
  let b := build root pv in
  let b' := seeded (layer b) in
  layer b' = layer b ∧ b_file_to_nodes b' = b_file_to_nodes b ∧
  ∀ file, (∀ name, find_symbol_in_file b' file name = find_symbol_in_file b file name) ∧
          (∀ r, find_enclosing_symbol b' file r = find_enclosing_symbol b file r).
Proof.
  intros Hv b b'. destruct (build_indexes Hv) as (Hb & Hn & Hr). fold b in Hb, Hn, Hr.
  destruct (seeded_spec (layer b)) as (Hl & Hf & Hn' & Hr' & _). fold b' in Hl, Hf, Hn', Hr'.
  change (file_to_nodes (layer b)) with (b_file_to_nodes b) in Hf.
  split; [done|]. split; [done|]. intros file. split.
  - intros name. unfold find_symbol_in_file. rewrite Hn', Hl, Hf, (Hn file name). unfold ids_of. by rewrite Hf.
  - intros r. unfold find_enclosing_symbol. rewrite Hr', Hr, Hl. unfold file_ranges. by rewrite Hl, Hf.
Qed.
End built.

(** ** Resolving a name *)

Lemma register_cached (m : gmap (string * string) string) file name did x c :
  register_name m file name did !! (file, x) = Some c → c ≠ "" →
  m !! (file, x) = Some c ∨ x = name ∧ c = did.
Proof. intros H Hc. apply register_name_lookup in H. naive_solver. Qed.

(** A cached id is a listed node of that name. *)
Lemma replayed_named l file ids x c :
  replayed l file ids !! (file, x) = Some c → c ≠ "" → c ∈ ids ∧ node_named l x c.
Proof.
  unfold replayed. induction ids as [|id ids IH] using rev_ind; simpl; [done|].
  rewrite foldl_snoc. set (m := foldl _ _ _) in *. intros Hx Hc.
  assert (m !! (file, x) = Some c ∨ c = id ∧ node_named l x c) as [H|[-> H]].
  { unfold replay_name in Hx. destruct (nodes l !! id) as [n|] eqn:En; [|by left].
    assert (∀ y, (n_name n = y ∨ n_qualified_name n = y) → node_named l y id) as Hnamed.
    { intros y Hy. unfold node_named. rewrite En. apply orb_True. by rewrite !bool_decide_spec. }
    case_bool_decide.
    - apply lookup_insert_Some in Hx as [[[= <-] <-]|[_ ?]]; [right|by left]. split; [done|]. auto.
    - apply register_cached in Hx as [Hx|[-> ->]]; [|right; auto|done].
      apply register_cached in Hx as [Hx|[-> ->]]; [by left|right; auto|done]. }
  - destruct (IH H Hc). set_solver.
  - split; [set_solver|done].
Qed.

(** Resolving a name in a file never returns a node of another file or of
    another name, and fails only when no node of the file has that name. *)
Theorem find_symbol_correct root pv file name :
  view_named root pv →
  let b := build root pv in
  let ids := default [] (file_to_nodes (layer b) !! file) in
  match find_symbol_in_file b file name with
  | Some did => did ∈ ids ∧ node_named (layer b) name did
  | None => ∀ did, did ∈ ids → node_named (layer b) name did = false
  end.
Proof.
  intros Hv b ids. destruct (build_indexes root pv Hv) as (Hb & Hn & _). fold b in Hb, Hn.
  change ids with (ids_of b file). clearbody ids.
  assert (match snd <$> list_find (λ x, node_named (layer b) name x) (ids_of b file) with
          | Some did => did ∈ ids_of b file ∧ node_named (layer b) name did
          | None => ∀ did, did ∈ ids_of b file → node_named (layer b) name did = false end) as Hscan.
  { destruct (list_find _ _) as [[i x]|] eqn:E; simpl.
    - apply list_find_Some in E as (Hi & Hx & _). split; [by eapply list_elem_of_lookup_2|done].
    - apply list_find_None in E. rewrite Forall_forall in E. intros did Hin%E. by destruct (node_named _ _ _). }
  unfold find_symbol_in_file. fold (ids_of b file).
  destruct (name_to_id b !! (file, name)) as [c|] eqn:E; [|exact Hscan].
  case_bool_decide as Hc; [exact Hscan|]. rewrite (Hn file name) in E. by eapply replayed_named.
Qed.

(** ** Enclosing symbols *)

Lemma pair_le_trans a b c : pair_le a b → pair_le b c → pair_le a c.
Proof.
  unfold pair_le. rewrite !orb_True, !andb_True, !Is_true_true, !N.ltb_lt, !N.eqb_eq, !N.leb_le. lia.
Qed.

Lemma pair_le_total a b : pair_le a b ∨ pair_le b a.
Proof.
  unfold pair_le. rewrite !orb_True, !andb_True, !Is_true_true, !N.ltb_lt, !N.eqb_eq, !N.leb_le. lia.
Qed.

(** The first match in a sorted list is the least match. *)
Lemma list_find_least {A} (le : A → A → bool) (P : A → bool) l i x y :
  StronglySorted (λ a b, le a b) l → (∀ a, le a a) →
  list_find P l = Some (i, x) → y ∈ l → P y → le x y.
Proof.
  intros Hs Hrefl Hf Hy HP. apply list_find_Some in Hf as (Hi & _ & Hbefore).
  apply list_elem_of_lookup in Hy as [j Hj]. destruct (decide (j < i)) as [Hlt|Hge].
  { by destruct (Hbefore j y Hj Hlt). }
  destruct (decide (i = j)) as [<-|]; [simplify_eq; apply Hrefl|].
  eapply (StronglySorted_app_1_elem_of (λ a b, le a b) (take j l) (drop j l)).
  - by rewrite take_drop.
  - eapply list_elem_of_lookup_2. rewrite lookup_take_lt; [done|lia].
  - eapply (list_elem_of_lookup_2 _ 0). rewrite lookup_drop. by rewrite Nat.add_0_r.
Qed.

(** The symbol an occurrence is attributed to is the smallest symbol of the
    file whose range contains it, by line span and end column; when none does
    it is the file's module, if the file has one. *)
Theorem find_enclosing_smallest root pv file r :
  view_named root pv →
  let b := build root pv in
  let l := layer b in
  let candidate did n := did ∈ default [] (file_to_nodes l !! file) ∧ nodes l !! did = Some n ∧
    n_kind n ≠ "module" ∧ encloses r (n_range n, did) in
  match find_enclosing_symbol b file r with
  | Some did =>
      (∃ n, candidate did n ∧
         ∀ did' n', candidate did' n' → pair_le (range_size (n_range n)) (range_size (n_range n'))) ∨
      did = make_module_durable_id file ∧ is_Some (nodes l !! did) ∧ ∀ did' n', ¬ candidate did' n'
  | None => nodes l !! make_module_durable_id file = None ∧ ∀ did' n', ¬ candidate did' n'
  end.
Proof.
  intros Hv b l candidate. destruct (build_indexes root pv Hv) as (Hb & _ & Hr). fold b in Hb, Hr.
  unfold find_enclosing_symbol. rewrite Hr.
  assert (∀ did n, candidate did n ↔ (n_range n, did) ∈ file_ranges b file ∧ nodes l !! did = Some n ∧
            encloses r (n_range n, did)) as Hcand.
  { intros did n. unfold candidate. rewrite elem_of_file_ranges. fold l. change (ids_of b file) with
      (default [] (file_to_nodes l !! file)). naive_solver. }
  destruct (list_find _ (file_ranges b file)) as [[i [q did]]|] eqn:E; simpl.
  - left. pose proof E as (Hi%list_elem_of_lookup_2 & Henc & _)%list_find_Some.
    apply elem_of_file_ranges in Hi as Hi'. destruct Hi' as (_ & n & Hn & _ & <-). exists n.
    split; [by apply Hcand|]. intros did' n' (Hin & _ & Henc')%Hcand.
    apply (list_find_least entry_le (encloses r) (file_ranges b file) i (n_range n, did) (n_range n', did')); try done.
    + apply sort_by_sorted; [intros ??? ; apply pair_le_trans|intros; apply pair_le_total].
    + intros a. by destruct (pair_le_total (range_size a.1) (range_size a.1)).
  - apply list_find_None in E. rewrite Forall_forall in E.
    assert (∀ did' n', ¬ candidate did' n') as Hno by (intros did' n' (Hin%E & _ & ?)%Hcand; done).
    case_bool_decide as Hm; [right; done|]. split; [by apply eq_None_not_Some|done].
Qed.
