(* ===== verification/CodeAncestors.v ===== *)
(** * The walk over ancestors ([overrides_pass] in [rust/src/code_layer.rs])

    The breadth-first walk terminates, visits exactly the ancestors of a class
    and keeps, for each method name, a method of the nearest ancestor. *)

From Stdlib Require Import NArith.
From S2P Require Import Prelude CodeLayer CodeBuilder.

(** ** Specification *)

Definition inherits (l : CodeLayer) (c p : string) : Prop :=
  ∃ e, e ∈ edges l ∧ ekind e = Inherits ∧ source e = c ∧ target e = p.

Definition contains (l : CodeLayer) (p c : string) : Prop :=
  ∃ e, e ∈ edges l ∧ is_containment (ekind e) ∧ source e = p ∧ target e = c.

(** [m] is a method of [cls] with this name. *)
Definition method_of (l : CodeLayer) (cls name m : string) : Prop :=
  contains l cls m ∧ ∃ n, nodes l !! m = Some n ∧ is_method_kind (n_kind n) ∧ n_name n = name.

(** [ms'] keeps the entries of [ms] and fills the others with what [R] has. *)
Definition fills (R : string → string → Prop) (ms ms' : gmap string string) : Prop :=
  ∀ name, match ms !! name with
          | Some m => ms' !! name = Some m
          | None => match ms' !! name with Some m => R name m | None => ∀ m, ¬ R name m end
          end.

Lemma fills_trans R1 R2 ms ms1 ms2 :
  fills R1 ms ms1 → fills R2 ms1 ms2 → fills (λ x m, R1 x m ∨ R2 x m) ms ms2.
Proof.
  intros H1 H2 x. specialize (H1 x). specialize (H2 x).
  destruct (ms !! x); [by rewrite H1 in H2|]. destruct (ms1 !! x); [rewrite H2; by left|].
  destruct (ms2 !! x); [by right|]. intros m [?|?]; naive_solver.
Qed.

Lemma fills_ext R R' ms ms' : (∀ x m, R x m ↔ R' x m) → fills R ms ms' → fills R' ms ms'.
Proof.
  intros HR H x. specialize (H x). destruct (ms !! x); [done|].
  destruct (ms' !! x); [by apply HR|]. intros m Hm%HR. by eapply H.
Qed.

#[global] Instance fills_proper :
  Proper (pointwise_relation _ (pointwise_relation _ iff) ==> eq ==> eq ==> iff) fills.
Proof. intros R R' HR ms _ <- ms' _ <-. split; apply fills_ext; intros x m; by rewrite (HR x m). Qed.

Lemma fills_refl ms (R : string → string → Prop) : (∀ x m, ¬ R x m) → fills R ms ms.
Proof. intros HR x. destruct (ms !! x); [done|]. apply HR. Qed.

(** A fold of filling steps. *)
Lemma foldl_fills {A} (f : gmap string string → A → gmap string string) (R : A → string → string → Prop) l ms :
  (∀ ms a, fills (R a) ms (f ms a)) → fills (λ x m, ∃ a, a ∈ l ∧ R a x m) ms (foldl f ms l).
Proof.
  intros Hf. revert ms. induction l as [|a l IH]; intros ms; simpl.
  - apply fills_refl. set_solver.
  - eapply fills_ext, fills_trans; [|apply Hf|apply IH]. intros x m. simpl. set_solver.
Qed.

(** ** Children, parents *)

Lemma elem_of_btree_edges l e : e ∈ btree_edges l ↔ e ∈ edges l.
Proof. unfold btree_edges. by rewrite elem_of_sort_by, elem_of_elements. Qed.

Lemma children_fold did es seen out :
  let '(seen', out') := foldl (child_step did) (seen, out) es in
  (∀ c, c ∈ seen ↔ c ∈ out) →
  ∀ c, c ∈ out' ↔ c ∈ out ∨ ∃ e, e ∈ es ∧ is_containment (ekind e) ∧ source e = did ∧ target e = c.
Proof.
  revert seen out. induction es as [|e es IH]; intros seen out; simpl; [set_solver|].
  destruct (bool_decide (source e = did)) eqn:E1; simpl.
  - apply bool_decide_eq_true in E1. destruct (is_containment (ekind e)) eqn:E2; simpl.
    + case_bool_decide as E3.
      * specialize (IH ({[target e]} ∪ seen) (out ++ [target e])). destruct (foldl _ _ es) as [s o].
        intros Hso c. rewrite IH by set_solver. rewrite elem_of_app, list_elem_of_singleton. split.
        -- intros [[?| ->]|(x & ? & ?)]; [by left|right; exists e; rewrite E2; set_solver|right; exists x; set_solver].
        -- intros [?|(x & [->|Hx]%elem_of_cons & ? & ? & <-)]; [tauto|tauto|right; by exists x].
      * specialize (IH seen out). destruct (foldl _ _ es) as [s o]. intros Hso c. rewrite IH by done. split.
        -- intros [?|(x & ? & ?)]; [by left|right; exists x; set_solver].
        -- intros [?|(x & [->|Hx]%elem_of_cons & ? & ? & <-)]; [tauto| |right; by exists x].
           left. apply Hso. by destruct (decide (target e ∈ seen)).
    + specialize (IH seen out). destruct (foldl _ _ es) as [s o]. intros Hso c. rewrite IH by done. split.
      * intros [?|(x & ? & ?)]; [by left|right; exists x; set_solver].
      * intros [?|(x & [->|Hx]%elem_of_cons & Hk & ?)]; [tauto|by rewrite E2 in Hk|right; by exists x].
  - apply bool_decide_eq_false in E1.
    specialize (IH seen out). destruct (foldl _ _ es) as [s o]. intros Hso c. rewrite IH by done. split.
    + intros [?|(x & ? & ?)]; [by left|right; exists x; set_solver].
    + intros [?|(x & [->|Hx]%elem_of_cons & Hk & ? & ?)]; [tauto|done|right; by exists x].
Qed.

Lemma elem_of_children_of l did c : c ∈ children_of l did ↔ contains l did c.
Proof.
  unfold children_of, contains. pose proof (children_fold did (btree_edges l) ∅ []) as H.
  destruct (foldl _ _ _) as [s o]. simpl. rewrite H by set_solver. setoid_rewrite elem_of_btree_edges.
  split; [|by right]. by intros [?%not_elem_of_nil|?].
Qed.

Lemma elem_of_parents_of l c p : p ∈ parents_of l c ↔ inherits l c p.
Proof.
  unfold parents_of, inherits. rewrite list_elem_of_fmap. setoid_rewrite list_elem_of_filter.
  setoid_rewrite elem_of_btree_edges. naive_solver.
Qed.

Lemma add_ancestor_method_fills l ms child :
  fills (λ x m, m = child ∧ ∃ n, nodes l !! m = Some n ∧ is_method_kind (n_kind n) ∧ n_name n = x) ms
    (add_ancestor_method l ms child).
Proof.
  unfold add_ancestor_method. destruct (nodes l !! child) as [n|] eqn:En.
  2:{ apply fills_refl. naive_solver. }
  destruct (is_method_kind (n_kind n)) eqn:Ek; simpl.
  2:{ apply fills_refl. intros x m (-> & n' & Hn & Hk & _). simplify_eq. by rewrite Ek in Hk. }
  case_bool_decide as Hnone; simpl; intros x.
  - rewrite lookup_insert. case_decide as Hx; [subst; rewrite Hnone|].
    + split; [done|]. exists n. by rewrite Ek.
    + destruct (ms !! x); [done|]. intros m (-> & n' & Hn & _ & ?). congruence.
  - destruct (ms !! x) eqn:E; [done|]. intros m (-> & n' & Hn & _ & ?). congruence.
Qed.

Lemma visit_methods_fills l ms p :
  fills (method_of l p) ms (foldl (add_ancestor_method l) ms (children_of l p)).
Proof.
  eapply fills_ext, foldl_fills, add_ancestor_method_fills. intros x m. unfold method_of.
  setoid_rewrite elem_of_children_of. naive_solver.
Qed.

(** Visiting the parents of one class. *)
Lemma visit_parents_spec l ps ms V Q :
  let w := foldl (visit_parent l) (mkWalk ms V Q) ps in
  fills (λ x m, ∃ p, p ∈ ps ∧ method_of l p x m) ms (wk_methods w) ∧
  ∃ new, wk_queue w = Q ++ new ∧ NoDup new ∧ (∀ x, x ∈ new ↔ x ∈ ps ∧ x ∉ V) ∧
    wk_visited w = V ∪ list_to_set new.
Proof.
  revert ms V Q. induction ps as [|p ps IH]; intros ms V Q; simpl.
  { split; [apply fills_refl; set_solver|]. exists []. rewrite app_nil_r. split; [done|].
    split; [apply NoDup_nil_2|]. split; [set_solver|]. simpl. by rewrite (right_id_L ∅ (∪)). }
  set (ms1 := foldl (add_ancestor_method l) ms (children_of l p)).
  assert (visit_parent l (mkWalk ms V Q) p =
    if bool_decide (p ∈ V) then mkWalk ms1 V Q else mkWalk ms1 ({[p]} ∪ V) (Q ++ [p])) as -> by done.
  assert (∀ ms2, fills (λ x m, ∃ p, p ∈ ps ∧ method_of l p x m) ms1 ms2 →
            fills (λ x m, ∃ q, q ∈ p :: ps ∧ method_of l q x m) ms ms2) as Hfill.
  { intros ms2 H. eapply fills_ext, fills_trans; [|apply visit_methods_fills|exact H]. simpl.
    intros x m. split; [|set_solver]. intros [?|(q & ? & ?)]; [exists p|exists q]; set_solver. }
  case_bool_decide as Hp.
  - destruct (IH ms1 V Q) as (Hm & new & Hq & Hnd & Hnew & Hv). split; [by apply Hfill|].
    exists new. split; [done|]. split; [done|]. split; [|done]. intros x. rewrite Hnew, elem_of_cons. naive_solver.
  - destruct (IH ms1 ({[p]} ∪ V) (Q ++ [p])) as (Hm & new & Hq & Hnd & Hnew & Hv). split; [by apply Hfill|].
    exists (p :: new). split; [by rewrite Hq, <- (assoc_L (++))|]. split; [|split].
    + constructor; [rewrite Hnew; set_solver|done].
    + intros x. rewrite !elem_of_cons, Hnew. destruct (decide (x = p)); set_solver.
    + rewrite Hv. simpl. set_solver.
Qed.

(** ** Distances *)

(** [x] is at distance [k] of [did] in the inheritance graph. *)
Definition dist (l : CodeLayer) (did : string) (k : nat) (x : string) : Prop :=
  nsteps (inherits l) k did x ∧ ∀ j, j < k → ¬ nsteps (inherits l) j did x.

Lemma dist_zero l did : dist l did 0 did.
Proof. split; [constructor|lia]. Qed.

(** The state of the walk when it has popped the classes nearer than [d]. *)
Record walk_ok (l : CodeLayer) (did : string) (d : nat) (w : Walk) : Prop := {
  wo_queue : ∃ q1 q2, wk_queue w = q1 ++ q2 ∧ Forall (dist l did d) q1 ∧ Forall (dist l did (S d)) q2;
  wo_nodup : NoDup (wk_queue w);
  wo_visited : ∀ x, x ∈ wk_queue w → x ∈ wk_visited w;
  wo_near : ∀ x k, nsteps (inherits l) k did x → k ≤ d → x ∈ wk_visited w;
  wo_done : ∀ x p, x ∈ wk_visited w → x ∉ wk_queue w → inherits l x p →
    p ∈ wk_visited w ∧ ∀ name m, method_of l p name m → is_Some (wk_methods w !! name);
  wo_reached : ∀ x, x ∈ wk_visited w → ∃ k, k ≤ S d ∧ dist l did k x;
  wo_methods : ∀ name m, wk_methods w !! name = Some m →
    ∃ k a, nsteps (inherits l) (S k) did a ∧ method_of l a name m ∧
      ∀ j a' m', j < k → nsteps (inherits l) (S j) did a' → ¬ method_of l a' name m';
}.

Lemma fills_keeps R ms ms' x : fills R ms ms' → is_Some (ms !! x) → is_Some (ms' !! x).
Proof. intros H [m Hm]. specialize (H x). rewrite Hm in H. by exists m. Qed.

Lemma fills_has R ms ms' x m : fills R ms ms' → R x m → is_Some (ms' !! x).
Proof.
  intros H HR. specialize (H x). destruct (ms !! x) as [y|]; [by exists y|].
  destruct (ms' !! x) as [y|]; [by exists y|]. by destruct (H m).
Qed.

Lemma nsteps_last l did k x :
  nsteps (inherits l) (S k) did x → ∃ y, nsteps (inherits l) k did y ∧ inherits l y x.
Proof. intros (y & ? & ?)%nsteps_inv_r. eauto. Qed.

(** The classes at distance less than [d] are all done. *)
Lemma walk_done_near l did d w x k :
  walk_ok l did d w → nsteps (inherits l) k did x → k < d → x ∈ wk_visited w ∧ x ∉ wk_queue w.
Proof.
  intros Hw Hk Hlt. split; [apply (wo_near _ _ _ _ Hw x k); [done|lia]|].
  destruct (wo_queue _ _ _ _ Hw) as (q1 & q2 & -> & H1 & H2). rewrite Forall_forall in H1, H2.
  intros [Hin%H1|Hin%H2]%elem_of_app; destruct Hin as [_ Hmin]; apply (Hmin k); [lia|done|lia|done].
Qed.

(** When the classes at distance [d] are done, so is the level. *)
Lemma walk_advance l did d w :
  walk_ok l did d w → Forall (dist l did (S d)) (wk_queue w) → walk_ok l did (S d) w.
Proof.
  intros Hw Hq. pose proof Hw as [_ Hnd Hv Hn Hd Hr Hm]. split; try done.
  - exists (wk_queue w), []. rewrite app_nil_r. auto.
  - intros x k Hk Hle. destruct (decide (k = S d)) as [->|]; [|apply (Hn x k); [done|lia]].
    apply nsteps_last in Hk as (y & Hy & Hi). apply (Hd y x); [by apply (Hn y d)| |done].
    intros Hin. rewrite Forall_forall in Hq. destruct (Hq y Hin) as [_ Hmin]. apply (Hmin d); [lia|done].
  - intros x (k & ? & ?)%Hr. exists k. split; [lia|done].
Qed.

Lemma walk_step l did d ms V c q1 q2 :
  walk_ok l did d (mkWalk ms V (c :: q1 ++ q2)) →
  dist l did d c → Forall (dist l did d) q1 → Forall (dist l did (S d)) q2 →
  walk_ok l did d (foldl (visit_parent l) (mkWalk ms V (q1 ++ q2)) (parents_of l c)).
Proof.
  intros Hw Hc H1 H2. destruct (visit_parents_spec l (parents_of l c) ms V (q1 ++ q2)) as (Hf & new & Hq & Hnd & Hnew & Hv).
  set (w := foldl _ _ _) in *. clearbody w. destruct w as [ms' V' Q']. simpl in *. subst Q' V'.
  setoid_rewrite elem_of_parents_of in Hf. setoid_rewrite elem_of_parents_of in Hnew.
  pose proof Hw as [_ Hnd0 Hv0 Hn0 Hd0 Hr0 Hm0]. simpl in *.
  assert (∀ x, x ∈ new → dist l did (S d) x) as Hdn.
  { intros x [Hx Hnv]%Hnew. split; [by eapply nsteps_r; [apply Hc|]|].
    intros j Hj Hs. apply Hnv, (Hn0 x j); [done|lia]. }
  split; simpl.
  - exists q1, (q2 ++ new). rewrite <- (assoc_L (++)). split; [done|]. split; [done|].
    apply Forall_app. split; [done|]. by apply Forall_forall.
  - apply NoDup_cons in Hnd0 as [_ Hnd0]. apply NoDup_app. split; [done|]. split; [|done].
    intros x Hx [_ Hx']%Hnew. apply Hx', Hv0. by right.
  - intros x [Hx|Hx]%elem_of_app; [apply elem_of_union_l, Hv0; by right|set_solver].
  - intros x k Hk Hle. apply elem_of_union_l. by apply (Hn0 x k).
  - intros x p [Hx|Hx%elem_of_list_to_set]%elem_of_union Hout Hi; [|set_solver].
    destruct (decide (x = c)) as [->|Hne].
    + split; [destruct (decide (p ∈ V)); set_solver|]. intros name m Hmm. eapply (fills_has _ _ _ _ m); [exact Hf|by exists p].
    + destruct (Hd0 x p Hx) as [Hp Hms]; [set_solver|done|]. split; [set_solver|].
      intros name m Hmm. eapply fills_keeps; [exact Hf|eauto].
  - intros x [(k & ? & ?)%Hr0|Hx%elem_of_list_to_set]%elem_of_union; [by exists k|].
    exists (S d). auto.
  - intros name m Hname. specialize (Hf name). destruct (ms !! name) as [m0|] eqn:E.
    + apply Hm0. congruence.
    + rewrite Hname in Hf. destruct Hf as (p & Hp & Hmp). exists d, p.
      split; [by eapply nsteps_r; [apply Hc|]|]. split; [done|].
      intros j a' m' Hj (y & Hy & Hi)%nsteps_last Hm'.
      destruct (walk_done_near _ _ _ _ y j Hw Hy Hj) as [Hyv Hyq]. simpl in *.
      destruct (Hd0 y a' Hyv Hyq Hi) as [_ H]. destruct (H name m' Hm'). congruence.
Qed.

(** ** Termination and result *)

Lemma size_targets (s : gset Edge) : size (set_map target s : gset string) ≤ size s.
Proof.
  induction s as [|e s He IH] using set_ind_L; [by rewrite set_map_empty|].
  rewrite set_map_union_L, set_map_singleton_L, (size_union {[e]}), size_singleton by set_solver.
  rewrite size_union_alt, size_singleton.
  assert (size ((set_map target s : gset string) ∖ {[target e]}) ≤ size (set_map target s : gset string)); [|lia].
  apply subseteq_size. set_solver.
Qed.

Definition universe (l : CodeLayer) (did : string) : gset string := {[ did ]} ∪ set_map target (edges l).

Lemma universe_inherits l did c p : inherits l c p → p ∈ universe l did.
Proof.
  intros (e & He & _ & _ & <-). unfold universe. apply elem_of_union_r, elem_of_map. eauto.
Qed.

Lemma ancestors_loop_spec l did fuel d w :
  walk_ok l did d w → wk_visited w ⊆ universe l did →
  length (wk_queue w) + size (universe l did ∖ wk_visited w) ≤ fuel →
  ∃ w' d', ancestors_loop fuel l w = Some (wk_methods w') ∧ walk_ok l did d' w' ∧ wk_queue w' = [].
Proof.
  revert d w. induction fuel as [|fuel IH]; intros d w Hw Hu Hf; simpl;
    destruct (wk_queue w) as [|c q] eqn:Eq; [by exists w, d|simpl in Hf; lia|by exists w, d|].
  destruct w as [ms V Q]. simpl in *. subst Q.
  assert (∃ d q1 q2, q = q1 ++ q2 ∧ walk_ok l did d (mkWalk ms V (c :: q1 ++ q2)) ∧ dist l did d c ∧
            Forall (dist l did d) q1 ∧ Forall (dist l did (S d)) q2) as (d' & q1 & q2 & -> & Hw' & Hc & H1 & H2).
  { pose proof (wo_queue _ _ _ _ Hw) as (q1 & q2 & Hq & H1 & H2). simpl in Hq. destruct q1 as [|x q1]; simpl in Hq.
    - subst q2. apply Forall_cons in H2 as Hc. exists (S d), q, []. rewrite app_nil_r. split; [done|].
      split; [by apply walk_advance|]. split; [apply Hc|]. split; [apply Hc|constructor].
    - injection Hq as <- ->. apply Forall_cons in H1 as [Hc H1]. by exists d, q1, q2. }
  pose proof (walk_step _ _ _ _ _ _ _ _ Hw' Hc H1 H2) as Hs.
  destruct (visit_parents_spec l (parents_of l c) ms V (q1 ++ q2)) as (_ & new & Hq & Hnd & Hnew & Hv).
  apply (IH d' _ Hs).
  - rewrite Hv. intros x [Hx|Hx%elem_of_list_to_set%Hnew]%elem_of_union; [by apply Hu|].
    destruct Hx as [Hx%elem_of_parents_of _]. by eapply universe_inherits.
  - rewrite Hq, Hv, length_app.
    assert (size (universe l did ∖ (V ∪ list_to_set new)) + length new ≤ size (universe l did ∖ V)); [|lia].
    rewrite <- (size_list_to_set (C:=gset string) new) by done. rewrite <- size_union.
    + apply subseteq_size. intros x [Hx|Hx%elem_of_list_to_set]%elem_of_union; [set_solver|].
      apply Hnew in Hx as [Hx%elem_of_parents_of Hnv]. apply elem_of_difference.
      split; [by eapply universe_inherits|done].
    + set_solver.
Qed.

(** The walk returns, with the state it ends in. *)
Lemma ancestor_methods_returns l did :
  ∃ w d, ancestor_methods l did = Some (wk_methods w) ∧ walk_ok l did d w ∧ wk_queue w = [].
Proof.
  assert (walk_ok l did 0 (mkWalk ∅ {[ did ]} [did])) as H0.
  { split; simpl.
    - exists [did], []. split; [done|]. split; [|constructor]. constructor; [apply dist_zero|constructor].
    - apply NoDup_singleton.
    - set_solver.
    - intros x k Hk Hle. assert (k = 0) as -> by lia. inversion Hk. set_solver.
    - intros x p. set_solver.
    - intros x ->%elem_of_singleton. exists 0. split; [lia|apply dist_zero].
    - done. }
  apply (ancestors_loop_spec l did (S (size (edges l))) 0 _ H0); simpl.
  - unfold universe. set_solver.
  - assert (size (universe l did ∖ {[did]}) ≤ size (edges l)); [|lia].
    trans (size (set_map target (edges l) : gset string)); [apply subseteq_size; unfold universe; set_solver|].
    apply size_targets.
Qed.

(** ** What the walk depends on *)

Lemma ancestors_loop_fuel l fuel fuel' w r :
  ancestors_loop fuel l w = Some r → fuel ≤ fuel' → ancestors_loop fuel' l w = Some r.
Proof.
  revert fuel' w. induction fuel as [|fuel IH]; intros [|fuel'] w H Hle; simpl in *;
    destruct (wk_queue w) as [|c q]; try done; [lia|]. apply IH; [done|lia].
Qed.

(** Two layers in which the classes of [R] have the same parents, within [R],
    and those parents the same methods. *)
Record same_lineage (R : string → Prop) (l l' : CodeLayer) : Prop := {
  sl_parents : ∀ c, R c → parents_of l c = parents_of l' c;
  sl_closed : ∀ c p, R c → p ∈ parents_of l c → R p;
  sl_children : ∀ c p, R c → p ∈ parents_of l c → children_of l p = children_of l' p;
  sl_nodes : ∀ c p m, R c → p ∈ parents_of l c → m ∈ children_of l p → nodes l !! m = nodes l' !! m;
}.

Section lineage.
Context (R : string → Prop) (l l' : CodeLayer) (HR : same_lineage R l l').

Lemma visit_parent_ext c w p : R c → p ∈ parents_of l c → visit_parent l w p = visit_parent l' w p.
Proof.
  intros Hc Hp. unfold visit_parent. rewrite <- (sl_children _ _ _ HR c p Hc Hp).
  assert (foldl (add_ancestor_method l) (wk_methods w) (children_of l p) =
          foldl (add_ancestor_method l') (wk_methods w) (children_of l p)) as ->; [|done].
  apply foldl_ext_in. intros ms m Hm. unfold add_ancestor_method. by rewrite (sl_nodes _ _ _ HR c p m).
Qed.

Lemma ancestors_loop_ext fuel w :
  (∀ c, c ∈ wk_queue w → R c) → ancestors_loop fuel l w = ancestors_loop fuel l' w.
Proof.
  revert w. induction fuel as [|fuel IH]; intros w Hw; simpl; destruct (wk_queue w) as [|c q] eqn:Eq; try done.
  assert (R c) as Hc by (apply Hw; left). rewrite <- (sl_parents _ _ _ HR c Hc).
  rewrite <- (foldl_ext_in (visit_parent l) (visit_parent l')) by (intros; by apply (visit_parent_ext c)).
  apply IH. intros x.
  destruct (visit_parents_spec l (parents_of l c) (wk_methods w) (wk_visited w) q) as (_ & new & -> & _ & Hnew & _).
  intros [Hx|[Hx _]%Hnew]%elem_of_app; [apply Hw; by right|by apply (sl_closed _ _ _ HR c)].
Qed.

Lemma ancestor_methods_ext did : R did → ancestor_methods l did = ancestor_methods l' did.
Proof.
  intros Hd. destruct (ancestor_methods_returns l did) as (w & _ & H & _).
  destruct (ancestor_methods_returns l' did) as (w' & _ & H' & _). unfold ancestor_methods in *.
  pose proof (ancestors_loop_fuel l _ (S (size (edges l)) + S (size (edges l'))) _ _ H ltac:(lia)) as E.
  pose proof (ancestors_loop_fuel l' _ (S (size (edges l)) + S (size (edges l'))) _ _ H' ltac:(lia)) as E'.
  rewrite ancestors_loop_ext in E by (simpl; intros c ->%list_elem_of_singleton; done). congruence.
Qed.
End lineage.

(** C23: the walk that looks for overridden methods returns on any inheritance
    graph, cyclic ones included, within one turn more than the layer has edges; it finds
    a method name exactly when some ancestor of the class has a method of that
    name, and then it returns a method of a nearest such ancestor. *)
Theorem ancestor_methods_nearest l did :
  ∃ ms, ancestor_methods l did = Some ms ∧ ∀ name,
    match ms !! name with
    | Some m => ∃ k a, nsteps (inherits l) (S k) did a ∧ method_of l a name m ∧
        ∀ j a' m', j < k → nsteps (inherits l) (S j) did a' → ¬ method_of l a' name m'
    | None => ∀ k a m, nsteps (inherits l) (S k) did a → ¬ method_of l a name m
    end.
Proof.
  destruct (ancestor_methods_returns l did) as (w & d & Hr & Hw & Hq).
  exists (wk_methods w). split; [exact Hr|]. intros name.
  destruct (wk_methods w !! name) as [m|] eqn:E; [by apply (wo_methods _ _ _ _ Hw)|].
  assert (∀ k x, nsteps (inherits l) k did x → x ∈ wk_visited w) as Hall.
  { intros k. induction k as [|k IH]; intros x Hx; [apply (wo_near _ _ _ _ Hw x 0); [done|lia]|].
    apply nsteps_last in Hx as (y & Hy%IH & Hi). apply (wo_done _ _ _ _ Hw y x Hy); [|done]. rewrite Hq. apply not_elem_of_nil. }
  intros k a m (y & Hy%Hall & Hi)%nsteps_last Hm.
  destruct (wo_done _ _ _ _ Hw y a Hy) as [_ H]; [rewrite Hq; apply not_elem_of_nil|done|].
  destruct (H name m Hm). congruence.
Qed.
