(* ===== verification/CodeEdges.v ===== *)
(** * The producer of the code layer: exactly which edges

    The passes thread a builder that gains stubs and edges as they go.  Here
    each pass is shown to add exactly the edges a pure function reads off the
    index of nodes the build starts from: nothing is lost or invented because of
    the order in which files and symbols are processed. *)

From Stdlib Require Import NArith Ascii.
From S2P Require Import Prelude Str CodeLayer CodeBuilder CodeBuilderFacts CodeProducer.

(** ** A builder that has grown *)

(** [b] has the index of [M], and beyond its nodes only stubs. *)
Record grown (M b : Builder) : Prop := {
  g_names : name_to_id b = name_to_id M;
  g_listing : b_file_to_nodes b = b_file_to_nodes M;
  g_cache : range_cache b = range_cache M;
  g_files : project_files b = project_files M;
  g_nodes : nodes (layer M) ⊆ nodes (layer b);
  g_stubs : ∀ id n, nodes (layer b) !! id = Some n →
    nodes (layer M) !! id = Some n ∨ (stub_id id ∧ n_external n = true ∧ n_file n = EXTERNAL_FILE);
}.

Lemma grown_refl M : grown M M.
Proof. split; try done. auto. Qed.

(** From [b] to [b'], exactly the edges [E] have been added. *)
Record extends (M b b' : Builder) (E : list Edge) : Prop := {
  ex_grown : grown M b';
  ex_nodes : nodes (layer b) ⊆ nodes (layer b');
  ex_edges : ∀ e, e ∈ edges (layer b') ↔ e ∈ edges (layer b) ∨ e ∈ E;
}.

Lemma extends_refl M b : grown M b → extends M b b [].
Proof. intros H. split; [done..|]. set_solver. Qed.

Lemma extends_trans M b1 b2 b3 E1 E2 :
  extends M b1 b2 E1 → extends M b2 b3 E2 → extends M b1 b3 (E1 ++ E2).
Proof.
  intros [_ N1 H1] [G N2 H2]. split; [done|by etrans|]. intros e. rewrite H2, H1, elem_of_app. tauto.
Qed.

Lemma extends_foldl_inv {A} M (Inv : Builder → Prop) (f : Builder → A → Builder) (E : A → list Edge) (l : list A) b :
  Inv b → (∀ b, Inv b → grown M b) →
  (∀ b x, x ∈ l → Inv b → extends M b (f b x) (E x) ∧ Inv (f b x)) →
  extends M b (foldl f b l) (l ≫= E) ∧ Inv (foldl f b l).
Proof.
  intros Hb Hg. revert b Hb. induction l as [|x l IH]; intros b Hb Hf; cbn [foldl].
  { split; [by apply extends_refl, Hg|done]. }
  destruct (Hf b x) as [Hx Hi]; [left|done|].
  destruct (IH (f b x) Hi) as [Hl Hi']; [intros b' y Hy; apply Hf; by right|].
  rewrite bind_cons. split; [by eapply extends_trans|done].
Qed.

Lemma extends_foldl {A} M (f : Builder → A → Builder) (E : A → list Edge) (l : list A) b :
  grown M b → (∀ b x, x ∈ l → grown M b → extends M b (f b x) (E x)) →
  extends M b (foldl f b l) (l ≫= E).
Proof.
  intros Hg Hf. apply (extends_foldl_inv M (grown M)); [done..|]. intros b' x Hx Hg'.
  pose proof (Hf b' x Hx Hg') as H. split; [done|apply H].
Qed.

(** Adding a stub, and adding an edge between nodes. *)
Lemma extends_stub M b did name qn kind pkg :
  grown M b → stub_id did → let b' := add_stub_node did name qn kind pkg b in
  extends M b b' [] ∧ is_Some (nodes (layer b') !! did).
Proof.
  intros Hg Hs. unfold add_stub_node. case_bool_decide as Hd; simpl; [by split; [apply extends_refl|]|].
  split; [|by rewrite lookup_insert_eq]. apply eq_None_not_Some in Hd.
  split; [|by apply insert_subseteq|set_solver]. destruct Hg as [H1 H2 H3 H4 H5 H6].
  split; try done; simpl.
  - etrans; [exact H5|]. by apply insert_subseteq.
  - intros id n. rewrite lookup_insert_Some. intros [[<- <-]|[_ H]]; [by right|auto].
Qed.

Lemma extends_edge M b e :
  grown M b → is_Some (nodes (layer b) !! source e) → is_Some (nodes (layer b) !! target e) →
  extends M b (try_add_edge e b) [e].
Proof.
  intros [H1 H2 H3 H4 H5 H6] Hs Ht. unfold try_add_edge. rewrite !bool_decide_eq_true_2 by done. simpl.
  split; [by split|done|]. intros e'. simpl. set_solver.
Qed.

(** An edge whose ends need not be nodes. *)
Lemma extends_try_edge M b e :
  grown M b → (is_Some (nodes (layer b) !! target e)) →
  extends M b (try_add_edge e b)
    (if bool_decide (is_Some (nodes (layer b) !! source e)) then [e] else []).
Proof.
  intros Hg Ht. case_bool_decide as Hs; [by apply extends_edge|].
  unfold try_add_edge. rewrite bool_decide_eq_false_2 by done. by apply extends_refl.
Qed.

Lemma grown_is_Some M b id :
  grown M b → stub_id id = false → is_Some (nodes (layer b) !! id) ↔ is_Some (nodes (layer M) !! id).
Proof.
  intros Hg Hid. split; intros [n Hn].
  - destruct (g_stubs M b Hg id n Hn) as [H|[H _]]; [by exists n|by rewrite Hid in H].
  - exists n. eapply lookup_weaken; [done|apply Hg].
Qed.

(** ** Lookups do not change *)

Section index.
Context (M : Builder) (HM : builder_inv True M).

Lemma grown_find_symbol b file name :
  grown M b → find_symbol_in_file b file name = find_symbol_in_file M file name.
Proof.
  intros Hg. unfold find_symbol_in_file. rewrite (g_names M b Hg), (g_listing M b Hg).
  fold (ids_of M file).
  rewrite (list_find_ext_in (node_named (layer b) name) (node_named (layer M) name)); [done|].
  intros id Hid. destruct (bi_listed True M HM file id Hid) as (n & Hn & _). unfold node_named.
  by rewrite Hn, (lookup_weaken _ _ _ _ Hn (g_nodes M b Hg)).
Qed.

Lemma grown_enclosing b file r :
  grown M b → stub_id (make_module_durable_id file) = false →
  find_enclosing_symbol b file r = find_enclosing_symbol M file r.
Proof.
  intros Hg Hf. unfold find_enclosing_symbol. rewrite (g_cache M b Hg).
  destruct (list_find _ _) as [[i e]|]; [done|].
  pose proof (grown_is_Some M b _ Hg Hf) as H. repeat case_bool_decide; tauto.
Qed.

(** What a lookup returns is a node. *)
Lemma found_node b file name did :
  grown M b → find_symbol_in_file M file name = Some did → is_Some (nodes (layer b) !! did).
Proof.
  intros Hg Hf. apply (find_symbol_listed True M file name did HM) in Hf.
  destruct (bi_listed True M HM file did Hf) as (n & Hn & _). exists n.
  eapply lookup_weaken; [done|apply Hg].
Qed.

Lemma enclosing_node b file r did :
  grown M b → find_enclosing_symbol M file r = Some did → is_Some (nodes (layer b) !! did).
Proof.
  intros Hg H. assert (is_Some (nodes (layer M) !! did)) as [n Hn].
  { unfold find_enclosing_symbol in H. destruct (list_find _ _) as [[i e]|] eqn:E.
    - injection H as <-. apply list_find_Some in E as (Hi%list_elem_of_lookup_2 & _).
      destruct (range_cache M !! file) as [c|] eqn:Ec; [|by apply not_elem_of_nil in Hi].
      simpl in Hi. destruct e as [q x]. rewrite (bi_ranges True M HM _ _ Ec), elem_of_file_ranges in Hi.
      destruct Hi as (_ & n & Hn & _). by exists n.
    - case_bool_decide as Hm; [|done]. by injection H as <-. }
  exists n. eapply lookup_weaken; [done|apply Hg].
Qed.
End index.

(** ** Pass 3: containment *)

Definition containment_edges (M : Builder) (file : string) (s : SymbolDto) : list Edge :=
  let module_id := make_module_durable_id file in
  match s_durable_id s with
  | None => []
  | Some did =>
      let parent_id :=
        match s_container_name s with
        | Some cn => default module_id (find_symbol_in_file M file cn)
        | None => module_id
        end in
      if bool_decide (is_Some (nodes (layer M) !! parent_id)) && bool_decide (is_Some (nodes (layer M) !! did)) then
        [mkEdge parent_id did (if bool_decide (parent_id = module_id) then Defines else Contains) None None None]
      else []
  end.

(** ** Pass 4: references and imports *)

Section relate.
Context (root : string) (pv : ProjectView).

Definition import_edges (M : Builder) (source_file target_file : string) (r : RangeTuple) : list Edge :=
  let source_module := make_module_durable_id source_file in
  let target_module := make_module_durable_id target_file in
  let import t := [mkEdge source_module t Imports None (Some source_file) (Some r)] in
  if bool_decide (is_Some (nodes (layer M) !! source_module)) then
    if bool_decide (is_Some (nodes (layer M) !! target_module)) then import target_module
    else if bool_decide (target_file ∈ project_files M) then []
    else import (make_external_module_id (default "unknown" (infer_package target_file)))
  else [].

(** The node an occurrence refers to: a symbol of the project or a stub. *)
Definition occurrence_node (M : Builder) (o : NameOccurrenceDto) (target_file target_name : string) : option string :=
  match o_target_qualified_name o ≫= find_symbol_in_file M target_file with
  | Some did => Some did
  | None =>
      match find_symbol_in_file M target_file target_name with
      | Some did => Some did
      | None =>
          if bool_decide (target_file ∈ project_files M) then None
          else Some (make_external_symbol_id (default target_file (infer_package target_file)) target_name)
      end
  end.

Definition occurrence_edges (M : Builder) (file native_file : string) (o : NameOccurrenceDto) : list Edge :=
  if bool_decide (o_role o = RImport) && bool_decide (o_target_file o = None) then
    let '(sl, sc) := range_start (o_range o) in
    match pv_goto_definition pv native_file sl sc with
    | Some (path :: _) =>
        let target_file := normalize_target root M path in
        if bool_decide (target_file = file) then [] else import_edges M file target_file (o_range o)
    | _ => []
    end
  else
    match o_target_file o, o_target_name o with
    | Some target_file_raw, Some target_name =>
        let target_file := normalize_target root M target_file_raw in
        match occurrence_node M o target_file target_name, find_enclosing_symbol M file (o_range o) with
        | Some target_did, Some enclosing_id =>
            if bool_decide (enclosing_id = target_did) then []
            else
              (if bool_decide (o_role o = RImport) then []
               else [mkEdge enclosing_id target_did References (Some (role_str (o_role o))) (Some file)
                       (Some (o_range o))]) ++
              (if bool_decide (target_file = file) then [] else import_edges M file target_file (o_range o))
        | _, _ => []
        end
    | _, _ => []
    end.

Definition reference_edges (M : Builder) (file native_file : string) : list Edge :=
  match pv_file_occurrences pv native_file with
  | Some occurrences => occurrences ≫= occurrence_edges M file native_file
  | None => []
  end.

(** ** Pass 5: inheritance *)

Definition super_node (M : Builder) (st : TypeHierarchyItemDto) : option string :=
  let super_file := normalize_target root M (t_path st) in
  match find_symbol_in_file M super_file (t_name st) with
  | Some did => Some did
  | None =>
      match infer_package super_file with
      | Some p => Some (make_external_symbol_id p (t_name st))
      | None =>
          if bool_decide (is_Some (b_file_to_nodes M !! super_file)) then None
          else Some (make_external_symbol_id "unknown" (t_name st))
      end
  end.

Definition inherits_edges_of (M : Builder) (native_file : string) (s : SymbolDto) : list Edge :=
  if bool_decide (s_kind s = KClass) then
    match s_durable_id s with
    | None => []
    | Some did =>
        if bool_decide (is_Some (nodes (layer M) !! did)) then
          let '(line, column) := range_start (default (s_range s) (s_selection_range s)) in
          match pv_supertypes pv native_file line column with
          | Some supertypes =>
              omap (λ st, (λ t, mkEdge did t Inherits None None None) <$> super_node M st) supertypes
          | None => []
          end
        else []
    end
  else [].

(** No path the engine answers with looks like a stub's id. *)
Definition plain_path (f : string) : Prop := stub_id (make_module_durable_id f) = false.

Definition plain_answers : Prop :=
  (∀ native occs o raw, pv_file_occurrences pv native = Some occs → o ∈ occs → o_target_file o = Some raw →
     plain_path raw ∧ plain_path (to_graph_path root raw)) ∧
  (∀ native l c ps p, pv_goto_definition pv native l c = Some ps → p ∈ ps →
     plain_path p ∧ plain_path (to_graph_path root p)).

Context (M : Builder) (HM : builder_inv True M) (Hplain : plain_answers).

Lemma grown_normalize b p : grown M b → normalize_target root b p = normalize_target root M p.
Proof. intros Hg. unfold normalize_target. by rewrite (g_files M b Hg). Qed.

Lemma normalize_plain p : plain_path p → plain_path (to_graph_path root p) → plain_path (normalize_target root M p).
Proof. intros H1 H2. unfold normalize_target. by case_bool_decide. Qed.

Lemma import_extends b src tgt r :
  grown M b → plain_path src → plain_path tgt →
  extends M b (add_import_edge src tgt r b) (import_edges M src tgt r).
Proof.
  intros Hg Hs Ht. unfold add_import_edge, import_edges. rewrite (g_files M b Hg).
  pose proof (grown_is_Some M b _ Hg Hs) as Es. pose proof (grown_is_Some M b _ Hg Ht) as Et.
  rewrite (bool_decide_ext _ _ Es), (bool_decide_ext _ _ Et).
  case_bool_decide as H1; [|by apply extends_refl].
  case_bool_decide as H2; [apply extends_edge; [done|by apply Es|by apply Et]|].
  case_bool_decide as H3; [by apply extends_refl|].
  set (pkg := default "unknown" (infer_package tgt)).
  destruct (extends_stub M b (make_external_module_id pkg) pkg MODULE_QUALIFIED_NAME "module" pkg Hg) as [Hx Hn];
    [auto with tyo3|].
  apply (extends_trans M b _ _ [] _ Hx). apply extends_edge; [apply Hx| |done].
  apply Es in H1 as [n Hn1]. exists n. eapply lookup_weaken; [done|apply Hx].
Qed.

Lemma occurrence_target_extends b o tf tn :
  grown M b →
  match occurrence_node M o tf tn with
  | Some did => ∃ b', occurrence_target b o tf tn = Some (did, b') ∧ extends M b b' [] ∧ is_Some (nodes (layer b') !! did)
  | None => occurrence_target b o tf tn = None
  end.
Proof.
  intros Hg. unfold occurrence_node, occurrence_target.
  assert (∀ x, find_symbol_in_file b tf x = find_symbol_in_file M tf x) as Hf by (intros; by apply grown_find_symbol).
  assert ((o_target_qualified_name o ≫= find_symbol_in_file b tf) = (o_target_qualified_name o ≫= find_symbol_in_file M tf)) as ->.
  { destruct (o_target_qualified_name o); simpl; [apply Hf|done]. }
  rewrite Hf.
  destruct (o_target_qualified_name o ≫= find_symbol_in_file M tf) as [did|] eqn:E1.
  { exists b. split; [done|]. split; [by apply extends_refl|]. destruct (o_target_qualified_name o); [|done].
    by eapply found_node. }
  destruct (find_symbol_in_file M tf tn) as [did|] eqn:E2.
  { exists b. split; [done|]. split; [by apply extends_refl|]. by eapply found_node. }
  unfold ensure_external_target. rewrite (g_files M b Hg). case_bool_decide; [done|].
  eexists. split; [done|]. apply extends_stub; [done|auto with tyo3].
Qed.

Lemma resolve_occurrence_extends b file native occs o :
  grown M b → plain_path file → pv_file_occurrences pv native = Some occs → o ∈ occs →
  extends M b (resolve_occurrence root pv file native b o) (occurrence_edges M file native o).
Proof.
  intros Hg Hfile Hocc Ho. destruct Hplain as [Hpo Hpg]. unfold resolve_occurrence, occurrence_edges.
  destruct (bool_decide (o_role o = RImport) && bool_decide (o_target_file o = None)).
  { unfold resolve_import_via_goto. destruct (range_start (o_range o)) as [sl sc].
    destruct (pv_goto_definition pv native sl sc) as [[|p ps]|] eqn:E; [by apply extends_refl| |by apply extends_refl].
    rewrite (grown_normalize b p Hg). case_bool_decide; [by apply extends_refl|].
    destruct (Hpg native sl sc (p :: ps) p E) as [H1 H2]; [left|].
    by apply import_extends; [| |apply normalize_plain]. }
  destruct (o_target_file o) as [raw|] eqn:Eraw; [|by apply extends_refl].
  destruct (o_target_name o) as [tn|]; [|by apply extends_refl].
  rewrite (grown_normalize b raw Hg). set (tf := normalize_target root M raw).
  assert (plain_path tf) as Htf by (destruct (Hpo native occs o raw Hocc Ho Eraw); by apply normalize_plain).
  pose proof (occurrence_target_extends b o tf tn Hg) as Ht.
  destruct (occurrence_node M o tf tn) as [did|]; [|rewrite Ht; by apply extends_refl].
  destruct Ht as (b1 & -> & Hx1 & Hd). rewrite (grown_enclosing M b1 file (o_range o)) by (done || apply Hx1).
  destruct (find_enclosing_symbol M file (o_range o)) as [enc|] eqn:Ee; [|done].
  case_bool_decide as Hne; [done|]. apply (extends_trans M b b1 _ [] _ Hx1).
  assert (∀ b2, grown M b2 → extends M b2 (if bool_decide (tf = file) then b2 else add_import_edge file tf (o_range o) b2)
    (if bool_decide (tf = file) then [] else import_edges M file tf (o_range o))) as Hi.
  { intros b2 Hg2. case_bool_decide; [by apply extends_refl|by apply import_extends]. }
  destruct (bool_decide (o_role o = RImport)).
  - apply Hi. apply Hx1.
  - set (e := mkEdge enc did References _ _ _).
    assert (extends M b1 (try_add_edge e b1) [e]) as He.
    { apply extends_edge; [apply Hx1| |done]. by eapply enclosing_node; [|apply Hx1|]. }
    exact (extends_trans M b1 _ _ [e] _ He (Hi _ (ex_grown _ _ _ _ He))).
Qed.

Lemma resolve_references_extends b file native :
  grown M b → plain_path file →
  extends M b (resolve_references root pv file native b) (reference_edges M file native).
Proof.
  intros Hg Hf. unfold resolve_references, reference_edges.
  destruct (pv_file_occurrences pv native) as [occs|] eqn:E; [|by apply extends_refl].
  apply extends_foldl; [done|]. intros b' o Ho Hg'. by eapply resolve_occurrence_extends.
Qed.

Lemma super_target_extends b st :
  grown M b →
  match super_node M st with
  | Some did => ∃ b', super_target root b st = Some (did, b') ∧ extends M b b' [] ∧ is_Some (nodes (layer b') !! did)
  | None => super_target root b st = None
  end.
Proof.
  intros Hg. unfold super_node, super_target. rewrite (grown_normalize b _ Hg), (grown_find_symbol M HM b _ _ Hg).
  rewrite (g_listing M b Hg). set (sf := normalize_target root M (t_path st)).
  destruct (find_symbol_in_file M sf (t_name st)) as [did|] eqn:E.
  { exists b. split; [done|]. split; [by apply extends_refl|]. by eapply found_node. }
  destruct (infer_package sf) as [p|].
  { eexists. split; [done|]. apply extends_stub; [done|auto with tyo3]. }
  case_bool_decide; [done|]. eexists. split; [done|]. apply extends_stub; [done|auto with tyo3].
Qed.

Lemma inherits_symbol_extends b native s :
  grown M b → (∀ did, s_durable_id s = Some did → stub_id did = false) →
  extends M b (inherits_symbol root pv native b s) (inherits_edges_of M native s).
Proof.
  intros Hg Hs. unfold inherits_symbol, inherits_edges_of. case_bool_decide; [|by apply extends_refl].
  destruct (s_durable_id s) as [did|]; [|by apply extends_refl]. specialize (Hs did eq_refl).
  destruct (range_start _) as [l c]. destruct (pv_supertypes pv native l c) as [sts|].
  2: { case_bool_decide; by apply extends_refl. }
  assert (∀ b st, grown M b → extends M b (inherits_edge root did b st)
    (if bool_decide (is_Some (nodes (layer M) !! did))
     then option_list ((λ t, mkEdge did t Inherits None None None) <$> super_node M st) else [])) as He.
  { intros b' st Hg'. pose proof (super_target_extends b' st Hg') as Ht. unfold inherits_edge.
    destruct (super_node M st) as [t|]; [|rewrite Ht; case_bool_decide; by apply extends_refl].
    destruct Ht as (b1 & -> & Hx & Hn). apply (extends_trans M b' b1 _ [] _ Hx).
    rewrite <- (bool_decide_ext _ _ (grown_is_Some M b1 did (ex_grown _ _ _ _ Hx) Hs)).
    apply extends_try_edge; [apply Hx|done]. }
  assert (∀ sts, (if bool_decide (is_Some (nodes (layer M) !! did))
    then omap (λ st, (λ t, mkEdge did t Inherits None None None) <$> super_node M st) sts else []) =
    (sts ≫= λ st, if bool_decide (is_Some (nodes (layer M) !! did))
       then option_list ((λ t, mkEdge did t Inherits None None None) <$> super_node M st) else [])) as ->.
  { intros l0. case_bool_decide; induction l0 as [|st l0 IH]; [done| |done|].
    - rewrite bind_cons, <- IH. csimpl. by destruct (super_node M st).
    - rewrite bind_cons, <- IH. done. }
  apply extends_foldl; [done|]. intros b' st _ Hg'. by apply He.
Qed.
End relate.
