(* ===== verification/CodeExact.v ===== *)
(** * The producer of the code layer: the edges of a build

    The edges a build adds are those that [file_edges] reads, file by file, off
    the index the build ends with: what a file contributes does not depend on
    the order of the files or on the stubs and edges of other files. *)

From Stdlib Require Import NArith Ascii.
From S2P Require Import Prelude Str CodeLayer CodeBuilder EdgeOrder CodeBuilderFacts CodeProducer CodeLookup.
From S2P Require Import CodeAncestors CodeEdges.

(** ** Pass 3 *)

(** Two builders that differ in edges and caches only. *)
Record same_nodes (b M : Builder) : Prop := {
  sn_nodes : nodes (layer b) = nodes (layer M);
  sn_names : name_to_id b = name_to_id M;
  sn_listing : b_file_to_nodes b = b_file_to_nodes M;
  sn_files : project_files b = project_files M;
}.

Lemma same_nodes_find b M file name :
  same_nodes b M → find_symbol_in_file b file name = find_symbol_in_file M file name.
Proof.
  intros H. unfold find_symbol_in_file. rewrite (sn_names _ _ H), (sn_listing _ _ H).
  rewrite (list_find_ext_in (node_named (layer b) name) (node_named (layer M) name)); [done|].
  intros id _. unfold node_named. by rewrite (sn_nodes _ _ H).
Qed.

Lemma containment_edge_exact M b file s :
  same_nodes b M → let b' := containment_edge file b s in
  same_nodes b' M ∧ range_cache b' = range_cache b ∧
  ∀ e, e ∈ edges (layer b') ↔ e ∈ edges (layer b) ∨ e ∈ containment_edges M file s.
Proof.
  intros H. unfold containment_edge, containment_edges. destruct (s_durable_id s) as [did|]; simpl; [|set_solver].
  assert (match s_container_name s with
          | Some cn => default (make_module_durable_id file) (find_symbol_in_file b file cn)
          | None => make_module_durable_id file end =
          match s_container_name s with
          | Some cn => default (make_module_durable_id file) (find_symbol_in_file M file cn)
          | None => make_module_durable_id file end) as ->.
  { destruct (s_container_name s); [by rewrite (same_nodes_find b M)|done]. }
  set (pid := match s_container_name s with Some _ => _ | None => _ end).
  unfold try_add_edge. simpl. rewrite (sn_nodes _ _ H). case_bool_decide as H1; simpl; [|set_solver].
  case_bool_decide as H2; simpl; [|set_solver]. split; [split; simpl; [done|apply H..]|]. split; [done|set_solver].
Qed.

Lemma add_containment_exact M b file symbols :
  same_nodes b M → let b' := add_containment_edges file symbols b in
  same_nodes b' M ∧ range_cache b' = range_cache b ∧
  ∀ e, e ∈ edges (layer b') ↔ e ∈ edges (layer b) ∨ e ∈ symbols ≫= containment_edges M file.
Proof.
  unfold add_containment_edges. revert b. induction symbols as [|s symbols IH]; intros b H; cbn [foldl]; [set_solver|].
  destruct (containment_edge_exact M b file s H) as (H1 & Hc1 & He1).
  destruct (IH _ H1) as (H2 & Hc2 & He2). split; [done|]. split; [congruence|].
  intros e. rewrite He2, He1, bind_cons, elem_of_app. tauto.
Qed.

Lemma same_nodes_ranges b M file : same_nodes b M → file_ranges b file = file_ranges M file.
Proof. intros H. unfold file_ranges, cache_entry. by rewrite (sn_nodes _ _ H), (sn_listing _ _ H). Qed.

(** Pass 3 adds the containment edges of each file, caches its ranges and
    leaves the rest. *)
Lemma contain_files_exact M files b :
  same_nodes b M → let b' := contain_files files b in
  same_nodes b' M ∧
  (∀ f, range_cache b' !! f =
     if bool_decide (f ∈ fs_graph_path <$> files) then Some (file_ranges M f) else range_cache b !! f) ∧
  ∀ e, e ∈ edges (layer b') ↔
    e ∈ edges (layer b) ∨ ∃ f, f ∈ files ∧ e ∈ fs_symbols f ≫= containment_edges M (fs_graph_path f).
Proof.
  unfold contain_files. revert b. induction files as [|f files IH]; intros b H; cbn [foldl]; [set_solver|].
  destruct (add_containment_exact M b (fs_graph_path f) (fs_symbols f) H) as (H1 & Hc1 & He1).
  set (b1 := add_containment_edges _ _ _) in *.
  destruct (IH (build_range_cache (fs_graph_path f) b1)) as (H2 & Hc2 & He2); [by split; apply H1|].
  split; [done|]. split.
  - intros g. rewrite Hc2, fmap_cons. cbn [build_range_cache range_cache].
    rewrite lookup_insert, (same_nodes_ranges b1 M _ H1), Hc1.
    case_bool_decide as Hin; [by rewrite bool_decide_eq_true_2 by set_solver|].
    case_decide as Hg; [subst; by rewrite bool_decide_eq_true_2 by set_solver|].
    by rewrite bool_decide_eq_false_2 by set_solver.
  - intros e. rewrite He2. simpl. rewrite He1. split.
    + intros [[?|?]|(g & ? & ?)]; [by left|right; exists f; split; [left|done]|right; exists g; split; [by right|done]].
    + intros [?|(g & [->|Hg]%elem_of_cons & ?)]; [by left; left|by left; right|right; by exists g].
Qed.

(** ** Pass 5, overrides *)

(** The methods of a class that override a method of an ancestor. *)
Definition override_edges (M : Builder) (l : CodeLayer) (file : string) (symbols : list SymbolDto) (s : SymbolDto) :
    list Edge :=
  if bool_decide (s_kind s = KClass) then
    match find_symbol_in_file M file (symbol_qn s) ≫= ancestor_methods l with
    | None => []
    | Some methods =>
        omap (λ m,
          match methods !! s_name m, s_durable_id m with
          | Some parent, Some method_did =>
              if bool_decide (is_Some (nodes (layer M) !! method_did))
              then Some (mkEdge method_did parent Overrides None None None) else None
          | _, _ => None
          end) (filter (is_method_of s) symbols)
    end
  else [].

Definition plain_ids (symbols : list SymbolDto) : Prop :=
  ∀ s did, s ∈ symbols → s_durable_id s = Some did → stub_id did = false.

Section overrides.
Context (M : Builder) (HM : builder_inv True M) (l : CodeLayer).
Context (Hcont : ∀ e, e ∈ edges l → is_containment (ekind e) → is_Some (nodes (layer M) !! target e)).
Context (Hnodes : nodes (layer M) ⊆ nodes l).

(** The builder has grown by stubs and overrides only. *)
Definition overriding (b : Builder) : Prop :=
  grown M b ∧ ∀ e, ekind e ≠ Overrides → e ∈ edges (layer b) ↔ e ∈ edges l.

Lemma overriding_ancestors b did : overriding b → ancestor_methods (layer b) did = ancestor_methods l did.
Proof.
  intros [Hg He]. apply (ancestor_methods_ext (λ _, True)); [|done].
  assert (∀ p, children_of (layer b) p = children_of l p) as Hch.
  { intros p. apply children_of_ext. intros e _ Hk. apply He. intros E. by rewrite E in Hk. }
  split; [intros c _; apply parents_of_ext; intros e _ Hk; apply He; congruence|done|intros c p _ _; apply Hch|].
  intros c p m _ _. rewrite Hch. intros (e & Hin & Hk & _ & <-)%elem_of_children_of.
  destruct (Hcont e Hin Hk) as [n Hn]. rewrite (lookup_weaken _ _ _ _ Hn Hnodes).
  eapply lookup_weaken; [exact Hn|apply Hg].
Qed.

Lemma ancestor_method_node did methods name m :
  ancestor_methods l did = Some methods → methods !! name = Some m → is_Some (nodes (layer M) !! m).
Proof.
  intros H Hm. destruct (ancestor_methods_returns l did) as (w & d & E & Hw & _). rewrite H in E. injection E as ->.
  destruct (wo_methods _ _ _ _ Hw name m Hm) as (k & a & _ & [(e & He & Hk & _ & <-) _] & _). by apply Hcont.
Qed.

Lemma overrides_symbol_extends b file symbols s :
  overriding b → plain_ids symbols →
  extends M b (overrides_symbol file symbols b s) (override_edges M l file symbols s) ∧
  overriding (overrides_symbol file symbols b s).
Proof.
  intros Hb Hpl. assert (grown M b) as Hg by apply Hb. pose proof (extends_refl M b Hg) as Hr.
  unfold overrides_symbol, override_edges. case_bool_decide; [|done]. rewrite (grown_find_symbol M HM b _ _ Hg).
  destruct (find_symbol_in_file M file (symbol_qn s)) as [did|]; cbn [mbind option_bind]; [|done].
  rewrite (overriding_ancestors b did Hb).
  destruct (ancestor_methods_returns l did) as (w & _ & Ea & _). rewrite Ea.
  assert (∀ m p, wk_methods w !! m = Some p → is_Some (nodes (layer M) !! p)) as Hm.
  { intros m p. by apply (ancestor_method_node did). }
  assert (∀ x, x ∈ filter (is_method_of s) symbols → x ∈ symbols) as Hsub by (intros x [_ ?]%list_elem_of_filter; done).
  set (ms := filter (is_method_of s) symbols) in *.
  set (E := λ m, match wk_methods w !! s_name m, s_durable_id m with
     | Some parent, Some method_did => if bool_decide (is_Some (nodes (layer M) !! method_did))
        then Some (mkEdge method_did parent Overrides None None None) else None
     | _, _ => None end).
  assert (extends M b (foldl (override_edge (wk_methods w)) b ms) (ms ≫= λ m, option_list (E m)) ∧
          overriding (foldl (override_edge (wk_methods w)) b ms)) as [Hx Ho].
  { apply extends_foldl_inv; [done|by intros ? []|]. intros b' x Hx Hb'. unfold override_edge, E.
    assert (grown M b') as Hg' by apply Hb'.
    destruct (wk_methods w !! s_name x) as [p|] eqn:Ep; [|by split; [apply extends_refl|]].
    destruct (s_durable_id x) as [did'|] eqn:Ed; [|by split; [apply extends_refl|]].
    set (e := mkEdge did' p Overrides None None None).
    assert (extends M b' (try_add_edge e b') (if bool_decide (is_Some (nodes (layer b') !! did')) then [e] else [])) as Hxe.
    { apply extends_try_edge; [done|]. simpl. destruct (Hm _ _ Ep) as [n Hn]. exists n.
      eapply lookup_weaken; [exact Hn|apply Hg']. }
    assert (stub_id did' = false) as Hp by (eapply Hpl; [by apply Hsub|done]).
    rewrite (bool_decide_ext _ _ (grown_is_Some M b' did' Hg' Hp)) in Hxe.
    split; [by destruct (bool_decide _)|]. split; [apply Hxe|]. intros e' He'. rewrite (ex_edges _ _ _ _ Hxe).
    destruct Hb' as [_ Hb']. rewrite Hb' by done. split; [|by left]. intros [?|Hin]; [done|].
    destruct (bool_decide _); [apply list_elem_of_singleton in Hin as ->; by destruct He'|by apply not_elem_of_nil in Hin]. }
  assert ((ms ≫= λ m, option_list (E m)) = omap E ms) as <-.
  { clear. induction ms as [|m ms IH]; csimpl; [done|]. rewrite IH. by destruct (E m). }
  by destruct ms.
Qed.
End overrides.

(** ** What the edges of a file depend on *)

(** Two builders that answer alike about the files in [G]. *)
Record agrees (G : string → Prop) (M B : Builder) : Prop := {
  ag_find : ∀ g x, G g → find_symbol_in_file B g x = find_symbol_in_file M g x;
  ag_found : ∀ g x p, G g → find_symbol_in_file M g x = Some p →
    is_Some (nodes (layer M) !! p) ∧ is_Some (nodes (layer B) !! p);
  ag_enclosing : ∀ g r, G g → plain_path g → find_enclosing_symbol B g r = find_enclosing_symbol M g r;
  ag_module : ∀ g, G g → plain_path g →
    is_Some (nodes (layer B) !! make_module_durable_id g) ↔ is_Some (nodes (layer M) !! make_module_durable_id g);
  ag_files : ∀ g, G g → g ∈ project_files B ↔ g ∈ project_files M;
  ag_listed : ∀ g, G g → is_Some (b_file_to_nodes B !! g) ↔ is_Some (b_file_to_nodes M !! g);
}.

(** The symbols' ids are nodes of both builders or of neither. *)
Definition same_ids (M B : Builder) (symbols : list SymbolDto) : Prop :=
  ∀ s did, s ∈ symbols → s_durable_id s = Some did → is_Some (nodes (layer B) !! did) ↔ is_Some (nodes (layer M) !! did).

(** The paths the engine answers with about one file. *)
Definition answers_in (P : string → Prop) (pv : ProjectView) (native : string) : Prop :=
  (∀ occs o raw, pv_file_occurrences pv native = Some occs → o ∈ occs → o_target_file o = Some raw → P raw) ∧
  (∀ l c ps p, pv_goto_definition pv native l c = Some ps → p ∈ ps → P p).

Definition supers_in (P : string → Prop) (pv : ProjectView) (native : string) : Prop :=
  ∀ l c sts st, pv_supertypes pv native l c = Some sts → st ∈ sts → P (t_path st).

Definition same_answers (pv pv' : ProjectView) (native : string) : Prop :=
  pv_file_occurrences pv' native = pv_file_occurrences pv native ∧
  ∀ l c, pv_goto_definition pv' native l c = pv_goto_definition pv native l c.

Definition same_supers (pv pv' : ProjectView) (native : string) : Prop :=
  ∀ l c, pv_supertypes pv' native l c = pv_supertypes pv native l c.

Section transport.
Context (root : string) (G : string → Prop) (M B : Builder) (HG : agrees G M B).

(** A path whose reading, as a project file or not, falls in [G]. *)
Definition path_in (p : string) : Prop := G p ∧ G (to_graph_path root p).
Definition plain_reading (p : string) : Prop := plain_path p ∧ plain_path (to_graph_path root p).

Lemma normalize_agrees p : path_in p → normalize_target root B p = normalize_target root M p.
Proof. intros [_ H]. unfold normalize_target. by rewrite (bool_decide_ext _ _ (ag_files G M B HG _ H)). Qed.

Lemma normalize_in p : path_in p → G (normalize_target root M p).
Proof. intros [H1 H2]. unfold normalize_target. by case_bool_decide. Qed.

Lemma containment_edges_agree file symbols s :
  G file → plain_path file → same_ids M B symbols → s ∈ symbols →
  containment_edges B file s = containment_edges M file s.
Proof.
  intros Hf Hp Hids Hs. unfold containment_edges. destruct (s_durable_id s) as [did|] eqn:Ed; [|done].
  rewrite (bool_decide_ext _ _ (Hids s did Hs Ed)).
  pose proof (bool_decide_ext _ _ (ag_module G M B HG file Hf Hp)) as Em.
  destruct (s_container_name s) as [cn|]; [|by rewrite Em]. rewrite (ag_find G M B HG) by done.
  destruct (find_symbol_in_file M file cn) as [p|] eqn:E; cbn [default from_option]; [|by rewrite Em].
  destruct (ag_found G M B HG file cn p Hf E) as [H1 H2].
  by rewrite !(bool_decide_eq_true_2 (is_Some (_ !! p))).
Qed.

Lemma import_edges_agree src tgt r :
  G src → G tgt → plain_path src → plain_path tgt → import_edges B src tgt r = import_edges M src tgt r.
Proof.
  intros G1 G2 Hs Ht. unfold import_edges.
  by rewrite (bool_decide_ext _ _ (ag_module G M B HG src G1 Hs)), (bool_decide_ext _ _ (ag_module G M B HG tgt G2 Ht)),
    (bool_decide_ext _ _ (ag_files G M B HG tgt G2)).
Qed.

Lemma super_node_agrees st : path_in (t_path st) → super_node root B st = super_node root M st.
Proof.
  intros Hp. unfold super_node. rewrite (normalize_agrees _ Hp). pose proof (normalize_in _ Hp) as H.
  by rewrite (ag_find G M B HG) by done; rewrite (bool_decide_ext _ _ (ag_listed G M B HG _ H)).
Qed.

Context (pv pv' : ProjectView).

Lemma occurrence_edges_agree file native occs o :
  G file → plain_path file → same_answers pv pv' native →
  answers_in (λ p, path_in p ∧ plain_reading p) pv native →
  pv_file_occurrences pv native = Some occs → o ∈ occs →
  occurrence_edges root pv' B file native o = occurrence_edges root pv M file native o.
Proof.
  intros Gf Hf [_ Hgo] [Hpo Hpg] Hocc Ho. unfold occurrence_edges.
  destruct (bool_decide (o_role o = RImport) && bool_decide (o_target_file o = None)).
  { destruct (range_start (o_range o)) as [sl sc]. rewrite Hgo.
    destruct (pv_goto_definition pv native sl sc) as [[|p ps]|] eqn:E; [done| |done].
    destruct (Hpg sl sc (p :: ps) p E) as [Hin [H1 H2]]; [left|]. rewrite (normalize_agrees p Hin).
    by rewrite import_edges_agree by (done || by apply normalize_in || by apply normalize_plain). }
  destruct (o_target_file o) as [raw|] eqn:Eraw; [|done]. destruct (o_target_name o) as [tn|]; [|done].
  destruct (Hpo occs o raw Hocc Ho Eraw) as [Hin [H1 H2]]. rewrite (normalize_agrees raw Hin).
  pose proof (normalize_in raw Hin) as Gt. pose proof (normalize_plain root M raw H1 H2) as Ht.
  set (tf := normalize_target root M raw) in *.
  rewrite (ag_enclosing G M B HG file) by done. rewrite import_edges_agree by done.
  assert (occurrence_node B o tf tn = occurrence_node M o tf tn) as ->; [|done].
  unfold occurrence_node. rewrite (bool_decide_ext _ _ (ag_files G M B HG tf Gt)), (ag_find G M B HG tf tn) by done.
  destruct (o_target_qualified_name o) as [q|]; cbn [mbind option_bind]; [|done].
  by rewrite (ag_find G M B HG).
Qed.

Lemma reference_edges_agree file native :
  G file → plain_path file → same_answers pv pv' native →
  answers_in (λ p, path_in p ∧ plain_reading p) pv native →
  reference_edges root pv' B file native = reference_edges root pv M file native.
Proof.
  intros Gf Hf Hsa Hin. unfold reference_edges. rewrite (proj1 Hsa).
  destruct (pv_file_occurrences pv native) as [occs|] eqn:E; [|done].
  apply bind_ext_in. intros o Ho. by eapply occurrence_edges_agree.
Qed.

Lemma inherits_edges_agree native symbols s :
  same_ids M B symbols → s ∈ symbols → same_supers pv pv' native → supers_in path_in pv native →
  inherits_edges_of root pv' B native s = inherits_edges_of root pv M native s.
Proof.
  intros Hids Hs Hsup Hin. unfold inherits_edges_of. case_bool_decide; [|done].
  destruct (s_durable_id s) as [did|] eqn:Ed; [|done]. rewrite (bool_decide_ext _ _ (Hids s did Hs Ed)).
  case_bool_decide; [|done]. destruct (range_start _) as [ln c]. rewrite Hsup.
  destruct (pv_supertypes pv native ln c) as [sts|] eqn:E; [|done].
  apply omap_ext_in. intros st Hst. rewrite super_node_agrees; [done|]. by eapply Hin.
Qed.

Lemma override_edges_agree l l' file symbols s :
  G file → same_ids M B symbols →
  (∀ did, find_symbol_in_file M file (symbol_qn s) = Some did → s_kind s = KClass →
     ancestor_methods l' did = ancestor_methods l did) →
  override_edges B l' file symbols s = override_edges M l file symbols s.
Proof.
  intros Gf Hids Hl. unfold override_edges. case_bool_decide; [|done]. rewrite (ag_find G M B HG) by done.
  destruct (find_symbol_in_file M file (symbol_qn s)) as [did|]; cbn [mbind option_bind]; [|done].
  rewrite (Hl did) by done. destruct (ancestor_methods l did) as [methods|]; [|done].
  apply omap_ext_in. intros m [_ Hm]%list_elem_of_filter. destruct (methods !! s_name m); [|done].
  destruct (s_durable_id m) as [d|] eqn:E; [|done]. by rewrite (bool_decide_ext _ _ (Hids m d Hm E)).
Qed.
End transport.

(** A builder that has grown answers as before. *)
Lemma grown_agrees M B : builder_inv True M → grown M B → agrees (λ _, True) M B.
Proof.
  intros HM HB. split.
  - intros g x _. by apply grown_find_symbol.
  - intros g x p _ H. split; [by eapply found_node; [|apply grown_refl|]|by eapply found_node].
  - intros g r _ Hp. by apply grown_enclosing.
  - intros g _ Hp. by apply grown_is_Some.
  - intros g _. by rewrite (g_files M B HB).
  - intros g _. by rewrite (g_listing M B HB).
Qed.

Lemma grown_same_ids M B symbols : grown M B → plain_ids symbols → same_ids M B symbols.
Proof. intros Hg Hp s did Hs Hd. apply grown_is_Some; [done|by eapply Hp]. Qed.

Lemma plain_answers_in root pv native :
  plain_answers root pv → answers_in (λ p, path_in root (λ _, True) p ∧ plain_reading root p) pv native.
Proof. intros [H1 H2]. split; [intros; split; [done|by eapply H1]|intros; split; [done|by eapply H2]]. Qed.

(** ** All passes *)

Ltac no_edge := by intros []%not_elem_of_nil.


Section exact.
Context (root : string) (pv : ProjectView).

(** The edges of one file, read off an index. *)
Definition file_edges (B : Builder) (f : FileSymbols) : list Edge :=
  (fs_symbols f ≫= containment_edges B (fs_graph_path f)) ++
  reference_edges root pv B (fs_graph_path f) (fs_native_path f) ++
  (fs_symbols f ≫= inherits_edges_of root pv B (fs_native_path f)) ++
  (fs_symbols f ≫= override_edges B (layer B) (fs_graph_path f) (fs_symbols f)).

Definition plain_file (f : FileSymbols) : Prop := plain_path (fs_graph_path f) ∧ plain_ids (fs_symbols f).

Lemma import_edges_kind M src tgt r e : e ∈ import_edges M src tgt r → ekind e = Imports.
Proof.
  unfold import_edges. repeat case_bool_decide; try no_edge; by intros ->%list_elem_of_singleton.
Qed.

Lemma reference_edges_kind M file native e :
  e ∈ reference_edges root pv M file native → ekind e = References ∨ ekind e = Imports.
Proof.
  unfold reference_edges. destruct (pv_file_occurrences pv native) as [occs|]; [|no_edge].
  intros (o & He & _)%list_elem_of_bind. revert He. unfold occurrence_edges.
  destruct (_ && _).
  { destruct (range_start _). destruct (pv_goto_definition _ _ _ _) as [[|p ps]|]; try no_edge.
    case_bool_decide; [no_edge|]. intros ?%import_edges_kind. by right. }
  destruct (o_target_file o) as [raw|], (o_target_name o) as [tn|]; try no_edge.
  destruct (occurrence_node _ _ _ _); [|no_edge].
  destruct (find_enclosing_symbol _ _ _); [|no_edge].
  case_bool_decide; [no_edge|]. intros [He|He]%elem_of_app.
  - revert He. case_bool_decide; [no_edge|]. intros ->%list_elem_of_singleton. by left.
  - revert He. case_bool_decide; [no_edge|]. intros ?%import_edges_kind. by right.
Qed.

Lemma inherits_edges_kind M native s e : e ∈ inherits_edges_of root pv M native s → ekind e = Inherits.
Proof.
  unfold inherits_edges_of. case_bool_decide; [|no_edge].
  destruct (s_durable_id s); [|no_edge]. case_bool_decide; [|no_edge].
  destruct (range_start _). destruct (pv_supertypes _ _ _ _); [|no_edge].
  intros (st & _ & (t & _ & ->)%fmap_Some)%list_elem_of_omap. done.
Qed.

Lemma containment_edges_target M file s e : e ∈ containment_edges M file s → is_Some (nodes (layer M) !! target e).
Proof.
  unfold containment_edges. destruct (s_durable_id s) as [did|]; [|no_edge].
  case_bool_decide; simpl; [|no_edge]. case_bool_decide; simpl; [|no_edge].
  by intros ->%list_elem_of_singleton.
Qed.

Context (files : list FileSymbols) (b0 : Builder).
Let M0 := materialize_files files b0.
Let M := contain_files files M0.
Let B := run_build_passes root pv files b0.

Context (HM : builder_inv True M) (Hplain : plain_answers root pv) (Hfiles : ∀ f, f ∈ files → plain_file f).
Context (Hcont : ∀ e, e ∈ edges (layer M0) → is_containment (ekind e) → is_Some (nodes (layer M0) !! target e)).

(** The passes after containment, each adding its edges to an index that grows
    by stubs. *)
Lemma relate_exact :
  grown M B ∧
  ∀ e, e ∈ edges (layer B) ↔ e ∈ edges (layer M) ∨ ∃ f, f ∈ files ∧
    (e ∈ reference_edges root pv M (fs_graph_path f) (fs_native_path f) ∨
     e ∈ fs_symbols f ≫= inherits_edges_of root pv M (fs_native_path f) ∨
     e ∈ fs_symbols f ≫= override_edges M (layer B) (fs_graph_path f) (fs_symbols f)).
Proof.
  destruct (contain_files_exact M0 files M0) as ([Hn _ _ _] & _ & He); [by split|]. fold M in Hn, He.
  set (b4 := foldl (λ b f, resolve_references root pv (fs_graph_path f) (fs_native_path f) b) M files).
  set (b5 := foldl (λ b f, inherits_pass root pv (fs_native_path f) (fs_symbols f) b) b4 files).
  assert (B = foldl (λ b f, overrides_pass (fs_graph_path f) (fs_symbols f) b) b5 files) as EB by done.
  assert (extends M M b4 (files ≫= λ f, reference_edges root pv M (fs_graph_path f) (fs_native_path f))) as X4.
  { apply extends_foldl; [apply grown_refl|]. intros b f Hf Hg. apply resolve_references_extends; [done..|].
    by apply Hfiles. }
  assert (extends M b4 b5 (files ≫= λ f, fs_symbols f ≫= inherits_edges_of root pv M (fs_native_path f))) as X5.
  { apply extends_foldl; [apply X4|]. intros b f Hf Hg. apply extends_foldl; [done|]. intros b' s Hs Hg'.
    apply inherits_symbol_extends; [done..|]. intros did. by eapply Hfiles. }
  assert (∀ e, e ∈ edges (layer b5) → is_containment (ekind e) → is_Some (nodes (layer M) !! target e)) as Hc.
  { intros e Hin Hk. rewrite Hn. apply (ex_edges _ _ _ _ X5) in Hin as [Hin|Hin].
    - apply (ex_edges _ _ _ _ X4) in Hin as [Hin|Hin].
      + apply He in Hin as [Hin|(f & _ & (s & Hin & _)%list_elem_of_bind)]; [by apply Hcont|].
        by eapply containment_edges_target.
      + apply list_elem_of_bind in Hin as (f & [H|H]%reference_edges_kind & _); by rewrite H in Hk.
    - apply list_elem_of_bind in Hin as (f & (s & Hin%inherits_edges_kind & _)%list_elem_of_bind & _). by rewrite Hin in Hk. }
  assert (nodes (layer M) ⊆ nodes (layer b5)) as Hsub by (apply (g_nodes M b5), X5).
  assert (extends M b5 B (files ≫= λ f, fs_symbols f ≫= override_edges M (layer b5) (fs_graph_path f) (fs_symbols f)) ∧
          overriding M (layer b5) B) as [X6 HB].
  { rewrite EB. apply extends_foldl_inv; [split; [apply X5|done]|by intros b [? _]|]. intros b f Hf Hb.
    apply extends_foldl_inv; [done|by intros b' [? _]|]. intros b' s Hs Hb'.
    apply overrides_symbol_extends; [done..|]. by apply Hfiles. }
  split; [apply X6|]. intros e. rewrite (ex_edges _ _ _ _ X6), (ex_edges _ _ _ _ X5), (ex_edges _ _ _ _ X4).
  rewrite !list_elem_of_bind.
  assert (∀ f s, override_edges M (layer b5) (fs_graph_path f) (fs_symbols f) s =
                 override_edges M (layer B) (fs_graph_path f) (fs_symbols f) s) as Eo.
  { intros f s. unfold override_edges. case_bool_decide; [|done]. destruct (find_symbol_in_file _ _ _); [|done].
    cbn [mbind option_bind]. by rewrite (overriding_ancestors M (layer b5) Hc Hsub B). }
  assert (∀ f, fs_symbols f ≫= override_edges M (layer b5) (fs_graph_path f) (fs_symbols f) =
               fs_symbols f ≫= override_edges M (layer B) (fs_graph_path f) (fs_symbols f)) as Eo'.
  { intros f. apply bind_ext_in. intros s _. apply Eo. }
  setoid_rewrite Eo'. naive_solver.
Qed.

(** A build adds exactly the edges of its files, as read off the index it ends
    with. *)
Lemma passes_exact e :
  e ∈ edges (layer B) ↔ e ∈ edges (layer M0) ∨ ∃ f, f ∈ files ∧ e ∈ file_edges B f.
Proof.
  destruct relate_exact as [Hg Hrel]. rewrite Hrel.
  destruct (contain_files_exact M0 files M0) as (Hsn & _ & He); [by split|]. fold M in Hsn, He. rewrite He.
  assert (∀ f, f ∈ files → e ∈ file_edges B f ↔
    e ∈ fs_symbols f ≫= containment_edges M0 (fs_graph_path f) ∨
    e ∈ reference_edges root pv M (fs_graph_path f) (fs_native_path f) ∨
    e ∈ fs_symbols f ≫= inherits_edges_of root pv M (fs_native_path f) ∨
    e ∈ fs_symbols f ≫= override_edges M (layer B) (fs_graph_path f) (fs_symbols f)) as H.
  { intros f Hf. destruct (Hfiles f Hf) as [Hp Hids]. unfold file_edges. rewrite !elem_of_app.
    pose proof (grown_agrees M B HM Hg) as Ha. pose proof (grown_same_ids M B _ Hg Hids) as Hsi.
    rewrite (reference_edges_agree root _ M B Ha pv pv) by (done || by apply plain_answers_in).
    rewrite (bind_ext_in (containment_edges B (fs_graph_path f)) (containment_edges M0 (fs_graph_path f))).
    2: { intros s Hs. rewrite (containment_edges_agree _ M B Ha _ (fs_symbols f)) by done.
         unfold containment_edges. rewrite (sn_nodes _ _ Hsn). destruct (s_container_name s); [|done].
         by rewrite (same_nodes_find M M0). }
    rewrite (bind_ext_in (inherits_edges_of root pv B (fs_native_path f)) (inherits_edges_of root pv M (fs_native_path f)))
      by (intros s Hs; by apply (inherits_edges_agree root (λ _, True) M B Ha pv pv _ (fs_symbols f))).
    by rewrite (bind_ext_in (override_edges B (layer B) (fs_graph_path f) (fs_symbols f))
      (override_edges M (layer B) (fs_graph_path f) (fs_symbols f)))
      by (intros s Hs; by apply (override_edges_agree (λ _, True) M B Ha)). }
  split.
  - intros [[?|(f & Hf & ?)]|(f & Hf & ?)]; [by left|right; exists f..]; (split; [done|]); apply H; tauto.
  - intros [?|(f & Hf & Hin%H)]; [by left; left| |done]. destruct Hin as [?|?]; [left; right; eauto|right; eauto].
Qed.
End exact.

(** ** The full build *)

(** The listing of the layer plays no part. *)
Lemma file_edges_sync root pv B f : file_edges root pv (sync_file_to_nodes B) f = file_edges root pv B f.
Proof.
  unfold file_edges. f_equal. f_equal. f_equal. apply bind_ext_in. intros s _. unfold override_edges.
  case_bool_decide; [|done]. change (find_symbol_in_file (sync_file_to_nodes B)) with (find_symbol_in_file B).
  destruct (find_symbol_in_file B _ _) as [did|]; [|done]. cbn [mbind option_bind].
  by rewrite (ancestor_methods_ext (λ _, True) (layer (sync_file_to_nodes B)) (layer B)) by done.
Qed.

(** Pass 2 adds no edges. *)
Lemma materialize_file_edges file symbols b : edges (layer (materialize_file_nodes file symbols b)) = edges (layer b).
Proof.
  unfold materialize_file_nodes. transitivity (edges (layer (materialize_module file b)));
    [|unfold materialize_module; by case_bool_decide].
  generalize (materialize_module file b). induction symbols as [|s symbols IH]; intros b'; cbn [foldl]; [done|].
  rewrite IH. unfold materialize_symbol. destruct (s_durable_id s); [|done]. by case_bool_decide.
Qed.

Lemma materialize_files_edges files b : edges (layer (materialize_files files b)) = edges (layer b).
Proof.
  unfold materialize_files. revert b. induction files as [|f files IH]; intros b; cbn [foldl]; [done|].
  rewrite IH. apply materialize_file_edges.
Qed.

(** The index after containment, from any sound builder. *)
Lemma contained_inv files b :
  builder_inv True b → (∀ f, f ∈ files → plain_file f) →
  (∀ f, f ∈ files → range_cache b !! fs_graph_path f = None) →
  builder_inv True (materialize_files files b) ∧ builder_inv True (contain_files files (materialize_files files b)).
Proof.
  intros Hb Hf Hc. set (F := list_to_set (fs_graph_path <$> files) : gset string).
  assert (∀ f, f ∈ F → ∃ x, x ∈ files ∧ fs_graph_path x = f) as HF.
  { intros f (x & -> & Hx)%elem_of_list_to_set%list_elem_of_fmap. by exists x. }
  assert (True → ∀ f, f ∈ F → stub_id (make_module_durable_id f) = false) as HFp.
  { intros _ f (x & Hx & <-)%HF. by apply Hf. }
  assert (files_in F (plain_symbol True) files) as Hin.
  { intros x Hx. split; [apply elem_of_list_to_set, list_elem_of_fmap; eauto|].
    intros s Hs _ did. by eapply (Hf x Hx). }
  assert (True → ∀ s did, plain_symbol True s → s_durable_id s = Some did → stub_id did = false) as Hpl
    by (intros H s did; by apply plain_symbol_elim).
  assert (builder_inv True (materialize_files files b)) as H1.
  { eapply (steps_inv F (plain_symbol True) True HFp Hpl); [|exact Hb]. apply materialize_all_steps; [exact Hin|].
    intros f (x & Hx & <-)%HF. by apply Hc. }
  split; [done|]. eapply (steps_inv F (plain_symbol True) True HFp Hpl); [|exact H1].
  by apply (contain_files_steps F (plain_symbol True) True HFp Hpl).
Qed.

Section build_edges.
Context (root : string) (pv : ProjectView).

Lemma collected_plain f :
  view_plain root pv → f ∈ collect_symbols pv (listed_files root pv) → plain_file f.
Proof.
  intros Hv ([g n] & Hin & Hf)%list_elem_of_omap. simpl in Hf.
  destruct (pv_document_symbols pv n) as [syms|] eqn:E; [|done]. injection Hf as <-.
  destruct (Hv g n Hin) as [Hp Hids]. split; [exact Hp|]. intros s did. by apply Hids.
Qed.

Lemma build_edges e :
  view_plain root pv → plain_answers root pv →
  e ∈ edges (layer (build root pv)) ↔
    ∃ f, f ∈ collect_symbols pv (listed_files root pv) ∧ e ∈ file_edges root pv (build root pv) f.
Proof.
  intros Hv Hplain. unfold build. set (files := collect_symbols _ _). set (b0 := set_project_files _ Builder_new).
  change (edges (layer (sync_file_to_nodes ?b))) with (edges (layer b)).
  setoid_rewrite file_edges_sync.
  destruct (contained_inv files b0) as [_ HM]; [apply empty_inv|intros f; by apply collected_plain|done|].
  rewrite passes_exact; [|exact HM|exact Hplain|intros f; by apply collected_plain|];
    rewrite materialize_files_edges; [set_solver|]. intros e' []%not_elem_of_empty.
Qed.
(** C14: the full build adds an edge exactly when one of the project's files has
    it, where the edges of a file are read off the finished index: a symbol under
    the symbol that contains it or the module; a reference from the symbol
    with the fewest lines around an occurrence to the symbol or stub it resolves to, with the
    import it implies; a class to its supertypes; a method to the method it
    overrides in a nearest ancestor.  No edge is lost or invented because of the
    order in which files and symbols are processed. *)
Theorem build_edges_exact :
  view_plain root pv → plain_answers root pv → ∀ e,
  e ∈ edges (layer (build root pv)) ↔
    ∃ f, f ∈ collect_symbols pv (listed_files root pv) ∧ e ∈ file_edges root pv (build root pv) f.
Proof. intros Hv Hplain e. by apply build_edges. Qed.
End build_edges.
