(* ===== verification/CodeIndex.v ===== *)
(** * The producer of the code layer: the index of a set of files

    What a builder knows of a file is what materializing the file alone gives,
    when ids are not shared between files.  A full build and a scoped rebuild
    both end with the index of the project's files. *)

From Stdlib Require Import NArith Ascii.
From S2P Require Import Prelude Str CodeLayer CodeBuilder EdgeOrder CodeBuilderFacts CodeProducer CodeLookup.
From S2P Require Import CodeAncestors CodeEdges CodeExact.

(** ** One file alone *)

Definition alone (f : FileSymbols) : Builder :=
  materialize_file_nodes (fs_graph_path f) (fs_symbols f) Builder_new.

Definition alone_ids (f : FileSymbols) : list string := ids_of (alone f) (fs_graph_path f).

Definition own_ids (f : FileSymbols) : list string :=
  make_module_durable_id (fs_graph_path f) :: omap s_durable_id (fs_symbols f).

(** [b] is [b0] with the nodes and the listing of [c] for the file [g]. *)
Record beside (g : string) (b0 c b : Builder) : Prop := {
  bs_nodes : nodes (layer b) = nodes (layer c) ∪ nodes (layer b0);
  bs_here : b_file_to_nodes b !! g = b_file_to_nodes c !! g;
  bs_there : ∀ g', g' ≠ g → b_file_to_nodes b !! g' = b_file_to_nodes b0 !! g';
}.

Lemma beside_is_Some g b0 c b id :
  beside g b0 c b → nodes (layer b0) !! id = None → is_Some (nodes (layer b) !! id) ↔ is_Some (nodes (layer c) !! id).
Proof. intros H Hn. rewrite (bs_nodes _ _ _ _ H), lookup_union, Hn. by destruct (nodes (layer c) !! id). Qed.

Lemma beside_push (g : string) (b0 c b : Builder) (id : string) (n : NodeData)
    (names names' : gmap (string * string) string) :
  beside g b0 c b →
  beside g b0
    (mkBuilder (upsert_node (layer c) id n) names (push_node (b_file_to_nodes c) g id) (range_cache c) (project_files c))
    (mkBuilder (upsert_node (layer b) id n) names' (push_node (b_file_to_nodes b) g id) (range_cache b) (project_files b)).
Proof.
  intros [H1 H2 H3]. split; simpl.
  - by rewrite H1, insert_union_l.
  - unfold push_node. by rewrite !lookup_insert_eq, H2.
  - intros g' Hg. unfold push_node. rewrite lookup_insert_ne by done. by apply H3.
Qed.

Lemma beside_module g b0 c b :
  beside g b0 c b → nodes (layer b0) !! make_module_durable_id g = None →
  beside g b0 (materialize_module g c) (materialize_module g b).
Proof.
  intros H Hn. unfold materialize_module. rewrite (bool_decide_ext _ _ (beside_is_Some _ _ _ _ _ H Hn)).
  case_bool_decide; [done|]. by apply beside_push.
Qed.

Lemma beside_symbol g b0 c b s :
  beside g b0 c b → (∀ did, s_durable_id s = Some did → nodes (layer b0) !! did = None) →
  beside g b0 (materialize_symbol g c s) (materialize_symbol g b s).
Proof.
  intros H Hn. unfold materialize_symbol. destruct (s_durable_id s) as [did|]; [|done].
  rewrite (bool_decide_ext _ _ (beside_is_Some _ _ _ _ did H (Hn did eq_refl))).
  case_bool_decide; [done|]. by apply beside_push.
Qed.

Lemma elem_of_own_ids f id :
  id ∈ own_ids f ↔ id = make_module_durable_id (fs_graph_path f) ∨ ∃ s, s ∈ fs_symbols f ∧ s_durable_id s = Some id.
Proof. unfold own_ids. by rewrite elem_of_cons, list_elem_of_omap. Qed.

(** Materializing a file next to nodes that are not its own. *)
Lemma materialize_beside f b :
  (∀ id, id ∈ own_ids f → nodes (layer b) !! id = None) → b_file_to_nodes b !! fs_graph_path f = None →
  beside (fs_graph_path f) b (alone f) (materialize_file_nodes (fs_graph_path f) (fs_symbols f) b).
Proof.
  intros Hn Hl. unfold alone, materialize_file_nodes.
  assert (∀ symbols c b', symbols ⊆ fs_symbols f → beside (fs_graph_path f) b c b' →
    beside (fs_graph_path f) b (foldl (materialize_symbol (fs_graph_path f)) c symbols)
      (foldl (materialize_symbol (fs_graph_path f)) b' symbols)) as Hfold.
  { induction symbols as [|s symbols IH]; intros c b' Hsub Hb; cbn [foldl]; [done|].
    apply IH; [set_solver|]. apply beside_symbol; [done|]. intros did Hd. apply Hn, elem_of_own_ids. right.
    exists s. split; [set_solver|done]. }
  apply Hfold; [done|]. apply beside_module; [|apply Hn, elem_of_own_ids; by left].
  split; simpl; [by rewrite (left_id_L ∅ (∪))|done|done].
Qed.

(** The file's listing holds its own ids, all of them nodes. *)
Lemma new_inv : builder_inv False Builder_new.
Proof. exact (empty_inv False ∅). Qed.

Lemma alone_steps f : rtc (bstep {[ fs_graph_path f ]} (λ _, True) False) Builder_new (alone f).
Proof. by apply (materialize_steps {[ fs_graph_path f ]} (λ _, True) False); [set_solver|..]. Qed.

Lemma alone_inv f : builder_inv False (alone f).
Proof.
  eapply (steps_inv {[ fs_graph_path f ]} (λ _, True) False); [intros []..|apply alone_steps|apply new_inv].
Qed.

(** A node of a file is its module or one of its symbols. *)
Definition describes (f : FileSymbols) (id : string) (n : NodeData) : Prop :=
  (id = make_module_durable_id (fs_graph_path f) ∧ n = module_node (fs_graph_path f)) ∨
  ∃ s, s ∈ fs_symbols f ∧ s_durable_id s = Some id ∧ n = symbol_node (fs_graph_path f) s.

Lemma alone_describes f id n : nodes (layer (alone f)) !! id = Some n → describes f id n.
Proof.
  unfold alone, materialize_file_nodes. set (g := fs_graph_path f).
  assert (∀ symbols b, symbols ⊆ fs_symbols f → (∀ id n, nodes (layer b) !! id = Some n → describes f id n) →
    ∀ id n, nodes (layer (foldl (materialize_symbol g) b symbols)) !! id = Some n → describes f id n) as H.
  { induction symbols as [|s symbols IH]; intros b Hsub Hb; cbn [foldl]; [done|]. apply IH; [set_solver|].
    unfold materialize_symbol. destruct (s_durable_id s) as [did|] eqn:Ed; [|done]. case_bool_decide; [done|].
    intros i m. cbn [layer upsert_node nodes]. rewrite lookup_insert_Some. intros [[<- <-]|[_ Hm]]; [|by apply Hb].
    right. exists s. split; [set_solver|done]. }
  apply H; [done|]. unfold materialize_module. case_bool_decide; [done|]. intros i m. cbn [layer upsert_node nodes].
  rewrite lookup_insert_Some. intros [[<- <-]|[_ Hm]]; [by left|done].
Qed.

Lemma alone_node f id n :
  nodes (layer (alone f)) !! id = Some n → id ∈ own_ids f ∧ n_external n = false ∧ n_file n = fs_graph_path f.
Proof.
  rewrite elem_of_own_ids. intros [[-> ->]|(s & Hs & Hd & ->)]%alone_describes; (split; [|done]); [by left|right; by exists s].
Qed.

Lemma elem_of_alone_ids f id : id ∈ alone_ids f ↔ id ∈ own_ids f.
Proof.
  unfold alone_ids. rewrite (listed_iff False) by apply alone_inv. split.
  - intros (n & Hn & _). by apply (alone_node f id n).
  - intros Hid. destruct (materialize_file_present f Builder_new) as [_ [Hm Hs]].
    assert (is_Some (nodes (layer (alone f)) !! id)) as [n Hn].
    { apply elem_of_own_ids in Hid as [->|(s & Hin & Hd)]; [exact Hm|by eapply Hs]. }
    exists n. destruct (alone_node f id n Hn) as (_ & H1 & H2). done.
Qed.

(** ** Several files *)

(** The files of a project: one entry per path, no durable id in two files, and
    no durable id that looks like a module's. *)
Record separate (files : FileSymbols → Prop) : Prop := {
  sp_path : ∀ f f', files f → files f' → fs_graph_path f = fs_graph_path f' → f = f';
  sp_ids : ∀ f f' s s' did, files f → files f' → s ∈ fs_symbols f → s' ∈ fs_symbols f' →
    s_durable_id s = Some did → s_durable_id s' = Some did → f = f';
  sp_module : ∀ f s did, files f → s ∈ fs_symbols f → s_durable_id s = Some did → is_module_id did = false;
}.

Lemma is_module_id_module g : is_module_id (make_module_durable_id g) = true.
Proof. by destruct g. Qed.

Lemma module_id_inj g g' : make_module_durable_id g = make_module_durable_id g' → g = g'.
Proof. unfold make_module_durable_id. apply (inj (String.app MODULE_QUALIFIED_NAME)). Qed.

Lemma separate_own files f f' id :
  separate files → files f → files f' → id ∈ own_ids f → id ∈ own_ids f' → f = f'.
Proof.
  intros Hs Hf Hf' [->|(s & Hin & Hd)]%elem_of_own_ids [H|(s' & Hin' & Hd')]%elem_of_own_ids.
  - apply (sp_path _ Hs); [done..|by apply module_id_inj].
  - pose proof (sp_module _ Hs f' s' _ Hf' Hin' Hd') as H. by rewrite is_module_id_module in H.
  - subst id. pose proof (sp_module _ Hs f s _ Hf Hin Hd) as H. by rewrite is_module_id_module in H.
  - by eapply (sp_ids _ Hs f f' s s').
Qed.

Lemma materialize_files_index files b :
  NoDup (fs_graph_path <$> files) →
  (∀ f f' id, f ∈ files → f' ∈ files → id ∈ own_ids f → id ∈ own_ids f' → f = f') →
  (∀ f id, f ∈ files → id ∈ own_ids f → nodes (layer b) !! id = None) →
  (∀ f, f ∈ files → b_file_to_nodes b !! fs_graph_path f = None) →
  let b' := materialize_files files b in
  (∀ f, f ∈ files → b_file_to_nodes b' !! fs_graph_path f = b_file_to_nodes (alone f) !! fs_graph_path f) ∧
  (∀ g, g ∉ fs_graph_path <$> files → b_file_to_nodes b' !! g = b_file_to_nodes b !! g) ∧
  (∀ f id, f ∈ files → id ∈ own_ids f → nodes (layer b') !! id = nodes (layer (alone f)) !! id) ∧
  (∀ id, (∀ f, f ∈ files → id ∉ own_ids f) → nodes (layer b') !! id = nodes (layer b) !! id).
Proof.
  unfold materialize_files. revert b. induction files as [|f files IH]; intros b Hnd Hdis Hnew Hlist; cbn [foldl]; [set_solver|].
  rewrite fmap_cons, NoDup_cons in Hnd. destruct Hnd as [Hf Hnd].
  destruct (materialize_beside f b) as [Hn Hh Ht]; [intros id; apply Hnew; left|apply Hlist; left|].
  set (b1 := materialize_file_nodes _ _ b) in *.
  assert (∀ f', f' ∈ files → fs_graph_path f' ≠ fs_graph_path f) as Hne.
  { intros f' Hf' E. apply Hf. rewrite <- E. apply list_elem_of_fmap. by exists f'. }
  assert (∀ f' id, f' ∈ files → id ∈ own_ids f' → id ∉ own_ids f) as Hown.
  { intros f' id Hf' Hid Hid'. apply (Hne f' Hf'). f_equal. apply (Hdis f' f id); [by right|by left|done..]. }
  assert (∀ id, id ∉ own_ids f → nodes (layer b1) !! id = nodes (layer b) !! id) as Hout.
  { intros id Hid. rewrite Hn, lookup_union_r; [done|]. apply eq_None_not_Some. intros [n Hx].
    by apply Hid, (alone_node f id n). }
  destruct (IH b1) as (H1 & H2 & H3 & H4).
  { done. }
  { intros f1 f2 id Hf1 Hf2. apply Hdis; by right. }
  { intros f' id Hf' Hid. rewrite (Hout id (Hown f' id Hf' Hid)). apply (Hnew f'); [by right|done]. }
  { intros f' Hf'. rewrite Ht by by apply Hne. apply Hlist. by right. }
  split; [|split; [|split]].
  - intros x [->|Hx]%elem_of_cons; [by rewrite H2|by apply H1].
  - intros g. rewrite fmap_cons, not_elem_of_cons. intros [Hg1 Hg2]. rewrite H2 by done. by apply Ht.
  - intros x id [->|Hx]%elem_of_cons Hid; [|by apply H3]. rewrite H4 by (intros f' Hf' Hid'; by apply (Hown f' id)).
    apply elem_of_alone_ids in Hid. unfold alone_ids in Hid.
    apply (listed_iff False) in Hid as (n & Hx & _); [|apply alone_inv]. rewrite Hn, Hx. by rewrite (lookup_union_Some_l _ _ _ _ Hx).
  - intros id Hid. rewrite H4 by (intros f' Hf'; apply Hid; by right). apply Hout, Hid. left.
Qed.

(** ** The index of a set of files *)

Record index_of (Fs : FileSymbols → Prop) (pf : gset string) (b : Builder) : Prop := {
  io_inv : builder_inv True b;
  io_names : names_ok b;
  io_cached : ∀ g, is_Some (range_cache b !! g) ↔ is_Some (b_file_to_nodes b !! g);
  io_files : project_files b = pf;
  io_listing : ∀ f, Fs f → b_file_to_nodes b !! fs_graph_path f = b_file_to_nodes (alone f) !! fs_graph_path f;
  io_only : ∀ g, is_Some (b_file_to_nodes b !! g) → ∃ f, Fs f ∧ fs_graph_path f = g;
  io_nodes : ∀ f id, Fs f → id ∈ own_ids f → nodes (layer b) !! id = nodes (layer (alone f)) !! id;
}.

Lemma inv_weaken b : builder_inv True b → builder_inv False b.
Proof. intros []. split; done. Qed.

Section index_of.
Context (Fs : FileSymbols → Prop) (pf : gset string) (b : Builder) (Hb : index_of Fs pf b).

Lemma io_ids f : Fs f → ids_of b (fs_graph_path f) = alone_ids f.
Proof. intros Hf. unfold ids_of, alone_ids, ids_of. by rewrite (io_listing _ _ _ Hb). Qed.

Lemma io_listed_iff g : is_Some (b_file_to_nodes b !! g) ↔ ∃ f, Fs f ∧ fs_graph_path f = g.
Proof.
  split; [apply (io_only _ _ _ Hb)|]. intros (f & Hf & <-).
  assert (make_module_durable_id (fs_graph_path f) ∈ ids_of b (fs_graph_path f)) as H.
  { rewrite io_ids, elem_of_alone_ids, elem_of_own_ids by done. by left. }
  unfold ids_of in H. destruct (b_file_to_nodes b !! fs_graph_path f); [done|by apply not_elem_of_nil in H].
Qed.

(** A listed id belongs to a file of the set. *)
Lemma io_listed g id : id ∈ ids_of b g ↔ ∃ f, Fs f ∧ fs_graph_path f = g ∧ id ∈ own_ids f.
Proof.
  split.
  - intros Hid. assert (is_Some (b_file_to_nodes b !! g)) as (f & Hf & <-)%io_listed_iff.
    { unfold ids_of in Hid. destruct (b_file_to_nodes b !! g); [done|by apply not_elem_of_nil in Hid]. }
    exists f. by rewrite io_ids, elem_of_alone_ids in Hid.
  - intros (f & Hf & <- & Hid). by rewrite io_ids, elem_of_alone_ids.
Qed.

(** The nodes that are not stubs are the ids of the files. *)
Lemma io_node id : stub_id id = false → is_Some (nodes (layer b) !! id) ↔ ∃ f, Fs f ∧ id ∈ own_ids f.
Proof.
  intros Hid. pose proof (io_inv _ _ _ Hb) as Hi. split.
  - intros [n Hn]. pose proof (bi_placed _ b Hi id n Hn) as Hp. rewrite (bi_stubs _ b Hi I id n Hn), Hid in Hp.
    apply io_listed in Hp as (f & Hf & _ & Ho). by exists f.
  - intros (f & Hf & Ho). assert (id ∈ ids_of b (fs_graph_path f)) as H by (rewrite io_listed; by exists f).
    destruct (bi_listed _ b Hi _ _ H) as (n & Hn & _). by exists n.
Qed.

Lemma io_ranges g : default [] (range_cache b !! g) = file_ranges b g.
Proof.
  destruct (range_cache b !! g) as [c|] eqn:E; [by apply (bi_ranges _ b (io_inv _ _ _ Hb))|].
  unfold file_ranges. destruct (b_file_to_nodes b !! g) as [ids|] eqn:Ei; [|done].
  destruct (io_cached _ _ _ Hb g) as [_ H]. rewrite E, Ei in H. by destruct H.
Qed.
End index_of.

(** The lookups in a file are the same in two indexes that both have it, or
    both lack it. *)
Section same_file.
Context (Fs Fs' : FileSymbols → Prop) (pf pf' : gset string) (b b' : Builder).
Context (Hb : index_of Fs pf b) (Hb' : index_of Fs' pf' b').

Definition same_file (g : string) : Prop := ∀ f, fs_graph_path f = g → Fs f ↔ Fs' f.

Lemma same_file_listing g : same_file g → b_file_to_nodes b' !! g = b_file_to_nodes b !! g.
Proof.
  intros Hg. pose proof (io_listed_iff _ _ _ Hb g) as H. pose proof (io_listed_iff _ _ _ Hb' g) as H'.
  destruct (b_file_to_nodes b !! g) as [ids|] eqn:E.
  - destruct H as [(f & Hf & <-) _]; [done|]. rewrite (io_listing _ _ _ Hb') by by apply Hg.
    by rewrite <- E, (io_listing _ _ _ Hb).
  - apply eq_None_not_Some. intros (f & Hf & <-)%H'. destruct H as [_ H]. destruct H as [? [=]]. exists f. split; [by apply Hg|done].
Qed.

Lemma same_file_nodes g id : same_file g → id ∈ ids_of b g → nodes (layer b') !! id = nodes (layer b) !! id.
Proof.
  intros Hg (f & Hf & Hfg & Ho)%(io_listed _ _ _ Hb).
  by rewrite (io_nodes _ _ _ Hb f id Hf Ho), (io_nodes _ _ _ Hb' f id) by (done || by apply Hg).
Qed.

Lemma same_file_find g x : same_file g → find_symbol_in_file b' g x = find_symbol_in_file b g x.
Proof.
  intros Hg. unfold find_symbol_in_file.
  pose proof (io_names _ _ _ Hb' g x) as Hn'. pose proof (io_names _ _ _ Hb g x) as Hn.
  rewrite Hn', Hn. unfold ids_of. rewrite (same_file_listing g Hg). fold (ids_of b g).
  rewrite (replayed_ext (layer b) (layer b')) by (intros id Hid; by apply same_file_nodes with g).
  rewrite (list_find_ext_in (node_named (layer b') x) (node_named (layer b) x)); [done|].
  intros id Hid. unfold node_named. by rewrite (same_file_nodes g id).
Qed.

Lemma same_file_module g :
  same_file g → plain_path g → separate Fs → separate Fs' →
  is_Some (nodes (layer b') !! make_module_durable_id g) ↔ is_Some (nodes (layer b) !! make_module_durable_id g).
Proof.
  intros Hg Hp Hs Hs'. rewrite (io_node _ _ _ Hb'), (io_node _ _ _ Hb) by done.
  assert (∀ F f, separate F → F f → make_module_durable_id g ∈ own_ids f → fs_graph_path f = g) as Hown.
  { intros F f HF Hf [?%module_id_inj|(s & Hin & Hd)]%elem_of_own_ids; [done|].
    pose proof (sp_module _ HF f s _ Hf Hin Hd) as H. by rewrite is_module_id_module in H. }
  split; intros (f & Hf & Ho); exists f; (split; [apply Hg; [|done]|done]);
    [by apply (Hown Fs')|by apply (Hown Fs)].
Qed.

Lemma same_file_enclosing g r :
  same_file g → plain_path g → separate Fs → separate Fs' → find_enclosing_symbol b' g r = find_enclosing_symbol b g r.
Proof.
  intros Hg Hp Hs Hs'. unfold find_enclosing_symbol. rewrite (io_ranges _ _ _ Hb'), (io_ranges _ _ _ Hb).
  rewrite (bool_decide_ext _ _ (same_file_module g Hg Hp Hs Hs')).
  assert (file_ranges b' g = file_ranges b g) as ->; [|done]. unfold file_ranges.
  rewrite (same_file_listing g Hg). fold (ids_of b g). f_equal.
  apply omap_ext_in. intros id Hid. unfold cache_entry. by rewrite (same_file_nodes g id).
Qed.

(** Two indexes agree on the files they share. *)
Lemma same_files_agree (G : string → Prop) :
  (∀ g, G g → same_file g) → (∀ g, G g → g ∈ pf' ↔ g ∈ pf) → separate Fs → separate Fs' → agrees G b b'.
Proof.
  intros HG Hpf Hs Hs'. split.
  - intros g x Hg. by apply same_file_find, HG.
  - intros g x p Hg Hf. apply (find_symbol_listed True b g x p (io_inv _ _ _ Hb)) in Hf.
    destruct (bi_listed _ b (io_inv _ _ _ Hb) g p Hf) as (n & Hn & _).
    split; [by exists n|]. rewrite (same_file_nodes g p) by auto. by exists n.
  - intros g r Hg Hp. apply same_file_enclosing; auto.
  - intros g Hg Hp. apply same_file_module; auto.
  - intros g Hg. rewrite (io_files _ _ _ Hb), (io_files _ _ _ Hb'). auto.
  - intros g Hg. by rewrite (same_file_listing g) by auto.
Qed.
End same_file.

(** ** Adding files to an index *)

Definition file_ok (f : FileSymbols) : Prop := plain_file f ∧ ∀ s, s ∈ fs_symbols f → named_symbol s.

Lemma own_plain f id : plain_file f → id ∈ own_ids f → stub_id id = false.
Proof. intros [Hp Hids] [->|(s & Hs & Hd)]%elem_of_own_ids; [exact Hp|by eapply Hids]. Qed.

(** The containment edges of a builder end in its nodes. *)
Definition contained (b : Builder) : Prop :=
  ∀ e, e ∈ edges (layer b) → is_containment (ekind e) → is_Some (nodes (layer b) !! target e).

Lemma steps_names F b b' :
  rtc (bstep F named_symbol False) b b' → builder_inv False b → names_ok b → names_ok b'.
Proof.
  intros Hst Hb Hn. apply (rtc_inv _ (λ b, builder_inv False b ∧ names_ok b) _ _) with (2:=Hst); [|done].
  intros x y [Hx Hnx] H. split; [|by eapply bstep_names].
  eapply (steps_inv F named_symbol False); [intros []..|by apply rtc_once|done].
Qed.

Lemma materialize_files_fields files b :
  range_cache (materialize_files files b) = range_cache b ∧ project_files (materialize_files files b) = project_files b.
Proof.
  assert (∀ g symbols b, range_cache (materialize_file_nodes g symbols b) = range_cache b ∧
    project_files (materialize_file_nodes g symbols b) = project_files b) as H.
  { intros g symbols b1. unfold materialize_file_nodes.
    assert (range_cache (materialize_module g b1) = range_cache b1 ∧ project_files (materialize_module g b1) = project_files b1)
      as [<- <-] by (unfold materialize_module; by case_bool_decide).
    generalize (materialize_module g b1). clear. induction symbols as [|s symbols IH]; intros b; cbn [foldl]; [done|].
    destruct (IH (materialize_symbol g b s)) as [-> ->]. unfold materialize_symbol.
    destruct (s_durable_id s); [by case_bool_decide|done]. }
  unfold materialize_files. revert b. induction files as [|f files IH]; intros b; cbn [foldl]; [done|].
  destruct (IH (materialize_file_nodes (fs_graph_path f) (fs_symbols f) b)) as [-> ->]. apply H.
Qed.

Section add_files.
Context (root : string) (pv : ProjectView) (Fc : FileSymbols → Prop) (pf : gset string) (b0 : Builder).
Context (Hb0 : index_of Fc pf b0) (files : list FileSymbols).
Context (Hsep : separate (λ f, Fc f ∨ f ∈ files)) (Hnd : NoDup (fs_graph_path <$> files)).
Context (Hnew : ∀ f f', f ∈ files → Fc f' → fs_graph_path f ≠ fs_graph_path f').
Context (Hok : ∀ f, f ∈ files → file_ok f).

Let M0 := materialize_files files b0.
Let M := contain_files files M0.
Let B := run_build_passes root pv files b0.

Lemma added_unlisted f : f ∈ files → b_file_to_nodes b0 !! fs_graph_path f = None.
Proof.
  intros Hf. apply eq_None_not_Some. intros (f' & Hf' & E)%(io_only _ _ _ Hb0). by apply (Hnew f f').
Qed.

Lemma added_new f id : f ∈ files → id ∈ own_ids f → nodes (layer b0) !! id = None.
Proof.
  intros Hf Hid. apply eq_None_not_Some.
  intros (f' & Hf' & Hid')%(io_node _ _ _ Hb0); [|by eapply own_plain; [apply Hok|]].
  apply (Hnew f f'); [done..|]. f_equal. apply (separate_own _ f f' id Hsep); auto.
Qed.

Lemma added_index :
  (∀ f, f ∈ files → b_file_to_nodes M0 !! fs_graph_path f = b_file_to_nodes (alone f) !! fs_graph_path f) ∧
  (∀ g, g ∉ fs_graph_path <$> files → b_file_to_nodes M0 !! g = b_file_to_nodes b0 !! g) ∧
  (∀ f id, f ∈ files → id ∈ own_ids f → nodes (layer M0) !! id = nodes (layer (alone f)) !! id) ∧
  (∀ id, (∀ f, f ∈ files → id ∉ own_ids f) → nodes (layer M0) !! id = nodes (layer b0) !! id).
Proof.
  apply materialize_files_index; [done| |apply added_new|apply added_unlisted].
  intros f f' id Hf Hf'. apply (separate_own _ f f' id Hsep); auto.
Qed.

Lemma added_cache f : f ∈ files → range_cache b0 !! fs_graph_path f = None.
Proof.
  intros Hf. apply eq_None_not_Some. rewrite (io_cached _ _ _ Hb0), added_unlisted by done. by intros [].
Qed.

(** All nodes and caches of the index stay. *)
Lemma added_kept id n : nodes (layer b0) !! id = Some n → nodes (layer M0) !! id = Some n.
Proof.
  intros Hn. destruct added_index as (_ & _ & _ & H). rewrite H; [done|].
  intros f Hf Hid. by rewrite (added_new f id Hf Hid) in Hn.
Qed.

Context (Hplain : plain_answers root pv) (Hcont : contained b0).

Lemma added_inv : builder_inv True M0 ∧ builder_inv True M.
Proof.
  apply contained_inv; [apply Hb0|intros f Hf; by apply Hok|]. intros f. apply added_cache.
Qed.

Lemma added_contained : contained M0.
Proof.
  intros e. unfold M0. rewrite materialize_files_edges. intros He Hk. destruct (Hcont e He Hk) as [n Hn].
  exists n. by apply added_kept.
Qed.

Lemma added_grown : grown M B.
Proof.
  apply relate_exact; [apply added_inv|done|intros f Hf; by apply Hok|]. exact added_contained.
Qed.

Lemma added_steps : rtc (bstep (list_to_set (fs_graph_path <$> files)) named_symbol False) b0 B.
Proof.
  set (F := list_to_set (fs_graph_path <$> files) : gset string).
  apply run_build_passes_steps; [intros []|intros []| |apply inv_weaken, Hb0|].
  - intros f Hf. split; [apply elem_of_list_to_set, list_elem_of_fmap; eauto|]. by apply Hok.
  - intros g (f & -> & Hf)%elem_of_list_to_set%list_elem_of_fmap. by apply added_cache.
Qed.

Lemma added_B_inv : builder_inv True B.
Proof.
  set (F := list_to_set (fs_graph_path <$> files) : gset string).
  assert (True → ∀ f, f ∈ F → stub_id (make_module_durable_id f) = false) as HFp.
  { intros _ g (f & -> & Hf)%elem_of_list_to_set%list_elem_of_fmap. by apply Hok. }
  assert (True → ∀ s did, plain_symbol True s → s_durable_id s = Some did → stub_id did = false) as Hpl
    by (intros H s did; by apply plain_symbol_elim).
  eapply (steps_inv F (plain_symbol True) True HFp Hpl); [|apply Hb0].
  apply (run_build_passes_steps F (plain_symbol True) True HFp Hpl); [|apply Hb0|].
  - intros f Hf. split; [apply elem_of_list_to_set, list_elem_of_fmap; eauto|]. intros s Hs _ did.
    by apply (proj2 (proj1 (Hok f Hf))).
  - intros g (f & -> & Hf)%elem_of_list_to_set%list_elem_of_fmap. by apply added_cache.
Qed.

(** Running the passes over new files gives the index with those files. *)
Lemma passes_index : index_of (λ f, Fc f ∨ f ∈ files) pf B.
Proof.
  destruct added_index as (H1 & H2 & H3 & H4). pose proof added_grown as Hg.
  destruct (contain_files_exact M0 files M0) as ([Hn _ Hl Hpf] & Hc & _); [by split|]. fold M in Hn, Hl, Hpf, Hc.
  assert (∀ g, b_file_to_nodes B !! g = b_file_to_nodes M0 !! g) as EB by (intros g; by rewrite (g_listing M B Hg), Hl).
  assert (∀ f, Fc f → fs_graph_path f ∉ fs_graph_path <$> files) as Hout.
  { intros f Hf (f' & E & Hf')%list_elem_of_fmap. by apply (Hnew f' f). }
  split.
  - apply added_B_inv.
  - eapply steps_names; [apply added_steps|apply inv_weaken, Hb0|apply Hb0].
  - intros g. rewrite EB, (g_cache M B Hg), Hc. case_bool_decide as Hin.
    + split; [|done]. intros _. apply list_elem_of_fmap in Hin as (f & -> & Hf). rewrite H1 by done.
      assert (make_module_durable_id (fs_graph_path f) ∈ alone_ids f) as H by (apply elem_of_alone_ids, elem_of_own_ids; by left).
      unfold alone_ids, ids_of in H. destruct (b_file_to_nodes (alone f) !! _); [done|by apply not_elem_of_nil in H].
    + rewrite H2 by done. unfold M0. rewrite (proj1 (materialize_files_fields _ _)). apply (io_cached _ _ _ Hb0).
  - rewrite (g_files M B Hg), Hpf. unfold M0. rewrite (proj2 (materialize_files_fields _ _)). apply Hb0.
  - intros f Hf. rewrite EB. destruct Hf as [Hf|Hf]; [|by apply H1]. rewrite H2 by by apply Hout. by apply (io_listing _ _ _ Hb0).
  - intros g. rewrite EB. destruct (decide (g ∈ fs_graph_path <$> files)) as [Hin|Hin].
    + intros _. apply list_elem_of_fmap in Hin as (f & -> & Hf). exists f. auto.
    + rewrite H2 by done. intros (f & Hf & <-)%(io_only _ _ _ Hb0). exists f. auto.
  - intros f id Hf Hid.
    assert (nodes (layer M0) !! id = nodes (layer (alone f)) !! id) as E.
    { destruct Hf as [Hf|Hf]; [|by apply H3]. rewrite H4; [by apply (io_nodes _ _ _ Hb0)|].
      intros f' Hf' Hid'. apply (Hnew f' f); [done..|]. f_equal. apply (separate_own _ f' f id Hsep); auto. }
    rewrite <- E. assert (id ∈ alone_ids f) as Ha by by apply elem_of_alone_ids.
    apply (listed_iff False) in Ha as (n & Hx & _); [|apply alone_inv]. rewrite E, Hx.
    eapply lookup_weaken; [|apply (g_nodes M B Hg)]. by rewrite Hn, E.
Qed.
End add_files.

(** ** Seeding and eviction *)

Lemma set_files_index Fs pf pf' b : index_of Fs pf b → index_of Fs pf' (set_project_files pf' b).
Proof. intros [H1 H2 H3 H4 H5 H6 H7]. split; try done. by destruct H1. Qed.

Lemma sync_index Fs pf b : index_of Fs pf b → index_of Fs pf (sync_file_to_nodes b).
Proof. intros [H1 H2 H3 H4 H5 H6 H7]. split; try done. by destruct H1. Qed.

Lemma seeded_cached prev g :
  is_Some (range_cache (seeded prev) !! g) ↔ is_Some (file_to_nodes prev !! g).
Proof.
  unfold seeded. set (b0 := mkBuilder prev ∅ (file_to_nodes prev) ∅ ∅).
  destruct (seed_files_spec b0 (btree_keys (file_to_nodes prev))) as (_ & _ & _ & _ & Hr); [apply NoDup_btree_keys|done|].
  rewrite Hr, <- elem_of_btree_keys. case_decide; [done|]. by split; [intros []|].
Qed.

(** Seeding a builder from a stored layer restores the index, when the layer has
    the project nodes and the listing of the index. *)
Lemma seeded_index Fs pf pf' b prev :
  index_of Fs pf b → layer_wf prev → stubs_apart prev → file_to_nodes prev = b_file_to_nodes b →
  (∀ id n, n_external n = false → nodes prev !! id = Some n ↔ nodes (layer b) !! id = Some n) →
  index_of Fs pf' (set_project_files pf' (seeded prev)).
Proof.
  intros Hb Hwf Hst Hf Hnodes. destruct (seeded_spec prev) as (Hl & Hl' & Hn & _).
  apply (set_files_index Fs (project_files (seeded prev))). rewrite Hf in Hl'. split.
  - by apply seeded_inv.
  - intros f x. by rewrite Hn, Hl.
  - intros g. by rewrite seeded_cached, Hf, Hl'.
  - done.
  - intros f HF. rewrite Hl'. by apply (io_listing _ _ _ Hb).
  - intros g. rewrite Hl'. apply (io_only _ _ _ Hb).
  - intros f id HF Hid. rewrite Hl. pose proof (io_nodes _ _ _ Hb f id HF Hid) as E.
    apply elem_of_alone_ids in Hid. apply (listed_iff False) in Hid as (n & Hx & _ & He); [|apply alone_inv].
    rewrite Hx in E |- *. by apply Hnodes.
Qed.

(** Evicting a file takes it out of the index. *)
Lemma evict_index Fs pf b g :
  index_of Fs pf b → index_of (λ f, Fs f ∧ fs_graph_path f ≠ g) pf (evict_file b g).
Proof.
  intros Hb. pose proof (io_inv _ _ _ Hb) as Hi. destruct (evict_spec b g) as (Hn & _ & _ & Hids & Hr & Hnm).
  assert (∀ f, b_file_to_nodes (evict_file b g) !! f = if decide (f = g) then None else b_file_to_nodes b !! f) as Hl.
  { intros f. simpl. rewrite lookup_delete. by repeat case_decide. }
  assert (∀ f id, f ≠ g → id ∈ ids_of b f → nodes (layer (evict_file b g)) !! id = nodes (layer b) !! id) as Hkeep.
  { intros f id Hne Hid. rewrite Hn, decide_False; [done|]. intros Hid'.
    apply (listed_iff _ _ _ _ Hi) in Hid as (n & E & Hf & _), Hid' as (m & E' & Hf' & _). congruence. }
  split.
  - by apply evict_inv.
  - intros f x. rewrite Hnm, Hids. case_decide as Hf; [done|]. rewrite (io_names _ _ _ Hb f x).
    f_equal. symmetry. apply replayed_ext. intros id Hid. by apply (Hkeep f).
  - intros f. rewrite Hr, Hl. case_decide; [by split; intros []|]. apply (io_cached _ _ _ Hb).
  - apply (io_files _ _ _ Hb).
  - intros f [Hf Hne]. rewrite Hl, decide_False by done. by apply (io_listing _ _ _ Hb).
  - intros f. rewrite Hl. case_decide as Hf; [by intros []|]. intros (x & Hx & <-)%(io_only _ _ _ Hb). by exists x.
  - intros f id [Hf Hne] Hid. rewrite (Hkeep (fs_graph_path f)) by (done || (rewrite (io_listed _ _ _ Hb); by exists f)).
    by apply (io_nodes _ _ _ Hb).
Qed.

Lemma index_of_iff Fs Fs' pf b : (∀ f, Fs f ↔ Fs' f) → index_of Fs pf b → index_of Fs' pf b.
Proof.
  intros H [H1 H2 H3 H4 H5 H6 H7]. split; try done.
  - intros f Hf%H. auto.
  - intros g (f & Hf%H & Hg)%H6. by exists f.
  - intros f id Hf%H. auto.
Qed.

Lemma evict_files_index Fs pf b gs :
  index_of Fs pf b → index_of (λ f, Fs f ∧ fs_graph_path f ∉ gs) pf (foldl evict_file b gs).
Proof.
  revert Fs b. induction gs as [|g gs IH]; intros Fs b Hb; cbn [foldl].
  - eapply index_of_iff; [|done]. intros f. split; [|by intros []]. split; [done|apply not_elem_of_nil].
  - eapply index_of_iff; [|by apply IH, evict_index]. intros f. simpl. rewrite not_elem_of_cons. tauto.
Qed.
