(* ===== verification/CodeParity.v ===== *)
(** * The scoped rebuild against the full build

    [build_scoped] in [rust/src/code_layer.rs] is meant to give the layer a full
    build would give.  It does, up to stubs nothing refers to, when the edit is
    local: the engine's answers about the files outside the scope did not change
    and do not lead into the changed files. *)

From Stdlib Require Import NArith Ascii.
From S2P Require Import Prelude Str CodeLayer CodeBuilder EdgeOrder CodeBuilderFacts CodeProducer CodeLookup.
From S2P Require Import CodeAncestors CodeEdges CodeExact CodeIndex.

(** ** Where the edges of a file start *)

Section sources.
Context (root : string) (pv : ProjectView) (Fs : FileSymbols → Prop) (pf : gset string) (B : Builder).
Context (HB : index_of Fs pf B) (Hsep : separate Fs).

Lemma listed_own f id : Fs f → id ∈ ids_of B (fs_graph_path f) → id ∈ own_ids f.
Proof. intros Hf. by rewrite (io_ids _ _ _ HB f Hf), elem_of_alone_ids. Qed.

Lemma found_own f x id : Fs f → find_symbol_in_file B (fs_graph_path f) x = Some id → id ∈ own_ids f.
Proof. intros Hf H%(find_symbol_listed True B _ _ _ (io_inv _ _ _ HB)). by apply listed_own. Qed.

Lemma module_own f : make_module_durable_id (fs_graph_path f) ∈ own_ids f.
Proof. apply elem_of_own_ids. by left. Qed.

Lemma symbol_own f s did : s ∈ fs_symbols f → s_durable_id s = Some did → did ∈ own_ids f.
Proof. intros Hs Hd. apply elem_of_own_ids. right. by exists s. Qed.

Lemma enclosing_own f r id : Fs f → find_enclosing_symbol B (fs_graph_path f) r = Some id → id ∈ own_ids f.
Proof.
  intros Hf. unfold find_enclosing_symbol. destruct (list_find _ _) as [[i [q x]]|] eqn:E.
  - intros [= <-]. apply list_find_Some in E as (Hi%list_elem_of_lookup_2 & _).
    rewrite (io_ranges _ _ _ HB), elem_of_file_ranges in Hi. by apply listed_own; [|apply Hi].
  - case_bool_decide; [|done]. intros [= <-]. apply module_own.
Qed.

(** Containment edges join two ids of the file. *)
Lemma containment_own f s e :
  Fs f → s ∈ fs_symbols f → e ∈ containment_edges B (fs_graph_path f) s → source e ∈ own_ids f ∧ target e ∈ own_ids f.
Proof.
  intros Hf Hs. unfold containment_edges. destruct (s_durable_id s) as [did|] eqn:Ed; [|no_edge].
  destruct (_ && _); [|no_edge]. intros ->%list_elem_of_singleton. simpl. split; [|by eapply symbol_own].
  destruct (s_container_name s) as [cn|]; [|apply module_own].
  destruct (find_symbol_in_file B (fs_graph_path f) cn) as [p|] eqn:E; simpl; [by eapply found_own|apply module_own].
Qed.

Lemma import_source M src tgt r e : e ∈ import_edges M src tgt r → source e = make_module_durable_id src.
Proof.
  unfold import_edges. repeat case_bool_decide; try no_edge; by intros ->%list_elem_of_singleton.
Qed.

Lemma reference_own f e :
  Fs f → e ∈ reference_edges root pv B (fs_graph_path f) (fs_native_path f) → source e ∈ own_ids f.
Proof.
  intros Hf. unfold reference_edges. destruct (pv_file_occurrences _ _) as [occs|]; [|no_edge].
  intros (o & He & _)%list_elem_of_bind. revert He. unfold occurrence_edges. destruct (_ && _).
  { destruct (range_start _). destruct (pv_goto_definition _ _ _ _) as [[|p ps]|]; try no_edge.
    case_bool_decide; [no_edge|]. intros ->%import_source. apply module_own. }
  destruct (o_target_file o) as [raw|], (o_target_name o) as [tn|]; try no_edge.
  destruct (occurrence_node _ _ _ _); [|no_edge].
  destruct (find_enclosing_symbol _ _ _) as [enc|] eqn:Ee; [|no_edge].
  case_bool_decide; [no_edge|]. intros [He|He]%elem_of_app; revert He; case_bool_decide; try no_edge.
  - intros ->%list_elem_of_singleton. by eapply enclosing_own.
  - intros ->%import_source. apply module_own.
Qed.

Lemma inherits_own f s e :
  s ∈ fs_symbols f → e ∈ inherits_edges_of root pv B (fs_native_path f) s → source e ∈ own_ids f.
Proof.
  intros Hs. unfold inherits_edges_of. case_bool_decide; [|no_edge].
  destruct (s_durable_id s) as [did|] eqn:Ed; [|no_edge]. case_bool_decide; [|no_edge].
  destruct (range_start _). destruct (pv_supertypes _ _ _ _); [|no_edge].
  intros (st & _ & (t & _ & ->)%fmap_Some)%list_elem_of_omap. by eapply symbol_own.
Qed.

Lemma override_own f l s e :
  e ∈ override_edges B l (fs_graph_path f) (fs_symbols f) s → source e ∈ own_ids f ∧ ekind e = Overrides.
Proof.
  unfold override_edges. case_bool_decide; [|no_edge]. destruct (_ ≫= _) as [ms|]; [|no_edge].
  intros (m & [_ Hm]%list_elem_of_filter & He)%list_elem_of_omap.
  destruct (ms !! s_name m); [|done]. destruct (s_durable_id m) as [d|] eqn:Ed; [|done].
  case_bool_decide; [|done]. injection He as <-. split; [by eapply symbol_own|done].
Qed.

(** A reference to a symbol of another file comes with an import of the file. *)
Lemma reference_imports f e :
  Fs f → (∀ f, Fs f → plain_file f) → e ∈ reference_edges root pv B (fs_graph_path f) (fs_native_path f) →
  ekind e = References → stub_id (target e) = false →
  ∃ tf r, target e ∈ ids_of B tf ∧
    (tf = fs_graph_path f ∨
     mkEdge (make_module_durable_id (fs_graph_path f)) (make_module_durable_id tf) Imports None
       (Some (fs_graph_path f)) (Some r) ∈ reference_edges root pv B (fs_graph_path f) (fs_native_path f)).
Proof.
  intros Hf Hp He Hk Hst. assert (∀ g, Fs g → is_Some (nodes (layer B) !! make_module_durable_id (fs_graph_path g))) as Hmod.
  { intros g Hg. apply (io_node _ _ _ HB); [by apply Hp|]. exists g. split; [done|apply module_own]. }
  revert He. unfold reference_edges. destruct (pv_file_occurrences _ _) as [occs|]; [|no_edge].
  intros (o & He & Ho)%list_elem_of_bind. assert (e ∈ occurrence_edges root pv B (fs_graph_path f) (fs_native_path f) o) as He' by done.
  revert He. unfold occurrence_edges at 1. destruct (_ && _) eqn:Eg.
  { destruct (range_start _). destruct (pv_goto_definition _ _ _ _) as [[|p ps]|]; try no_edge.
    destruct (bool_decide (_ = fs_graph_path f)); [no_edge|]. intros H%import_edges_kind. congruence. }
  destruct (o_target_file o) as [raw|] eqn:Eraw, (o_target_name o) as [tn|] eqn:Etn; try no_edge.
  set (tf := normalize_target root B raw). destruct (occurrence_node B o tf tn) as [did|] eqn:En; [|no_edge].
  destruct (find_enclosing_symbol _ _ _) as [enc|] eqn:Ee; [|no_edge]. destruct (bool_decide (enc = did)) eqn:Hne; [no_edge|].
  intros [He|He]%elem_of_app.
  2: { revert He. destruct (bool_decide (tf = _)); [no_edge|]. intros H%import_edges_kind. congruence. }
  revert He. destruct (bool_decide (o_role o = RImport)) eqn:Hr; [no_edge|]. intros ->%list_elem_of_singleton. simpl in Hst |- *.
  assert (did ∈ ids_of B tf) as Hd.
  { revert En. unfold occurrence_node. destruct (o_target_qualified_name o ≫= _) as [d|] eqn:Eq.
    - intros [= <-]. destruct (o_target_qualified_name o); [|done]. by eapply find_symbol_listed; [apply HB|].
    - destruct (find_symbol_in_file B tf tn) as [d|] eqn:Ef; [intros [= <-]; by eapply find_symbol_listed; [apply HB|]|].
      destruct (bool_decide (tf ∈ _)); [done|]. intros [= <-].
      by rewrite (Is_true_eq_true _ (external_symbol_stub _ _)) in Hst. }
  exists tf, (o_range o). split; [done|]. destruct (decide (tf = fs_graph_path f)) as [|Htf]; [by left|right].
  apply list_elem_of_bind. exists o. split; [|done]. unfold occurrence_edges. rewrite Hr, Eraw, Etn. cbn [andb]. fold tf.
  rewrite En, Ee, Hne. apply elem_of_app. right. rewrite bool_decide_eq_false_2 by done.
  apply (io_listed _ _ _ HB) in Hd as (f' & Hf' & <- & _). unfold import_edges.
  rewrite !bool_decide_eq_true_2 by auto. by apply list_elem_of_singleton.
Qed.

(** The edges of a file other than overrides. *)
Definition base_edges (B : Builder) (f : FileSymbols) : list Edge :=
  (fs_symbols f ≫= containment_edges B (fs_graph_path f)) ++
  reference_edges root pv B (fs_graph_path f) (fs_native_path f) ++
  (fs_symbols f ≫= inherits_edges_of root pv B (fs_native_path f)).

Lemma elem_of_file_edges f e :
  e ∈ file_edges root pv B f ↔
    e ∈ base_edges B f ∨ e ∈ fs_symbols f ≫= override_edges B (layer B) (fs_graph_path f) (fs_symbols f).
Proof. unfold file_edges, base_edges. rewrite !elem_of_app. tauto. Qed.

Lemma base_edges_kind f e : e ∈ base_edges B f → ekind e ≠ Overrides.
Proof.
  unfold base_edges. rewrite !elem_of_app. intros [H|[H|H]].
  - apply list_elem_of_bind in H as (s & H & _). intros E. revert H. unfold containment_edges.
    destruct (s_durable_id s); [|no_edge]. destruct (_ && _); [|no_edge]. intros ->%list_elem_of_singleton.
    simpl in E. by case_bool_decide.
  - apply reference_edges_kind in H as [-> | ->]; done.
  - apply list_elem_of_bind in H as (s & ->%inherits_edges_kind & _). done.
Qed.

Lemma file_edges_own f e : Fs f → e ∈ file_edges root pv B f → source e ∈ own_ids f.
Proof.
  intros Hf. rewrite elem_of_file_edges. unfold base_edges. rewrite !elem_of_app, !list_elem_of_bind.
  intros [[(s & He & Hs)|[He|(s & He & Hs)]]|(s & He & Hs)].
  - by eapply containment_own.
  - by apply reference_own.
  - by eapply inherits_own.
  - by eapply override_own.
Qed.

(** Containment edges of a file come from its containment pass, inheritance
    edges from its inheritance pass. *)
Lemma file_edges_containment f e :
  is_containment (ekind e) → e ∈ file_edges root pv B f ↔ e ∈ fs_symbols f ≫= containment_edges B (fs_graph_path f).
Proof.
  intros Hk. rewrite elem_of_file_edges. unfold base_edges. rewrite !elem_of_app. split; [|tauto].
  intros [[?|[H|H]]|H]; [done|..].
  - apply reference_edges_kind in H as [E|E]; by rewrite E in Hk.
  - apply list_elem_of_bind in H as (s & E%inherits_edges_kind & _). by rewrite E in Hk.
  - apply list_elem_of_bind in H as (s & [_ E]%override_own & _). by rewrite E in Hk.
Qed.

Lemma containment_edges_kind M g s e : e ∈ containment_edges M g s → is_containment (ekind e).
Proof.
  unfold containment_edges. destruct (s_durable_id s); [|no_edge]. destruct (_ && _); [|no_edge].
  intros ->%list_elem_of_singleton. simpl. by case_bool_decide.
Qed.

Lemma file_edges_inherits f e :
  ekind e = Inherits →
  e ∈ file_edges root pv B f ↔ e ∈ fs_symbols f ≫= inherits_edges_of root pv B (fs_native_path f).
Proof.
  intros Hk. rewrite elem_of_file_edges. unfold base_edges. rewrite !elem_of_app. split; [|tauto].
  intros [[H|[H|?]]|H]; [| |done|].
  - apply list_elem_of_bind in H as (s & E%containment_edges_kind & _). by rewrite Hk in E.
  - apply reference_edges_kind in H as [E|E]; by rewrite E in Hk.
  - apply list_elem_of_bind in H as (s & [_ E]%override_own & _). by rewrite E in Hk.
Qed.
End sources.

(** ** The index of a full build *)

(** What the identity layer and the file system promise of a view: no path or id
    looks like a stub's, symbols are not named like modules, every path is listed
    once, and durable ids are those of one symbol's file. *)
Record view_ok (root : string) (pv : ProjectView) : Prop := {
  vo_plain : view_plain root pv;
  vo_answers : plain_answers root pv;
  vo_named : view_named root pv;
  vo_paths : NoDup (listed_files root pv).*1;
  vo_separate : separate (λ f, f ∈ collect_symbols pv (listed_files root pv));
}.

Definition project_set (root : string) (pv : ProjectView) : gset string := list_to_set (listed_files root pv).*1.

Section full.
Context (root : string) (pv : ProjectView) (Hv : view_ok root pv).
Let F := collect_symbols pv (listed_files root pv).

Lemma elem_of_collected listed f :
  f ∈ collect_symbols pv listed ↔
    (fs_graph_path f, fs_native_path f) ∈ listed ∧ pv_document_symbols pv (fs_native_path f) = Some (fs_symbols f).
Proof.
  unfold collect_symbols. rewrite list_elem_of_omap. split.
  - intros ([g n] & Hin & Hf). simpl in Hf. destruct (pv_document_symbols pv n) as [syms|] eqn:E; [|done].
    by injection Hf as <-.
  - intros [Hin Hs]. exists (fs_graph_path f, fs_native_path f). split; [done|]. simpl. rewrite Hs. by destruct f.
Qed.

Lemma collected_ok f : f ∈ F → file_ok f.
Proof.
  intros Hf. split; [by eapply collected_plain; [apply Hv|]|]. intros s Hs. apply elem_of_collected in Hf as [Hl Hd].
  by eapply (vo_named _ _ Hv).
Qed.

Lemma collected_paths listed : NoDup listed.*1 → NoDup (fs_graph_path <$> collect_symbols pv listed).
Proof.
  induction listed as [|[g n] listed IH]; cbn [fmap list_fmap]; intros Hnd; [by apply NoDup_nil_2|].
  apply NoDup_cons in Hnd as [Hg Hnd]. unfold collect_symbols. csimpl.
  destruct (pv_document_symbols pv n) as [syms|]; csimpl; [|by apply IH]. apply NoDup_cons. split; [|by apply IH].
  intros (f & E & [Hf _]%elem_of_collected)%list_elem_of_fmap. simpl in E. subst g. apply Hg, list_elem_of_fmap.
  by exists (fs_graph_path f, fs_native_path f).
Qed.

Lemma empty_index pf : index_of (λ _, False) pf (set_project_files pf Builder_new).
Proof.
  split; [apply empty_inv|by intros f x| |done|by intros f []| |by intros f id []].
  - intros g. simpl. rewrite !lookup_empty. by split; intros [].
  - intros g. simpl. rewrite lookup_empty. by intros [].
Qed.

Lemma full_index : index_of (λ f, f ∈ F) (project_set root pv) (build root pv).
Proof.
  eapply index_of_iff; [|apply sync_index, (passes_index root pv (λ _, False) (project_set root pv))].
  - intros f. simpl. split; [by intros [[]|]|by right].
  - apply empty_index.
  - destruct (vo_separate _ _ Hv) as [H1 H2 H3].
    split; [intros f f' [[]|?] [[]|?]; auto|intros f f' s s' did [[]|?] [[]|?]; eauto|intros f s did [[]|?]; eauto].
  - by apply collected_paths, Hv.
  - by intros f f' _ [].
  - apply collected_ok.
  - apply Hv.
  - intros e []%not_elem_of_empty.
Qed.

Lemma full_edges e :
  e ∈ edges (layer (build root pv)) ↔ ∃ f, f ∈ F ∧ e ∈ file_edges root pv (build root pv) f.
Proof. apply build_edges; apply Hv. Qed.
End full.

(** ** The files a scoped rebuild derives again *)

Section rederived.
Context (root : string) (pv : ProjectView) (Hv : view_ok root pv) (prev : CodeLayer) (seed : gset string).

Lemma elem_of_rederived f :
  f ∈ rederived root pv prev seed ↔
    f ∈ collect_symbols pv (listed_files root pv) ∧ fs_graph_path f ∈ dirty_scope prev seed.
Proof.
  unfold rederived. rewrite !elem_of_collected, list_elem_of_omap.
  assert (∀ g n, (list_to_map (reverse (listed_files root pv)) : gmap string string) !! g = Some n ↔
                 (g, n) ∈ listed_files root pv) as Hm.
  { intros g n. rewrite <- elem_of_list_to_map; [by rewrite elem_of_reverse|].
    rewrite fmap_reverse, reverse_Permutation. apply Hv. }
  split.
  - intros [(g & Hg%elem_of_btree_elements & (n & Hn%Hm & [= -> ->])%fmap_Some) Hs]. done.
  - intros [[Hl Hs] Hd]. split; [|done]. exists (fs_graph_path f). rewrite elem_of_btree_elements. split; [done|].
    by rewrite (proj2 (Hm _ _) Hl).
Qed.

Lemma rederived_paths : NoDup (fs_graph_path <$> rederived root pv prev seed).
Proof.
  apply collected_paths. pose proof (NoDup_btree_elements (dirty_scope prev seed)) as Hnd.
  induction (btree_elements (dirty_scope prev seed)) as [|g gs IH]; csimpl; [by apply NoDup_nil_2|].
  apply NoDup_cons in Hnd as [Hg Hnd]. destruct (list_to_map _ !! g) as [n|]; csimpl; [|by apply IH].
  apply NoDup_cons. split; [|by apply IH]. intros ([x y] & -> & (z & Hz & (w & _ & [= -> ->])%fmap_Some)%list_elem_of_omap)%list_elem_of_fmap.
  done.
Qed.
End rederived.

(** ** A local edit *)

(** [seed] are the changed files, [dirty] the files derived again.  The files
    outside [seed] kept their listing and symbols.  The engine's answers about a
    file outside [dirty] did not change and name no changed file.  The [steady]
    files are closed under inheritance, with unchanged answers about it. *)
Record local_edit (root : string) (pv0 pv1 : ProjectView) (seed dirty : gset string) (steady : string → Prop) : Prop := {
  le_listed : ∀ g native, g ∉ seed → (g, native) ∈ listed_files root pv0 ↔ (g, native) ∈ listed_files root pv1;
  le_symbols : ∀ g native, g ∉ seed → (g, native) ∈ listed_files root pv0 →
    pv_document_symbols pv1 native = pv_document_symbols pv0 native;
  le_answers : ∀ g native, g ∉ dirty → (g, native) ∈ listed_files root pv0 →
    same_answers pv0 pv1 native ∧ answers_in (path_in root (λ p, p ∉ seed)) pv0 native;
  le_clean : ∀ g, g ∉ dirty → steady g;
  le_steady : ∀ g, steady g → g ∉ seed;
  le_supers : ∀ g native, steady g → (g, native) ∈ listed_files root pv0 →
    same_supers pv0 pv1 native ∧ supers_in (path_in root steady) pv0 native;
}.

(** A layer that stands for the full build of a view: it may differ in stubs. *)
Record tracks (root : string) (pv : ProjectView) (l : CodeLayer) : Prop := {
  tk_wf : layer_wf l;
  tk_stubs : stubs_apart l;
  tk_closed : closed l;
  tk_edges : edges l = edges (layer (build root pv));
  tk_listing : file_to_nodes l = file_to_nodes (layer (build root pv));
  tk_nodes : ∀ id n, n_external n = false → nodes l !! id = Some n ↔ nodes (layer (build root pv)) !! id = Some n;
}.

Lemma build_tracks root pv : view_plain root pv → tracks root pv (layer (build root pv)).
Proof.
  intros Hv. destruct (build_spec root pv True (λ _, Hv)) as (Hb & Hwf & Hcl & Hs & _).
  split; try done. split; [exact (bi_stubs _ _ Hb I)|exact (Hs I)].
Qed.

Section parity.
Context (root : string) (pv0 pv1 : ProjectView) (prev : CodeLayer) (seed : gset string) (steady : string → Prop).
Context (Hv0 : view_ok root pv0) (Hv1 : view_ok root pv1).
Let B0 := build root pv0.
Let B1 := build root pv1.
Let dirty := dirty_scope prev seed.
Let F0 := collect_symbols pv0 (listed_files root pv0).
Let F1 := collect_symbols pv1 (listed_files root pv1).
Let R := rederived root pv1 prev seed.
Let b0 := foldl evict_file (set_project_files (project_set root pv1) (seeded prev)) (elements dirty).
Let Bs := run_build_passes root pv1 R b0.
Context (Hprev : tracks root pv0 prev) (Hedit : local_edit root pv0 pv1 seed dirty steady).

Lemma seed_dirty g : g ∉ dirty → g ∉ seed.
Proof. intros Hg. by apply (le_steady _ _ _ _ _ _ Hedit), (le_clean _ _ _ _ _ _ Hedit). Qed.

(** The files outside the seed are the same in both views. *)
Lemma unseeded_same f : fs_graph_path f ∉ seed → f ∈ F0 ↔ f ∈ F1.
Proof.
  intros Hf. unfold F0, F1. rewrite !elem_of_collected. rewrite <- (le_listed _ _ _ _ _ _ Hedit) by done.
  apply and_iff_compat_l_impl. intros Hl. by rewrite (le_symbols _ _ _ _ _ _ Hedit _ _ Hf Hl).
Qed.

Lemma unseeded_project g : g ∉ seed → g ∈ project_set root pv1 ↔ g ∈ project_set root pv0.
Proof.
  intros Hg. unfold project_set. rewrite !elem_of_list_to_set, !list_elem_of_fmap. split.
  - intros ([x n] & -> & Hl). exists (x, n). split; [done|]. by apply (le_listed _ _ _ _ _ _ Hedit).
  - intros ([x n] & -> & Hl). exists (x, n). split; [done|]. by apply (le_listed _ _ _ _ _ _ Hedit).
Qed.

(** Before and after the edit, the builds agree outside the seed. *)
Lemma full_agree : agrees (λ g, g ∉ seed) B0 B1.
Proof.
  eapply same_files_agree; [by apply full_index|by apply full_index| | |apply Hv0|apply Hv1].
  - intros g Hg f <-. by apply unseeded_same.
  - intros g Hg. by apply unseeded_project.
Qed.

Lemma same_own_ids Fs pf Fs' pf' M B f :
  index_of Fs pf M → index_of Fs' pf' B → Fs f → Fs' f → plain_file f → same_ids M B (fs_symbols f).
Proof.
  intros HM HB Hf Hf' Hp s did Hs Hd. pose proof (symbol_own f s did Hs Hd) as Ho.
  rewrite (io_node _ _ _ HB), (io_node _ _ _ HM) by by eapply own_plain. split; intros _; by exists f.
Qed.

Lemma path_in_mono (G G' : string → Prop) p : (∀ g, G g → G' g) → path_in root G p → path_in root G' p.
Proof. intros H [H1 H2]. split; auto. Qed.

Lemma same_ids_full f : f ∈ F0 → f ∈ F1 → same_ids B0 B1 (fs_symbols f).
Proof.
  intros H0 H1. eapply same_own_ids; [by apply full_index|by apply full_index|done|done|].
  eapply collected_plain; [apply Hv0|done].
Qed.

(** The edges of the files outside the scope, but for overrides, are unchanged. *)
Lemma clean_base f : f ∈ F0 → fs_graph_path f ∉ dirty → base_edges root pv1 B1 f = base_edges root pv0 B0 f.
Proof.
  intros Hf Hd. pose proof (seed_dirty _ Hd) as Hs. assert (f ∈ F1) as Hf1 by by apply unseeded_same.
  pose proof (same_ids_full f Hf Hf1) as Hids. pose proof full_agree as Ha.
  destruct (collected_plain root pv0 f (vo_plain _ _ Hv0) Hf) as [Hp _].
  apply elem_of_collected in Hf as [Hl _].
  destruct (le_answers _ _ _ _ _ _ Hedit _ _ Hd Hl) as [Hsa [Hin1 Hin2]].
  destruct (le_supers _ _ _ _ _ _ Hedit _ _ (le_clean _ _ _ _ _ _ Hedit _ Hd) Hl) as [Hss Hsi].
  destruct (vo_answers _ _ Hv0) as [Hpo Hpg]. unfold base_edges. f_equal; [|f_equal].
  - apply bind_ext_in. intros s Hsin. by eapply containment_edges_agree.
  - eapply reference_edges_agree; [exact Ha|done|done|done|]. split.
    + intros occs o raw Ho Hin Hraw. split; [by eapply Hin1|by eapply Hpo].
    + intros ln c ps p Hps Hin. split; [by eapply Hin2|by eapply Hpg].
  - apply bind_ext_in. intros s Hsin. eapply inherits_edges_agree; [exact Ha|done|done|done|].
    intros ln c sts st Hst Hin. eapply path_in_mono; [|by eapply Hsi]. apply (le_steady _ _ _ _ _ _ Hedit).
Qed.
(** *** The scoped rebuild up to its passes *)

Lemma evicted_index : index_of (λ f, f ∈ F0 ∧ fs_graph_path f ∉ dirty) (project_set root pv1) b0.
Proof.
  unfold b0. eapply index_of_iff.
  2: { apply evict_files_index, (seeded_index _ _ (project_set root pv1) B0 prev (full_index root pv0 Hv0)); apply Hprev. }
  intros f. simpl. by rewrite elem_of_elements.
Qed.

Lemma evicted_edges e :
  e ∈ edges (layer b0) ↔ ∃ f, f ∈ F0 ∧ fs_graph_path f ∉ dirty ∧ e ∈ file_edges root pv0 B0 f.
Proof.
  pose proof (tk_wf _ _ _ Hprev) as Hwf. pose proof (tk_stubs _ _ _ Hprev) as Hst.
  destruct (seeded_spec prev) as (Hl & Hl' & _).
  set (bs := set_project_files (project_set root pv1) (seeded prev)).
  assert (builder_inv True bs) as Hbs by (by destruct (seeded_inv True prev Hwf (λ _, Hst))).
  destruct (evict_files_spec True bs (elements dirty) Hbs) as (_ & _ & _ & He & _).
  change (layer b0) with (layer (foldl evict_file bs (elements dirty))). rewrite He.
  assert (edges (layer bs) = edges prev) as -> by (unfold bs; simpl; by rewrite Hl).
  assert (∀ g, ids_of bs g = ids_of B0 g) as Hids by (intros g; unfold bs, ids_of; simpl; by rewrite Hl', (tk_listing _ _ _ Hprev)).
  pose proof (full_index root pv0 Hv0) as Hi. fold B0 F0 in Hi.
  pose proof (full_edges root pv0 Hv0 e) as Hfe. fold B0 F0 in Hfe. rewrite (tk_edges _ _ _ Hprev). fold B0. rewrite Hfe.
  split.
  - intros [(f & Hf & Hin) Hout]. exists f. split; [done|]. split; [|done]. intros Hd.
    apply (Hout (fs_graph_path f)); [by apply elem_of_elements|]. rewrite Hids, (io_listed _ _ _ Hi).
    exists f. split; [done|]. split; [done|]. by eapply file_edges_own.
  - intros (f & Hf & Hd & Hin). split; [by exists f|]. intros g Hg. rewrite Hids, (io_listed _ _ _ Hi).
    intros (f' & Hf' & <- & Ho). rewrite elem_of_elements in Hg.
    assert (f = f') as ->; [|done]. eapply (separate_own _ f f' (source e) (vo_separate _ _ Hv0)); [done..| |done].
    by eapply file_edges_own.
Qed.

Lemma evicted_contained : contained b0.
Proof.
  intros e (f & Hf & Hd & Hin)%evicted_edges Hk. pose proof (full_index root pv0 Hv0) as Hi.
  rewrite file_edges_containment in Hin by done. apply list_elem_of_bind in Hin as (s & Hin & Hs).
  eapply containment_own in Hin as [_ Ht]; [|exact Hi|done|done].
  rewrite (io_node _ _ _ evicted_index); [by exists f|]. eapply own_plain; [|done].
  eapply collected_plain; [apply Hv0|done].
Qed.

Lemma scoped_files f : (f ∈ F0 ∧ fs_graph_path f ∉ dirty) ∨ f ∈ R ↔ f ∈ F1.
Proof.
  unfold R. rewrite elem_of_rederived by done. fold F1 dirty. split.
  - intros [[Hf Hd]|[Hf _]]; [|done]. apply unseeded_same; [by apply seed_dirty|done].
  - intros Hf. destruct (decide (fs_graph_path f ∈ dirty)) as [Hd|Hd]; [by right|left].
    split; [|done]. apply unseeded_same; [by apply seed_dirty|done].
Qed.

Lemma separate_iff (P Q : FileSymbols → Prop) : (∀ f, P f ↔ Q f) → separate P → separate Q.
Proof.
  intros H [H1 H2 H3]. split.
  - intros f f' Hf%H Hf'%H. auto.
  - intros f f' s s' did Hf%H Hf'%H. eauto.
  - intros f s did Hf%H. eauto.
Qed.

(** The conditions on the files derived again, for the lemmas on passes. *)
Lemma rederived_new f f' : f ∈ R → f' ∈ F0 ∧ fs_graph_path f' ∉ dirty → fs_graph_path f ≠ fs_graph_path f'.
Proof. unfold R. rewrite elem_of_rederived by done. intros [_ Hd] [_ Hd'] E. apply Hd'. by rewrite <- E. Qed.

Lemma rederived_ok f : f ∈ R → file_ok f.
Proof. unfold R. rewrite elem_of_rederived by done. intros [Hf _]. by apply (collected_ok root pv1 Hv1). Qed.

Lemma scoped_separate : separate (λ f, (f ∈ F0 ∧ fs_graph_path f ∉ dirty) ∨ f ∈ R).
Proof. eapply separate_iff, Hv1. intros f. symmetry. apply scoped_files. Qed.

Lemma scoped_index : index_of (λ f, f ∈ F1) (project_set root pv1) Bs.
Proof.
  eapply index_of_iff; [apply scoped_files|].
  eapply passes_index; [apply evicted_index|apply scoped_separate|by apply rederived_paths|apply rederived_new|
    apply rederived_ok|apply Hv1|apply evicted_contained].
Qed.

Lemma scoped_edges e :
  e ∈ edges (layer Bs) ↔
    (∃ f, f ∈ F0 ∧ fs_graph_path f ∉ dirty ∧ e ∈ file_edges root pv0 B0 f) ∨
    (∃ f, f ∈ F1 ∧ fs_graph_path f ∈ dirty ∧ e ∈ file_edges root pv1 Bs f).
Proof.
  unfold Bs. rewrite passes_exact.
  - rewrite materialize_files_edges, evicted_edges. fold Bs. apply or_iff_compat_l.
    unfold R. setoid_rewrite elem_of_rederived; [|done]. fold F1 dirty. naive_solver.
  - eapply added_inv; [apply evicted_index|apply rederived_new|apply rederived_ok].
  - apply Hv1.
  - intros f Hf. by apply rederived_ok.
  - eapply added_contained; [apply evicted_index|apply scoped_separate|by apply rederived_paths|apply rederived_new|
      apply rederived_ok|apply evicted_contained].
Qed.
(** *** The scoped rebuild against the full build *)

Lemma scoped_agree : agrees (λ _, True) B1 Bs.
Proof.
  eapply same_files_agree; [by apply full_index|apply scoped_index|by intros g _ f _|done|apply Hv1|apply Hv1].
Qed.

Lemma scoped_same_ids f : f ∈ F1 → same_ids B1 Bs (fs_symbols f).
Proof.
  intros Hf. eapply same_own_ids; [by apply full_index|apply scoped_index|done|done|].
  eapply collected_plain; [apply Hv1|done].
Qed.

Lemma scoped_base f : f ∈ F1 → base_edges root pv1 Bs f = base_edges root pv1 B1 f.
Proof.
  intros Hf. pose proof scoped_agree as Ha. pose proof (scoped_same_ids f Hf) as Hids.
  destruct (collected_plain root pv1 f (vo_plain _ _ Hv1) Hf) as [Hp _]. unfold base_edges. f_equal; [|f_equal].
  - apply bind_ext_in. intros s Hs. by eapply containment_edges_agree.
  - eapply reference_edges_agree; [exact Ha|done|done|done|]. by apply plain_answers_in, Hv1.
  - apply bind_ext_in. intros s Hs. by eapply inherits_edges_agree.
Qed.

Lemma scoped_plain_edges e : ekind e ≠ Overrides → e ∈ edges (layer Bs) ↔ e ∈ edges (layer B1).
Proof.
  intros Hk. rewrite scoped_edges. unfold B1. rewrite full_edges by done. fold F1 B1.
  assert (∀ pv B f, e ∈ file_edges root pv B f ↔ e ∈ base_edges root pv B f) as Hb.
  { intros pv B f. rewrite elem_of_file_edges. split; [|by left].
    intros [?|(s & [_ ?]%override_own & _)%list_elem_of_bind]; done. }
  setoid_rewrite Hb. split.
  - intros [(f & Hf & Hd & He)|(f & Hf & Hd & He)]; exists f.
    + split; [by apply scoped_files; left|]. by rewrite clean_base.
    + split; [done|]. by rewrite <- scoped_base.
  - intros (f & Hf & He). destruct (decide (fs_graph_path f ∈ dirty)) as [Hd|Hd]; [right|left]; exists f.
    + by rewrite scoped_base.
    + assert (f ∈ F0) as Hf0 by (apply unseeded_same; [by apply seed_dirty|done]). by rewrite <- clean_base.
Qed.

Lemma scoped_ancestors did : ancestor_methods (layer Bs) did = ancestor_methods (layer B1) did.
Proof.
  apply (ancestor_methods_ext (λ _, True)); [|done].
  assert (∀ p, children_of (layer Bs) p = children_of (layer B1) p) as Hch.
  { intros p. apply children_of_ext. intros e _ Hk. apply scoped_plain_edges. intros E. by rewrite E in Hk. }
  split; [intros c _; apply parents_of_ext; intros e _ Hk; apply scoped_plain_edges; congruence|done|intros c p _ _; apply Hch|].
  intros c p m _ _. rewrite Hch. intros (e & He & Hk & _ & <-)%elem_of_children_of.
  apply (full_edges root pv1 Hv1) in He as (f & Hf & He). rewrite file_edges_containment in He by done.
  apply list_elem_of_bind in He as (s & He & Hs).
  eapply containment_own in He as [_ Ht]; [|by apply full_index|done|done].
  by rewrite (io_nodes _ _ _ scoped_index f), (io_nodes _ _ _ (full_index root pv1 Hv1) f).
Qed.

Lemma scoped_file_edges f e : f ∈ F1 → e ∈ file_edges root pv1 Bs f ↔ e ∈ file_edges root pv1 B1 f.
Proof.
  intros Hf. rewrite !elem_of_file_edges, scoped_base by done.
  rewrite (bind_ext_in (override_edges Bs (layer Bs) (fs_graph_path f) (fs_symbols f))
    (override_edges B1 (layer B1) (fs_graph_path f) (fs_symbols f))); [done|].
  intros s Hs. eapply override_edges_agree; [apply scoped_agree|done|by apply scoped_same_ids|].
  intros did _ _. apply scoped_ancestors.
Qed.

(** *** The overrides of the files outside the scope *)

Lemma edges_at pv (Hv : view_ok root pv) f e :
  f ∈ collect_symbols pv (listed_files root pv) → source e ∈ own_ids f →
  e ∈ edges (layer (build root pv)) ↔ e ∈ file_edges root pv (build root pv) f.
Proof.
  intros Hf Ho. rewrite full_edges by done. split; [|by exists f]. intros (f' & Hf' & He).
  assert (f = f') as ->; [|done]. eapply (separate_own _ f f' (source e) (vo_separate _ _ Hv)); [done..|].
  by eapply file_edges_own; [apply full_index|..].
Qed.

Lemma edges_source_plain pv (Hv : view_ok root pv) e :
  e ∈ edges (layer (build root pv)) → stub_id (source e) = false.
Proof.
  rewrite full_edges by done. intros (f & Hf & He). eapply own_plain; [by eapply collected_plain; [apply Hv|]|].
  by eapply file_edges_own; [apply full_index|..].
Qed.

(** Stubs, and the ids of steady files. *)
Definition steady_id (c : string) : Prop := stub_id c = true ∨ ∃ f, f ∈ F0 ∧ steady (fs_graph_path f) ∧ c ∈ own_ids f.

Lemma steady_edges c e :
  steady_id c → source e = c → ekind e = Inherits ∨ is_containment (ekind e) →
  e ∈ edges (layer B0) ↔ e ∈ edges (layer B1).
Proof.
  intros [Hc|(f & Hf & Hst & Ho)] <- Hk.
  { split; intros He%edges_source_plain; congruence || done. }
  pose proof (le_steady _ _ _ _ _ _ Hedit _ Hst) as Hs.
  assert (f ∈ F1) as Hf1 by by apply unseeded_same. pose proof (same_ids_full f Hf Hf1) as Hids.
  destruct (collected_plain root pv0 f (vo_plain _ _ Hv0) Hf) as [Hp _].
  unfold B0, B1. rewrite (edges_at pv0 Hv0 f), (edges_at pv1 Hv1 f) by done. fold B0 B1. pose proof full_agree as Ha.
  destruct Hk as [Hk|Hk].
  - rewrite !file_edges_inherits by done.
    assert ((fs_symbols f ≫= inherits_edges_of root pv1 B1 (fs_native_path f)) =
            (fs_symbols f ≫= inherits_edges_of root pv0 B0 (fs_native_path f))) as ->; [|done].
    apply elem_of_collected in Hf as [Hl _]. destruct (le_supers _ _ _ _ _ _ Hedit _ _ Hst Hl) as [Hss Hsi].
    apply bind_ext_in. intros s Hsin. eapply inherits_edges_agree; [exact Ha|done|done|done|].
    intros ln c sts st Hst' Hin. eapply path_in_mono; [|by eapply Hsi]. apply (le_steady _ _ _ _ _ _ Hedit).
  - rewrite !file_edges_containment by done.
    assert ((fs_symbols f ≫= containment_edges B1 (fs_graph_path f)) =
            (fs_symbols f ≫= containment_edges B0 (fs_graph_path f))) as ->; [|done].
    apply bind_ext_in. intros s Hsin. by eapply containment_edges_agree.
Qed.
(** The bases of a steady class are steady. *)
Lemma steady_parent c p : steady_id c → inherits (layer B0) c p → steady_id p.
Proof.
  intros Hc (e & He & Hk & <- & <-). destruct Hc as [Hc|(f & Hf & Hst & Ho)].
  { apply (edges_source_plain pv0 Hv0) in He. congruence. }
  apply (edges_at pv0 Hv0 f e Hf Ho) in He. rewrite file_edges_inherits in He by done.
  apply list_elem_of_bind in He as (s & He & Hs). apply elem_of_collected in Hf as [Hl _].
  destruct (le_supers _ _ _ _ _ _ Hedit _ _ Hst Hl) as [_ Hsi]. revert He. unfold inherits_edges_of.
  case_bool_decide; [|no_edge]. destruct (s_durable_id s) as [did|]; [|no_edge]. case_bool_decide; [|no_edge].
  destruct (range_start _) as [ln col]. destruct (pv_supertypes pv0 _ ln col) as [sts|] eqn:Es; [|no_edge].
  intros (st & Hin & (t & Ht & ->)%fmap_Some)%list_elem_of_omap. simpl. revert Ht. unfold super_node. fold B0.
  pose proof (Hsi ln col sts st Es Hin) as Hpath.
  assert (steady (normalize_target root B0 (t_path st))) as Hsf.
  { destruct Hpath. unfold normalize_target. by case_bool_decide. }
  pose proof (full_index root pv0 Hv0) as Hi. fold B0 F0 in Hi.
  destruct (find_symbol_in_file B0 _ (t_name st)) as [d|] eqn:Ef.
  { intros [= <-]. apply (find_symbol_listed True B0 _ _ _ (io_inv _ _ _ Hi)) in Ef.
    apply (io_listed _ _ _ Hi) in Ef as (f' & Hf' & E & Ho'). right. exists f'. by rewrite E. }
  destruct (infer_package _); [intros [= <-]; left; apply Is_true_true; auto with tyo3|].
  case_bool_decide; [done|]. intros [= <-]. left. apply Is_true_true. auto with tyo3.
Qed.

Lemma steady_lineage : same_lineage steady_id (layer B0) (layer B1).
Proof.
  assert (∀ c p, steady_id c → p ∈ parents_of (layer B0) c → steady_id p) as Hp.
  { intros c p Hc Hp%elem_of_parents_of. by eapply steady_parent. }
  split; [| |intros c p Hc Hin; apply children_of_ext|].
  - intros c Hc. apply parents_of_ext. intros e Hs Hk. apply (steady_edges c); auto.
  - exact Hp.
  - intros e Hs Hk. apply (steady_edges p); [by eapply Hp|done|by right].
  - intros c p m Hc Hin (e & He & Hk & Hs & <-)%elem_of_children_of.
    destruct (Hp c p Hc Hin) as [Hst|(f & Hf & Hst & Ho)].
    { apply (edges_source_plain pv0 Hv0) in He. congruence. }
    subst p. apply (edges_at pv0 Hv0 f e Hf Ho) in He. rewrite file_edges_containment in He by done.
    apply list_elem_of_bind in He as (s & He & Hsin).
    eapply containment_own in He as [_ Ht]; [|by apply full_index|done|done].
    assert (f ∈ F1) as Hf1 by (apply unseeded_same; [by apply (le_steady _ _ _ _ _ _ Hedit)|done]).
    by rewrite (io_nodes _ _ _ (full_index root pv0 Hv0) f), (io_nodes _ _ _ (full_index root pv1 Hv1) f).
Qed.

Lemma clean_file_edges f e :
  f ∈ F0 → fs_graph_path f ∉ dirty → e ∈ file_edges root pv0 B0 f ↔ e ∈ file_edges root pv1 B1 f.
Proof.
  intros Hf Hd. rewrite !elem_of_file_edges, clean_base by done.
  pose proof (seed_dirty _ Hd) as Hs. assert (f ∈ F1) as Hf1 by by apply unseeded_same.
  rewrite (bind_ext_in (override_edges B1 (layer B1) (fs_graph_path f) (fs_symbols f))
    (override_edges B0 (layer B0) (fs_graph_path f) (fs_symbols f))); [done|].
  intros s Hsin. eapply override_edges_agree; [apply full_agree|done|by apply same_ids_full|].
  intros did Hdid _. symmetry. apply (ancestor_methods_ext steady_id); [apply steady_lineage|]. right.
  exists f. split; [done|]. split; [by apply (le_clean _ _ _ _ _ _ Hedit)|].
  by apply (found_own _ _ _ (full_index root pv0 Hv0) f (symbol_qn s)).
Qed.

(** Both builds have the same edges. *)
Lemma parity_edges e : e ∈ edges (layer Bs) ↔ e ∈ edges (layer B1).
Proof.
  rewrite scoped_edges. unfold B1. rewrite full_edges by done. fold F1 B1. split.
  - intros [(f & Hf & Hd & He)|(f & Hf & Hd & He)]; exists f.
    + split; [by apply scoped_files; left|]. by apply clean_file_edges.
    + split; [done|]. by apply scoped_file_edges.
  - intros (f & Hf & He). destruct (decide (fs_graph_path f ∈ dirty)) as [Hd|Hd]; [right|left]; exists f.
    + by rewrite scoped_file_edges.
    + assert (f ∈ F0) as Hf0 by (apply unseeded_same; [by apply seed_dirty|done]). by rewrite clean_file_edges.
Qed.
Lemma scoped_eq : build_scoped root pv1 seed (seeded prev) = sync_file_to_nodes (gc_external_stubs Bs).
Proof.
  destruct (seeded_spec prev) as (Hl & _). unfold build_scoped.
  change (layer (set_project_files ?s (seeded prev))) with (layer (seeded prev)). rewrite Hl. reflexivity.
Qed.

Lemma scoped_listing g : b_file_to_nodes Bs !! g = b_file_to_nodes B1 !! g.
Proof. eapply same_file_listing; [by apply full_index|apply scoped_index|by intros f]. Qed.

(** Every stub an edge of the full build points at is a node of the scoped one. *)
Lemma scoped_stub e :
  e ∈ edges (layer B1) → stub_id (target e) = true → is_Some (nodes (layer Bs) !! target e).
Proof.
  intros He%parity_edges Hs.
  pose proof (added_steps root pv1 _ _ b0 evicted_index R rederived_new rederived_ok) as Hst. fold Bs in Hst.
  destruct (steps_edges _ _ _ _ _ Hst) as [_ H]. destruct (steps_nodes _ _ _ _ _ Hst) as [Hsub _].
  apply H in He as [He|(_ & Ht & _)]; [|done].
  pose proof (tk_wf _ _ _ Hprev) as Hwf. pose proof (tk_stubs _ _ _ Hprev) as Hsa. destruct (seeded_spec prev) as (Hl & _).
  set (bs := set_project_files (project_set root pv1) (seeded prev)).
  assert (builder_inv True bs) as Hbs by (by destruct (seeded_inv True prev Hwf (λ _, Hsa))).
  destruct (evict_files_spec True bs (elements dirty) Hbs) as (_ & _ & Hn & Hev & _).
  apply Hev in He as [He _]. unfold bs in He. simpl in He. rewrite Hl in He.
  destruct (tk_closed _ _ _ Hprev e He) as [_ [n Hnt]]. exists n. eapply lookup_weaken; [|exact Hsub]. apply Hn.
  split; [unfold bs; simpl; by rewrite Hl|]. left. by rewrite (proj1 Hsa _ _ Hnt).
Qed.

Lemma scoped_nodes id n :
  n_external n = false → nodes (layer Bs) !! id = Some n ↔ nodes (layer B1) !! id = Some n.
Proof.
  intros Hx. pose proof scoped_index as Hs. pose proof (full_index root pv1 Hv1) as Hf. fold B1 F1 in Hf.
  assert (∀ (M M' : Builder), index_of (λ f, f ∈ F1) (project_set root pv1) M →
    index_of (λ f, f ∈ F1) (project_set root pv1) M' → nodes (layer M) !! id = Some n → nodes (layer M') !! id = Some n) as H.
  { intros M M' HM HM' Hn. pose proof (bi_placed _ M (io_inv _ _ _ HM) id n Hn) as Hp. rewrite Hx in Hp.
    apply (io_listed _ _ _ HM) in Hp as (f & Hf' & _ & Ho).
    by rewrite (io_nodes _ _ _ HM' f id Hf' Ho), <- (io_nodes _ _ _ HM f id Hf' Ho). }
  split; by apply H.
Qed.

Lemma scoped_dom id :
  is_Some (nodes (layer (gc_external_stubs Bs)) !! id) ↔ is_Some (nodes (layer (gc_external_stubs B1)) !! id).
Proof.
  destruct (gc_spec Bs) as [_ Hs]. destruct (gc_spec B1) as [_ H1]. cbv zeta in *.
  pose proof (io_inv _ _ _ scoped_index) as Is. pose proof (io_inv _ _ _ (full_index root pv1 Hv1)) as I1. fold B1 in I1.
  destruct (build_spec root pv1 True (λ _, vo_plain _ _ Hv1)) as (_ & _ & Hcl & _).
  split; intros [n Hn]; [apply Hs in Hn as [Hn Hr]|apply H1 in Hn as [Hn Hr]]; destruct (n_external n) eqn:Hx.
  - destruct (Hr eq_refl) as (e & He%parity_edges & <-). destruct (Hcl e He) as [_ [m Hm]]. exists m.
    apply H1. split; [exact Hm|]. intros _. by exists e.
  - exists n. apply H1. split; [by apply scoped_nodes|congruence].
  - destruct (Hr eq_refl) as (e & He & <-).
    destruct (scoped_stub e He) as [m Hm]; [by rewrite <- (bi_stubs _ _ I1 I _ _ Hn)|]. exists m.
    apply Hs. split; [exact Hm|]. intros _. exists e. split; [by apply parity_edges|done].
  - exists n. apply Hs. split; [by apply scoped_nodes|congruence].
Qed.
Let l := layer (build_scoped root pv1 seed (seeded prev)).

Lemma scoped_layer_edges : edges l = edges (layer B1).
Proof. apply set_eq. intros e. unfold l. rewrite scoped_eq. apply parity_edges. Qed.

Lemma scoped_layer_nodes id n : n_external n = false → nodes l !! id = Some n ↔ nodes (layer B1) !! id = Some n.
Proof.
  intros Hx. unfold l. rewrite scoped_eq. change (nodes (layer (sync_file_to_nodes ?b))) with (nodes (layer b)).
  destruct (gc_spec Bs) as [_ Hs]. rewrite Hs, scoped_nodes by done. split; [by intros []|]. split; [done|congruence].
Qed.

(** The scoped rebuild again stands for the full build. *)
Lemma scoped_tracks : tracks root pv1 l.
Proof.
  pose proof (tk_wf _ _ _ Hprev) as Hwf.
  destruct (build_spec root pv1 True (λ _, vo_plain _ _ Hv1)) as (_ & _ & Hcl & Hsrc & _).
  split.
  - by apply scoped_wf.
  - split; [|rewrite scoped_layer_edges; exact (Hsrc I)]. intros id n. unfold l. rewrite scoped_eq.
    change (nodes (layer (sync_file_to_nodes ?b))) with (nodes (layer b)). destruct (gc_spec Bs) as [_ Hs].
    intros [Hn _]%Hs. by apply (bi_stubs _ _ (io_inv _ _ _ scoped_index)).
  - intros e. rewrite scoped_layer_edges. intros He. destruct (Hcl e He) as [[n Hn] [m Hm]].
    unfold l. rewrite scoped_eq. change (nodes (layer (sync_file_to_nodes ?b))) with (nodes (layer b)).
    rewrite !scoped_dom. destruct (gc_spec B1) as [_ H1]. cbv zeta in H1. split.
    + exists n. apply H1. split; [done|].
      by rewrite (bi_stubs _ _ (io_inv _ _ _ (full_index root pv1 Hv1)) I _ _ Hn), (Hsrc I e He).
    + exists m. apply H1. split; [done|]. intros _. by exists e.
  - apply scoped_layer_edges.
  - apply map_eq. intros g. unfold l. rewrite scoped_eq. apply scoped_listing.
  - apply scoped_layer_nodes.
Qed.
End parity.

(** C13: after a local edit, rebuilding the dirty scope of the previous layer gives
    the layer of a full build of the new view without the stubs nothing refers to:
    the same edges, reverse dependencies and listing, the same project nodes with
    the same contents, and stubs with the same ids. *)
Theorem scoped_rebuild_is_full root pv0 pv1 prev seed steady rev :
  view_ok root pv0 → view_ok root pv1 → tracks root pv0 prev →
  local_edit root pv0 pv1 seed (dirty_scope prev seed) steady →
  let l := (produce_code_delta_scoped root pv1 prev seed rev).1 in
  let full := layer (gc_external_stubs (build root pv1)) in
  edges l = edges full ∧ reverse_deps l = reverse_deps full ∧ file_to_nodes l = file_to_nodes full ∧
  (∀ id n, n_external n = false → nodes l !! id = Some n ↔ nodes full !! id = Some n) ∧
  (∀ id, is_Some (nodes l !! id) ↔ is_Some (nodes full !! id)).
Proof.
  intros Hv0 Hv1 Hprev Hedit l full.
  destruct (scoped_tracks root pv0 pv1 prev seed steady Hv0 Hv1 Hprev Hedit) as [[Hil _ _ _] _ _ He Hl Hn].
  destruct (build_spec root pv1 True (λ _, vo_plain _ _ Hv1)) as (_ & [Hi1 _ _ _] & _).
  destruct (gc_spec (build root pv1)) as [_ H1]. cbv zeta in H1.
  split; [exact He|]. split; [|split; [exact Hl|split]].
  - unfold index_ok, derived_reverse_deps in Hil, Hi1. rewrite He, <- Hi1 in Hil. exact Hil.
  - intros id n Hx. etrans; [by apply Hn|]. unfold full. rewrite H1. split; [intros H; split; [done|congruence]|by intros []].
  - intros id. unfold l, produce_code_delta_scoped. cbn [fst]. rewrite scoped_eq.
    by apply (scoped_dom root pv0 pv1 prev seed steady).
Qed.

(** ** Sessions *)

(** A session of local edits: the views it passes through, and the layer it
    maintains by scoped rebuilds from the full build it starts with. *)
Inductive local_session (root : string) : ProjectView → CodeLayer → Prop :=
| session_open pv : view_ok root pv → local_session root pv (layer (build root pv))
| session_edit pv0 pv1 l seed steady rev :
    local_session root pv0 l → view_ok root pv1 → local_edit root pv0 pv1 seed (dirty_scope l seed) steady →
    local_session root pv1 (produce_code_delta_scoped root pv1 l seed rev).1.

Lemma session_tracks root pv l : local_session root pv l → view_ok root pv ∧ tracks root pv l.
Proof.
  induction 1 as [pv Hv|pv0 pv1 l seed steady rev _ [Hv0 Hl] Hv1 Hedit].
  - split; [done|]. apply build_tracks, Hv.
  - split; [done|]. by apply (scoped_tracks root pv0 pv1 l seed steady).
Qed.

(** What standing for the full build gives, the reverse dependencies included. *)
Lemma tracks_full root pv l :
  view_ok root pv → tracks root pv l →
  let full := layer (build root pv) in
  edges l = edges full ∧ reverse_deps l = reverse_deps full ∧ file_to_nodes l = file_to_nodes full ∧
  (∀ id n, n_external n = false → nodes l !! id = Some n ↔ nodes full !! id = Some n) ∧ closed l.
Proof.
  intros Hv [[Hil _ _ _] _ Hcl He Hl Hn] full.
  destruct (build_spec root pv True (λ _, vo_plain _ _ Hv)) as (_ & [Hi _ _ _] & _).
  split; [done|]. split; [|done]. unfold index_ok, derived_reverse_deps in Hil, Hi.
  rewrite He, <- Hi in Hil. exact Hil.
Qed.

(** The layer a session maintains never drifts: after any sequence of local
    edits, each followed by a scoped rebuild of the layer before it, the edges, the
    reverse dependencies, the listing and the project nodes are those of a full
    build of the current view, no edge dangles, and the only nodes that may differ
    are stubs of external names. *)
Theorem session_layer_is_full root pv l :
  local_session root pv l →
  let full := layer (build root pv) in
  edges l = edges full ∧ reverse_deps l = reverse_deps full ∧ file_to_nodes l = file_to_nodes full ∧
  (∀ id n, n_external n = false → nodes l !! id = Some n ↔ nodes full !! id = Some n) ∧ closed l.
Proof. intros [Hv Ht]%session_tracks full. by apply tracks_full. Qed.

(** ** Why references stay inside the scope *)

(** The scope of a rebuild reaches every file that refers to a changed one: a
    reference from one file to a symbol of another project file comes with an
    import of that file's module, so when the target's file is changed the
    reference's file is derived again. *)
Theorem reference_in_scope root pv seed e ns nt :
  view_ok root pv → let l := layer (build root pv) in files_named l →
  e ∈ edges l → ekind e = References → nodes l !! source e = Some ns → nodes l !! target e = Some nt →
  n_external nt = false → n_file nt ∈ seed → n_file ns ∈ dirty_scope l seed.
Proof.
  intros Hv l Hnamed He Hk Hns Hnt Hx Hseed. pose proof (full_index root pv Hv) as Hi. pose proof (io_inv _ _ _ Hi) as Hb.
  apply (full_edges root pv Hv) in He as He'. destruct He' as (f & Hf & Hin).
  pose proof (file_edges_own root pv _ _ _ Hi f e Hf Hin) as Ho.
  assert (∀ id, id ∈ own_ids f → id ∈ ids_of (build root pv) (fs_graph_path f)) as Hlisted.
  { intros id Hid. apply (io_listed _ _ _ Hi). by exists f. }
  assert (n_file ns = fs_graph_path f ∧ n_external ns = false) as [Hfile Hxs].
  { destruct (bi_listed _ _ Hb _ _ (Hlisted _ Ho)) as (n & Hn & H1 & H2). unfold l in Hns. rewrite Hns in Hn. by simplify_eq. }
  apply elem_of_dirty_scope. rewrite Hfile. rewrite elem_of_file_edges in Hin.
  destruct Hin as [Hin|(s & [_ E]%override_own & _)%list_elem_of_bind]; [|congruence].
  unfold base_edges in Hin. rewrite !elem_of_app in Hin. destruct Hin as [Hin|[Hin|Hin]].
  { apply list_elem_of_bind in Hin as (s & E%containment_edges_kind & _). by rewrite Hk in E. }
  2: { apply list_elem_of_bind in Hin as (s & E%inherits_edges_kind & _). congruence. }
  destruct (reference_imports root pv _ _ _ Hi f e Hf) as (tf & r & Ht & Hor); [|done|done| |].
  { intros x Hx'. eapply collected_plain; [apply Hv|done]. }
  { by rewrite <- (bi_stubs _ _ Hb I _ _ Hnt). }
  assert (n_file nt = tf) as <-.
  { destruct (bi_listed _ _ Hb _ _ Ht) as (n & Hn & H1 & _). unfold l in Hnt. rewrite Hnt in Hn. by simplify_eq. }
  destruct Hor as [<-|Himp]; [by left|right].
  destruct (bi_listed _ _ Hb _ _ (Hlisted _ (module_own f))) as (m & Hm & Hmf & Hmx).
  exists (mkEdge (make_module_durable_id (fs_graph_path f)) (make_module_durable_id (n_file nt)) Imports None
            (Some (fs_graph_path f)) (Some r)), (n_file nt), m.
  split; [|split; [done|split; [done|split; [done|split; [exact Hm|split; [done|]]]]]].
  - apply (full_edges root pv Hv). exists f. split; [done|]. apply elem_of_file_edges. left. unfold base_edges.
    rewrite !elem_of_app. right. left. exact Himp.
  - rewrite <- Hmf. by eapply (Hnamed _ m Hm).
Qed.
