(* ===== verification/CodeExample.v ===== *)
(** * The producer of the code layer on small projects

    Witnesses of the producer's theorems on a project of two files, and the two
    ways a scoped rebuild departs from a full build on a project of three. *)

From Stdlib Require Import NArith.
From S2P Require Import Prelude Str CodeLayer CodeBuilder CodeBuilderFacts CodeProducer CodeLookup CodeAncestors.
From S2P Require Import CodeEdges CodeExact CodeIndex CodeParity.

(** A symbol of a file, and the resolution of a name in it. *)
Definition sym (name : string) (kind : SymbolKindDto) (container : option string) (id : string) (first last : N) :
    SymbolDto :=
  mkSymbol name (Some (match container with Some c => c +:+ "." +:+ name | None => name end)) kind ""
    (first, 1, last, 9)%N (Some (first, 7, first, 8)%N) container false (Some id) None ∅.

Definition occ (line : N) (file name : string) (role : ReferenceRoleDto) : NameOccurrenceDto :=
  mkOccurrence (line, 5, line, 6)%N (Some name) (Some file) (Some name) None role.

(** ** Two files

    [b.py] imports [f] of [a.py] and calls it in [g].  In the second view [a.py]
    has [h] in place of [f]. *)

Definition two_files (renamed : bool) : ProjectView :=
  mkProjectView ["/p/a.py"; "/p/b.py"]
    (λ path, Some (if bool_decide (path = "/p/a.py")
                   then [if renamed then sym "h" KFunction None "H" 1 2 else sym "f" KFunction None "F" 1 2]
                   else [sym "g" KFunction None "G" 3 5]))
    (λ path, Some (if bool_decide (path = "/p/a.py") || renamed then []
                   else [occ 1 "/p/a.py" "f" RImport; occ 4 "/p/a.py" "f" RRead]))
    (λ _ _ _, None) (λ _ _ _, None).

Definition two_layer : CodeLayer := layer (build "/p" (two_files false)).

Lemma two_files_named renamed : view_named "/p" (two_files renamed).
Proof.
  intros g native symbols s _ [= <-] Hs. unfold named_symbol. revert Hs. case_bool_decide; [destruct renamed|];
    intros ->%list_elem_of_singleton; discriminate.
Qed.

Lemma two_files_plain renamed : view_plain "/p" (two_files renamed).
Proof.
  intros g native Hin. split.
  - assert (listed_files "/p" (two_files renamed) = [("a.py", "/p/a.py"); ("b.py", "/p/b.py")]) as E
      by (vm_compute; reflexivity). rewrite E in Hin.
    apply elem_of_cons in Hin as [[= -> _]|[[= -> _]|[]%not_elem_of_nil]%elem_of_cons]; reflexivity.
  - intros symbols s did [= <-]. case_bool_decide; [destruct renamed|]; intros ->%list_elem_of_singleton [= <-]; reflexivity.
Qed.

(** Decision procedures for the conditions of the scoped rebuild. *)

Definition imports_cover_b (l : CodeLayer) : bool :=
  forallb (λ e,
    match nodes l !! source e, nodes l !! target e with
    | Some ns, Some nt =>
        n_external nt || bool_decide (n_file ns = n_file nt) ||
        existsb (λ i, bool_decide (ekind i = Imports) && bool_decide (target i = make_module_durable_id (n_file nt)) &&
                      bool_decide (n_file <$> nodes l !! source i = Some (n_file ns))) (btree_edges l)
    | _, _ => true
    end) (btree_edges l).

Lemma imports_cover_b_ok l : imports_cover_b l = true → imports_cover l.
Proof.
  unfold imports_cover_b. rewrite forallb_forall. intros H e ns nt He Hs Ht Hx.
  specialize (H e). rewrite <- list_elem_of_In, elem_of_btree_edges in H. specialize (H He).
  rewrite Hs, Ht, Hx in H. simpl in H. apply orb_prop in H as [H%bool_decide_eq_true|H]; [by left|right].
  apply existsb_exists in H as (i & Hi%list_elem_of_In%elem_of_btree_edges & H).
  apply andb_prop in H as [[Hk%bool_decide_eq_true Hti%bool_decide_eq_true]%andb_prop Hf%bool_decide_eq_true].
  apply fmap_Some in Hf as (m & Hm & Hf). by exists i, m.
Qed.

Definition files_named_b (l : CodeLayer) : bool :=
  forallb (λ kn, n_external kn.2 || (bool_decide (n_file kn.2 ≠ "") && bool_decide (n_file kn.2 ≠ EXTERNAL_FILE)))
    (map_to_list (nodes l)).

Lemma files_named_b_ok l : files_named_b l = true → files_named l.
Proof.
  unfold files_named_b. rewrite forallb_forall. intros H id n Hn Hx.
  specialize (H (id, n)). rewrite <- list_elem_of_In, elem_of_map_to_list in H. specialize (H Hn).
  simpl in H. rewrite Hx in H. apply andb_prop in H as [H1%bool_decide_eq_true H2%bool_decide_eq_true]. done.
Qed.

Lemma two_layer_spec : layer_wf two_layer ∧ closed two_layer ∧ stubs_apart two_layer.
Proof.
  destruct (build_spec "/p" (two_files false) True (λ _, two_files_plain false)) as (Hb & Hwf & Hcl & Hs & _).
  split; [done|]. split; [done|]. split; [exact (bi_stubs _ _ Hb I)|exact (Hs I)].
Qed.

Lemma two_importers_stable : importers_stable "/p" (two_files true) two_layer {["a.py"]}.
Proof.
  assert (btree_elements (dirty_scope two_layer {["a.py"]}) = ["a.py"; "b.py"]) as Ed by (vm_compute; reflexivity).
  intros f id Hf Hns Hid. rewrite <- elem_of_btree_elements, Ed in Hf.
  apply elem_of_cons in Hf as [->|[->|[]%not_elem_of_nil]%elem_of_cons];
    [destruct Hns; exact (elem_of_singleton_2 _ _ eq_refl)|].
  assert (default [] (file_to_nodes two_layer !! "b.py") = ["<module>b.py"; "G"]) as Ei by (vm_compute; reflexivity).
  rewrite Ei in Hid. exists (mkFileSymbols "b.py" "/p/b.py" [sym "g" KFunction None "G" 3 5]). split.
  - unfold rederived. rewrite Ed. vm_compute. right. left.
  - apply elem_of_cons in Hid as [->|[->|[]%not_elem_of_nil]%elem_of_cons]; [left; reflexivity|right].
    exists (sym "g" KFunction None "G" 3 5). split; [left|reflexivity].
Qed.

Lemma scoped_layer_ok_witness :
  let l := (produce_code_delta_scoped "/p" (two_files false) two_layer {["b.py"]} 2).1 in
  layer_wf l ∧ nodes l !! "F" = nodes two_layer !! "F" ∧ is_Some (nodes two_layer !! "F").
Proof.
  destruct two_layer_spec as (Hwf & _ & _).
  destruct (scoped_layer_ok "/p" (two_files false) two_layer {["b.py"]} 2 Hwf) as (Hl & Hn & _).
  split; [exact Hl|].
  destruct (nodes two_layer !! "F") as [n|] eqn:E; [|exfalso; revert E; vm_compute; discriminate].
  split; [|by eexists]. assert (n_external n = false ∧ n_file n = "a.py") as [Hx Hf].
  { revert E. vm_compute. intros [= <-]. split; reflexivity. }
  apply (Hn "F" n E Hx). rewrite Hf, <- elem_of_btree_elements.
  assert (btree_elements (dirty_scope two_layer {["b.py"]}) = ["b.py"]) as -> by (vm_compute; reflexivity).
  by intros [=]%list_elem_of_singleton.
Defined.

Lemma scoped_layer_closed_witness :
  closed (produce_code_delta_scoped "/p" (two_files true) two_layer {["a.py"]} 2).1 ∧
  nodes (produce_code_delta_scoped "/p" (two_files true) two_layer {["a.py"]} 2).1 !! "F" = None.
Proof.
  destruct two_layer_spec as (Hwf & Hcl & Hsa). split; [|vm_compute; reflexivity].
  apply (scoped_layer_closed "/p" (two_files true) two_layer {["a.py"]} 2 Hwf Hcl Hsa).
  - apply files_named_b_ok. vm_compute. reflexivity.
  - apply two_files_plain.
  - apply imports_cover_b_ok. vm_compute. reflexivity.
  - exact two_importers_stable.
Defined.

Lemma seeded_agrees_witness :
  find_symbol_in_file (seeded two_layer) "a.py" "f" = Some "F".
Proof.
  destruct (seeded_agrees "/p" (two_files false) (two_files_named false)) as (_ & _ & H).
  etrans; [apply (proj1 (H "a.py"))|]. vm_compute. reflexivity.
Defined.

Lemma find_symbol_correct_witness : node_named two_layer "g" "G".
Proof.
  pose proof (find_symbol_correct "/p" (two_files false) "b.py" "g" (two_files_named false)) as H.
  cbv zeta in H. assert (find_symbol_in_file (build "/p" (two_files false)) "b.py" "g" = Some "G") as E
    by (vm_compute; reflexivity). rewrite E in H. exact (proj2 H).
Defined.

Lemma find_enclosing_smallest_witness :
  find_enclosing_symbol (build "/p" (two_files false)) "b.py" (4, 5, 4, 6)%N = Some "G" ∧
  (∃ n, nodes two_layer !! "G" = Some n).
Proof.
  pose proof (find_enclosing_smallest "/p" (two_files false) "b.py" (4, 5, 4, 6)%N (two_files_named false)) as H.
  cbv zeta in H. assert (find_enclosing_symbol (build "/p" (two_files false)) "b.py" (4, 5, 4, 6)%N = Some "G") as E
    by (vm_compute; reflexivity). rewrite E in H. split; [exact E|].
  destruct H as [(n & (_ & Hn & _) & _)|(_ & [n Hn] & _)]; exists n; exact Hn.
Defined.

(** ** Three files

    [C] in [c.py] inherits [B] of [b.py], which inherits [A] of [a.py]; [C.m]
    overrides [A.m].  [c.py] also imports [path] from a library and does not
    use it.  In the second view [A.m] is gone. *)

Definition three_files (has_m : bool) : ProjectView :=
  mkProjectView ["/p/a.py"; "/p/b.py"; "/p/c.py"]
    (λ path, Some (if bool_decide (path = "/p/a.py")
                   then sym "A" KClass None "A" 1 5 :: if has_m then [sym "m" KMethod (Some "A") "A.m" 2 3] else []
                   else if bool_decide (path = "/p/b.py") then [sym "B" KClass None "B" 3 5]
                   else [sym "C" KClass None "C" 4 7; sym "m" KMethod (Some "C") "C.m" 5 6]))
    (λ path, Some (if bool_decide (path = "/p/b.py") then [occ 1 "/p/a.py" "A" RImport; occ 3 "/p/a.py" "A" RRead]
                   else if bool_decide (path = "/p/c.py")
                   then [occ 1 "/p/b.py" "B" RImport; occ 2 "/lib/os.py" "path" RImport; occ 4 "/p/b.py" "B" RRead]
                   else []))
    (λ _ _ _, None)
    (λ path _ _, Some (if bool_decide (path = "/p/b.py") then [mkHierarchyItem "A" None "/p/a.py" module_range module_range]
                       else if bool_decide (path = "/p/c.py") then [mkHierarchyItem "B" None "/p/b.py" module_range module_range] else [])).

Definition three_layer : CodeLayer := layer (build "/p" (three_files true)).

(** An override edge crosses files without an import: when the overridden
    method of an indirect base class is deleted, the scoped rebuild does not see
    the overriding class, keeps the edge and leaves it pointing at a node that
    is gone, where a full build has no such edge. *)
Theorem scoped_rebuild_keeps_stale_override :
  let e := mkEdge "C.m" "A.m" Overrides None None None in
  let scoped := (produce_code_delta_scoped "/p" (three_files false) three_layer {["a.py"]} 2).1 in
  let full := layer (build "/p" (three_files false)) in
  e ∈ edges scoped ∧ nodes scoped !! "A.m" = None ∧ e ∉ edges full ∧ ¬ closed scoped.
Proof.
  intros e scoped full.
  assert (e ∈ edges scoped) as He by (apply (bool_decide_unpack _); vm_compute; exact I).
  assert (nodes scoped !! "A.m" = None) as Hn by (vm_compute; reflexivity).
  split; [exact He|]. split; [exact Hn|]. split.
  - apply (bool_decide_unpack _). vm_compute. exact I.
  - intros Hcl. destruct (Hcl e He) as [_ H]. change (is_Some (nodes scoped !! "A.m")) in H.
    rewrite Hn in H. by destruct H.
Qed.

(** A name imported from outside the project and never used gets a stub in
    a full build, and no edge points at it; a scoped rebuild collects it, so the
    layer after an unrelated edit is not the one a full build gives. *)
Theorem scoped_rebuild_drops_imported_stub :
  let scoped := (produce_code_delta_scoped "/p" (three_files true) three_layer {["a.py"]} 2).1 in
  is_Some (nodes three_layer !! "/lib/os.py::path") ∧ nodes scoped !! "/lib/os.py::path" = None.
Proof.
  intros scoped. split; [apply (bool_decide_unpack _); vm_compute; exact I|vm_compute; reflexivity].
Qed.

(** ** A local edit

    [b.py] calls [f] of [a.py] in a method of [B]; [C] in [c.py] inherits [B] and
    overrides its method.  In the second view [a.py] has [h] in place of [f]. *)

Definition local_files (renamed : bool) : ProjectView :=
  mkProjectView ["/p/a.py"; "/p/b.py"; "/p/c.py"]
    (λ path, Some (if bool_decide (path = "/p/a.py")
                   then [if renamed then sym "h" KFunction None "H" 1 2 else sym "f" KFunction None "F" 1 2]
                   else if bool_decide (path = "/p/b.py")
                   then [sym "B" KClass None "B" 3 6; sym "m" KMethod (Some "B") "B.m" 4 5]
                   else [sym "C" KClass None "C" 3 6; sym "m" KMethod (Some "C") "C.m" 4 5]))
    (λ path, Some (if bool_decide (path = "/p/b.py")
                   then if renamed then [] else [occ 1 "/p/a.py" "f" RImport; occ 5 "/p/a.py" "f" RRead]
                   else if bool_decide (path = "/p/c.py")
                   then [occ 1 "/p/b.py" "B" RImport; occ 3 "/p/b.py" "B" RRead] else []))
    (λ _ _ _, None)
    (λ path _ _, Some (if bool_decide (path = "/p/c.py")
                       then [mkHierarchyItem "B" None "/p/b.py" module_range module_range] else [])).

Lemma local_listed renamed :
  listed_files "/p" (local_files renamed) = [("a.py", "/p/a.py"); ("b.py", "/p/b.py"); ("c.py", "/p/c.py")].
Proof. vm_compute. reflexivity. Qed.

(** What the occurrences name. *)
Lemma local_targets renamed native occs o raw :
  pv_file_occurrences (local_files renamed) native = Some occs → o ∈ occs → o_target_file o = Some raw →
  native = "/p/b.py" ∧ raw = "/p/a.py" ∨ native = "/p/c.py" ∧ raw = "/p/b.py".
Proof.
  intros [= <-]. case_bool_decide as Hb.
  - destruct renamed; [by intros []%not_elem_of_nil|]. rewrite !elem_of_cons, elem_of_nil.
    intros [-> |[-> |[]]] [= <-]; by left.
  - case_bool_decide as Hc; [|by intros []%not_elem_of_nil]. rewrite !elem_of_cons, elem_of_nil.
    intros [-> |[-> |[]]] [= <-]; by right.
Qed.

Lemma local_symbols renamed native symbols s :
  pv_document_symbols (local_files renamed) native = Some symbols → s ∈ symbols →
  named_symbol s ∧ ∀ did, s_durable_id s = Some did → stub_id did = false.
Proof.
  intros [= <-]. unfold named_symbol.
  repeat case_bool_decide; rewrite ?elem_of_cons, elem_of_nil; [destruct renamed; intros [-> |[]]|intros [-> |[-> |[]]]..];
    (split; [discriminate|intros did [= <-]; reflexivity]).
Qed.

(** Ids that are pairwise distinct are not shared between files. *)
Lemma separate_check (files : list FileSymbols) :
  NoDup (files ≫= own_ids) → forallb (λ did, negb (is_module_id did)) (files ≫= λ f, omap s_durable_id (fs_symbols f)) = true →
  separate (λ f, f ∈ files).
Proof.
  intros Hnd Hm.
  assert (∀ f f' id, f ∈ files → f' ∈ files → id ∈ own_ids f → id ∈ own_ids f' → f = f') as Hown.
  { clear Hm. induction files as [|x files IH]; [by intros f f' id []%not_elem_of_nil|]. rewrite bind_cons, NoDup_app in Hnd.
    destruct Hnd as (_ & Hdis & Hnd). specialize (IH Hnd).
    assert (∀ g id, g ∈ files → id ∈ own_ids g → id ∉ own_ids x) as Hx.
    { intros g id Hg Hid Hid'. apply (Hdis id Hid'), list_elem_of_bind. by exists g. }
    intros f f' id [->|Hf]%elem_of_cons [->|Hf']%elem_of_cons Hid Hid'; [done|..|by eapply IH].
    - by destruct (Hx f' id Hf' Hid').
    - by destruct (Hx f id Hf Hid). }
  split.
  - intros f f' Hf Hf' E. apply (Hown f f' (make_module_durable_id (fs_graph_path f))); [done..|apply module_own|].
    rewrite E. apply module_own.
  - intros f f' s s' did Hf Hf' Hs Hs' Hd Hd'. apply (Hown f f' did); [done..| |]; by eapply symbol_own.
  - intros f s did Hf Hs Hd. rewrite forallb_forall in Hm.
    specialize (Hm did). rewrite <- list_elem_of_In in Hm. apply negb_true_iff, Hm, list_elem_of_bind.
    exists f. split; [|done]. apply list_elem_of_omap. by exists s.
Qed.

Lemma local_view_ok renamed : view_ok "/p" (local_files renamed).
Proof.
  split.
  - intros g native Hin. split.
    + rewrite local_listed, !elem_of_cons, elem_of_nil in Hin. by destruct Hin as [[= -> _]|[[= -> _]|[[= -> _]|[]]]].
    + intros symbols s did Hs Hin' Hd. by eapply local_symbols.
  - split; [|done]. intros native occs o raw H1 H2 H3.
    destruct (local_targets renamed native occs o raw H1 H2 H3) as [[_ ->]|[_ ->]]; done.
  - intros g native symbols s _ Hs Hin. by eapply local_symbols.
  - rewrite local_listed. apply (bool_decide_unpack _). vm_compute. exact I.
  - apply separate_check; destruct renamed;
      first [apply (bool_decide_unpack _); vm_compute; exact I|vm_compute; reflexivity].
Qed.

(** The files other than [a.py] are steady. *)
Lemma local_edit_ok :
  local_edit "/p" (local_files false) (local_files true) {["a.py"]}
    (dirty_scope (layer (build "/p" (local_files false))) {["a.py"]}) (λ g, g ≠ "a.py").
Proof.
  assert (btree_elements (dirty_scope (layer (build "/p" (local_files false))) {["a.py"]}) = ["a.py"; "b.py"]) as Ed
    by (vm_compute; reflexivity).
  assert (∀ g, g ∈ dirty_scope (layer (build "/p" (local_files false))) {["a.py"]} ↔ g = "a.py" ∨ g = "b.py") as Hd.
  { intros g. rewrite <- elem_of_btree_elements, Ed, !elem_of_cons, elem_of_nil. clear. tauto. }
  clear Ed.
  split.
  - intros g native _. by rewrite !local_listed.
  - intros g native Hg. rewrite local_listed, !elem_of_cons, elem_of_nil, not_elem_of_singleton in *.
    intros [[= -> _]|[[= _ ->]|[[= _ ->]|[]]]]; [done|reflexivity..].
  - intros g native Hg. rewrite Hd in Hg. rewrite local_listed, !elem_of_cons, elem_of_nil.
    intros [[= -> _]|[[= -> _]|[[= _ ->]|[]]]]; [tauto..|]. split; [done|]. split; [|done].
    intros occs o raw H1 H2 H3. destruct (local_targets false _ occs o raw H1 H2 H3) as [[[=] _]|[_ ->]].
    split; rewrite not_elem_of_singleton; discriminate.
  - intros g Hg ->. apply Hg, Hd. by left.
  - intros g Hg. by rewrite not_elem_of_singleton.
  - intros g native _ _. split; [done|]. intros ln c sts st [= <-]. case_bool_decide; [|by intros []%not_elem_of_nil].
    intros ->%list_elem_of_singleton. split; discriminate.
Qed.

Lemma scoped_rebuild_is_full_witness :
  let l := (produce_code_delta_scoped "/p" (local_files true) (layer (build "/p" (local_files false))) {["a.py"]} 2).1 in
  edges l = edges (layer (build "/p" (local_files true))) ∧ mkEdge "C.m" "B.m" Overrides None None None ∈ edges l ∧
  is_Some (nodes l !! "H") ∧ nodes l !! "F" = None.
Proof.
  intros l. destruct (scoped_rebuild_is_full "/p" (local_files false) (local_files true) _ {["a.py"]} (λ g, g ≠ "a.py") 2
    (local_view_ok false) (local_view_ok true) (build_tracks _ _ (vo_plain _ _ (local_view_ok false))) local_edit_ok) as (He & _).
  split; [exact He|]. split; [apply (bool_decide_unpack _); vm_compute; exact I|].
  split; [apply (bool_decide_unpack _); vm_compute; exact I|vm_compute; reflexivity].
Defined.

Lemma build_edges_exact_witness :
  let e := mkEdge "B.m" "F" References (Some "read") (Some "b.py") (Some (5, 5, 5, 6)%N) in
  ∃ f, f ∈ collect_symbols (local_files false) (listed_files "/p" (local_files false)) ∧
    e ∈ file_edges "/p" (local_files false) (build "/p" (local_files false)) f.
Proof.
  intros e. apply (build_edges_exact "/p" (local_files false) (vo_plain _ _ (local_view_ok false))
    (vo_answers _ _ (local_view_ok false)) e).
  apply (bool_decide_unpack _). vm_compute. exact I.
Defined.

Lemma reference_in_scope_witness : "b.py" ∈ dirty_scope (layer (build "/p" (local_files false))) {["a.py"]}.
Proof.
  set (l := layer (build "/p" (local_files false))).
  destruct (nodes l !! "B.m") as [ns|] eqn:Es; [|exfalso; revert Es; vm_compute; discriminate].
  destruct (nodes l !! "F") as [nt|] eqn:Et; [|exfalso; revert Et; vm_compute; discriminate].
  assert (n_file ns = "b.py") as <- by (revert Es; vm_compute; intros [= <-]; reflexivity).
  assert (n_file nt = "a.py" ∧ n_external nt = false) as [Hf Hx]
    by (revert Et; vm_compute; intros [= <-]; split; reflexivity).
  apply (reference_in_scope "/p" (local_files false) {["a.py"]}
    (mkEdge "B.m" "F" References (Some "read") (Some "b.py") (Some (5, 5, 5, 6)%N)) ns nt (local_view_ok false)).
  - apply files_named_b_ok. vm_compute. reflexivity.
  - apply (bool_decide_unpack _). vm_compute. exact I.
  - reflexivity.
  - exact Es.
  - exact Et.
  - exact Hx.
  - rewrite Hf. by apply elem_of_singleton.
Defined.

Lemma session_layer_is_full_witness :
  let l := (produce_code_delta_scoped "/p" (local_files true) (layer (build "/p" (local_files false))) {["a.py"]} 2).1 in
  closed l ∧ edges l = edges (layer (build "/p" (local_files true))).
Proof.
  intros l. destruct (session_layer_is_full "/p" (local_files true) l) as (He & _ & _ & _ & Hcl).
  - exact (session_edit "/p" (local_files false) (local_files true) _ {["a.py"]} (λ g, g ≠ "a.py") 2
      (session_open "/p" _ (local_view_ok false)) (local_view_ok true) local_edit_ok).
  - split; [exact Hcl|exact He].
Defined.
