(* ===== verification/Symbols.v ===== *)
(** * Document symbols ([rust/src/convert/symbols.rs], [compute_document_symbols])

    The walk that gives the producer of the code layer a file's symbols with
    their durable ids, its agreement with the walk that extracts entities, and
    what follows for the nodes of the layer.  The conversion of text ranges to
    line and column is a parameter of the walk. *)

From Stdlib Require Import NArith.
From S2P Require Import Prelude Str Paths Content Identity Entity Reconcile ReconcileFacts ReconcileTheorems Json.
From S2P Require Import CodeLayer CodeBuilder CodeBuilderFacts CodeProducer.
Import Registry.

Definition symbol_kind_to_dto (k : TySymbolKind) : SymbolKindDto :=
  match k with
  | TyModule => KModule | TyClass => KClass | TyFunction => KFunction | TyMethod => KMethod
  | TyConstructor => KConstructor | TyVariable => KVariable | TyConstant => KConstant
  | TyField => KField | TyParameter => KParameter | TyProperty => KProperty
  | TyTypeParameter => KTypeParameter | TyImport => KImport
  end.

Section symbols.
Context {Ext : External} {Stmt : Type} (render_stmt : Stmt → HashPolicy → string).

Record SymbolWalkCtx := mkSymbolWalkCtx {
  sw_hierarchical : HierarchicalSymbols;
  sw_source : string;
  sw_stmt_index : gmap (N * N) Stmt;
  sw_range_to_dto : N * N → RangeTuple;
  sw_file_path : string;
  sw_registry : IdentityRegistry;
  sw_hash_policies : option (gmap string HashPolicy);
  sw_default_profile_name : option string;
}.

Definition convert_symbol (range_to_dto : N * N → RangeTuple) (file_path : string) (info : SymbolInfo)
    (container_name qualified_name : option string) (durable_id content_hash : option string)
    (content_hashes : gmap string string) : SymbolDto :=
  mkSymbol (si_name info) qualified_name (symbol_kind_to_dto (si_kind info)) file_path
    (range_to_dto (si_full_range info)) (Some (range_to_dto (si_name_range info)))
    container_name (si_deprecated info) durable_id content_hash content_hashes.

Definition find_anchor (reg : IdentityRegistry) (identity_path : string) : option Anchor :=
  by_path reg identity_path ≫= get reg.

Definition profile_hashes (ctx : SymbolWalkCtx) (info : SymbolInfo) (policies : gmap string HashPolicy) :
    gmap string string :=
  (λ policy, u128_to_string (hash_entity
     (entity_normal_form render_stmt (sw_stmt_index ctx) (si_full_range info) (sw_source ctx) policy))) <$> policies.

Definition make_symbol (ctx : SymbolWalkCtx) (info : SymbolInfo) (parent_name parent_identity_path : option string) :
    string * SymbolDto :=
  let qualified := (λ p, p +:+ "." +:+ si_name info) <$> parent_name in
  let identity_path :=
    match parent_identity_path with
    | Some p => p +:+ "::" +:+ si_name info
    | None => sw_file_path ctx +:+ "::" +:+ si_name info
    end in
  let anchor := find_anchor (sw_registry ctx) identity_path in
  let '(hashes, default_hash) :=
    match sw_hash_policies ctx with
    | Some policies =>
        let hashes := profile_hashes ctx info policies in
        (hashes, sw_default_profile_name ctx ≫= λ pn, hashes !! pn)
    | None => (∅, (λ a, u128_to_string (a_content_hash a)) <$> anchor)
    end in
  (identity_path, convert_symbol (sw_range_to_dto ctx) (sw_file_path ctx) info parent_name qualified (a_id <$> anchor) default_hash hashes).

(** The walk; [None] is an exhausted recursion depth. *)
Fixpoint collect_symbols_recursive (fuel : nat) (ctx : SymbolWalkCtx) (id : nat) (info : SymbolInfo)
    (parent_name parent_identity_path : option string) (symbols : list SymbolDto) : option (list SymbolDto) :=
  match fuel with
  | O => None
  | S fuel =>
      let '(identity_path, sym) := make_symbol ctx info parent_name parent_identity_path in
      let own_name := default (si_name info) (s_qualified_name sym) in
      foldl (λ acc child,
        match acc with
        | None => None
        | Some symbols =>
            collect_symbols_recursive fuel ctx child.1 child.2 (Some own_name) (Some identity_path) symbols
        end) (Some (symbols ++ [sym])) (h_children (sw_hierarchical ctx) id)
  end.

Definition compute_document_symbols (fuel : nat) (ctx : SymbolWalkCtx) : option (list SymbolDto) :=
  foldl (λ acc root,
    match acc with
    | None => None
    | Some symbols => collect_symbols_recursive fuel ctx root.1 root.2 None None symbols
    end) (Some []) (h_iter (sw_hierarchical ctx)).

(** ** The two walks *)

(** The ids below a symbol, in the order of the walk. *)
Fixpoint walk_ids (fuel : nat) (h : HierarchicalSymbols) (id : nat) : option (list nat) :=
  match fuel with
  | O => None
  | S fuel =>
      foldl (λ acc child,
        match acc, walk_ids fuel h child.1 with
        | Some ids, Some new => Some (ids ++ new)
        | _, _ => None
        end) (Some [id]) (h_children h id)
  end.

Definition file_ids (fuel : nat) (h : HierarchicalSymbols) : option (list nat) :=
  foldl (λ acc root,
    match acc, walk_ids fuel h root.1 with
    | Some ids, Some new => Some (ids ++ new)
    | _, _ => None
    end) (Some []) (h_iter h).

(** The symbols form a forest: no symbol is reached twice. *)
Definition forest (fuel : nat) (h : HierarchicalSymbols) : Prop :=
  ∃ ids, file_ids fuel h = Some ids ∧ NoDup ids.

Context (ectx : EntityWalkCtx (Stmt:=Stmt)) (sctx : SymbolWalkCtx).
Context (Hh : w_hierarchical ectx = sw_hierarchical sctx) (Hf : w_file_path ectx = sw_file_path sctx).

(** A symbol and an entity of one node of the tree. *)
Record same_node (e : Entity) (s : SymbolDto) : Prop := {
  sn_name : s_name s = e_name e;
  sn_qualified : symbol_qn s = e_qualified_name e;
  sn_id : s_durable_id s = a_id <$> find_anchor (sw_registry sctx) (e_qualified_path e);
  sn_range : s_range s = sw_range_to_dto sctx (e_full_range e);
  sn_hash : ∀ policies profile, sw_hash_policies sctx = Some policies → sw_default_profile_name sctx = Some profile →
    policies !! profile = Some (w_policy ectx) → w_stmt_index ectx = sw_stmt_index sctx → w_source ectx = sw_source sctx →
    s_content_hash s = Some (u128_to_string (e_content_hash e));
}.

Lemma make_same info pd pq :
  let e := make_entity render_stmt ectx info pq pd in
  let '(path, s) := make_symbol sctx info pd pq in
  same_node e s ∧ path = e_qualified_path e ∧ default (si_name info) (s_qualified_name s) = e_qualified_name e.
Proof.
  unfold make_symbol, make_entity. simpl. rewrite Hf. destruct (sw_hash_policies sctx) as [ps|] eqn:Ep; simpl;
    (split; [split; simpl; try done; try (by destruct pq, pd)|by destruct pq, pd]).
  - intros policies profile Hs -> Hpol -> ->. rewrite Ep in Hs. injection Hs as <-. simpl. unfold profile_hashes.
    by rewrite lookup_fmap, Hpol.
  - intros policies profile Hs. by rewrite Ep in Hs.
Qed.

(** One child or root of the three loops. *)
Definition ids_child (fuel : nat) (acc : option (list nat)) (child : nat * SymbolInfo) : option (list nat) :=
  match acc, walk_ids fuel (sw_hierarchical sctx) child.1 with
  | Some ids, Some new => Some (ids ++ new)
  | _, _ => None
  end.

Definition symbols_child (fuel : nat) (pd pq : option string) (acc : option (list SymbolDto))
    (child : nat * SymbolInfo) : option (list SymbolDto) :=
  match acc with
  | None => None
  | Some symbols => collect_symbols_recursive fuel sctx child.1 child.2 pd pq symbols
  end.

Lemma ids_child_none fuel cs : foldl (ids_child fuel) None cs = None.
Proof. by induction cs. Qed.

Lemma ids_children_prefix fuel cs ids0 ids :
  foldl (ids_child fuel) (Some ids0) cs = Some ids → ∃ rest, ids = ids0 ++ rest.
Proof.
  revert ids0. induction cs as [|c cs IH]; intros ids0; simpl; [intros [= <-]; exists []; by rewrite app_nil_r|].
  destruct (walk_ids fuel (sw_hierarchical sctx) c.1) as [new|]; [|by rewrite ids_child_none].
  intros (rest & ->)%IH. exists (new ++ rest). by rewrite (assoc_L (++)).
Qed.

Lemma walk_ids_self fuel id ids : walk_ids fuel (sw_hierarchical sctx) id = Some ids → id ∈ ids.
Proof.
  destruct fuel as [|fuel]; simpl; [done|]. intros H.
  destruct (ids_children_prefix fuel _ _ _ H) as (rest & ->). left.
Qed.

(** What the two walks do from a symbol that has not been visited. *)
Definition walks_agree (fuel : nat) : Prop :=
  ∀ id info pq pd ids es (vis : gset nat) syms,
    walk_ids fuel (sw_hierarchical sctx) id = Some ids → NoDup ids → (∀ x, x ∈ ids → x ∉ vis) →
    ∃ new nsyms,
      collect_entities_recursive render_stmt fuel ectx id info pq pd (es, vis) =
        Some (es ++ new, list_to_set ids ∪ vis) ∧
      collect_symbols_recursive fuel sctx id info pd pq syms = Some (syms ++ nsyms) ∧
      Forall2 same_node new nsyms.

Lemma children_agree fuel pq pd cs ids0 ids es (vis : gset nat) syms :
  walks_agree fuel →
  foldl (ids_child fuel) (Some ids0) cs = Some ids → NoDup ids → (∀ x, x ∈ ids → x ∉ vis) →
  ∃ new nsyms,
    foldl (walk_child render_stmt fuel ectx pq pd) (Some (es, list_to_set ids0 ∪ vis)) cs =
      Some (es ++ new, list_to_set ids ∪ vis) ∧
    foldl (symbols_child fuel pd pq) (Some syms) cs = Some (syms ++ nsyms) ∧
    Forall2 same_node new nsyms.
Proof.
  intros Hw. revert ids0 es syms. induction cs as [|c cs IH]; intros ids0 es syms; simpl.
  { intros [= <-] _ _. exists [], []. by rewrite !app_nil_r. }
  destruct (walk_ids fuel (sw_hierarchical sctx) c.1) as [n|] eqn:En; [|by rewrite ids_child_none].
  intros Hfold Hnd Hvis. destruct (ids_children_prefix _ _ _ _ Hfold) as (rest & Hids).
  assert (NoDup n ∧ ∀ x, x ∈ n → x ∉ list_to_set ids0 ∪ vis) as [Hndn Hdisj].
  { rewrite Hids in Hnd, Hvis. apply NoDup_app in Hnd as (Hnd & _ & _).
    apply NoDup_app in Hnd as (_ & Hd & Hn). split; [done|]. intros x Hx.
    rewrite elem_of_union, elem_of_list_to_set. intros [Hin|Hin]; [by apply (Hd x)|].
    apply (Hvis x); [|done]. by apply elem_of_app; left; apply elem_of_app; right. }
  rewrite bool_decide_eq_false_2 by (apply Hdisj; by eapply walk_ids_self).
  destruct (Hw c.1 c.2 pq pd n es (list_to_set ids0 ∪ vis) syms En Hndn Hdisj) as (n1 & s1 & -> & -> & H1).
  assert (list_to_set n ∪ (list_to_set ids0 ∪ vis) =@{gset nat} list_to_set (ids0 ++ n) ∪ vis) as ->
    by (rewrite list_to_set_app_L; set_solver).
  destruct (IH (ids0 ++ n) (es ++ n1) (syms ++ s1) Hfold Hnd Hvis) as (n2 & s2 & -> & -> & H2).
  exists (n1 ++ n2), (s1 ++ s2). rewrite !(assoc_L (++)). do 2 (split; [done|]). by apply Forall2_app.
Qed.

Lemma walks_agree_all fuel : walks_agree fuel.
Proof.
  induction fuel as [|fuel IH]; intros id info pq pd ids es vis syms; [done|].
  cbn [walk_ids collect_entities_recursive collect_symbols_recursive].
  pose proof (make_same info pd pq) as Hs. set (e := make_entity render_stmt ectx info pq pd) in *.
  destruct (make_symbol sctx info pd pq) as [path s]. destruct Hs as (Hs & -> & Hq).
  intros Hids Hnd Hvis. cbv zeta. rewrite Hq, Hh.
  destruct (children_agree fuel (Some (e_qualified_path e)) (Some (e_qualified_name e))
    (h_children (sw_hierarchical sctx) id) [id] ids (es ++ [e]) vis (syms ++ [s]) IH Hids Hnd Hvis)
    as (new & nsyms & He & Hsy & H).
  exists (e :: new), (s :: nsyms). rewrite <- app_assoc in He. rewrite <- app_assoc in Hsy. cbn [app] in He, Hsy.
  split; [|split; [exact Hsy|by constructor]].
  rewrite list_to_set_singleton_L in He. exact He.
Qed.

(** The symbols of a file and its entities are the same nodes, in the same order. *)
Lemma symbols_are_entities fuel :
  forest fuel (sw_hierarchical sctx) →
  ∃ es vis syms, extract_file render_stmt fuel ectx = Some (es, vis) ∧
    compute_document_symbols fuel sctx = Some syms ∧ Forall2 same_node es syms.
Proof.
  intros (ids & Hids & Hnd). unfold extract_file. rewrite Hh.
  destruct (children_agree fuel None None (h_iter (sw_hierarchical sctx)) [] ids [] ∅ [] (walks_agree_all fuel)
    Hids Hnd) as (new & nsyms & He & Hs & H); [set_solver|].
  exists new, (list_to_set ids ∪ ∅), nsyms. split; [|by split].
  rewrite list_to_set_nil, (left_id_L ∅ (∪)) in He. exact He.
Qed.
End symbols.

(** ** From entities to nodes *)

(** What the engine reports of one file, to both walks. *)
Record FileTree (Stmt : Type) := mkFileTree {
  ft_symbols : HierarchicalSymbols;
  ft_source : string;
  ft_statements : gmap (N * N) Stmt;
  ft_range_to_dto : N * N → RangeTuple;
}.
Arguments mkFileTree {Stmt}.
Arguments ft_symbols {Stmt}.
Arguments ft_source {Stmt}.
Arguments ft_statements {Stmt}.
Arguments ft_range_to_dto {Stmt}.

Definition entity_ctx {Stmt} (path : string) (policy : HashPolicy) (t : FileTree Stmt) : EntityWalkCtx (Stmt:=Stmt) :=
  mkEntityWalkCtx (ft_symbols t) (ft_source t) (ft_statements t) path policy.

Definition symbol_ctx {Stmt} (path : string) (reg : IdentityRegistry) (policies : option (gmap string HashPolicy))
    (profile : option string) (t : FileTree Stmt) : SymbolWalkCtx (Stmt:=Stmt) :=
  mkSymbolWalkCtx (ft_symbols t) (ft_source t) (ft_statements t) (ft_range_to_dto t) path reg policies profile.

Section nodes.
Context {Ext : External} {Stmt : Type} (render_stmt : Stmt → HashPolicy → string).
Context (fuel : nat) (policy : HashPolicy) (policies : option (gmap string HashPolicy)) (profile : option string).
Context (trees : string → FileTree Stmt) (root : string) (pv : ProjectView).

(** The producer is given the symbols of the walk, with the ids of [reg]. *)
Definition view_reads (reg : IdentityRegistry) : Prop :=
  ∀ g native, (g, native) ∈ listed_files root pv →
    pv_document_symbols pv native =
      compute_document_symbols render_stmt fuel (symbol_ctx native reg policies profile (trees native)).

(** Identity reaches the code layer.  After a reconciliation of the
    entities of the project's files, each entity of a listed file is a node of
    the layer a full build makes, under the very id its path was bound to; the
    walks that extract the entities and list the symbols both return. *)
Theorem entities_are_nodes mint reg es rev scope n reg' rc n' :
  reconcile_pre mint reg es n → reconcile_impl mint reg es rev scope n = Some (reg', rc, n') →
  view_reads reg' → (∀ g native, (g, native) ∈ listed_files root pv → forest fuel (ft_symbols (trees native))) →
  (∀ g native fes vis e, (g, native) ∈ listed_files root pv →
     extract_file render_stmt fuel (entity_ctx native policy (trees native)) = Some (fes, vis) → e ∈ fes → e ∈ es) →
  ∀ g native, (g, native) ∈ listed_files root pv →
  ∃ fes vis, extract_file render_stmt fuel (entity_ctx native policy (trees native)) = Some (fes, vis) ∧
    ∀ e, e ∈ fes → ∃ b, (e_qualified_path e, b) ∈ rc_bindings rc ∧
      is_Some (nodes (layer (build root pv)) !! binding_id b).
Proof.
  intros Hpre Hrun Hv Hforest Hes g native Hin.
  destruct (symbols_are_entities render_stmt (entity_ctx native policy (trees native))
    (symbol_ctx native reg' policies profile (trees native)) eq_refl eq_refl fuel (Hforest g native Hin))
    as (fes & vis & syms & Hx & Hs & Hsame).
  exists fes, vis. split; [done|]. intros e He.
  destruct (pre_outcome _ _ _ _ _ _ _ _ _ Hpre Hrun) as (asg & bound & Hoc).
  destruct (oc_all _ _ _ _ _ _ _ _ Hoc e (Hes g native fes vis e Hin Hx He)) as (i & b & Hb). exists b. split.
  { rewrite (oc_bindings _ _ _ _ _ _ _ _ Hoc). apply list_elem_of_fmap. by exists (i, e, b). }
  destruct (build_spec root pv False) as (_ & _ & _ & _ & Hp); [done|].
  apply list_elem_of_lookup in He as [k Hk].
  destruct (Forall2_lookup_l _ _ _ _ _ Hsame Hk) as (s & Hsin%list_elem_of_lookup_2 & [_ _ Hid _ _]).
  apply (Hp (mkFileSymbols g native syms)) with (s:=s); [|done|].
  - apply list_elem_of_omap. exists (g, native). simpl. by rewrite (Hv g native Hin), Hs.
  - rewrite Hid. simpl. unfold find_anchor. rewrite (oc_path _ _ _ _ _ _ _ _ Hoc _ _ _ Hb). simpl.
    rewrite (oc_get_bound _ _ _ _ _ _ _ _ Hoc _ _ _ Hb). simpl. by rewrite bound_anchor_id.
Qed.
End nodes.

(** ** Witness: one file, with a class and its method *)

Definition tree0 : FileTree unit :=
  mkFileTree
    (mkHierarchicalSymbols [(0, mkSymbolInfo "A" TyClass false (0, 9)%N (6, 7)%N)]
       (λ id, if bool_decide (id = 0) then [(1, mkSymbolInfo "m" TyMethod false (2, 8)%N (3, 4)%N)] else []))
    "class A:  " ∅ (λ r, (1, r.1 + 1, 1, r.2 + 1)%N).

#[local] Existing Instance external0.

Definition tree_policy0 : HashPolicy := mkHashPolicy true true false false.

Definition tree_entities0 : list Entity :=
  match extract_file (λ _ _, "") 3 (entity_ctx "/p/a.py" tree_policy0 tree0) with
  | Some (es, _) => es
  | None => []
  end.

Definition tree_run0 := reconcile_impl mint0 empty_registry tree_entities0 1 None 0.

Definition tree_registry0 : IdentityRegistry :=
  match tree_run0 with Some (r, _, _) => r | None => empty_registry end.

Definition tree_view0 : ProjectView :=
  mkProjectView ["/p/a.py"]
    (λ path, compute_document_symbols (λ _ _, "") 3 (symbol_ctx path tree_registry0 None None tree0))
    (λ _, None) (λ _ _ _, None) (λ _ _ _, None).

Lemma tree_pre0 : reconcile_pre mint0 empty_registry tree_entities0 0.
Proof.
  split; [apply _|exact empty_ok|by intros k _| |by intros id a e [=]].
  apply (bool_decide_unpack _). vm_compute. exact I.
Qed.

Lemma tree_run0_eq : ∃ rc n, tree_run0 = Some (tree_registry0, rc, n).
Proof.
  unfold tree_registry0. assert (match tree_run0 with Some _ => true | None => false end = true) as H
    by (vm_compute; reflexivity).
  destruct tree_run0 as [[[r rc] n]|]; [|discriminate H]. by exists rc, n.
Qed.

Lemma entities_are_nodes_witness :
  ∃ rc n b, tree_run0 = Some (tree_registry0, rc, n) ∧ ("/p/a.py::A::m", b) ∈ rc_bindings rc ∧
    is_Some (nodes (layer (build "/p" tree_view0)) !! binding_id b).
Proof.
  destruct tree_run0_eq as (rc & n & Hrun).
  assert (listed_files "/p" tree_view0 = [("a.py", "/p/a.py")]) as El by (vm_compute; reflexivity).
  assert (∀ fes vis, extract_file (λ _ _, "") 3 (entity_ctx "/p/a.py" tree_policy0 tree0) = Some (fes, vis) →
            fes = tree_entities0) as Hfes.
  { intros fes vis Hx. unfold tree_entities0. rewrite Hx. reflexivity. }
  destruct (entities_are_nodes (λ _ _, "") 3 tree_policy0 None None (λ _, tree0) "/p" tree_view0
    mint0 empty_registry tree_entities0 1 None 0 tree_registry0 rc n tree_pre0 Hrun) with (g:="a.py") (native:="/p/a.py")
    as (fes & vis & Hx & H).
  - intros g native _. reflexivity.
  - intros g native _. exists [0; 1]. split; [vm_compute; reflexivity|].
    apply (bool_decide_unpack _). vm_compute. exact I.
  - intros g native fes vis e Hin Hx He. rewrite El in Hin. apply list_elem_of_singleton in Hin as [= _ ->].
    rewrite <- (Hfes fes vis Hx). exact He.
  - rewrite El. left.
  - apply Hfes in Hx. subst fes.
    assert (tree_entities0 !! 1 ≫= (λ e, Some (e_qualified_path e)) = Some "/p/a.py::A::m") as Hq
      by (vm_compute; reflexivity).
    destruct (tree_entities0 !! 1) as [e|] eqn:Ee; [|discriminate Hq].
    apply list_elem_of_lookup_2, H in Ee as (b & Hb & Hs). simpl in Hq. injection Hq as Hq. rewrite Hq in Hb.
    exists rc, n, b. split; [exact Hrun|]. split; [exact Hb|exact Hs].
Defined.
