(* ===== verification/Coordinates.v ===== *)
(** * Positions and offsets ([rust/src/coordinates.rs])

    The conversions between the 1-based positions of the API and byte offsets.
    The line index of a source text comes from [ruff_source_file]: a record of
    its operations, with the law the two directions rely on. *)

From Stdlib Require Import NArith Ascii.
From stdpp Require Import pretty.
From S2P Require Import Prelude Str CodeLayer CodeBuilder.

(** [LineIndex]: the number of lines, the offset of a location and the location
    of an offset, with zero-based lines and characters (UTF-32 encoding). *)
Record LineIndex := mkLineIndex {
  li_line_count : nat;
  li_offset : nat * nat → N;
  li_source_location : N → nat * nat;
}.

Definition LF : ascii := ascii_of_N 10.
Definition CR : ascii := ascii_of_N 13.

(** [str::strip_suffix] of one character, or the string itself. *)
Fixpoint strip_last (c : ascii) (s : string) : string :=
  match s with
  | EmptyString => EmptyString
  | String d EmptyString => if Ascii.eqb d c then EmptyString else s
  | String d s' => String d (strip_last c s')
  end.

(** The number of characters of a line, without its line break. *)
Definition line_char_count (source : string) (line_idx : nat) : nat :=
  let raw_line := default "" (split_char LF source !! line_idx) in
  length (str_chars (strip_last CR raw_line)).

Definition line_error (line : N) (total : nat) : string :=
  "Line " +:+ pretty line +:+ " exceeds file length (" +:+ pretty total +:+ " lines)".

Definition position_to_offset_with_index (source : string) (li : LineIndex) (line column : N) :
    result string N :=
  if (line =? 0)%N then Err "Line must be >= 1"
  else if (column =? 0)%N then Err "Column must be >= 1"
  else
    let line_idx := N.to_nat (line - 1) in
    let col := N.to_nat (column - 1) in
    if bool_decide (li_line_count li ≤ line_idx) then Err (line_error line (li_line_count li))
    else
      let n := line_char_count source line_idx in
      if bool_decide (n < col)
      then Err ("Column " +:+ pretty column +:+ " exceeds line " +:+ pretty (line_idx + 1) +:+
                " length (" +:+ pretty n +:+ " characters)")
      else Ok (li_offset li (line_idx, col)).

(** [n as u32 + 1] *)
Definition u32_succ_of (n : nat) : N := ((N.of_nat n mod u32_modulus + 1) mod u32_modulus)%N.

Definition position_to_offset_clamped_line_end_with_index (source : string) (li : LineIndex)
    (line column : N) : result string N :=
  match position_to_offset_with_index source li line column with
  | Ok offset => Ok offset
  | Err _ =>
      if (line =? 0)%N then Err "Line must be >= 1"
      else
        let line_idx := N.to_nat (line - 1) in
        if bool_decide (li_line_count li ≤ line_idx) then Err (line_error line (li_line_count li))
        else position_to_offset_with_index source li line (u32_succ_of (line_char_count source line_idx))
  end.

(** [to_zero_indexed() + 1] and [get()], as [u32]. *)
Definition one_based (n : nat) : N := (N.of_nat (n + 1) mod u32_modulus)%N.

Definition range_to_dto_with_index (li : LineIndex) (range : N * N) : RangeTuple :=
  let '(sl, sc) := li_source_location li range.1 in
  let '(el, ec) := li_source_location li range.2 in
  (one_based sl, one_based sc, one_based el, one_based ec).

(** ** The text

    The lines of a text, as Python and ruff count them: a line ends at LF, at
    CR LF, and at a CR that no LF follows. *)

(** The first line, with a character in front of it. *)
Definition cons_first (c : ascii) (l : list string) : list string :=
  match l with x :: l => String c x :: l | [] => [String c ""] end.

Fixpoint text_lines (s : string) : list string :=
  match s with
  | EmptyString => [EmptyString]
  | String c s' =>
      if Ascii.eqb c LF then EmptyString :: text_lines s'
      else if Ascii.eqb c CR then
        match s' with
        | String d s'' => if Ascii.eqb d LF then EmptyString :: text_lines s'' else EmptyString :: text_lines s'
        | EmptyString => [EmptyString; EmptyString]
        end
      else cons_first c (text_lines s')
  end.

(** Line [i] has a place before its character [c], or at its end. *)
Definition position_of (source : string) (i c : nat) : Prop :=
  ∃ l, text_lines source !! i = Some l ∧ c ≤ length (str_chars l).

(** What [LineIndex] documents, of the index of a text: it counts the lines, and
    gives the offset of a place of the text and the place of that offset. *)
Record line_index_ok (source : string) (li : LineIndex) : Prop := {
  lx_count : li_line_count li = length (text_lines source);
  lx_bound : ∀ i c, position_of source i c → (li_offset li (i, c) ≤ N.of_nat (String.length source))%N;
  lx_location : ∀ i c, position_of source i c → li_source_location li (li_offset li (i, c)) = (i, c);
}.

(** Every CR is followed by a LF. *)
Fixpoint no_lone_cr (s : string) : bool :=
  match s with
  | EmptyString => true
  | String c s' =>
      (negb (Ascii.eqb c CR) || match s' with String d _ => Ascii.eqb d LF | EmptyString => false end) &&
      no_lone_cr s'
  end.

Lemma split_char_nonempty c s : split_char c s ≠ [].
Proof. destruct s as [|d s]; simpl; [done|]. destruct (Ascii.eqb c d); [done|]. by destruct (split_char c s). Qed.

Lemma split_char_ne c d s : c ≠ d → split_char c (String d s) = cons_first d (split_char c s).
Proof. intros H. simpl. destruct (Ascii.eqb_spec c d); [done|]. by destruct (split_char c s). Qed.

Lemma strip_last_ne c d s : d ≠ c → strip_last c (String d s) = String d (strip_last c s).
Proof. intros H. destruct s as [|e s]; [|done]. simpl. by destruct (Ascii.eqb_spec d c). Qed.

Lemma strip_first c l : c ≠ CR → l ≠ [] → strip_last CR <$> cons_first c l = cons_first c (strip_last CR <$> l).
Proof.
  intros Hc Hl. destruct l as [|x l]; [done|]. cbn [cons_first fmap list_fmap].
  by rewrite strip_last_ne.
Qed.

(** Without a lone CR the lines are the pieces between LFs, less their CR. *)
Lemma text_lines_split s : no_lone_cr s → text_lines s = strip_last CR <$> split_char LF s.
Proof.
  assert (CR ≠ LF) as Hne by done.
  assert (∀ n s, String.length s ≤ n → no_lone_cr s → text_lines s = strip_last CR <$> split_char LF s) as H; [|by eapply H].
  clear s. induction n as [|n IH]; intros s Hn Hs; (destruct s as [|c s]; [done|]); simpl in Hn; [lia|].
  cbn [no_lone_cr] in Hs. apply andb_True in Hs as [Hc Hs]. cbn [text_lines].
  destruct (Ascii.eqb_spec c LF) as [->|Hlf]; [simpl; by rewrite (IH s) by (done || lia)|].
  destruct (Ascii.eqb_spec c CR) as [->|Hcr].
  - destruct s as [|d s]; [done|]. destruct (Ascii.eqb_spec d LF) as [->|]; [|done].
    cbn [no_lone_cr] in Hs. apply andb_True in Hs as [_ Hs]. simpl in Hn.
    rewrite split_char_ne by done. simpl. by rewrite (IH s) by (done || lia).
  - rewrite split_char_ne, strip_first, (IH s) by (done || lia || apply split_char_nonempty). done.
Qed.

Lemma line_char_count_text s i l :
  no_lone_cr s → text_lines s !! i = Some l → line_char_count s i = length (str_chars l).
Proof.
  intros Hs. rewrite text_lines_split by done. rewrite list_lookup_fmap. unfold line_char_count.
  destruct (split_char LF s !! i) as [x|]; [|done]. by intros [= <-].
Qed.

(** ** What the conversions accept *)

(** The guards of the code. *)
Definition accepted (source : string) (li : LineIndex) (line column : N) : Prop :=
  (1 ≤ line)%N ∧ N.to_nat (line - 1) < li_line_count li ∧
  (1 ≤ column)%N ∧ N.to_nat (column - 1) ≤ line_char_count source (N.to_nat (line - 1)).

Lemma position_to_offset_ok source li line column offset :
  position_to_offset_with_index source li line column = Ok offset ↔
  accepted source li line column ∧ offset = li_offset li (N.to_nat (line - 1), N.to_nat (column - 1)).
Proof.
  unfold position_to_offset_with_index, accepted.
  destruct (N.eqb_spec line 0) as [->|Hl]; [split; [done|lia]|].
  destruct (N.eqb_spec column 0) as [->|Hc]; [split; [done|lia]|].
  case_bool_decide; [split; [done|lia]|]. case_bool_decide; [split; [done|lia]|].
  split; [intros [= <-]|intros [_ ->]; done]. split; [|done]. lia.
Qed.

(** The 1-based positions of a text. *)
Definition valid_position (source : string) (line column : N) : Prop :=
  (1 ≤ line)%N ∧ (1 ≤ column)%N ∧ position_of source (N.to_nat (line - 1)) (N.to_nat (column - 1)).

Lemma accepted_valid source li line column :
  no_lone_cr source → line_index_ok source li → accepted source li line column ↔ valid_position source line column.
Proof.
  intros Hs [Hn _ _]. unfold accepted, valid_position, position_of. rewrite Hn. split.
  - intros (H1 & H2 & H3 & H4). split; [done|]. split; [done|]. apply lookup_lt_is_Some in H2 as [l Hl].
    exists l. split; [done|]. by rewrite <- (line_char_count_text _ _ _ Hs Hl).
  - intros (H1 & H2 & l & Hl & H3). rewrite (line_char_count_text _ _ _ Hs Hl).
    split; [done|]. split; [by eapply lookup_lt_Some|]. done.
Qed.

(** C38: on a text whose every CR ends in CR LF, a position converts exactly when
    it is a position of the text, as its lines are counted: lines and columns
    start at 1, the line exists, and the column is at most one past the last
    character of the line, line break left out.  The offset is the one the line
    index gives for it and lies in the text; any other position is an error. *)
Theorem position_to_offset_bounds source li line column :
  no_lone_cr source → line_index_ok source li →
  match position_to_offset_with_index source li line column with
  | Ok offset => valid_position source line column ∧ (offset ≤ N.of_nat (String.length source))%N ∧
      offset = li_offset li (N.to_nat (line - 1), N.to_nat (column - 1))
  | Err _ => ¬ valid_position source line column
  end.
Proof.
  intros Hs Hli. destruct (position_to_offset_with_index source li line column) as [o|e] eqn:E.
  - apply position_to_offset_ok in E as [Hv ->]. rewrite accepted_valid in Hv by done.
    split; [done|]. split; [|done]. apply (lx_bound _ _ Hli), Hv.
  - rewrite <- (accepted_valid source li) by done. intros Hv.
    rewrite (proj2 (position_to_offset_ok source li line column _) (conj Hv eq_refl)) in E. done.
Qed.

(** The clamped conversion succeeds on every line of the text: a column of
    the line converts as it is, and any other column, column 0 included, as the
    end of the line.  It fails only for a line the text does not have.  A line
    of [2^32 - 1] characters or more is out of reach of a [u32] column. *)
Theorem clamped_total source li line column :
  let len := line_char_count source (N.to_nat (line - 1)) in
  (N.of_nat len + 1 < u32_modulus)%N →
  match position_to_offset_clamped_line_end_with_index source li line column with
  | Ok offset => (1 ≤ line)%N ∧ N.to_nat (line - 1) < li_line_count li ∧
      offset = li_offset li (N.to_nat (line - 1),
        if decide ((1 ≤ column)%N ∧ N.to_nat (column - 1) ≤ len) then N.to_nat (column - 1) else len)
  | Err _ => (line = 0)%N ∨ li_line_count li ≤ N.to_nat (line - 1)
  end.
Proof.
  intros len Hlen. unfold position_to_offset_clamped_line_end_with_index.
  destruct (position_to_offset_with_index source li line column) as [o|e] eqn:E.
  { apply position_to_offset_ok in E as [(H1 & H2 & H3 & H4) ->]. by rewrite decide_True by done. }
  destruct (N.eqb_spec line 0) as [->|Hl]; [by left|]. case_bool_decide as Hc; [by right|].
  assert (u32_succ_of len = N.of_nat len + 1)%N as Hs.
  { unfold u32_succ_of. rewrite (N.mod_small (N.of_nat len)), N.mod_small by lia. done. }
  fold len. rewrite Hs.
  assert (accepted source li line (N.of_nat len + 1)) as Hv.
  { unfold accepted. fold len. lia. }
  rewrite (proj2 (position_to_offset_ok source li line _ _) (conj Hv eq_refl)).
  split; [lia|]. split; [lia|]. rewrite decide_False.
  - by replace (N.to_nat (N.of_nat len + 1 - 1)) with len by lia.
  - intros [H1 H2]. assert (accepted source li line column) as Hv'.
    { unfold accepted. fold len. lia. }
    rewrite (proj2 (position_to_offset_ok source li line column _) (conj Hv' eq_refl)) in E. done.
Qed.

(** ** Round trip *)

(** A range of the API converted to offsets and back is the same range: no
    line or column is lost, or cut by the 32-bit width of positions. *)
Theorem range_roundtrip source li sl sc el ec o1 o2 :
  no_lone_cr source → line_index_ok source li →
  (sl < u32_modulus)%N → (sc < u32_modulus)%N → (el < u32_modulus)%N → (ec < u32_modulus)%N →
  position_to_offset_with_index source li sl sc = Ok o1 →
  position_to_offset_with_index source li el ec = Ok o2 →
  range_to_dto_with_index li (o1, o2) = (sl, sc, el, ec).
Proof.
  intros Hcr Hli H1 H2 H3 H4 [Hs ->]%position_to_offset_ok [He ->]%position_to_offset_ok.
  rewrite (accepted_valid source li) in Hs, He by done. destruct Hs as (Hs1 & Hs2 & Hs), He as (He1 & He2 & He).
  unfold range_to_dto_with_index. simpl. rewrite !(lx_location _ _ Hli) by done.
  assert (∀ n, (1 ≤ n)%N → (n < u32_modulus)%N → one_based (N.to_nat (n - 1)) = n) as Hb.
  { intros n Hn Hlt. unfold one_based. rewrite N.mod_small; lia. }
  by rewrite !Hb.
Qed.

(** The offset of a place of the text, converted to a position and back. *)
Lemma place_roundtrip source li i c :
  no_lone_cr source → line_index_ok source li → position_of source i c →
  (N.of_nat i + 1 < u32_modulus)%N → (N.of_nat c + 1 < u32_modulus)%N →
  position_to_offset_with_index source li (one_based i) (one_based c) = Ok (li_offset li (i, c)).
Proof.
  intros Hcr Hli Hp Hi Hc.
  assert (one_based i = N.of_nat i + 1)%N as -> by (unfold one_based; rewrite N.mod_small; lia).
  assert (one_based c = N.of_nat c + 1)%N as -> by (unfold one_based; rewrite N.mod_small; lia).
  assert (N.to_nat (N.of_nat i + 1 - 1) = i) as Ei by lia. assert (N.to_nat (N.of_nat c + 1 - 1) = c) as Ec by lia.
  apply position_to_offset_ok. rewrite accepted_valid, Ei, Ec by done. split; [|done].
  unfold valid_position. rewrite Ei, Ec. split; [lia|]. split; [lia|done].
Qed.

(** ** A lone CR

    The line count breaks at it and the column check does not: of the text
    [a CR bb], which has the lines [a] and [bb], column 5 of line 1 is accepted
    and column 2 of line 2 is refused, whatever the offsets of the line index. *)

Definition lone_cr0 : string := String "a" (String CR "bb").

Theorem lone_cr_misplaced li :
  line_index_ok lone_cr0 li →
  ¬ valid_position lone_cr0 1 5 ∧ is_ok (position_to_offset_with_index lone_cr0 li 1 5) = true ∧
  valid_position lone_cr0 2 2 ∧ is_ok (position_to_offset_with_index lone_cr0 li 2 2) = false.
Proof.
  intros [Hn _ _]. assert (text_lines lone_cr0 = ["a"; "bb"]) as Hl by reflexivity. rewrite Hl in Hn. simpl in Hn.
  assert (line_char_count lone_cr0 0 = 4 ∧ line_char_count lone_cr0 1 = 0) as [H0 H1] by by vm_compute.
  split_and!.
  - intros (_ & _ & l & Hi & Hc). rewrite Hl in Hi. simpl in Hi. injection Hi as <-. revert Hc. vm_compute. lia.
  - destruct (position_to_offset_with_index lone_cr0 li 1 5) as [o|e] eqn:E; [done|]. exfalso.
    assert (accepted lone_cr0 li 1 5) as Ha by (unfold accepted; change (N.to_nat (1 - 1)) with 0; change (N.to_nat (5 - 1)) with 4; rewrite H0, Hn; lia).
    by rewrite (proj2 (position_to_offset_ok _ _ _ _ _) (conj Ha eq_refl)) in E.
  - split; [done|]. split; [done|]. exists "bb". split; [done|]. vm_compute. lia.
  - destruct (position_to_offset_with_index lone_cr0 li 2 2) as [o|e] eqn:E; [|done]. exfalso.
    apply position_to_offset_ok in E as [(_ & _ & _ & Hc) _]. change (N.to_nat (2 - 1)) with 1 in Hc. rewrite H1 in Hc. lia.
Qed.

(** ** Witnesses: a text of one line of ASCII characters *)

Definition line0 : LineIndex := mkLineIndex 1 (λ lc, N.of_nat lc.2) (λ o, (0, N.to_nat o)).

Lemma clamped_total_witness :
  position_to_offset_clamped_line_end_with_index "abc" line0 1 9 = Ok 3%N ∧
  li_offset line0 (0, 3) = 3%N.
Proof.
  pose proof (clamped_total "abc" line0 1 9 eq_refl) as H.
  destruct (position_to_offset_clamped_line_end_with_index "abc" line0 1 9) as [o|e] eqn:E.
  - destruct H as (_ & _ & ->). split; reflexivity.
  - revert E. vm_compute. discriminate.
Defined.

Lemma line0_ok s : text_lines s = [s] → length (str_chars s) = String.length s → line_index_ok s line0.
Proof.
  intros Hl Hn. split; [by rewrite Hl|..]; intros i c (l & Hi & Hc); rewrite Hl in Hi;
    apply list_lookup_singleton_Some in Hi as [-> <-]; simpl; [lia|by rewrite Nat2N.id].
Qed.

Lemma range_roundtrip_witness : range_to_dto_with_index line0 (1, 3)%N = (1, 2, 1, 4)%N.
Proof. apply (range_roundtrip "abc" line0 1 2 1 4 1 3); try reflexivity. by apply line0_ok. Defined.

(** Two lines, [ab] and [c], with CR LF between them. *)
Definition crlf0 : string := String "a" (String "b" (String CR (String LF "c"))).

Definition line_crlf0 : LineIndex :=
  mkLineIndex 2 (λ lc, N.of_nat (4 * lc.1 + lc.2)) (λ o, if (o <? 4)%N then (0, N.to_nat o) else (1, N.to_nat o - 4)).

Lemma line_crlf0_ok : line_index_ok crlf0 line_crlf0.
Proof.
  assert (text_lines crlf0 = ["ab"; "c"]) as Hl by reflexivity.
  split; [done|..]; intros i c (l & Hi & Hc); rewrite Hl in Hi; destruct i as [|[|i]]; simpl in Hi; try done;
    injection Hi as <-; change (length (str_chars "ab")) with 2 in Hc || change (length (str_chars "c")) with 1 in Hc.
  - simpl. lia.
  - change (N.of_nat (String.length crlf0)) with 5%N. simpl. lia.
  - unfold line_crlf0. simpl. destruct (N.ltb_spec (N.of_nat c) 4); [by rewrite Nat2N.id|lia].
  - unfold line_crlf0. cbn [li_offset li_source_location fst snd].
    destruct (N.ltb_spec (N.of_nat (4 * 1 + c)) 4); [lia|]. f_equal. lia.
Qed.

(** The end of the first line is a position, and its line break is not. *)
Lemma position_to_offset_bounds_witness :
  valid_position crlf0 1 3 ∧ ¬ valid_position crlf0 1 4 ∧ valid_position crlf0 2 2.
Proof.
  pose proof (λ l c, position_to_offset_bounds crlf0 line_crlf0 l c I line_crlf0_ok) as H.
  split; [apply (H 1%N 3%N)|]. split; [exact (H 1%N 4%N)|apply (H 2%N 2%N)].
Defined.
