(* ===== verification/EntityAt.v ===== *)
(** * The entity at a position ([id_for] of [rust/src/project/identity_ops.rs],
    [build_qualified_path], [resolve_file] of [rust/src/files.rs])

    The query that gives a client the durable id of the code under the cursor,
    and what it answers; the resolution of a path, which the producer's queries
    go through as well.  The file system, the symbol table and the line index
    are inputs: a record of the queries made. *)

From Stdlib Require Import NArith.
From S2P Require Import Prelude Str Paths Content Identity Entity CodeLayer CodeBuilder Symbols Coordinates.
Import Registry.

(** What the query reads: [canonicalize], the UTF-8 check of a path,
    [system_path_to_file] as the path of the file it returns, and the symbols,
    source and line index of a file. *)
Record FileQueries := mkFileQueries {
  fq_canonicalize : string → result string string;
  fq_is_utf8 : string → bool;
  fq_system_path_to_file : string → result string string;
  fq_symbols : string → HierarchicalSymbols;
  fq_source : string → string;
  fq_line_index : string → LineIndex;
}.

Definition resolve_file (fq : FileQueries) (root path_str : string) : result string string :=
  let absolute := if is_absolute path_str then path_str else path_join root path_str in
  match fq_canonicalize fq absolute with
  | Err e => Err ("Cannot resolve path '" +:+ path_str +:+ "': " +:+ e)
  | Ok canonical =>
      if fq_is_utf8 fq canonical then
        match fq_system_path_to_file fq canonical with
        | Ok file => Ok file
        | Err e => Err ("File not in project: " +:+ path_str +:+ " (" +:+ e +:+ ")")
        end
      else Err ("Path contains non-UTF-8 characters: " +:+ path_str)
  end.

(** [AnalysisError], under the names it has for the client. *)
Inductive QueryError :=
| PathResolutionError (msg : string)
| PositionError (msg : string).

(** The file and its source text. *)
Definition resolve_file_and_source (fq : FileQueries) (root path : string) : result QueryError (string * string) :=
  match resolve_file fq root path with
  | Ok file => Ok (file, fq_source fq file)
  | Err e => Err (PathResolutionError e)
  end.

(** The first listed symbol that has [current] among its children. *)
Definition parent_of (h : HierarchicalSymbols) (current : nat) : option (nat * SymbolInfo) :=
  find (λ p, existsb (λ c, c.1 =? current) (h_children h p.1)) (h_iter h).

(** The loop that walks up; [None] is exhausted fuel. *)
Fixpoint walk_up (fuel : nat) (h : HierarchicalSymbols) (current : nat) (segments : list string) :
    option (list string) :=
  match fuel with
  | O => None
  | S fuel =>
      match parent_of h current with
      | Some (pid, pinfo) => walk_up fuel h pid (segments ++ [si_name pinfo])
      | None => Some segments
      end
  end.

Definition build_qualified_path (fuel : nat) (h : HierarchicalSymbols) (target_id : nat) (file_path : string) :
    option string :=
  let segments :=
    match find (λ x, x.1 =? target_id) (h_iter h) with
    | Some (id, info) => walk_up fuel h id [si_name info]
    | None => Some []
    end in
  (λ s, file_path +:+ "::" +:+ String.concat "::" (reverse s)) <$> segments.

(** [TextRange::contains] and [TextRange::len]. *)
Definition range_contains (r : N * N) (offset : N) : bool := (r.1 <=? offset)%N && (offset <? r.2)%N.
Definition range_len (r : N * N) : N := (r.2 - r.1)%N.

(** The loop over the listed symbols: the best path so far with its size. *)
Definition best_step (fuel : nat) (h : HierarchicalSymbols) (file_path : string) (offset : N)
    (acc : option (option (string * N))) (x : nat * SymbolInfo) : option (option (string * N)) :=
  match acc with
  | None => None
  | Some best =>
      if range_contains (si_full_range x.2) offset then
        let size := range_len (si_full_range x.2) in
        if match best with None => true | Some (_, prev) => (size <? prev)%N end
        then match build_qualified_path fuel h x.1 file_path with
             | Some qp => Some (Some (qp, size))
             | None => None
             end
        else Some best
      else Some best
  end.

(** [None] is exhausted fuel. *)
Definition id_for (fuel : nat) (fq : FileQueries) (root : string) (registry : IdentityRegistry)
    (path : string) (line col : N) : option (result QueryError (option string)) :=
  match resolve_file fq root path with
  | Err e => Some (Err (PathResolutionError e))
  | Ok file =>
      match position_to_offset_with_index (fq_source fq file) (fq_line_index fq file) line col with
      | Err e => Some (Err (PositionError e))
      | Ok offset =>
          let h := fq_symbols fq file in
          match foldl (best_step fuel h file offset) (Some None) (h_iter h) with
          | None => None
          | Some best => Some (Ok (best ≫= λ b, by_path registry b.1))
          end
      end
  end.

(** ** The path of a listed symbol *)

(** The path the parents of a symbol spell. *)
Inductive qualified (h : HierarchicalSymbols) (file : string) : nat → string → string → Prop :=
| qualified_top id name :
    parent_of h id = None → qualified h file id name (file +:+ "::" +:+ name)
| qualified_nested id name p pinfo q :
    parent_of h id = Some (p, pinfo) → qualified h file p (si_name pinfo) q →
    qualified h file id name (q +:+ "::" +:+ name).

Lemma concat_snoc sep l x :
  l ≠ [] → String.concat sep (l ++ [x]) = String.concat sep l +:+ sep +:+ x.
Proof.
  induction l as [|y [|z l] IH]; [done|done|]. intros _.
  change (String.concat sep ((y :: z :: l) ++ [x])) with (y +:+ sep +:+ String.concat sep ((z :: l) ++ [x])).
  rewrite IH by done.
  change (String.concat sep (y :: z :: l)) with (y +:+ sep +:+ String.concat sep (z :: l)).
  by rewrite !str_app_assoc.
Qed.

Section paths.
Context (h : HierarchicalSymbols) (file : string).

(** The symbols have a depth that parents decrease: the upward walk of a finite
    tree.  The fuel is one more than the depth. *)
Context (rank : nat → nat) (Hrank : ∀ c p, parent_of h c = Some p → rank p.1 < rank c).

Lemma walk_up_spec fuel current segments :
  rank current < fuel →
  ∃ rest, walk_up fuel h current segments = Some (segments ++ rest) ∧
    ∀ name, qualified h file current name (file +:+ "::" +:+ String.concat "::" (reverse rest ++ [name])).
Proof.
  revert current segments. induction fuel as [|fuel IH]; [lia|]. intros current segments Hf. simpl.
  destruct (parent_of h current) as [[p pinfo]|] eqn:E.
  - apply Hrank in E as Hlt. simpl in Hlt.
    destruct (IH p (segments ++ [si_name pinfo])) as (rest & -> & Hq); [lia|].
    exists (si_name pinfo :: rest). rewrite <- app_assoc. split; [done|]. intros name.
    rewrite reverse_cons, concat_snoc by (by destruct (reverse rest)).
    set (q := String.concat "::" (reverse rest ++ [si_name pinfo])).
    replace (file +:+ "::" +:+ q +:+ "::" +:+ name) with ((file +:+ "::" +:+ q) +:+ "::" +:+ name)
      by (by rewrite !str_app_assoc).
    eapply qualified_nested; [done|]. apply Hq.
  - exists []. rewrite app_nil_r. split; [done|]. intros name. by apply qualified_top.
Qed.

Lemma build_qualified_path_spec fuel id info :
  (id, info) ∈ h_iter h → rank id < fuel →
  ∃ info' q, (id, info') ∈ h_iter h ∧ build_qualified_path fuel h id file = Some q ∧
    qualified h file id (si_name info') q.
Proof.
  intros Hin Hf. unfold build_qualified_path.
  destruct (find (λ x, x.1 =? id) (h_iter h)) as [[id' info']|] eqn:E.
  - apply find_some in E as [E1 E2]. apply Nat.eqb_eq in E2. simpl in E2. subst id'.
    destruct (walk_up_spec fuel id [si_name info'] Hf) as (rest & -> & Hq).
    exists info', (file +:+ "::" +:+ String.concat "::" (reverse rest ++ [si_name info'])).
    split; [by apply list_elem_of_In|]. split; [|done]. simpl. by rewrite reverse_cons.
  - apply list_elem_of_In in Hin. pose proof (find_none _ _ E _ Hin) as H. simpl in H.
    by rewrite Nat.eqb_refl in H.
Qed.
End paths.

(** ** What the query answers *)

(** Among the listed symbols [l], [r] is the path of a smallest one that
    contains the position, or nothing when none does. *)
Definition smallest (h : HierarchicalSymbols) (file : string) (offset : N) (l : list (nat * SymbolInfo))
    (r : option (string * N)) : Prop :=
  match r with
  | None => ∀ x, x ∈ l → range_contains (si_full_range x.2) offset = false
  | Some (q, size) =>
      (∃ id info info', (id, info) ∈ l ∧ (id, info') ∈ h_iter h ∧
         range_contains (si_full_range info) offset ∧ size = range_len (si_full_range info) ∧
         qualified h file id (si_name info') q) ∧
      ∀ x, x ∈ l → range_contains (si_full_range x.2) offset → (size ≤ range_len (si_full_range x.2))%N
  end.

Section query.
Context (h : HierarchicalSymbols) (file : string) (offset : N) (fuel : nat).
Context (rank : nat → nat) (Hrank : ∀ c p, parent_of h c = Some p → rank p.1 < rank c).
Context (Hfuel : ∀ x, x ∈ h_iter h → rank x.1 < fuel).

Lemma best_step_smallest l best x :
  x ∈ h_iter h → smallest h file offset l best →
  ∃ best', best_step fuel h file offset (Some best) x = Some best' ∧ smallest h file offset (l ++ [x]) best'.
Proof.
  intros Hx Hl. destruct x as [id info]. unfold best_step. simpl.
  destruct (range_contains (si_full_range info) offset) eqn:Hc.
  2: { exists best. split; [done|]. destruct best as [[q size]|]; simpl in *.
       - destruct Hl as [(i & n & n' & H1 & H2) H3]. split.
         + exists i, n, n'. split; [set_solver|done].
         + intros y [Hy|Hy]%elem_of_app; [by apply H3|]. apply list_elem_of_singleton in Hy as ->. simpl. by rewrite Hc.
       - intros y [Hy|Hy]%elem_of_app; [by apply Hl|]. by apply list_elem_of_singleton in Hy as ->. }
  destruct (build_qualified_path_spec h file rank Hrank fuel id info Hx (Hfuel _ Hx)) as (info' & q & Hi & -> & Hq).
  destruct best as [[q0 prev]|]; simpl in *.
  - destruct Hl as [(i & n & n' & H1 & H2) H3]. destruct (N.ltb_spec (range_len (si_full_range info)) prev).
    + eexists; split; [done|]. simpl. split.
      * exists id, info, info'. rewrite Hc. split; [set_solver|done].
      * intros y [Hy|Hy]%elem_of_app Hcy; [specialize (H3 y Hy Hcy); lia|].
        by apply list_elem_of_singleton in Hy as ->.
    + eexists; split; [done|]. simpl. split.
      * exists i, n, n'. split; [set_solver|done].
      * intros y [Hy|Hy]%elem_of_app Hcy; [by apply H3|]. by apply list_elem_of_singleton in Hy as ->.
  - eexists; split; [done|]. simpl. split.
    + exists id, info, info'. rewrite Hc. split; [set_solver|done].
    + intros y [Hy|Hy]%elem_of_app Hcy; [by rewrite (Hl y Hy) in Hcy|]. by apply list_elem_of_singleton in Hy as ->.
Qed.

Lemma best_loop l l' best :
  (∀ x, x ∈ l' → x ∈ h_iter h) → smallest h file offset l best →
  ∃ best', foldl (best_step fuel h file offset) (Some best) l' = Some best' ∧ smallest h file offset (l ++ l') best'.
Proof.
  revert l best. induction l' as [|x l' IH]; intros l best Hin Hl.
  { exists best. by rewrite app_nil_r. }
  destruct (best_step_smallest l best x) as (b & E & Hb); [apply Hin; left|done|].
  cbn [foldl]. rewrite E. rewrite (cons_middle x l l'), app_assoc. apply IH; [|done].
  intros y Hy. apply Hin. by right.
Qed.
End query.

(** The query always answers: an error for a path or a position that does not
    resolve, and otherwise the id registered for the path of a smallest listed
    symbol around the position, or none. *)
Theorem id_for_answers fq root registry path line col fuel rank :
  (∀ file c p, parent_of (fq_symbols fq file) c = Some p → rank p.1 < rank c) →
  (∀ file x, x ∈ h_iter (fq_symbols fq file) → rank x.1 < fuel) →
  ∃ r, id_for fuel fq root registry path line col = Some r ∧
  match resolve_file fq root path with
  | Err e => r = Err (PathResolutionError e)
  | Ok file =>
      match position_to_offset_with_index (fq_source fq file) (fq_line_index fq file) line col with
      | Err e => r = Err (PositionError e)
      | Ok offset => ∃ best, smallest (fq_symbols fq file) file offset (h_iter (fq_symbols fq file)) best ∧
          r = Ok (best ≫= λ b, by_path registry b.1)
      end
  end.
Proof.
  intros Hrank Hfuel. unfold id_for. destruct (resolve_file fq root path) as [file|e]; [|by eauto].
  destruct (position_to_offset_with_index _ _ line col) as [offset|e]; [|by eauto].
  destruct (best_loop (fq_symbols fq file) file offset fuel rank (Hrank file) (Hfuel file) []
    (h_iter (fq_symbols fq file)) None) as (best & -> & Hb); [done|by intros ? ?%not_elem_of_nil|].
  exists (Ok (best ≫= λ b, by_path registry b.1)). split; [done|]. by exists best.
Qed.

(** ** Roots only, or every symbol *)

(** The loop that collects the ids below a list of symbols. *)
Definition ids_step (fuel : nat) (h : HierarchicalSymbols) (acc : option (list nat)) (child : nat * SymbolInfo) :
    option (list nat) :=
  match acc, walk_ids fuel h child.1 with
  | Some ids, Some new => Some (ids ++ new)
  | _, _ => None
  end.

Lemma ids_step_none fuel h cs : foldl (ids_step fuel h) None cs = None.
Proof. induction cs as [|c cs IH]; [done|exact IH]. Qed.

Lemma ids_loop_spec fuel h cs ids0 ids :
  foldl (ids_step fuel h) (Some ids0) cs = Some ids →
  ∃ news, ids = ids0 ++ mjoin news ∧
    Forall2 (λ (c : nat * SymbolInfo) new, walk_ids fuel h c.1 = Some new) cs news.
Proof.
  revert ids0. induction cs as [|c cs IH]; intros ids0; cbn [foldl].
  { intros [= <-]. exists []. by rewrite app_nil_r. }
  unfold ids_step at 2. destruct (walk_ids fuel h c.1) as [new|] eqn:E; [|by rewrite ids_step_none].
  intros (news & -> & H)%IH. exists (new :: news). rewrite <- app_assoc. split; [done|by constructor].
Qed.

Lemma walk_ids_inv fuel h id ids :
  walk_ids fuel h id = Some ids →
  ∃ below, ids = id :: below ∧ ∀ c, c ∈ h_children h id → c.1 ∈ below.
Proof.
  revert id ids. induction fuel as [|fuel IH]; [done|]. intros id ids H. cbn [walk_ids] in H.
  apply ids_loop_spec in H as (news & -> & Hn). exists (mjoin news). split; [done|].
  intros c [i Hi]%list_elem_of_lookup. destruct (Forall2_lookup_l _ _ _ _ _ Hn Hi) as (new & Hnew & Hw).
  apply list_elem_of_join. exists new. split; [|by eapply list_elem_of_lookup_2].
  destruct (IH _ _ Hw) as (below & -> & _). left.
Qed.

(** A join without duplicates keeps its parts apart. *)
Lemma NoDup_join_apart {A} (ls : list (list A)) i j li lj x :
  NoDup (mjoin ls) → ls !! i = Some li → ls !! j = Some lj → x ∈ li → x ∈ lj → i = j.
Proof.
  revert i j. induction ls as [|l ls IH]; intros i j; [done|]. cbn. rewrite NoDup_app. intros (_ & Hd & Hnd).
  assert (∀ k lk, ls !! k = Some lk → x ∈ lk → x ∈ mjoin ls) as Hjoin.
  { intros k lk Hk Hx. apply list_elem_of_join. exists lk. split; [done|by eapply list_elem_of_lookup_2]. }
  destruct i as [|i], j as [|j]; simpl; intros; simplify_eq; [done| | |].
  - exfalso. apply (Hd x); eauto.
  - exfalso. apply (Hd x); eauto.
  - f_equal. eauto.
Qed.

Lemma NoDup_join_part {A} (ls : list (list A)) i li : NoDup (mjoin ls) → ls !! i = Some li → NoDup li.
Proof.
  revert i. induction ls as [|l ls IH]; intros i; [done|]. cbn. rewrite NoDup_app. intros (H & _ & Hnd).
  destruct i as [|i]; simpl; intros; simplify_eq; eauto.
Qed.

(** In a forest the listed symbols are the roots. *)
Lemma forest_roots depth h p c :
  forest depth h → p ∈ h_iter h → c ∈ h_children h p.1 → c.1 ∉ (h_iter h).*1.
Proof.
  intros (ids & Hids & Hnd) [i Hi]%list_elem_of_lookup Hc Hin.
  apply ids_loop_spec in Hids as (news & -> & Hn). simpl in Hnd.
  apply list_elem_of_fmap in Hin as (c' & Ec & [j Hj]%list_elem_of_lookup).
  destruct (Forall2_lookup_l _ _ _ _ _ Hn Hi) as (li & Hli & Hwi).
  destruct (Forall2_lookup_l _ _ _ _ _ Hn Hj) as (lj & Hlj & Hwj).
  destruct (walk_ids_inv _ _ _ _ Hwi) as (bi & -> & Hbi). destruct (walk_ids_inv _ _ _ _ Hwj) as (bj & -> & _).
  assert (i = j) as <-.
  { apply (NoDup_join_apart news i j (p.1 :: bi) (c'.1 :: bj) c.1 Hnd Hli Hlj).
    - right. by apply Hbi.
    - rewrite Ec. left. }
  apply (NoDup_join_part _ _ _ Hnd) in Hli as Hp. apply NoDup_cons in Hp as [Hp _].
  rewrite Hi in Hj. injection Hj as ->. apply Hp. rewrite <- Ec. by apply Hbi.
Qed.

Lemma forest_parent depth h c p :
  forest depth h → parent_of h c = Some p → p ∈ h_iter h ∧ c ∉ (h_iter h).*1.
Proof.
  intros Hf (Hp & (c' & Hc & E%Nat.eqb_eq)%existsb_exists)%find_some. subst c.
  apply list_elem_of_In in Hp, Hc. split; [done|]. by eapply forest_roots.
Qed.

(** When the listing has no symbol twice, as the document symbols and the code
    layer need, it holds the roots only, and the query answers the id of a
    top-level entity at every position: a fuel of 2 is enough, and the id of a
    nested entity is never returned for its own position. *)
Theorem id_for_top_level fq root registry path line col depth :
  (∀ file, forest depth (fq_symbols fq file)) →
  ∃ r, id_for 2 fq root registry path line col = Some r ∧
  ∀ i, r = Ok (Some i) →
    ∃ file id info, (id, info) ∈ h_iter (fq_symbols fq file) ∧
      by_path registry (file +:+ "::" +:+ si_name info) = Some i.
Proof.
  intros Hf. set (rank file c := if bool_decide (c ∈ (h_iter (fq_symbols fq file)).*1) then 0 else 1).
  unfold id_for. destruct (resolve_file fq root path) as [file|e]; [|by eexists].
  destruct (position_to_offset_with_index _ _ line col) as [offset|e]; [|by eexists].
  destruct (best_loop (fq_symbols fq file) file offset 2 (rank file)) with (l:=@nil (nat * SymbolInfo))
    (l':=h_iter (fq_symbols fq file)) (best:=@None (string * N)) as (best & -> & Hb).
  - intros c p (Hp & Hc)%(forest_parent depth); [|done]. unfold rank.
    rewrite (bool_decide_eq_false_2 _ Hc), bool_decide_eq_true_2; [lia|]. by apply list_elem_of_fmap_2.
  - intros x _. unfold rank. case_bool_decide; lia.
  - done.
  - by intros ? ?%not_elem_of_nil.
  - eexists. split; [done|]. intros i [= Hi]. destruct best as [[q size]|]; [|done]. simpl in Hi, Hb.
    destruct Hb as [(id & info & info' & Hin & Hin' & _ & _ & Hq) _]. exists file, id, info'. split; [done|].
    inversion Hq as [? ? Hp|? ? p pinfo q' Hp _]; subst; [done|].
    apply (forest_parent depth) in Hp as [_ Hno]; [|done]. exfalso. apply Hno.
    change id with (id, info').1. by apply list_elem_of_fmap_2.
Qed.

(** ** A method under the cursor *)

(** The class and the method of [tree0], with roots listed or with every symbol
    listed, on one line of text. *)
Definition listing0 (roots_only : bool) : HierarchicalSymbols :=
  if roots_only then ft_symbols tree0
  else mkHierarchicalSymbols (h_iter (ft_symbols tree0) ++ h_children (ft_symbols tree0) 0) (h_children (ft_symbols tree0)).

Definition queries0 (roots_only : bool) : FileQueries :=
  mkFileQueries Ok (λ _, true) Ok (λ _, listing0 roots_only) (λ _, "class A: pass")
    (λ _, mkLineIndex 1 (λ lc, N.of_nat lc.2) (λ o, (0, N.to_nat o))).

Definition id_at0 (roots_only : bool) : option string :=
  match id_for 2 (queries0 roots_only) "/p" tree_registry0 "a.py" 1 4 with
  | Some (Ok r) => r
  | _ => None
  end.

(** At a position inside the method: with roots listed the query answers the
    class; with every symbol listed it answers the method, but then the walk over
    document symbols lists the method twice. *)
Theorem method_position_or_duplicate :
  (id_at0 true, by_path tree_registry0 "/p/a.py::A") = (Some "M0", Some "M0") ∧
  (id_at0 false, by_path tree_registry0 "/p/a.py::A::m") = (Some "M1", Some "M1") ∧
  file_ids 3 (listing0 true) = Some [0; 1] ∧ file_ids 3 (listing0 false) = Some [0; 1; 1].
Proof. vm_compute. done. Qed.

(** ** Files that are not on disk *)

Section by_path.
Context {Ext : External} {Stmt : Type} (render_stmt : Stmt → HashPolicy → string).
Context (statements : string → gmap (N * N) Stmt) (fuel : nat).

(** [compute_document_symbols] from the path on, as the producer calls it:
    [None] is an error (or exhausted fuel). *)
Definition document_symbols (fq : FileQueries) (root : string) (registry : IdentityRegistry)
    (hash_policies : gmap string HashPolicy) (default_hash_profile path : string) : option (list SymbolDto) :=
  match resolve_file_and_source fq root path with
  | Err _ => None
  | Ok (file, source_str) =>
      let policies_ref := if decide (hash_policies = ∅) then None else Some hash_policies in
      let default_profile := if decide (hash_policies = ∅) then None else Some default_hash_profile in
      compute_document_symbols render_stmt fuel
        (mkSymbolWalkCtx (fq_symbols fq file) source_str (statements file)
           (range_to_dto_with_index (fq_line_index fq file)) file registry policies_ref default_profile)
  end.

(** A build leaves out every file whose path does not resolve on the disk: a
    buffer that was never saved, or a file a snapshot pins and the disk no longer
    has. *)
Theorem off_disk_file_skipped fq root registry policies profile pv native e :
  (∀ path, pv_document_symbols pv path = document_symbols fq root registry policies profile path) →
  fq_canonicalize fq (if is_absolute native then native else path_join root native) = Err e →
  ∀ f, f ∈ collect_symbols pv (listed_files root pv) → fs_native_path f ≠ native.
Proof.
  intros Hv He f Hf ->%symmetry. apply list_elem_of_omap in Hf as ([g n] & _ & Hf). simpl in Hf.
  rewrite Hv in Hf. unfold document_symbols, resolve_file_and_source, resolve_file in Hf.
  destruct (fq_canonicalize fq (if is_absolute n then n else path_join root n)) as [c|e'] eqn:E; [|done].
  destruct (fq_is_utf8 fq c); [|done]. destruct (fq_system_path_to_file fq c); [|done].
  destruct (compute_document_symbols _ _ _); [|done]. injection Hf as <-. simpl in He. by rewrite E in He.
Qed.
End by_path.

(** The project of [tree0], with its file on the disk or in a buffer only. *)
Definition disk_queries0 (on_disk : bool) : FileQueries :=
  mkFileQueries (λ p, if on_disk then Ok p else Err "No such file or directory") (λ _, true) Ok
    (λ _, ft_symbols tree0) (λ _, ft_source tree0)
    (λ _, mkLineIndex 1 (λ lc, N.of_nat lc.2) (λ o, (0, N.to_nat o))).

Definition disk_view0 (on_disk : bool) : ProjectView :=
  mkProjectView ["/p/a.py"]
    (document_symbols (Ext:=external0) (Stmt:=unit) (λ _ _, "") (λ _, ∅) 3 (disk_queries0 on_disk) "/p" tree_registry0 ∅ "")
    (λ _, None) (λ _ _ _, None) (λ _ _ _, None).

(** The class of the buffer has a durable id but no node in the layer. *)
Theorem buffer_has_no_node :
  let node on_disk := nodes (layer (build "/p" (disk_view0 on_disk))) !! "M0" in
  by_path tree_registry0 "/p/a.py::A" = Some "M0" ∧ is_Some (node true) ∧ node false = None.
Proof.
  split; [vm_compute; reflexivity|]. split; [|vm_compute; reflexivity].
  apply (bool_decide_unpack _). vm_compute. exact I.
Qed.
