(* ===== verification/Occurrences.v ===== *)
(** * Name occurrences ([rust/src/convert/occurrences.rs])

    The visitor that lists the names of a file with the definitions they
    resolve to: what the producer of the code layer makes references and imports
    from.  The semantic engine that resolves a name is a parameter. *)

From Stdlib Require Import Ascii NArith.
From S2P Require Import Prelude Str Ast CodeLayer CodeBuilder Coordinates.

(** ** [str::get] *)

(** A position between two characters: not before a continuation byte. *)
Definition is_char_boundary (s : string) (i : nat) : bool :=
  match String.get i s with
  | Some c => negb ((128 <=? N_of_ascii c)%N && (N_of_ascii c <? 192)%N)
  | None => bool_decide (i = String.length s)
  end.

(** [s.get(start..end)] *)
Definition str_get (s : string) (r : N * N) : option string :=
  let start := N.to_nat r.1 in
  let stop := N.to_nat r.2 in
  if bool_decide (start ≤ stop) && is_char_boundary s start && is_char_boundary s stop
  then Some (String.substring start (stop - start) s) else None.

(** ** The visitor *)

(** [ResolvedDefinition] by its focus: the file and the range of the name. *)
Definition ResolvedDefinition : Type := string * (N * N).

(** The semantic model of a file: the definitions of a name, of an attribute
    and of an imported symbol, by the range of the node asked about, and the
    source text of any file. *)
Record SemanticModel := mkSemanticModel {
  definitions_for_name : string → N * N → list ResolvedDefinition;
  definitions_for_attribute : N * N → list ResolvedDefinition;
  definitions_for_imported_symbol : N * N → string → list ResolvedDefinition;
  source_text : string → string;
}.

Section visitor.
Context (model : SemanticModel) (file : string) (line_index : LineIndex).

(** The file and the name of the first definition. *)
Definition target_from_defs (defs : list ResolvedDefinition) : option string * option string :=
  match defs with
  | [] => (None, None)
  | (target_file, range) :: _ => (Some target_file, str_get (source_text model target_file) range)
  end.

Definition occurrence (range : N * N) (name : string) (role : ReferenceRoleDto)
    (target : option string * option string) : NameOccurrenceDto :=
  mkOccurrence (range_to_dto_with_index line_index range) (Some name) target.1 target.2 None role.

Definition definition_occurrence (range : N * N) (name : string) : NameOccurrenceDto :=
  occurrence range name RDefinition (Some file, Some name).

(** The binding's place: the [as] name if there is one. *)
Definition alias_range (a : Alias) : N * N := id_range (default (alias_name a) (alias_asname a)).

Definition stmt_occurrences (range : N * N) (d : StmtData) : list NameOccurrenceDto :=
  match d with
  | FunctionDef name _ | ClassDef name => [definition_occurrence (id_range name) (id_text name)]
  | ImportFrom names =>
      (λ a, occurrence (alias_range a) (id_text (alias_name a)) RImport
              (target_from_defs (definitions_for_imported_symbol model range (id_text (alias_name a))))) <$> names
  | ImportStmt names =>
      (λ a, occurrence (alias_range a) (id_text (alias_name a)) RImport (None, None)) <$> names
  | For _ | With _ | ExprStmt | OtherStmt => []
  end.

Definition expr_occurrences (range : N * N) (d : ExprData) : list NameOccurrenceDto :=
  match d with
  | Name id LoadCtx => [occurrence range id RRead (target_from_defs (definitions_for_name model id range))]
  | Name id (StoreCtx | DelCtx) => [definition_occurrence range id]
  | Name _ InvalidCtx => []
  | Attribute attr ctx =>
      let role := match ctx with StoreCtx | DelCtx => RWrite | LoadCtx | InvalidCtx => RRead end in
      [occurrence (id_range attr) (id_text attr) role (target_from_defs (definitions_for_attribute model range))]
  | BinOp _ | BoolOp _ | UnaryOp _ | Compare _ | NumberLiteral _ | BooleanLiteral _ | StringLiteralExpr
  | OtherExpr => []
  end.

Fixpoint visit_occurrences (occurrences : list NameOccurrenceDto) (t : Ast) {struct t} : list NameOccurrenceDto :=
  match t with
  | AStmt _ range d cs => foldl visit_occurrences (occurrences ++ stmt_occurrences range d) cs
  | AExpr _ range d cs => foldl visit_occurrences (occurrences ++ expr_occurrences range d) cs
  | ABody cs | AInterpolated _ _ cs | AOther _ cs => foldl visit_occurrences occurrences cs
  | AStringLiteral _ _ | ABytesLiteral _ _ | AIdentifier _ | AOperator _ => occurrences
  end.

Definition convert_file_occurrences (body : list Ast) : list NameOccurrenceDto :=
  visit_occurrences [] (ABody body).

(** ** What is listed *)

(** The nodes of a tree, in source order. *)
Fixpoint nodes_of (t : Ast) : list Ast :=
  t :: match t with
       | AStmt _ _ _ cs | AExpr _ _ _ cs | ABody cs | AInterpolated _ _ cs | AOther _ cs => cs ≫= nodes_of
       | AStringLiteral _ _ | ABytesLiteral _ _ | AIdentifier _ | AOperator _ => []
       end.

(** The occurrences one node stands for. *)
Definition node_occurrences (t : Ast) : list NameOccurrenceDto :=
  match t with
  | AStmt _ range d _ => stmt_occurrences range d
  | AExpr _ range d _ => expr_occurrences range d
  | _ => []
  end.

Lemma nodes_of_unfold t : nodes_of t = t :: (children_of_node t ≫= nodes_of).
Proof. by destruct t. Qed.

Lemma visit_occurrences_spec t occs :
  visit_occurrences occs t = occs ++ (nodes_of t ≫= node_occurrences).
Proof.
  revert occs. induction t as [t IH] using Ast_ind. intros occs.
  assert (∀ occs, foldl visit_occurrences occs (children_of_node t) =
    occs ++ ((children_of_node t ≫= nodes_of) ≫= node_occurrences)) as Hcs.
  { clear occs. induction IH as [|c cs Hc _ IHcs]; intros occs; [by rewrite app_nil_r|].
    cbn [foldl]. rewrite Hc, IHcs, bind_cons, bind_app. by rewrite app_assoc. }
  rewrite nodes_of_unfold, bind_cons.
  destruct t; cbn [visit_occurrences node_occurrences children_of_node] in *;
    try (rewrite Hcs; by rewrite ?app_assoc); (cbn; by rewrite ?app_nil_r).
Qed.

(** The listing is, in source order, what each node stands for. *)
Lemma occurrences_listing body :
  convert_file_occurrences body = (body ≫= nodes_of) ≫= node_occurrences.
Proof. unfold convert_file_occurrences. by rewrite visit_occurrences_spec. Qed.
End visitor.
