(* ===== verification/Queries.v ===== *)
(** * The producer's queries ([rust/src/project/analysis.rs],
    [rust/src/convert/navigation.rs], [rust/src/convert/hierarchy.rs])

    The five queries the producer of the code layer makes, from the answers of
    the analysis engine: the files of the project, the symbols and the name
    occurrences of a file, the definition at a position, and the supertypes of
    the class at a position. *)

From Stdlib Require Import NArith.
From S2P Require Import Prelude Str Paths Content Identity Entity Ast Hash Reconcile Json.
From S2P Require Import CodeLayer CodeBuilder Symbols Coordinates EntityAt Occurrences.
Import Registry.

(** [ty_ide::NavigationTarget] and [ty_ide::TypeHierarchyItem]. *)
Record NavigationTarget := mkNavigationTarget {
  nt_file : string;
  nt_full_range : N * N;
  nt_focus_range : N * N;
}.

Record TypeHierarchyItem := mkTypeHierarchyItem {
  hi_file : string;
  hi_name : string;
  hi_detail : option string;
  hi_full_range : N * N;
  hi_selection_range : N * N;
}.

Record DefinitionTargetDto := mkDefinitionTargetDto {
  dt_path : string;
  dt_range : RangeTuple;
  dt_selection_range : option RangeTuple;
  dt_symbol : option SymbolDto;
  dt_module_name : option string;
}.

(** One state of the analysis database, as the queries read it: the files it
    indexes, the parsed body and the semantic model of a file, and the answers
    of [ty_ide] at an offset. *)
Record Analysis := mkAnalysis {
  an_files : FileQueries;
  an_indexed : list string;
  an_body : string → list Ast;
  an_model : string → SemanticModel;
  an_goto_definition : string → N → option (list NavigationTarget);
  an_prepare_type_hierarchy : string → N → option TypeHierarchyItem;
  an_type_hierarchy_supertypes : string → N → list TypeHierarchyItem;
}.

(** ** Conversions *)

Definition convert_navigation_target (an : Analysis) (t : NavigationTarget) : DefinitionTargetDto :=
  let li := fq_line_index (an_files an) (nt_file t) in
  mkDefinitionTargetDto (nt_file t) (range_to_dto_with_index li (nt_full_range t))
    (Some (range_to_dto_with_index li (nt_focus_range t))) None None.

Definition convert_navigation_targets (an : Analysis) (ts : list NavigationTarget) : list DefinitionTargetDto :=
  foldl (λ result t, result ++ [convert_navigation_target an t]) [] ts.

Definition convert_hierarchy_item (an : Analysis) (i : TypeHierarchyItem) : TypeHierarchyItemDto :=
  let li := fq_line_index (an_files an) (hi_file i) in
  mkHierarchyItem (hi_name i) (hi_detail i) (hi_file i) (range_to_dto_with_index li (hi_full_range i))
    (range_to_dto_with_index li (hi_selection_range i)).

Definition convert_hierarchy_items (an : Analysis) (items : list TypeHierarchyItem) : list TypeHierarchyItemDto :=
  convert_hierarchy_item an <$> items.

(** ** Queries *)

Definition compute_files `{Ext : External} (an : Analysis) : list string :=
  filter (λ p, is_python_source p) (an_indexed an).

Definition compute_file_occurrences (an : Analysis) (root path : string) :
    result QueryError (list NameOccurrenceDto) :=
  match resolve_file_and_source (an_files an) root path with
  | Err e => Err e
  | Ok (file, _) =>
      Ok (convert_file_occurrences (an_model an file) file (fq_line_index (an_files an) file) (an_body an file))
  end.

(** The file and the offset of a position. *)
Definition resolve_position (an : Analysis) (root path : string) (line column : N) : result QueryError (string * N) :=
  match resolve_file_and_source (an_files an) root path with
  | Err e => Err e
  | Ok (file, source_str) =>
      match position_to_offset_with_index source_str (fq_line_index (an_files an) file) line column with
      | Err e => Err (PositionError e)
      | Ok offset => Ok (file, offset)
      end
  end.

Definition compute_navigate (an : Analysis) (root path : string) (line column : N)
    (navigate_fn : string → N → option (list NavigationTarget)) : result QueryError (list DefinitionTargetDto) :=
  match resolve_position an root path line column with
  | Err e => Err e
  | Ok (file, offset) =>
      Ok (match navigate_fn file offset with
          | Some targets => convert_navigation_targets an targets
          | None => []
          end)
  end.

Definition compute_supertypes (an : Analysis) (root path : string) (line column : N) :
    result QueryError (list TypeHierarchyItemDto) :=
  match resolve_position an root path line column with
  | Err e => Err e
  | Ok (file, offset) =>
      Ok (match an_prepare_type_hierarchy an file offset with
          | Some item =>
              convert_hierarchy_items an (an_type_hierarchy_supertypes an (hi_file item) (hi_selection_range item).1)
          | None => []
          end)
  end.

(** What the producer does with a failed query: nothing. *)
Definition answered {A} (r : result QueryError A) : option A :=
  match r with Ok a => Some a | Err _ => None end.

(** The view the producer has of a state.  [fuel] bounds the depth of a file's
    symbol tree. *)
Definition analysis_view `{Ext : External} (fuel : nat) (an : Analysis) (root : string) (registry : IdentityRegistry)
    (hash_policies : gmap string HashPolicy) (default_hash_profile : string) : ProjectView :=
  mkProjectView
    (compute_files an)
    (document_symbols render_stmt (λ file, index_statements (an_body an file)) fuel (an_files an) root registry
       hash_policies default_hash_profile)
    (λ path, answered (compute_file_occurrences an root path))
    (λ path line column, (λ ts : list DefinitionTargetDto, dt_path <$> ts) <$>
       answered (compute_navigate an root path line column (an_goto_definition an)))
    (λ path line column, answered (compute_supertypes an root path line column)).
