(* ===== verification/ViewOk.v ===== *)
(** * The view of the producer

    [compute_files], [compute_document_symbols], [compute_file_occurrences],
    [compute_navigate] and [compute_supertypes] ([rust/src/project/analysis.rs])
    make the view the producer of the code layer reads.  They keep what the
    producer's theorems ask of a view, from what the engine promises of a project
    and the consistency of the identity registry. *)

From Stdlib Require Import NArith Ascii.
From S2P Require Import Prelude Str Paths Content Identity Entity Ast Hash Reconcile Json CodeLayer CodeBuilder.
From S2P Require Import CodeBuilderFacts CodeProducer CodeLookup CodeEdges CodeIndex CodeParity.
From S2P Require Import Symbols Coordinates EntityAt Occurrences Queries.
Import Registry.

(** ** Paths without a colon *)

Lemma no_colon_app a b : no_colon (a +:+ b) = no_colon a && no_colon b.
Proof.
  induction a as [|c a IH]; [done|]. change (String c a +:+ b) with (String c (a +:+ b)). cbn [no_colon].
  by rewrite IH, andb_assoc.
Qed.

Lemma no_colon_contains s : no_colon s → str_contains "::" s = false.
Proof.
  unfold str_contains. intros H. destruct (split_once "::" s) as [[a b]|] eqn:E; [|done].
  apply split_once_Some in E as ->. rewrite !no_colon_app in H. by destruct (no_colon a).
Qed.

Lemma plain_no_colon f : no_colon f → plain_path f.
Proof. intros H. apply no_colon_contains. unfold make_module_durable_id. by rewrite no_colon_app. Qed.

Lemma to_graph_no_colon root f : no_colon f → no_colon (to_graph_path root f).
Proof.
  intros H. unfold to_graph_path. destruct (strip_prefix root f) as [rest|] eqn:E; [|done].
  apply strip_prefix_Some in E as ->. case_bool_decide; [done|].
  rewrite no_colon_app in H. apply andb_True in H as [_ H].
  destruct (strip_prefix "/" rest) as [r|] eqn:E; [|done]. apply strip_prefix_Some in E as ->.
  rewrite no_colon_app in H. by apply andb_True in H as [_ ?].
Qed.

(** ** What the engine promises of a project *)

(** The definitions a semantic model answers with. *)
Definition model_answers (m : SemanticModel) (d : ResolvedDefinition) : Prop :=
  (∃ name r, d ∈ definitions_for_name m name r) ∨ (∃ r, d ∈ definitions_for_attribute m r) ∨
  (∃ r name, d ∈ definitions_for_imported_symbol m r name).

(** The indexed files are distinct and lie under the root; a file is found under
    its own path; no path has a colon; no symbol is named like a module. *)
Record analysis_ok (root : string) (an : Analysis) : Prop := {
  ao_indexed : NoDup (an_indexed an);
  ao_under : ∀ p, p ∈ an_indexed an → ∃ rest, rest ≠ "" ∧ p = root +:+ "/" +:+ rest;
  ao_plain : ∀ p, p ∈ an_indexed an → no_colon p;
  ao_canonical : ∀ p f, p ∈ an_indexed an → resolve_file (an_files an) root p = Ok f → f = p;
  ao_resolved : ∀ p f, resolve_file (an_files an) root p = Ok f → no_colon f;
  ao_targets : ∀ file d, model_answers (an_model an file) d → no_colon d.1;
  ao_goto : ∀ file offset ts t, an_goto_definition an file offset = Some ts → t ∈ ts → no_colon (nt_file t);
  ao_names : ∀ p c, p ∈ an_indexed an → c ∈ h_iter (fq_symbols (an_files an) p) → si_name c.2 ≠ MODULE_QUALIFIED_NAME;
}.

(** No id of the registry looks like a module's or a stub's. *)
Definition registry_plain (reg : IdentityRegistry) : Prop :=
  ∀ id a, get reg id = Some a → stub_id id = false ∧ is_module_id id = false.

(** ** The symbols of a file *)

Section symbols.
Context {Ext : External} {Stmt : Type} (render : Stmt → HashPolicy → string) (ctx : SymbolWalkCtx (Stmt:=Stmt)).

(** A symbol has the id of the anchor at a path of its file, and is not named
    like a module. *)
Definition walked_symbol (s : SymbolDto) : Prop :=
  (∃ rest, s_durable_id s = a_id <$> find_anchor (sw_registry ctx) (sw_file_path ctx +:+ "::" +:+ rest)) ∧ named_symbol s.

(** Where a walk is: at the top, or below a path of the file. *)
Definition below (pn pp : option string) : Prop :=
  is_Some pn ∧ ∃ rest, pp = Some (sw_file_path ctx +:+ "::" +:+ rest).

Lemma dotted_not_module p x : p +:+ "." +:+ x ≠ MODULE_QUALIFIED_NAME.
Proof.
  intros E. assert (str_contains "." (p +:+ "." +:+ x) = true) as H by apply str_contains_middle.
  rewrite E in H. by vm_compute in H.
Qed.

Lemma make_symbol_walked info pn pp :
  below pn pp ∨ (pn = None ∧ pp = None ∧ si_name info ≠ MODULE_QUALIFIED_NAME) →
  let '(path, s) := make_symbol render ctx info pn pp in
  walked_symbol s ∧ ∃ rest, path = sw_file_path ctx +:+ "::" +:+ rest.
Proof.
  intros H. unfold make_symbol.
  set (path := match pp with Some p => _ | None => _ end).
  assert (∃ rest, path = sw_file_path ctx +:+ "::" +:+ rest) as [rest Hp].
  { unfold path. destruct H as [(_ & rest & ->)|(_ & -> & _)]; [|by exists (si_name info)].
    exists (rest +:+ "::" +:+ si_name info). by rewrite !str_app_assoc. }
  destruct (match sw_hash_policies ctx with Some _ => _ | None => _ end) as [hs dh].
  split; [|by exists rest]. unfold walked_symbol, convert_symbol, named_symbol, symbol_qn. simpl.
  split; [exists rest; by rewrite Hp|].
  destruct H as [([p ->] & _)|(-> & _ & Hn)]; simpl; [apply dotted_not_module|done].
Qed.

Lemma collect_symbols_walked fuel id info pn pp symbols out :
  below pn pp ∨ (pn = None ∧ pp = None ∧ si_name info ≠ MODULE_QUALIFIED_NAME) → Forall walked_symbol symbols →
  collect_symbols_recursive render fuel ctx id info pn pp symbols = Some out → Forall walked_symbol out.
Proof.
  revert id info pn pp symbols out. induction fuel as [|fuel IH]; intros id info pn pp symbols out H Hs; [done|].
  cbn [collect_symbols_recursive]. pose proof (make_symbol_walked info pn pp H) as Hm.
  destruct (make_symbol render ctx info pn pp) as [path s]. destruct Hm as [Hw [rest Hp]].
  assert (Forall walked_symbol (symbols ++ [s])) as Hs' by (apply Forall_app; by split; [|constructor]).
  generalize dependent (symbols ++ [s]). clear Hs symbols. intros symbols Hs.
  induction (h_children (sw_hierarchical ctx) id) as [|c cs IHc] in symbols, Hs |- *; cbn [foldl]; [by intros [= <-]|].
  destruct (collect_symbols_recursive render fuel ctx c.1 c.2 _ _ symbols) as [symbols'|] eqn:E.
  - apply IHc. apply IH in E; [done| |done]. left. split; [by eexists|]. exists rest. by rewrite Hp.
  - by rewrite foldl_none.
Qed.

Lemma document_symbols_walked fuel out :
  (∀ c, c ∈ h_iter (sw_hierarchical ctx) → si_name c.2 ≠ MODULE_QUALIFIED_NAME) →
  compute_document_symbols render fuel ctx = Some out → Forall walked_symbol out.
Proof.
  unfold compute_document_symbols. assert (Forall walked_symbol []) as Hs by done. revert Hs.
  generalize (@nil SymbolDto). induction (h_iter (sw_hierarchical ctx)) as [|c cs IH]; intros symbols Hs Hn; cbn [foldl].
  { by intros [= <-]. }
  destruct (collect_symbols_recursive _ _ _ _ _ _ _ symbols) as [symbols'|] eqn:E.
  - apply IH; [|set_solver]. apply collect_symbols_walked in E; [done| |done]. right. split; [done|]. split; [done|]. apply Hn. by left.
  - by rewrite foldl_none.
Qed.
End symbols.

(** ** Files and graph paths *)

Lemma to_graph_under root rest : rest ≠ "" → to_graph_path root (root +:+ "/" +:+ rest) = rest.
Proof.
  intros H. unfold to_graph_path. rewrite strip_prefix_app. rewrite (strip_prefix_app "/" rest). simpl.
  by rewrite bool_decide_eq_false_2.
Qed.

Section view.
Context {Ext : External} (fuel : nat) (root : string) (an : Analysis) (reg : IdentityRegistry).
Context (policies : gmap string HashPolicy) (profile : string).
Context (Han : analysis_ok root an).

Let pv := analysis_view fuel an root reg policies profile.

Lemma listed_indexed g native :
  (g, native) ∈ listed_files root pv ↔ native ∈ an_indexed an ∧ is_python_source native ∧ native = root +:+ "/" +:+ g.
Proof.
  unfold listed_files. rewrite list_elem_of_filter, list_elem_of_fmap. cbn [pv_files pv analysis_view].
  unfold compute_files. setoid_rewrite list_elem_of_filter. split.
  - intros (Hne & p & [= -> ->] & Hpy & Hp). destruct (ao_under _ _ Han p Hp) as (rest & Hr & ->).
    by rewrite to_graph_under.
  - intros (Hp & Hpy & ->). destruct (ao_under _ _ Han _ Hp) as (rest & Hr & E).
    assert (g = rest) as -> by (by apply (inj (String.app root)), (inj (String.app "/")) in E).
    split; [|exists (root +:+ "/" +:+ rest); by rewrite to_graph_under]. simpl. intros E'.
    apply (f_equal String.length) in E'. rewrite !str_length_app in E'. simpl in E'. lia.
Qed.

Definition file_ctx (file : string) : SymbolWalkCtx (Stmt:=Ast) :=
  mkSymbolWalkCtx (fq_symbols (an_files an) file) (fq_source (an_files an) file) (index_statements (an_body an file))
    (range_to_dto_with_index (fq_line_index (an_files an) file)) file reg
    (if decide (policies = ∅) then None else Some policies) (if decide (policies = ∅) then None else Some profile).

(** The symbols of a listed file are those of the walk over its own tree. *)
Lemma listed_symbols native symbols :
  native ∈ an_indexed an → pv_document_symbols pv native = Some symbols →
  compute_document_symbols render_stmt fuel (file_ctx native) = Some symbols.
Proof.
  intros Hn. cbn [pv_document_symbols pv analysis_view]. unfold document_symbols, resolve_file_and_source.
  destruct (resolve_file (an_files an) root native) as [f|e] eqn:E; [|done].
  by rewrite (ao_canonical _ _ Han native f Hn E).
Qed.

Lemma listed_walked g native symbols s :
  (g, native) ∈ listed_files root pv → pv_document_symbols pv native = Some symbols → s ∈ symbols →
  walked_symbol (file_ctx native) s.
Proof.
  intros (Hn & _)%listed_indexed Hs. revert s. apply Forall_forall.
  apply (document_symbols_walked render_stmt (file_ctx native) fuel); [|by apply listed_symbols].
  intros c. by apply (ao_names _ _ Han).
Qed.

(** ** What is answered *)

Lemma target_plain file defs f :
  (∀ d, d ∈ defs → no_colon d.1) → (target_from_defs (an_model an file) defs).1 = Some f → no_colon f.
Proof. destruct defs as [|[tf r] defs]; [done|]. intros H [= <-]. apply (H (tf, r)). by left. Qed.

Lemma node_target_plain file t o raw :
  no_colon file →
  o ∈ node_occurrences (an_model an file) file (fq_line_index (an_files an) file) t → o_target_file o = Some raw → no_colon raw.
Proof.
  intros Hf. pose proof (ao_targets _ _ Han file) as Ht. unfold model_answers in Ht.
  assert (∀ r n role target, o_target_file (occurrence (fq_line_index (an_files an) file) r n role target) = target.1) as Ho by done.
  destruct t as [k rg d cs|k rg d cs| | | | | | | ]; cbn [node_occurrences]; try (by intros []%not_elem_of_nil).
  - destruct d; cbn [stmt_occurrences]; try (by intros []%not_elem_of_nil).
    1,2: intros ->%list_elem_of_singleton [= <-]; done.
    all: intros (a & -> & _)%list_elem_of_fmap; rewrite Ho; try done.
    apply target_plain. intros d Hd. apply Ht. right. right. by eexists _, _.
  - destruct d as [id ctx|attr ctx| | | | | | | | ]; cbn [expr_occurrences]; try (by intros []%not_elem_of_nil).
    + destruct ctx; try (by intros []%not_elem_of_nil); intros ->%list_elem_of_singleton; rewrite ?Ho.
      2,3: by intros [= <-].
      apply target_plain. intros d Hd. apply Ht. left. by eexists _, _.
    + intros ->%list_elem_of_singleton. rewrite Ho. apply target_plain. intros d Hd. apply Ht. right. left. by eexists.
Qed.

Lemma view_answers_plain : plain_answers root pv.
Proof.
  assert (∀ f, no_colon f → plain_path f ∧ plain_path (to_graph_path root f)) as Hplain.
  { intros f Hf. split; apply plain_no_colon; [done|by apply to_graph_no_colon]. }
  split.
  - intros native occs o raw. cbn [pv_file_occurrences pv analysis_view]. unfold compute_file_occurrences, resolve_file_and_source.
    destruct (resolve_file (an_files an) root native) as [f|e] eqn:E; [|done]. cbn [answered].
    intros [= <-] Ho Hraw. apply Hplain. rewrite occurrences_listing in Ho.
    apply list_elem_of_bind in Ho as (t & Ho & _). apply (node_target_plain f t o raw); [|done..].
    by apply (ao_resolved _ _ Han native).
  - intros native l c ps p. cbn [pv_goto_definition pv analysis_view]. unfold compute_navigate.
    destruct (resolve_position an root native l c) as [[f o]|e]; [|done]. cbn [answered].
    destruct (an_goto_definition an f o) as [ts|] eqn:E; intros [= <-]; [|by intros []%not_elem_of_nil].
    assert (convert_navigation_targets an ts = convert_navigation_target an <$> ts) as -> by apply (foldl_push _ []).
    rewrite <- list_fmap_compose. intros (t & -> & Ht)%list_elem_of_fmap. simpl. apply Hplain.
    by apply (ao_goto _ _ Han f o ts).
Qed.

(** ** Identity keeps files apart *)

Context (Hok : registry_ok reg) (Hids : registry_plain reg).

(** The id of a symbol leads back to a path of its file. *)
Lemma symbol_anchor native s did :
  walked_symbol (file_ctx native) s → s_durable_id s = Some did →
  ∃ a rest, get reg did = Some a ∧ a_qualified_path a = native +:+ "::" +:+ rest.
Proof.
  intros [[rest Hd] _] Hs. rewrite Hd in Hs. apply fmap_Some in Hs as (a & Ha & ->). simpl in Ha.
  unfold find_anchor in Ha. apply bind_Some in Ha as (id & Hp & Hg).
  destruct (ok_path _ Hok _ _ Hp) as (a' & Hg' & Hq). unfold get in Hg. rewrite Hg in Hg'. injection Hg' as <-.
  rewrite (ok_ids _ Hok _ _ Hg). by exists a, rest.
Qed.

Lemma view_separate : separate (λ f, f ∈ collect_symbols pv (listed_files root pv)).
Proof.
  assert (∀ f, f ∈ collect_symbols pv (listed_files root pv) →
    no_colon (fs_native_path f) ∧ fs_native_path f = root +:+ "/" +:+ fs_graph_path f ∧
    pv_document_symbols pv (fs_native_path f) = Some (fs_symbols f) ∧
    ∀ s, s ∈ fs_symbols f → walked_symbol (file_ctx (fs_native_path f)) s) as Hf.
  { intros f [Hl Hs]%elem_of_collected. pose proof Hl as (Hn & _ & E)%listed_indexed.
    split; [by apply (ao_plain _ _ Han)|]. do 2 (split; [done|]). intros s. by apply (listed_walked _ _ _ s Hl Hs). }
  assert (∀ f f', f ∈ collect_symbols pv (listed_files root pv) → f' ∈ collect_symbols pv (listed_files root pv) →
    fs_native_path f = fs_native_path f' → f = f') as Hsame.
  { intros f f' (_ & E & Hs & _)%Hf (_ & E' & Hs' & _)%Hf Hn. rewrite Hn in E, Hs. rewrite Hs in Hs'. rewrite E in E'.
    apply (inj (String.app root)), (inj (String.app "/")) in E'. destruct f, f'; simpl in *. congruence. }
  split.
  - intros f f' H H' E. apply Hsame; [done..|]. apply Hf in H as (_ & -> & _), H' as (_ & -> & _). by rewrite E.
  - intros f f' s s' did H H' Hin Hin' Hd Hd'. apply Hsame; [done..|].
    apply Hf in H as (Hc & _ & _ & Hw), H' as (Hc' & _ & _ & Hw').
    destruct (symbol_anchor _ s did (Hw s Hin) Hd) as (a & rest & Ha & Hq).
    destruct (symbol_anchor _ s' did (Hw' s' Hin') Hd') as (a' & rest' & Ha' & Hq').
    rewrite Ha in Ha'. injection Ha' as <-. rewrite Hq in Hq'. apply (f_equal (split_once "::")) in Hq'.
    rewrite !split_once_path in Hq' by done. by injection Hq' as ->.
  - intros f s did H Hin Hd. apply Hf in H as (_ & _ & _ & Hw).
    destruct (symbol_anchor _ s did (Hw s Hin) Hd) as (a & _ & Ha & _). by eapply Hids.
Qed.

Lemma view_is_ok : view_ok root pv.
Proof.
  split.
  - intros g native Hl. pose proof Hl as (Hn & _ & E)%listed_indexed. split.
    + pose proof (ao_plain _ _ Han native Hn) as Hc. rewrite E, !no_colon_app in Hc.
      apply andb_True in Hc as [_ [_ Hc]%andb_True]. by apply plain_no_colon.
    + intros symbols s did Hs Hin Hd.
      destruct (symbol_anchor native s did (listed_walked g native symbols s Hl Hs Hin) Hd) as (a & _ & Ha & _).
      by eapply Hids.
  - apply view_answers_plain.
  - intros g native symbols s Hl Hs Hin. by apply (listed_walked g native symbols s Hl Hs Hin).
  - apply NoDup_fmap_2_strong.
    + intros [g n] [g' n'] (_ & _ & ->)%listed_indexed (_ & _ & ->)%listed_indexed. simpl. by intros ->.
    + apply NoDup_filter, NoDup_fmap_2; [by intros x y [= _ ->]|]. apply NoDup_filter, Han.
  - apply view_separate.
Qed.

(** The queries give the producer a view it can rely on.  Given answers that list
    the files of the root once and in no path or name look like a module or a stub
    ([analysis_ok]), and a registry whose ids do not either, every path is listed once,
    no name, path or id is taken for a module's or a stub's, and the ids of the
    symbols belong to one file each: the condition under which the layer is kept by
    scoped rebuilds. *)
Theorem analysis_view_ok : view_ok root pv.
Proof. apply view_is_ok. Qed.

End view.
