(* ===== verification/Lsp.v ===== *)
(** * The analysis queries ([rust/src/project/analysis.rs], [rust/src/convert/])

    The read-only queries of the API other than the producer's: each resolves a
    path and a position, asks the analysis engine and converts its answer.  The
    engine is an input, a record of the functions of [ty_ide] the queries call. *)

From Stdlib Require Import NArith.
From S2P Require Import Prelude Str Paths Content Identity Entity Ast Hash Reconcile.
From S2P Require Import CodeLayer CodeBuilder Symbols Coordinates EntityAt Occurrences Queries.

(** ** What the engine answers with *)

Inductive Severity := SevFatal | SevError | SevWarning | SevInfo.
Inductive DiagnosticId := LintId (name : string) | OtherId.
(** [UnifiedFile]: a file of the database, or one of ruff's own. *)
Inductive UnifiedFile := TyFile (file : string) | RuffFile.

Record Diagnostic := mkDiagnostic {
  d_annotation : option (UnifiedFile * option (N * N));
  d_severity : Severity;
  d_id : DiagnosticId;
  d_primary_message : string;
  d_sub_messages : list string;
}.

Record WorkspaceSymbolInfo := mkWorkspaceSymbolInfo {
  ws_file : string;
  ws_symbol : SymbolInfo;
  ws_imported_from : option string;
}.

Inductive ReferenceKind := RefRead | RefWrite | RefOther.

Record ReferenceTarget := mkReferenceTarget {
  rt_file : string;
  rt_range : N * N;
  rt_kind : ReferenceKind;
}.

Inductive SemanticTokenType :=
| TtNamespace | TtClass | TtParameter | TtSelfParameter | TtClsParameter | TtVariable | TtProperty | TtFunction
| TtMethod | TtKeyword | TtString | TtNumber | TtDecorator | TtBuiltinConstant | TtTypeParameter.

(** The flags of a [SemanticTokenModifier]. *)
Record SemanticTokenModifier := mkModifier {
  m_definition : bool;
  m_readonly : bool;
  m_async : bool;
  m_documentation : bool;
}.

Record SemanticToken := mkSemanticToken {
  st_range : N * N;
  st_type : SemanticTokenType;
  st_modifiers : SemanticTokenModifier;
}.

Inductive InlayHintKind := IhType | IhCallArgumentName.

Record InlayHint := mkInlayHint {
  ih_position : N;
  ih_label_parts : list string;
  ih_kind : InlayHintKind;
}.

Record TextEdit := mkTextEdit { te_range : N * N; te_content : option string }.
Record QuickFix := mkQuickFix { qf_title : string; qf_edits : list TextEdit }.

Inductive HintKind := UnusedBinding | UnreachableCode.
Record Hint := mkHint { hint_message : string; hint_kind : HintKind; hint_range : N * N }.

(** Signatures, with documentation rendered as Markdown; indices are [usize]. *)
Record ParameterDetails := mkParameterDetails { pd_label : string; pd_documentation : option string }.
Record SignatureDetails := mkSignatureDetails {
  sd_label : string;
  sd_documentation : option string;
  sd_parameters : list ParameterDetails;
  sd_active_parameter : option N;
}.
Record SignatureHelpInfo := mkSignatureHelpInfo {
  sh_signatures : list SignatureDetails;
  sh_active_signature : option N;
}.

Inductive CompletionKind :=
| CkText | CkMethod | CkFunction | CkConstructor | CkField | CkVariable | CkClass | CkInterface | CkModule
| CkProperty | CkUnit | CkValue | CkEnum | CkKeyword | CkSnippet | CkColor | CkFile | CkReference | CkFolder
| CkEnumMember | CkConstant | CkStruct | CkEvent | CkOperator | CkTypeParameter.

(** A completion, with its type as displayed. *)
Record Completion := mkCompletion {
  c_name : string;
  c_qualified : option string;
  c_insert : option string;
  c_ty : option string;
  c_kind : option CompletionKind;
  c_module_name : option string;
}.

Inductive FoldingRangeKind := FrComment | FrImports | FrRegion.
Record FoldingRange := mkFoldingRange { fr_range : N * N; fr_kind : option FoldingRangeKind }.

(** The functions of the engine, with an offset or a range of the file. *)
Record Ide := mkIde {
  ide_check : list Diagnostic;
  ide_workspace_symbols : string → list WorkspaceSymbolInfo;
  ide_find_references : string → N → bool → option (list ReferenceTarget);
  ide_document_highlights : string → N → option (list ReferenceTarget);
  ide_semantic_tokens : string → option (N * N) → list SemanticToken;
  ide_type_hierarchy_subtypes : string → N → list TypeHierarchyItem;
  ide_inlay_hints : string → N * N → list InlayHint;
  ide_code_actions : string → N * N → string → list QuickFix;
  ide_hints : string → list Hint;
  ide_signature_help : string → N → option SignatureHelpInfo;
  ide_completion : bool → string → N → list Completion;
  ide_selection_range : string → N → list (N * N);
  ide_folding_ranges : string → list FoldingRange;
  ide_can_rename : string → N → option (N * N);
  ide_rename : string → N → string → option (list ReferenceTarget);
  ide_hover : string → N → option ((N * N) * string);
}.

(** ** DTOs *)

Inductive SeverityDto := SFatal | SError | SWarning | SInformation | SHint.

Record DiagnosticDto := mkDiagnosticDto {
  dd_file : option string;
  dd_range : option RangeTuple;
  dd_severity : SeverityDto;
  dd_code : option string;
  dd_message : string;
  dd_details : list string;
}.

Record CheckResultDto := mkCheckResultDto {
  cr_diagnostics : list DiagnosticDto;
  cr_files_checked : option N;
  cr_elapsed_ms : option N;
}.

Inductive ReferenceKindDto := RkRead | RkWrite | RkOther.

Record ReferenceDto := mkReferenceDto { rd_path : string; rd_range : RangeTuple; rd_kind : ReferenceKindDto }.

Inductive SemanticTokenTypeDto :=
| DtNamespace | DtClass | DtParameter | DtSelfParameter | DtClsParameter | DtVariable | DtProperty | DtFunction
| DtMethod | DtKeyword | DtString | DtNumber | DtDecorator | DtBuiltinConstant | DtTypeParameter.

Inductive SemanticTokenModifierDto := MDefinition | MReadonly | MAsync | MDocumentation.

Record SemanticTokenDto := mkSemanticTokenDto {
  sk_range : RangeTuple;
  sk_token_type : SemanticTokenTypeDto;
  sk_modifiers : list SemanticTokenModifierDto;
}.

Record TypeHierarchyDto := mkTypeHierarchyDto {
  th_item : TypeHierarchyItemDto;
  th_supertypes : list TypeHierarchyItemDto;
  th_subtypes : list TypeHierarchyItemDto;
}.

Inductive InlayHintKindDto := DihType | DihCallArgumentName.
Record InlayHintDto := mkInlayHintDto { id_position : N * N; id_label : string; id_kind : InlayHintKindDto }.

Record TextEditDto := mkTextEditDto { ed_path : string; ed_range : RangeTuple; ed_new_text : string }.
Record QuickFixDto := mkQuickFixDto { qd_title : string; qd_edits : list TextEditDto }.

Inductive HintKindDto := HUnused | HUnreachable.
Record HintDto := mkHintDto { hd_message : string; hd_kind : HintKindDto; hd_range : option RangeTuple }.

Record ParameterDto := mkParameterDto { p_label : string; p_documentation : option string }.
Record SignatureDto := mkSignatureDto {
  sg_label : string;
  sg_documentation : option string;
  sg_parameters : list ParameterDto;
  sg_active_parameter : option N;
}.
Record SignatureHelpDto := mkSignatureHelpDto {
  sg_signatures : list SignatureDto;
  sg_active_signature : option N;
}.

Inductive CompletionKindDto :=
| DkText | DkMethod | DkFunction | DkConstructor | DkField | DkVariable | DkClass | DkInterface | DkModule
| DkProperty | DkUnit | DkValue | DkEnum | DkKeyword | DkSnippet | DkColor | DkFile | DkReference | DkFolder
| DkEnumMember | DkConstant | DkStruct | DkEvent | DkOperator | DkTypeParameter.

Record CompletionDto := mkCompletionDto {
  cd_name : string;
  cd_qualified_name : option string;
  cd_insert_text : option string;
  cd_type : option string;
  cd_kind : option CompletionKindDto;
  cd_module_name : option string;
}.

Inductive FoldingRangeKindDto := FComment | FImports | FRegion.
Record FoldingRangeDto := mkFoldingRangeDto { fd_range : RangeTuple; fd_kind : option FoldingRangeKindDto }.

Record RenameEditDto := mkRenameEditDto { re_path : string; re_range : RangeTuple }.
Record WorkspaceEditDto := mkWorkspaceEditDto { we_new_name : string; we_edits : list RenameEditDto }.

Inductive HoverContentKindDto := HcType | HcSignature | HcDocstring | HcTypedDictKey | HcMarkdown | HcPlainText.
Record HoverContentDto := mkHoverContentDto { hc_kind : HoverContentKindDto; hc_value : string }.
Record FileRangeDto := mkFileRangeDto { flr_path : string; flr_range : RangeTuple }.
Record HoverDto := mkHoverDto { hv_location : FileRangeDto; hv_contents : list HoverContentDto }.

(** ** Conversions *)

Definition severity_to_dto (s : Severity) : SeverityDto :=
  match s with SevFatal => SFatal | SevError => SError | SevWarning => SWarning | SevInfo => SInformation end.

Definition diagnostic_id_to_code (id : DiagnosticId) : option string :=
  match id with LintId name => Some name | OtherId => None end.

Section conversions.
Context (an : Analysis).

(** The source and line index of a file, as the conversions read them. *)
Definition index_of_file (file : string) : LineIndex := fq_line_index (an_files an) file.

Definition extract_file_and_range (d : Diagnostic) : option string * option RangeTuple :=
  match d_annotation d with
  | None => (None, None)
  | Some (RuffFile, _) => (None, None)
  | Some (TyFile file, range) => (Some file, range_to_dto_with_index (index_of_file file) <$> range)
  end.

Definition convert_diagnostic (d : Diagnostic) : DiagnosticDto :=
  let '(file, range) := extract_file_and_range d in
  mkDiagnosticDto file range (severity_to_dto (d_severity d)) (diagnostic_id_to_code (d_id d))
    (d_primary_message d) (d_sub_messages d).

Definition convert_diagnostics (ds : list Diagnostic) : list DiagnosticDto := convert_diagnostic <$> ds.

Definition convert_diagnostic_refs (ds : list Diagnostic) : list DiagnosticDto := convert_diagnostic <$> ds.

Definition diagnostic_matches_file (d : Diagnostic) (target_path : string) : bool :=
  match d_annotation d with
  | Some (TyFile file, _) => bool_decide (file = target_path)
  | _ => false
  end.

Definition convert_reference_kind (k : ReferenceKind) : ReferenceKindDto :=
  match k with RefRead => RkRead | RefWrite => RkWrite | RefOther => RkOther end.

(** [file_cache.entry(file).or_insert_with(..)]: the entry, and the cache with it. *)
Definition cached_index (cache : gmap string (string * LineIndex)) (file : string) :
    (string * LineIndex) * gmap string (string * LineIndex) :=
  match cache !! file with
  | Some entry => (entry, cache)
  | None =>
      let entry := (fq_source (an_files an) file, index_of_file file) in
      (entry, <[ file := entry ]> cache)
  end.

(** A loop that converts each item with the cached index of its file. *)
Definition with_cache {A B} (file_of : A → string) (convert : LineIndex → A → B) (items : list A) : list B :=
  (foldl (λ '(cache, result) x,
     let '((source_str, line_index), cache) := cached_index cache (file_of x) in
     (cache, result ++ [convert line_index x])) (∅, []) items).2.

Definition convert_reference_with_index (li : LineIndex) (r : ReferenceTarget) : ReferenceDto :=
  mkReferenceDto (rt_file r) (range_to_dto_with_index li (rt_range r)) (convert_reference_kind (rt_kind r)).

Definition convert_references (rs : list ReferenceTarget) : list ReferenceDto :=
  with_cache rt_file convert_reference_with_index rs.

Definition convert_rename_edits (rs : list ReferenceTarget) (new_name : string) : WorkspaceEditDto :=
  mkWorkspaceEditDto new_name
    (with_cache rt_file (λ li r, mkRenameEditDto (rt_file r) (range_to_dto_with_index li (rt_range r))) rs).
End conversions.

Definition token_type_to_dto (t : SemanticTokenType) : SemanticTokenTypeDto :=
  match t with
  | TtNamespace => DtNamespace | TtClass => DtClass | TtParameter => DtParameter
  | TtSelfParameter => DtSelfParameter | TtClsParameter => DtClsParameter | TtVariable => DtVariable
  | TtProperty => DtProperty | TtFunction => DtFunction | TtMethod => DtMethod | TtKeyword => DtKeyword
  | TtString => DtString | TtNumber => DtNumber | TtDecorator => DtDecorator
  | TtBuiltinConstant => DtBuiltinConstant | TtTypeParameter => DtTypeParameter
  end.

Definition modifiers_to_dto (m : SemanticTokenModifier) : list SemanticTokenModifierDto :=
  (if m_definition m then [MDefinition] else []) ++
  (if m_readonly m then [MReadonly] else []) ++
  (if m_async m then [MAsync] else []) ++
  (if m_documentation m then [MDocumentation] else []).

Definition convert_semantic_tokens (li : LineIndex) (tokens : list SemanticToken) : list SemanticTokenDto :=
  (λ t, mkSemanticTokenDto (range_to_dto_with_index li (st_range t)) (token_type_to_dto (st_type t))
          (modifiers_to_dto (st_modifiers t))) <$> tokens.

Definition convert_inlay_hint (li : LineIndex) (h : InlayHint) : InlayHintDto :=
  let '(line, character) := li_source_location li (ih_position h) in
  mkInlayHintDto (one_based line, one_based character) (String.concat "" (ih_label_parts h))
    (match ih_kind h with IhType => DihType | IhCallArgumentName => DihCallArgumentName end).

Definition convert_quick_fix (li : LineIndex) (file_path : string) (fix_ : QuickFix) : QuickFixDto :=
  mkQuickFixDto (qf_title fix_)
    ((λ e, mkTextEditDto file_path (range_to_dto_with_index li (te_range e)) (default "" (te_content e))) <$> qf_edits fix_).

Definition convert_hint (li : LineIndex) (h : Hint) : HintDto :=
  mkHintDto (hint_message h)
    (match hint_kind h with UnusedBinding => HUnused | UnreachableCode => HUnreachable end)
    (Some (range_to_dto_with_index li (hint_range h))).

(** [i as u32] *)
Definition as_u32 (n : N) : N := (n mod u32_modulus)%N.

Definition convert_signature_details (sig : SignatureDetails) : SignatureDto :=
  mkSignatureDto (sd_label sig) (sd_documentation sig)
    ((λ p, mkParameterDto (pd_label p) (pd_documentation p)) <$> sd_parameters sig)
    (as_u32 <$> sd_active_parameter sig).

Definition convert_signature_help (info : SignatureHelpInfo) : SignatureHelpDto :=
  mkSignatureHelpDto (convert_signature_details <$> sh_signatures info) (as_u32 <$> sh_active_signature info).

Definition convert_completion_kind (k : CompletionKind) : CompletionKindDto :=
  match k with
  | CkText => DkText | CkMethod => DkMethod | CkFunction => DkFunction | CkConstructor => DkConstructor
  | CkField => DkField | CkVariable => DkVariable | CkClass => DkClass | CkInterface => DkInterface
  | CkModule => DkModule | CkProperty => DkProperty | CkUnit => DkUnit | CkValue => DkValue | CkEnum => DkEnum
  | CkKeyword => DkKeyword | CkSnippet => DkSnippet | CkColor => DkColor | CkFile => DkFile
  | CkReference => DkReference | CkFolder => DkFolder | CkEnumMember => DkEnumMember
  | CkConstant => DkConstant | CkStruct => DkStruct | CkEvent => DkEvent | CkOperator => DkOperator
  | CkTypeParameter => DkTypeParameter
  end.

Definition convert_completion (c : Completion) : CompletionDto :=
  mkCompletionDto (c_name c) (c_qualified c) (c_insert c) (c_ty c) (convert_completion_kind <$> c_kind c)
    (c_module_name c).

Definition convert_completions (cs : list Completion) : list CompletionDto := convert_completion <$> cs.

Definition convert_folding_range (li : LineIndex) (r : FoldingRange) : FoldingRangeDto :=
  mkFoldingRangeDto (range_to_dto_with_index li (fr_range r))
    ((λ k, match k with FrComment => FComment | FrImports => FImports | FrRegion => FRegion end) <$> fr_kind r).

Definition convert_hover_markdown_with_index (li : LineIndex) (path : string) (range : N * N) (markdown : string) :
    HoverDto :=
  mkHoverDto (mkFileRangeDto path (range_to_dto_with_index li range)) [mkHoverContentDto HcMarkdown markdown].

(** ** Queries *)

(** [TextRange::new], which asserts that the end is not before the start; [None]
    is the failed assertion, a panic. *)
Definition text_range_new (start end_ : N) : option (N * N) :=
  if (start <=? end_)%N then Some (start, end_) else None.

Section queries.
Context (an : Analysis) (ide : Ide) (root : string).

(** The file of a path with its line index, and the offset of a position. *)
Definition resolve_index (path : string) : result QueryError (string * string * LineIndex) :=
  let? fs := resolve_file_and_source (an_files an) root path in
  Ok (fs, index_of_file an fs.1).

Definition offset_of (source_str : string) (li : LineIndex) (line column : N) : result QueryError N :=
  match position_to_offset_with_index source_str li line column with
  | Ok offset => Ok offset
  | Err e => Err (PositionError e)
  end.

Definition compute_check : CheckResultDto :=
  mkCheckResultDto (convert_diagnostics an (ide_check ide)) None None.

Definition compute_check_file (path : string) : result QueryError CheckResultDto :=
  let? fs := resolve_file_and_source (an_files an) root path in
  let target_path := fs.1 in
  let matching := filter (λ d, diagnostic_matches_file d target_path) (ide_check ide) in
  Ok (mkCheckResultDto (convert_diagnostic_refs an matching) (Some 1%N) None).

Definition compute_workspace_symbols (query : string) : list SymbolDto :=
  with_cache an ws_file
    (λ li w, convert_symbol (range_to_dto_with_index li) (ws_file w) (ws_symbol w) (ws_imported_from w) None None None ∅)
    (ide_workspace_symbols ide query).

Definition compute_find_references (path : string) (line column : N) (include_declaration : bool) :
    result QueryError (list ReferenceDto) :=
  let? fo := resolve_position an root path line column in
  Ok (match ide_find_references ide fo.1 fo.2 include_declaration with
      | Some refs => convert_references an refs
      | None => []
      end).

(** The outer [option] is a panic. *)
Definition compute_semantic_tokens (path : string) (start_line start_col end_line end_col : option N) :
    option (result QueryError (list SemanticTokenDto)) :=
  match resolve_index path with
  | Err e => Some (Err e)
  | Ok (file, source_str, li) =>
      let tokens range := Some (Ok (convert_semantic_tokens li (ide_semantic_tokens ide file range))) in
      match start_line, start_col, end_line, end_col with
      | Some sl, Some sc, Some el, Some ec =>
          match offset_of source_str li sl sc with
          | Err e => Some (Err e)
          | Ok start =>
              match position_to_offset_clamped_line_end_with_index source_str li el ec with
              | Err e => Some (Err (PositionError e))
              | Ok end_ =>
                  match text_range_new start end_ with
                  | Some range => tokens (Some range)
                  | None => None
                  end
              end
          end
      | _, _, _, _ => tokens None
      end
  end.

Definition compute_type_hierarchy (path : string) (line column : N) : result QueryError (option TypeHierarchyDto) :=
  let? fo := resolve_position an root path line column in
  match an_prepare_type_hierarchy an fo.1 fo.2 with
  | None => Ok None
  | Some item =>
      let supertypes := an_type_hierarchy_supertypes an (hi_file item) (hi_selection_range item).1 in
      let subtypes := ide_type_hierarchy_subtypes ide (hi_file item) (hi_selection_range item).1 in
      Ok (Some (mkTypeHierarchyDto (convert_hierarchy_item an item) (convert_hierarchy_items an supertypes)
                  (convert_hierarchy_items an subtypes)))
  end.

Definition compute_inlay_hints (path : string) : result QueryError (list InlayHintDto) :=
  let? fsl := resolve_index path in
  let '(file, source_str, li) := fsl in
  let text_len := as_u32 (N.of_nat (String.length source_str)) in
  Ok (convert_inlay_hint li <$> ide_inlay_hints ide file (0%N, text_len)).

Definition compute_code_actions (path : string) (start_line start_col end_line end_col : N) (diagnostic_id : string) :
    option (result QueryError (list QuickFixDto)) :=
  match resolve_index path with
  | Err e => Some (Err e)
  | Ok (file, source_str, li) =>
      match offset_of source_str li start_line start_col with
      | Err e => Some (Err e)
      | Ok start_offset =>
          match offset_of source_str li end_line end_col with
          | Err e => Some (Err e)
          | Ok end_offset =>
              match text_range_new start_offset end_offset with
              | None => None
              | Some range => Some (Ok (convert_quick_fix li file <$> ide_code_actions ide file range diagnostic_id))
              end
          end
      end
  end.

Definition compute_hints (path : string) : result QueryError (list HintDto) :=
  let? fsl := resolve_index path in
  let '(file, _, li) := fsl in
  Ok (convert_hint li <$> ide_hints ide file).

Definition compute_signature_help (path : string) (line column : N) : result QueryError (option SignatureHelpDto) :=
  let? fo := resolve_position an root path line column in
  Ok (convert_signature_help <$> ide_signature_help ide fo.1 fo.2).

Definition compute_completions (path : string) (line column : N) (auto_import : bool) :
    result QueryError (list CompletionDto) :=
  let? fo := resolve_position an root path line column in
  Ok (convert_completions (ide_completion ide auto_import fo.1 fo.2)).

Definition compute_selection_ranges (path : string) (line column : N) : result QueryError (list RangeTuple) :=
  let? fo := resolve_position an root path line column in
  Ok (range_to_dto_with_index (index_of_file an fo.1) <$> ide_selection_range ide fo.1 fo.2).

Definition compute_folding_ranges (path : string) : result QueryError (list FoldingRangeDto) :=
  let? fsl := resolve_index path in
  let '(file, _, li) := fsl in
  Ok (convert_folding_range li <$> ide_folding_ranges ide file).

Definition compute_can_rename (path : string) (line column : N) : result QueryError (option RangeTuple) :=
  let? fo := resolve_position an root path line column in
  Ok (range_to_dto_with_index (index_of_file an fo.1) <$> ide_can_rename ide fo.1 fo.2).

Definition compute_rename (path : string) (line column : N) (new_name : string) :
    result QueryError (option WorkspaceEditDto) :=
  let? fo := resolve_position an root path line column in
  Ok ((λ targets, convert_rename_edits an targets new_name) <$> ide_rename ide fo.1 fo.2 new_name).

Definition compute_document_highlights (path : string) (line column : N) : result QueryError (list ReferenceDto) :=
  let? fo := resolve_position an root path line column in
  Ok (match ide_document_highlights ide fo.1 fo.2 with
      | Some targets => convert_references an targets
      | None => []
      end).

Definition compute_hover (path : string) (line column : N) : result QueryError (option HoverDto) :=
  let? fo := resolve_position an root path line column in
  match ide_hover ide fo.1 fo.2 with
  | None => Ok None
  | Some (file_range, rendered) =>
      Ok (Some (convert_hover_markdown_with_index (index_of_file an fo.1) fo.1 file_range rendered))
  end.

(** ** What the queries answer *)

(** A cache of indexes holds what it stands for. *)
Definition cache_ok (cache : gmap string (string * LineIndex)) : Prop :=
  ∀ file entry, cache !! file = Some entry → entry = (fq_source (an_files an) file, index_of_file an file).

Lemma cached_index_ok cache file :
  cache_ok cache →
  (cached_index an cache file).1 = (fq_source (an_files an) file, index_of_file an file) ∧
  cache_ok (cached_index an cache file).2.
Proof.
  intros Hc. unfold cached_index. destruct (cache !! file) as [entry|] eqn:E; simpl.
  - split; [by apply Hc|done].
  - split; [done|]. intros g entry. rewrite lookup_insert_Some. intros [[<- <-]|[_ H]]; [done|by apply Hc].
Qed.

(** The cache changes nothing: each item is converted with the index of its file. *)
Lemma with_cache_spec {A B} (file_of : A → string) (convert : LineIndex → A → B) items :
  with_cache an file_of convert items = (λ x, convert (index_of_file an (file_of x)) x) <$> items.
Proof.
  unfold with_cache. set (step := λ '(cache, result) x, _).
  assert (∀ items cache out, cache_ok cache →
    (foldl step (cache, out) items).2 = out ++ ((λ x, convert (index_of_file an (file_of x)) x) <$> items)) as H.
  { clear items. induction items as [|x items IH]; intros cache out Hc; cbn [foldl]; [by rewrite app_nil_r|].
    unfold step at 2. destruct (cached_index_ok cache (file_of x) Hc) as [E Hc'].
    destruct (cached_index an cache (file_of x)) as [[src li] cache'] eqn:Ec. simpl in E, Hc'. injection E as -> ->.
    rewrite IH by done. by rewrite <- (assoc_L (++)). }
  rewrite H; [done|]. by intros f e.
Qed.

(** References, rename edits and workspace symbols are each converted with the
    line index of the file they are in: the cache of indexes the conversions keep
    changes no answer, whatever the order of the items. *)
Theorem cached_conversion_exact refs new_name query :
  convert_references an refs = (λ r, convert_reference_with_index (index_of_file an (rt_file r)) r) <$> refs ∧
  we_edits (convert_rename_edits an refs new_name) =
    (λ r, mkRenameEditDto (rt_file r) (range_to_dto_with_index (index_of_file an (rt_file r)) (rt_range r))) <$> refs ∧
  compute_workspace_symbols query =
    (λ w, convert_symbol (range_to_dto_with_index (index_of_file an (ws_file w))) (ws_file w) (ws_symbol w)
            (ws_imported_from w) None None None ∅) <$> ide_workspace_symbols ide query.
Proof.
  split; [apply with_cache_spec|]. split; [apply (with_cache_spec rt_file)|].
  apply (with_cache_spec ws_file (λ li w,
    convert_symbol (range_to_dto_with_index li) (ws_file w) (ws_symbol w) (ws_imported_from w) None None None ∅)).
Qed.

Lemma convert_diagnostic_file d target : dd_file (convert_diagnostic an d) = Some target ↔ diagnostic_matches_file d target.
Proof.
  unfold convert_diagnostic, extract_file_and_range, diagnostic_matches_file.
  destruct (d_annotation d) as [[[f|] r]|]; simpl; [|by split..].
  rewrite bool_decide_spec. split; [by intros [= ->]|by intros ->].
Qed.

(** Checking one file reports exactly the diagnostics of the project check that
    name the file, in the same order and converted alike. *)
Theorem check_file_filters path :
  match resolve_file (an_files an) root path with
  | Ok file => compute_check_file path =
      Ok (mkCheckResultDto (filter (λ d, dd_file d = Some file) (cr_diagnostics compute_check)) (Some 1%N) None)
  | Err e => compute_check_file path = Err (PathResolutionError e)
  end.
Proof.
  unfold compute_check_file, resolve_file_and_source. destruct (resolve_file (an_files an) root path) as [file|e]; [|done].
  cbn [result_bind fst]. do 2 f_equal. unfold compute_check, cr_diagnostics, convert_diagnostic_refs, convert_diagnostics.
  induction (ide_check ide) as [|d ds IH]; [done|]. rewrite fmap_cons, !filter_cons.
  pose proof (convert_diagnostic_file d file) as Hd. repeat case_decide; rewrite ?fmap_cons, ?IH; tauto.
Qed.

(** The lean supertype query of the producer answers what the full type
    hierarchy has as supertypes, with the same errors. *)
Theorem supertypes_of_hierarchy path line column :
  compute_supertypes an root path line column =
    let? h := compute_type_hierarchy path line column in Ok (from_option th_supertypes [] h).
Proof.
  unfold compute_supertypes, compute_type_hierarchy.
  destruct (resolve_position an root path line column) as [[file offset]|e]; [|done]. cbn [result_bind fst snd].
  by destruct (an_prepare_type_hierarchy an file offset).
Qed.

(** ** Errors *)

(** The error of a query, if any. *)
Definition error_of {A} (r : result QueryError A) : option QueryError :=
  match r with Ok _ => None | Err e => Some e end.

(** The errors of every query at a position. *)
Definition position_query_errors (path : string) (line column : N) (include_declaration auto_import : bool)
    (new_name : string) (navigate_fn : string → N → option (list NavigationTarget)) : list (option QueryError) :=
  [error_of (compute_navigate an root path line column navigate_fn);
   error_of (compute_find_references path line column include_declaration);
   error_of (compute_type_hierarchy path line column);
   error_of (compute_supertypes an root path line column);
   error_of (compute_signature_help path line column);
   error_of (compute_completions path line column auto_import);
   error_of (compute_selection_ranges path line column);
   error_of (compute_can_rename path line column);
   error_of (compute_rename path line column new_name);
   error_of (compute_document_highlights path line column);
   error_of (compute_hover path line column)].

Lemma resolve_position_error path line column :
  match error_of (resolve_position an root path line column) with
  | None => ∃ file, resolve_file (an_files an) root path = Ok file ∧
      accepted (fq_source (an_files an) file) (index_of_file an file) line column
  | Some (PathResolutionError e) => resolve_file (an_files an) root path = Err e
  | Some (PositionError _) => ∃ file, resolve_file (an_files an) root path = Ok file ∧
      ¬ accepted (fq_source (an_files an) file) (index_of_file an file) line column
  end.
Proof.
  unfold resolve_position, resolve_file_and_source. destruct (resolve_file (an_files an) root path) as [file|e]; [|done].
  fold (index_of_file an file).
  destruct (position_to_offset_with_index _ _ line column) as [o|e] eqn:E; simpl; exists file; (split; [done|]).
  - by apply position_to_offset_ok in E as [? _].
  - intros Hv. rewrite (proj2 (position_to_offset_ok _ _ line column _) (conj Hv eq_refl)) in E. done.
Qed.

(** The queries at a position fail alike: with a path error exactly when the path
    does not resolve, with a position error exactly when it does and the position
    is not one of the file's, and never for any other reason. *)
Theorem position_queries_fail_alike path line column include_declaration auto_import new_name navigate_fn err :
  err ∈ position_query_errors path line column include_declaration auto_import new_name navigate_fn →
  match err with
  | None => ∃ file, resolve_file (an_files an) root path = Ok file ∧
      accepted (fq_source (an_files an) file) (index_of_file an file) line column
  | Some (PathResolutionError e) => resolve_file (an_files an) root path = Err e
  | Some (PositionError _) => ∃ file, resolve_file (an_files an) root path = Ok file ∧
      ¬ accepted (fq_source (an_files an) file) (index_of_file an file) line column
  end.
Proof.
  intros Hin. assert (err = error_of (resolve_position an root path line column)) as ->; [|apply resolve_position_error].
  revert Hin. unfold position_query_errors, compute_navigate, compute_find_references, compute_type_hierarchy,
    compute_supertypes, compute_signature_help, compute_completions, compute_selection_ranges, compute_can_rename,
    compute_rename, compute_document_highlights, compute_hover.
  destruct (resolve_position an root path line column) as [[file offset]|e]; cbn [result_bind error_of fst snd].
  - destruct (an_prepare_type_hierarchy an file offset), (ide_hover ide file offset) as [[r m]|];
      cbn [error_of]; rewrite !elem_of_cons, elem_of_nil; tauto.
  - rewrite !elem_of_cons, elem_of_nil. tauto.
Qed.

(** A quick-fix query panics exactly when both ends of the range are positions of
    the file and the end comes before the start: the range is not checked before it
    is built. *)
Theorem code_actions_panic path sl sc el ec diagnostic_id :
  compute_code_actions path sl sc el ec diagnostic_id = None ↔
  ∃ file start end_, resolve_file (an_files an) root path = Ok file ∧
    position_to_offset_with_index (fq_source (an_files an) file) (index_of_file an file) sl sc = Ok start ∧
    position_to_offset_with_index (fq_source (an_files an) file) (index_of_file an file) el ec = Ok end_ ∧ (end_ < start)%N.
Proof.
  unfold compute_code_actions, resolve_index, resolve_file_and_source.
  destruct (resolve_file (an_files an) root path) as [file|e]; cbn [result_bind fst].
  2: { split; [done|]. by intros (f & s & n & [=] & _). }
  unfold offset_of. destruct (position_to_offset_with_index _ _ sl sc) as [start|e] eqn:E1.
  2: { split; [done|]. intros (f & s & n & [= <-] & Hs & _). congruence. }
  destruct (position_to_offset_with_index _ _ el ec) as [end_|e] eqn:E2.
  2: { split; [done|]. intros (f & s & n & [= <-] & _ & Hn & _). congruence. }
  unfold text_range_new. destruct (N.leb_spec start end_) as [H|H]; split; try done.
  - intros (f & s & n & [= <-] & Hs & Hn & Hlt). rewrite E1 in Hs. rewrite E2 in Hn. simplify_eq. lia.
  - intros _. by exists file, start, end_.
Qed.

(** A range of tokens panics likewise, with the end clamped to its line. *)
Theorem semantic_tokens_panic path sl sc el ec file start end_ :
  resolve_file (an_files an) root path = Ok file →
  position_to_offset_with_index (fq_source (an_files an) file) (index_of_file an file) sl sc = Ok start →
  position_to_offset_clamped_line_end_with_index (fq_source (an_files an) file) (index_of_file an file) el ec = Ok end_ →
  compute_semantic_tokens path (Some sl) (Some sc) (Some el) (Some ec) = None ↔ (end_ < start)%N.
Proof.
  intros Hf Hs He. unfold compute_semantic_tokens, resolve_index, resolve_file_and_source. rewrite Hf.
  cbn [result_bind fst]. unfold offset_of. rewrite Hs, He. unfold text_range_new.
  destruct (N.leb_spec start end_); split; try done; lia.
Qed.

(** ** Following an answer *)

(** A file the disk has under the path the engine calls it by. *)
Definition on_disk (file : string) : Prop :=
  is_absolute file = true ∧ fq_canonicalize (an_files an) file = Ok file ∧ fq_is_utf8 (an_files an) file = true ∧
  fq_system_path_to_file (an_files an) file = Ok file.

Lemma on_disk_resolves file : on_disk file → resolve_file (an_files an) root file = Ok file.
Proof. intros (Ha & Hc & Hu & Hf). unfold resolve_file. by rewrite Ha, Hc, Hu, Hf. Qed.

(** What the engine's answers are about: a file whose text has no lone CR and
    whose index is that of its text, and in it the place of a name, within the
    reach of 32-bit positions. *)
Definition indexed_text (file : string) : Prop :=
  no_lone_cr (fq_source (an_files an) file) ∧ line_index_ok (fq_source (an_files an) file) (index_of_file an file).

Definition names_place (file : string) (offset : N) : Prop :=
  ∃ i c, position_of (fq_source (an_files an) file) i c ∧ offset = li_offset (index_of_file an file) (i, c) ∧
    (N.of_nat i + 1 < u32_modulus)%N ∧ (N.of_nat c + 1 < u32_modulus)%N.

(** C40: an answer can be followed.  When the file of a definition is on the disk
    under the path the engine calls it by, has no lone CR, and its name starts at a
    place of its text, the path and the position the definition is reported at
    resolve, asked about again, to the file and the offset the engine gave.  A
    definition the disk does not have (a bundled stub, an unsaved file) is outside
    of this. *)
Theorem definition_can_be_followed path line column navigate_fn targets t :
  compute_navigate an root path line column navigate_fn = Ok targets → t ∈ targets →
  (∀ file offset nts nt, navigate_fn file offset = Some nts → nt ∈ nts →
     on_disk (nt_file nt) ∧ indexed_text (nt_file nt) ∧ names_place (nt_file nt) (nt_focus_range nt).1) →
  ∃ file offset nts nt sl sc el ec,
    resolve_position an root path line column = Ok (file, offset) ∧ navigate_fn file offset = Some nts ∧ nt ∈ nts ∧
    dt_selection_range t = Some (sl, sc, el, ec) ∧
    resolve_position an root (dt_path t) sl sc = Ok (nt_file nt, (nt_focus_range nt).1).
Proof.
  unfold compute_navigate. destruct (resolve_position an root path line column) as [[file offset]|e]; [|done].
  intros [= <-] Ht Hlaw. destruct (navigate_fn file offset) as [nts|] eqn:En; [|by apply not_elem_of_nil in Ht].
  assert (convert_navigation_targets an nts = convert_navigation_target an <$> nts) as E by apply (foldl_push _ []).
  rewrite E in Ht. apply list_elem_of_fmap in Ht as (nt & -> & Hnt).
  destruct (Hlaw file offset nts nt En Hnt) as (Hres%on_disk_resolves & [Hcr Hli] & l1 & c1 & Hp & Ho & Hl1 & Hc1).
  pose proof (place_roundtrip _ _ l1 c1 Hcr Hli Hp Hl1 Hc1) as Hrt. rewrite <- Ho in Hrt.
  pose proof (lx_location _ _ Hli l1 c1 Hp) as Hloc. rewrite <- Ho in Hloc.
  unfold convert_navigation_target, range_to_dto_with_index. fold (index_of_file an (nt_file nt)). rewrite Hloc.
  destruct (li_source_location _ (nt_focus_range nt).2) as [l2 c2].
  exists file, offset, nts, nt, (one_based l1), (one_based c1), (one_based l2), (one_based c2).
  split; [done|]. split; [done|]. split; [done|].
  split; [by destruct (li_source_location _ (nt_full_range nt).1), (li_source_location _ (nt_full_range nt).2)|].
  destruct (li_source_location _ (nt_full_range nt).1), (li_source_location _ (nt_full_range nt).2).
  simpl. unfold resolve_position, resolve_file_and_source. rewrite Hres.
  fold (index_of_file an (nt_file nt)). by rewrite Hrt.
Qed.
End queries.

(** ** Witnesses: a file of one line *)

Definition files0 : FileQueries :=
  mkFileQueries (λ p, Ok p) (λ _, true) (λ p, Ok p) (λ _, mkHierarchicalSymbols [] (λ _, [])) (λ _, "abc") (λ _, line0).

Definition analysis0 : Analysis :=
  mkAnalysis files0 [] (λ _, []) (λ _, mkSemanticModel (λ _ _, []) (λ _, []) (λ _ _, []) (λ _, ""))
    (λ _ _, Some [mkNavigationTarget "/p/b.py" (0, 3)%N (1, 2)%N]) (λ _ _, None) (λ _ _, []).

Definition ide0 : Ide :=
  mkIde [] (λ _, []) (λ _ _ _, None) (λ _ _, None) (λ _ _, []) (λ _ _, []) (λ _ _, []) (λ _ _ _, []) (λ _, [])
    (λ _ _, None) (λ _ _ _, []) (λ _ _, []) (λ _, []) (λ _ _, None) (λ _ _ _, None) (λ _ _, None).

Lemma position_queries_fail_alike_witness :
  ¬ accepted "abc" line0 1 9 ∧ is_ok (compute_hover analysis0 ide0 "/p" "a.py" 1 9) = false.
Proof.
  destruct (compute_hover analysis0 ide0 "/p" "a.py" 1 9) as [h|e] eqn:E; [exfalso; revert E; vm_compute; discriminate|].
  split; [|reflexivity].
  pose proof (position_queries_fail_alike analysis0 ide0 "/p" "a.py" 1 9 false false "x" (λ _ _, None)
    (error_of (compute_hover analysis0 ide0 "/p" "a.py" 1 9))) as H.
  rewrite E in H. revert E H. vm_compute compute_hover. intros [= <-] H.
  destruct H as (file & [= <-] & Hv); [|exact Hv]. vm_compute. do 10 right. left.
Defined.

Lemma definition_can_be_followed_witness :
  ∃ nt, nt_file nt = "/p/b.py" ∧ resolve_position analysis0 "/p" "/p/b.py" 1 2 = Ok ("/p/b.py", (nt_focus_range nt).1).
Proof.
  destruct (definition_can_be_followed analysis0 "/p" "a.py" 1 1 (an_goto_definition analysis0)
    [mkDefinitionTargetDto "/p/b.py" (1, 1, 1, 4)%N (Some (1, 2, 1, 3)%N) None None]
    (mkDefinitionTargetDto "/p/b.py" (1, 1, 1, 4)%N (Some (1, 2, 1, 3)%N) None None))
    as (file & offset & nts & nt & sl & sc & el & ec & _ & [= <-] & Hin & [= <- <- <- <-] & H).
  - vm_compute. reflexivity.
  - left.
  - intros file offset nts nt [= <-] ->%list_elem_of_singleton. split; [repeat split|].
    split; [split; [exact I|by apply line0_ok]|]. exists 0, 1. split; [|repeat split].
    exists "abc". split; [reflexivity|]. vm_compute. lia.
  - apply list_elem_of_singleton in Hin as ->. eexists. split; [|exact H]. reflexivity.
Defined.
