(* ===== verification/Config.v ===== *)
(** * Configuration ([rust/src/config.rs])

    Expansion of [${NAME}] references, the validation of a configuration and
    the topological order of its layers. *)

From stdpp Require Import pretty.
From S2P Require Import Prelude Str Paths Content Identity IdentityFormat Entity Json.

(** ** Data *)

Definition CURRENT_SCHEMA_VERSION : N := 1.

Inductive ConfigError :=
| ConfigUnknownVersion (v : N)
| DanglingRef (key target : string)
| ReservedName (name : string)
| Cycle (cycle : string)
| OriginViolation (what : string)
| UnknownKind (kind : string)
| DimMismatch (what : string)
| SecretInline (path : string)
| ConfigParse (msg : string)
| UndefinedEnv (name : string)
| BlockingOverflow (policy : string)
| InvalidValue (key value allowed : string).

Record HashProfileCfg := mkHashProfileCfg {
  whitespace_insensitive : bool;
  normalize_trailing_commas : bool;
  hp_include_comments : bool;
  hp_include_docstrings : bool;
}.

Definition HashProfileCfg_default : HashProfileCfg := mkHashProfileCfg true true false false.

Inductive LayerOrigin := Derived | Authored.
Inductive ServingMode := Stale | Block.
Inductive RecomputeMode := Lazy | Eager.
Inductive KeyLocality := Local | Semantic.
Inductive GcPolicy := Orphans | Never.

#[global] Instance LayerOrigin_eq_dec : EqDecision LayerOrigin.
Proof. solve_decision. Defined.

Record LayerCfg := mkLayerCfg {
  origin : LayerOrigin;
  depends_on : list string;
  generator : option string;
  generator_version : option string;
  hash_profile : option string;
  store : option string;
  serving : ServingMode;
  recompute : RecomputeMode;
  key_locality : option KeyLocality;
  entity_kinds : list string;
  history : bool;
  review_on_change : bool;
}.

Record GeneratorCfg := mkGeneratorCfg {
  generator_type : option string;
  callable : option string;
  command : list string;
  endpoint : option string;
  model : option string;
  g_dim : option N;
  batch_size : option N;
  concurrency : option N;
  timeout_ms : option N;
}.

Record StoreCfg := mkStoreCfg {
  backend : string;
  st_path : option string;
  url : option string;
  metric : option string;
  s_dim : option N;
  gc : GcPolicy;
}.

Record RawConfig := mkRawConfig {
  schema_version : N;
  project_name : option string;
  cfg_retain_cap : N;
  default_hash_profile : string;
  profiles : gmap string HashProfileCfg;
  layers : gmap string LayerCfg;
  generators : gmap string GeneratorCfg;
  stores : gmap string StoreCfg;
  queue_capacity : N;
  overflow : string;
  watcher_enabled : bool;
  debounce_ms : N;
  precision : string;
  refinement : string;
  gitignore_cache : bool;
}.

Definition RawConfig_defaults : RawConfig :=
  mkRawConfig CURRENT_SCHEMA_VERSION None 256 "structure" {[ "structure" := HashProfileCfg_default ]}
    ∅ ∅ ∅ 1024 "coalesce" false 200 "container" "async" true.

Record ValidatedConfig := mkValidatedConfig {
  raw : RawConfig;
  cfg_topo_order : list string;
}.

(** ** Reading: merge and expansion *)

Inductive Toml :=
| TString (s : string)
| TScalar (text : string)
| TArray (items : list Toml)
| TTable (table : list (string * Toml)).

(** [Table::insert]: replace the value of a key, or add it. *)
Fixpoint table_insert (table : list (string * Toml)) (key : string) (v : Toml) : list (string * Toml) :=
  match table with
  | [] => [(key, v)]
  | (k, w) :: table => if String.eqb k key then (k, v) :: table else (k, w) :: table_insert table key v
  end.

Definition shallow_merge (base overlay : Toml) : Toml :=
  match base, overlay with
  | TTable base_table, TTable overlay_table =>
      TTable (foldl (λ t kv, table_insert t kv.1 kv.2) base_table overlay_table)
  | _, _ => overlay
  end.

Section expand.
(** The process environment, and the strings of [secrets.toml]. *)
Context (env secrets : string → option string).

Definition lookup_name (name : string) : option string :=
  match env name with Some v => Some v | None => secrets name end.

Fixpoint expand_loop (fuel : nat) (out rest : string) : result ConfigError string :=
  match fuel with
  | O => Ok (out +:+ rest)
  | S fuel =>
      match split_once "${" rest with
      | None => Ok (out +:+ rest)
      | Some (before, after) =>
          match split_once "}" after with
          | None => Ok (out +:+ before +:+ "${" +:+ after)
          | Some (name, rest) =>
              match lookup_name name with
              | None => Err (UndefinedEnv name)
              | Some value => expand_loop fuel (out +:+ before +:+ value) rest
              end
          end
      end
  end.

(** Each turn of the loop consumes at least the three characters [${}]. *)
Definition expand_string (s : string) : result ConfigError string :=
  expand_loop (S (String.length s)) "" s.

Fixpoint expand_value (v : Toml) : result ConfigError Toml :=
  match v with
  | TString s => let? s := expand_string s in Ok (TString s)
  | TScalar t => Ok (TScalar t)
  | TArray items =>
      let? items :=
        (fix go (l : list Toml) : result ConfigError (list Toml) :=
           match l with
           | [] => Ok []
           | x :: l => let? x := expand_value x in let? l := go l in Ok (x :: l)
           end) items in
      Ok (TArray items)
  | TTable table =>
      let? table :=
        (fix go (l : list (string * Toml)) : result ConfigError (list (string * Toml)) :=
           match l with
           | [] => Ok []
           | (k, x) :: l => let? x := expand_value x in let? l := go l in Ok ((k, x) :: l)
           end) table in
      Ok (TTable table)
  end.
End expand.

(** ** The order of the layers *)

Definition effective_depends_on (l : LayerCfg) : list string :=
  if bool_decide (origin l = Derived) && bool_decide (depends_on l = []) then ["code"]
  else depends_on l.

(** Counts of unmet dependencies, and the layers waiting for each name. *)
Record TopoState := mkTopoState {
  incoming : gmap string nat;
  outgoing : gmap string (list string);
}.

Definition topo_init (c : RawConfig) : gmap string nat :=
  foldl (λ m name, <[ name := 0 ]> m) {[ "code" := 0 ]} (btree_keys (layers c)).

(** One dependency of layer [name]. *)
Definition topo_edge (c : RawConfig) (name : string) (st : TopoState) (dep : string) :
    result ConfigError TopoState :=
  if negb (String.eqb dep "code") && negb (bool_decide (is_Some (layers c !! dep)))
  then Err (DanglingRef ("layers." +:+ name +:+ ".depends_on") dep)
  else
    Ok (mkTopoState
          (alter S name (incoming st))
          (<[ dep := default [] (outgoing st !! dep) ++ [name] ]> (outgoing st))).

Definition topo_edges (c : RawConfig) : result ConfigError TopoState :=
  foldM (λ st nl, foldM (topo_edge c nl.1) st (effective_depends_on nl.2))
    (mkTopoState (topo_init c) ∅) (btree_items (layers c)).

(** One target of the node just emitted. *)
Definition topo_release (ic_ready : gmap string nat * list string) (target : string) :
    gmap string nat * list string :=
  let '(ic, ready) := ic_ready in
  let count := default 0 (ic !! target) - 1 in
  let ic := <[ target := count ]> ic in
  if bool_decide (count = 0) then (ic, sort_by str_le (ready ++ [target])) else (ic, ready).

(** The loop over the ready list; [outgoing] has its lists sorted.  Each turn
    emits one name, so the number of names is fuel enough. *)
Fixpoint topo_loop (fuel : nat) (og : gmap string (list string)) (ic : gmap string nat)
    (ready order : list string) : list string * gmap string nat :=
  match fuel, ready with
  | S fuel, node :: ready =>
      let '(ic, ready) := foldl topo_release (ic, ready) (default [] (og !! node)) in
      topo_loop fuel og ic ready (order ++ [node])
  | _, _ => (order, ic)
  end.

Definition topo_order (c : RawConfig) : result ConfigError (list string) :=
  let? st := topo_edges c in
  let og := sort_by str_le <$> outgoing st in
  let ready := filter (λ n, incoming st !! n = Some 0) (btree_keys (incoming st)) in
  let '(order, ic) := topo_loop (size (incoming st)) og (incoming st) ready [] in
  if bool_decide (length order = size ic) then Ok order
  else Err (Cycle (str_join " -> "
         (filter (λ n, 0 < default 0 (ic !! n)) (btree_keys ic)))).

(** ** Secrets *)

Definition is_lower (c : Ascii.ascii) : bool :=
  let n := Ascii.N_of_ascii c in ((97 <=? n) && (n <=? 122))%N.
Definition is_upper (c : Ascii.ascii) : bool :=
  let n := Ascii.N_of_ascii c in ((65 <=? n) && (n <=? 90))%N.
Definition is_digit (c : Ascii.ascii) : bool :=
  let n := Ascii.N_of_ascii c in ((48 <=? n) && (n <=? 57))%N.

Definition high_entropyish (s : string) : bool :=
  let cs := String.list_ascii_of_string s in
  let alnum := length (filter (λ c, is_lower c || is_upper c || is_digit c) cs) in
  (28 <=? alnum) && existsb is_lower cs && existsb is_upper cs && existsb is_digit cs.

Definition looks_like_secret (s : string) : bool :=
  starts_with "sk-" s || starts_with "AKIA" s || ((32 <=? String.length s) && high_entropyish s).

Fixpoint lint_secret_value (path : string) (v : Json) : result ConfigError unit :=
  match v with
  | JString s => if looks_like_secret s then Err (SecretInline path) else Ok tt
  | JArray items =>
      (fix go (idx : N) (l : list Json) : result ConfigError unit :=
         match l with
         | [] => Ok tt
         | x :: l =>
             let? _ := lint_secret_value (path +:+ "[" +:+ pretty idx +:+ "]") x in go (idx + 1)%N l
         end) 0%N items
  | JObject fields =>
      (fix go (l : list (string * Json)) : result ConfigError unit :=
         match l with
         | [] => Ok tt
         | (k, x) :: l => let? _ := lint_secret_value (path +:+ "." +:+ k) x in go l
         end) fields
  | _ => Ok tt
  end.

(** [serde_json::to_value]: the configuration as JSON, keys in order. *)
Definition opt_json {A} (f : A → Json) (o : option A) : Json :=
  match o with Some x => f x | None => JNull end.

Definition profile_json (p : HashProfileCfg) : Json :=
  JObject [("include_comments", JBool (hp_include_comments p));
           ("include_docstrings", JBool (hp_include_docstrings p));
           ("normalize_trailing_commas", JBool (normalize_trailing_commas p));
           ("whitespace_insensitive", JBool (whitespace_insensitive p))].

Definition layer_json (l : LayerCfg) : Json :=
  JObject
    [("depends_on", JArray (JString <$> depends_on l));
     ("entity_kinds", JArray (JString <$> entity_kinds l));
     ("generator", opt_json JString (generator l));
     ("generator_version", opt_json JString (generator_version l));
     ("hash_profile", opt_json JString (hash_profile l));
     ("history", JBool (history l));
     ("key_locality", opt_json (λ k, JString match k with Local => "local" | Semantic => "semantic" end)
                        (key_locality l));
     ("origin", JString match origin l with Derived => "derived" | Authored => "authored" end);
     ("recompute", JString match recompute l with Lazy => "lazy" | Eager => "eager" end);
     ("review_on_change", JBool (review_on_change l));
     ("serving", JString match serving l with Stale => "stale" | Block => "block" end);
     ("store", opt_json JString (store l))].

Definition generator_json (g : GeneratorCfg) : Json :=
  JObject
    [("batch_size", opt_json u64_json (batch_size g));
     ("callable", opt_json JString (callable g));
     ("command", JArray (JString <$> command g));
     ("concurrency", opt_json u64_json (concurrency g));
     ("dim", opt_json u64_json (g_dim g));
     ("endpoint", opt_json JString (endpoint g));
     ("model", opt_json JString (model g));
     ("timeout_ms", opt_json u64_json (timeout_ms g));
     ("type", opt_json JString (generator_type g))].

Definition store_json (s : StoreCfg) : Json :=
  JObject
    [("backend", JString (backend s));
     ("dim", opt_json u64_json (s_dim s));
     ("gc", JString match gc s with Orphans => "orphans" | Never => "never" end);
     ("metric", opt_json JString (metric s));
     ("path", opt_json JString (st_path s));
     ("url", opt_json JString (url s))].

Definition map_json {V} (f : V → Json) (m : gmap string V) : Json :=
  JObject ((λ kv, (kv.1, f kv.2)) <$> btree_items m).

Definition config_json (c : RawConfig) : Json :=
  JObject
    [("code_graph", JObject [("precision", JString (precision c)); ("refinement", JString (refinement c))]);
     ("coordination", JObject
        [("bus", JObject [("overflow", JString (overflow c)); ("queue_capacity", u64_json (queue_capacity c))]);
         ("watcher", JObject [("debounce_ms", u64_json (debounce_ms c)); ("enabled", JBool (watcher_enabled c))])]);
     ("generators", map_json generator_json (generators c));
     ("hashing", JObject [("profiles", map_json profile_json (profiles c))]);
     ("layers", map_json layer_json (layers c));
     ("project", JObject [("name", opt_json JString (project_name c))]);
     ("schema_version", u64_json (schema_version c));
     ("sidecar", JObject [("gitignore_cache", JBool (gitignore_cache c))]);
     ("spine", JObject [("default_hash_profile", JString (default_hash_profile c));
                        ("retain_cap", u64_json (cfg_retain_cap c))]);
     ("stores", map_json store_json (stores c))].

Definition lint_secrets (c : RawConfig) : result ConfigError unit := lint_secret_value "$" (config_json c).

(** ** Validation *)

Definition is_known_kind (kind : string) : bool :=
  bool_decide (kind ∈ kind_to_str <$> all_kinds).

Definition layer_profile (c : RawConfig) (l : LayerCfg) : string :=
  default (default_hash_profile c) (hash_profile l).

Definition check_profile (c : RawConfig) (nl : string * LayerCfg) : result ConfigError unit :=
  let profile := layer_profile c nl.2 in
  if bool_decide (is_Some (profiles c !! profile)) then Ok tt
  else Err (DanglingRef ("layers." +:+ nl.1 +:+ ".hash_profile") profile).

Definition check_derived (c : RawConfig) (nl : string * LayerCfg) : result ConfigError unit :=
  let '(name, l) := nl in
  match origin l with
  | Authored => Ok tt
  | Derived =>
      let? g := ok_or (generator l)
        (OriginViolation ("layers." +:+ name +:+ ".generator is required for derived layers")) in
      let? _ := ok_or (generators c !! g) (DanglingRef ("layers." +:+ name +:+ ".generator") g) in
      let? s := ok_or (store l)
        (OriginViolation ("layers." +:+ name +:+ ".store is required for derived layers")) in
      let? _ := ok_or (stores c !! s) (DanglingRef ("layers." +:+ name +:+ ".store") s) in
      Ok tt
  end.

Definition check_dep_origin (c : RawConfig) (nl : string * LayerCfg) : result ConfigError unit :=
  forM_ (λ dep,
    match layers c !! dep with
    | Some d =>
        match origin d with
        | Authored => Err (OriginViolation ("layers." +:+ nl.1 +:+
                             ".depends_on references authored layer " +:+ dep))
        | Derived => Ok tt
        end
    | None => Ok tt
    end) (effective_depends_on nl.2).

Definition check_origin_keys (nl : string * LayerCfg) : result ConfigError unit :=
  let '(name, l) := nl in
  match origin l with
  | Derived =>
      if String.eqb (default "" (generator_version l)) ""
      then Err (OriginViolation ("layers." +:+ name +:+ ".generator_version is required for derived layers"))
      else Ok tt
  | Authored =>
      if bool_decide (depends_on l = [] ∧ generator l = None ∧ generator_version l = None ∧
                      hash_profile l = None ∧ store l = None)
      then Ok tt
      else Err (OriginViolation ("layers." +:+ name +:+ " is authored but defines derived-only keys"))
  end.

Definition check_kinds (nl : string * LayerCfg) : result ConfigError unit :=
  forM_ (λ kind,
    if is_known_kind kind then Ok tt
    else Err (UnknownKind ("layers." +:+ nl.1 +:+ ".entity_kinds contains " +:+ kind)))
    (entity_kinds nl.2).

Definition check_dims (c : RawConfig) (nl : string * LayerCfg) : result ConfigError unit :=
  let '(name, l) := nl in
  match generator l, store l with
  | Some g, Some s =>
      match generators c !! g ≫= g_dim, stores c !! s ≫= s_dim with
      | Some gd, Some sd =>
          if bool_decide (gd = sd) then Ok tt
          else Err (DimMismatch ("layers." +:+ name +:+ ": generator " +:+ g +:+ " dim " +:+ pretty gd +:+
                                 " != store " +:+ s +:+ " dim " +:+ pretty sd))
      | _, _ => Ok tt
      end
  | _, _ => Ok tt
  end.

Definition one_of (allowed : list string) (s : string) : bool := bool_decide (s ∈ allowed).

Definition validate (c : RawConfig) : result ConfigError ValidatedConfig :=
  if negb (schema_version c =? CURRENT_SCHEMA_VERSION)%N
  then Err (ConfigUnknownVersion (schema_version c))
  else if negb (bool_decide (is_Some (profiles c !! default_hash_profile c)))
  then Err (DanglingRef "spine.default_hash_profile" (default_hash_profile c))
  else
    let? _ := forM_ (check_profile c) (btree_items (layers c)) in
    let? _ := forM_ (check_derived c) (btree_items (layers c)) in
    let? _ := if bool_decide (is_Some (layers c !! "code")) then Err (ReservedName "code") else Ok tt in
    let? order := topo_order c in
    let? _ := forM_ (check_dep_origin c) (btree_items (layers c)) in
    let? _ := forM_ check_origin_keys (btree_items (layers c)) in
    let? _ := forM_ check_kinds (btree_items (layers c)) in
    let? _ := forM_ (check_dims c) (btree_items (layers c)) in
    let? _ := if one_of ["coalesce"; "drop_and_mark_lagged"; "error_and_close"] (overflow c)
              then Ok tt else Err (BlockingOverflow (overflow c)) in
    let? _ := if one_of ["container"; "method"] (precision c)
              then Ok tt else Err (InvalidValue "code_graph.precision" (precision c) "container, method") in
    let? _ := if one_of ["sync"; "async"] (refinement c)
              then Ok tt else Err (InvalidValue "code_graph.refinement" (refinement c) "sync, async") in
    let? _ := lint_secrets c in
    Ok (mkValidatedConfig c order).

(** [profile_for] indexes maps: [None] is a panic. *)
Definition profile_for (v : ValidatedConfig) (layer : string) : option HashProfileCfg :=
  if String.eqb layer "code" then profiles (raw v) !! default_hash_profile (raw v)
  else
    l ← layers (raw v) !! layer;
    profiles (raw v) !! layer_profile (raw v) l.

Definition hash_policy_of (p : HashProfileCfg) : HashPolicy :=
  mkHashPolicy (whitespace_insensitive p) (normalize_trailing_commas p)
    (hp_include_docstrings p) (hp_include_comments p).

Definition hash_policy_for (v : ValidatedConfig) (layer : string) : option HashPolicy :=
  hash_policy_of <$> profile_for v layer.

Definition authored_layer_config (v : ValidatedConfig) (layer : string) : option LayerCfg :=
  l ← layers (raw v) !! layer;
  match origin l with Authored => Some l | Derived => None end.
