(* ===== verification/ConfigFacts.v ===== *)
(** * Correctness of the configuration

    The order of the layers is a topological order exactly when there is one;
    a configuration is accepted exactly when it is well formed. *)

From stdpp Require Import pretty.
From S2P Require Import Prelude Str Paths Content Identity IdentityFormat Entity Json Config.

(** ** Occurrences in a list *)

Definition occ (x : string) (l : list string) : nat := length (filter (λ y, y = x) l).

Lemma occ_app x l1 l2 : occ x (l1 ++ l2) = occ x l1 + occ x l2.
Proof. unfold occ. by rewrite filter_app, length_app. Qed.

Lemma occ_cons x y l : occ x (y :: l) = (if decide (y = x) then 1 else 0) + occ x l.
Proof. unfold occ. rewrite filter_cons. by case_decide. Qed.

Lemma occ_perm x l1 l2 : l1 ≡ₚ l2 → occ x l1 = occ x l2.
Proof. intros H. unfold occ. by rewrite H. Qed.

Lemma occ_pos x l : x ∈ l ↔ 0 < occ x l.
Proof.
  unfold occ. split.
  - intros Hx. destruct (filter _ l) eqn:E; [|simpl; lia].
    rewrite filter_nil_not_elem in E. by destruct (E x Hx).
  - destruct (filter _ l) as [|y l'] eqn:E; simpl; [lia|]. intros _.
    assert (y ∈ filter (λ y, y = x) l) as [-> ?]%list_elem_of_filter by (rewrite E; left). done.
Qed.

(** ** Kahn's algorithm *)

Section kahn.
Context (names : gset string) (deps : string → list string) (og : gmap string (list string)).
Context (Hog : ∀ n d, occ n (default [] (og !! d)) = occ d (deps n)).
Context (Hdeps : ∀ n d, d ∈ deps n → n ∈ names ∧ d ∈ names).

Definition unmet (order : list string) (n : string) : nat :=
  length (filter (λ d, d ∉ order) (deps n)).

(** Every dependency of an element stands before it. *)
Definition topo_sorted (order : list string) : Prop :=
  ∀ i n, order !! i = Some n → ∀ d, d ∈ deps n → d ∈ take i order.

Record kahn_inv (ic : gmap string nat) (ready order : list string) : Prop := {
  ki_dom : dom ic = names;
  ki_count : ∀ n, n ∈ names → ic !! n = Some (unmet order n);
  ki_ready : ∀ n, n ∈ ready ↔ n ∈ names ∧ n ∉ order ∧ unmet order n = 0;
  ki_nodup : NoDup (order ++ ready);
  ki_order : ∀ n, n ∈ order → n ∈ names;
  ki_topo : topo_sorted order;
}.

Lemma unmet_snoc order node n :
  node ∉ order → unmet order n = unmet (order ++ [node]) n + occ node (deps n).
Proof.
  intros Hn. unfold unmet, occ. induction (deps n) as [|d l IH]; [done|].
  rewrite !filter_cons. repeat case_decide; simpl; set_solver by lia.
Qed.

Lemma unmet_zero order n : unmet order n = 0 ↔ ∀ d, d ∈ deps n → d ∈ order.
Proof.
  unfold unmet. rewrite length_zero_iff_nil, filter_nil_not_elem. split.
  - intros H d Hd. destruct (decide (d ∈ order)); [done|]. by destruct (H d Hd).
  - intros H d Hd Hn. by apply Hn, H.
Qed.

Lemma topo_sorted_snoc order n :
  topo_sorted order → (∀ d, d ∈ deps n → d ∈ order) → topo_sorted (order ++ [n]).
Proof.
  intros Hs Hn i m Hm d Hd. apply lookup_app_Some in Hm as [Hm|[Hlen Hm]].
  - rewrite take_app_le by (apply lookup_lt_Some in Hm; lia). by eapply Hs.
  - apply list_lookup_singleton_Some in Hm as [Hi <-].
    rewrite take_app_ge by lia. apply elem_of_app. left. by apply Hn.
Qed.

(** Releasing the targets of a node. *)
Lemma topo_release_loop ts ic ready :
  (∀ t, t ∈ ts → ∃ k, ic !! t = Some k ∧ occ t ts ≤ k) →
  NoDup ready → (∀ n, n ∈ ready → n ∉ ts) →
  let r := foldl topo_release (ic, ready) ts in
  (∀ n, r.1 !! n = (λ k, k - occ n ts) <$> ic !! n) ∧
  (∀ n, n ∈ r.2 ↔ n ∈ ready ∨ n ∈ ts ∧ r.1 !! n = Some 0) ∧ NoDup r.2.
Proof.
  revert ic ready. induction ts as [|t ts IH]; intros ic ready Hic Hnd Hdis; cbn [foldl].
  { simpl. split; [|set_solver]. intros n. destruct (ic !! n); simpl; [|done].
    unfold occ. simpl. f_equal. lia. }
  destruct (Hic t) as (k & Hk & Hocc); [left|]. rewrite occ_cons, decide_True in Hocc by done.
  set (ready' := if bool_decide (k - 1 = 0) then sort_by str_le (ready ++ [t]) else ready).
  assert (topo_release (ic, ready) t = (<[ t := k - 1 ]> ic, ready')) as ->.
  { unfold topo_release, ready'. rewrite Hk. simpl. by case_bool_decide. }
  assert (∀ n, n ∈ ready' ↔ n ∈ ready ∨ n = t ∧ k - 1 = 0) as Hr'.
  { intros n. unfold ready'. case_bool_decide; [|naive_solver].
    rewrite elem_of_sort_by, elem_of_app, list_elem_of_singleton. naive_solver. }
  destruct (IH (<[ t := k - 1 ]> ic) ready') as (H1 & H2 & H3).
  - intros x Hx. rewrite lookup_insert. case_decide; subst; [exists (k - 1); split; [done|lia]|].
    destruct (Hic x) as (kx & Hkx & Hox); [by right|]. exists kx. rewrite occ_cons in Hox.
    split; [done|lia].
  - unfold ready'. case_bool_decide; [|done]. rewrite sort_by_perm. apply NoDup_app.
    split; [done|]. split; [|apply NoDup_singleton]. intros x Hx ->%list_elem_of_singleton.
    by apply (Hdis t Hx); left.
  - intros n Hn Hts. apply Hr' in Hn as [Hn|[-> Hz]]; [by apply (Hdis n Hn); right|].
    apply occ_pos in Hts. lia.
  - simpl in *. split; [|split; [|done]].
    + intros n. rewrite H1, occ_cons, lookup_insert. case_decide; subst; [|by rewrite Nat.add_0_l].
      rewrite Hk. simpl. f_equal. lia.
    + intros n. rewrite H2, Hr', elem_of_cons. split; [|].
      * intros [[?|[-> Hz]]|[? ?]]; auto. right. split; [by left|].
        rewrite H1, lookup_insert_eq. simpl. f_equal. lia.
      * intros [?|[[->|?] Hz]]; auto. destruct (decide (t ∈ ts)) as [|Hts]; [by right|].
        left. right. split; [done|]. rewrite H1, lookup_insert_eq in Hz. simpl in Hz. injection Hz.
        rewrite occ_pos in Hts. lia.
Qed.

Lemma topo_sorted_elem order n d : topo_sorted order → n ∈ order → d ∈ deps n → d ∈ order.
Proof.
  intros Hs [i Hi]%list_elem_of_lookup Hd.
  specialize (Hs i n Hi d Hd). apply list_elem_of_lookup in Hs as [j Hj].
  apply lookup_take_Some in Hj as [Hj _]. by eapply list_elem_of_lookup_2.
Qed.

Lemma kahn_step ic node ready order :
  kahn_inv ic (node :: ready) order →
  let r := foldl topo_release (ic, ready) (default [] (og !! node)) in
  kahn_inv r.1 r.2 (order ++ [node]).
Proof.
  intros [Hdom Hcount Hready Hnd Hord Htopo]. set (ts := default [] (og !! node)).
  destruct (proj1 (Hready node)) as (Hnn & Hno & Hnz); [left|].
  apply NoDup_app in Hnd as (Hnd1 & Hdisj & [Hnr Hnd2]%NoDup_cons).
  pose proof (proj1 (unmet_zero _ _) Hnz) as Hndeps.
  assert (∀ n, unmet order n = unmet (order ++ [node]) n + occ n ts) as Hsnoc
    by (intros n; unfold ts; rewrite Hog; by apply unmet_snoc).
  assert (∀ t, t ∈ ts → t ∈ names ∧ node ∈ deps t) as Hts.
  { intros t Ht. rewrite occ_pos in Ht. unfold ts in Ht. rewrite Hog, <- occ_pos in Ht.
    by destruct (Hdeps _ _ Ht). }
  destruct (topo_release_loop ts ic ready) as (H1 & H2 & H3).
  { intros t Ht. destruct (Hts t Ht) as [Htn _]. exists (unmet order t).
    split; [by apply Hcount|]. rewrite Hsnoc. lia. }
  { done. }
  { intros n Hn Hnt. destruct (proj1 (Hready n)) as (_ & _ & Hz); [by right|].
    rewrite Hsnoc in Hz. apply occ_pos in Hnt. lia. }
  set (r := foldl topo_release (ic, ready) ts) in *.
  assert (∀ n, n ∈ names → r.1 !! n = Some (unmet (order ++ [node]) n)) as Hcount'.
  { intros n Hn. rewrite H1, (Hcount n Hn). simpl. rewrite Hsnoc. f_equal. lia. }
  split.
  - apply set_eq. intros n. rewrite elem_of_dom, H1, <- Hdom, elem_of_dom. by rewrite fmap_is_Some.
  - done.
  - intros n. rewrite H2. split.
    + intros [Hn|[Hn Hz]].
      * destruct (proj1 (Hready n)) as (? & ? & Hz); [by right|]. rewrite Hsnoc in Hz.
        split; [done|]. split; [|lia]. rewrite elem_of_app, list_elem_of_singleton.
        intros [?| ->]; done.
      * destruct (Hts n Hn) as [Hnn' Hdn]. rewrite Hcount' in Hz by done. simplify_eq.
        split; [done|]. split; [|done]. rewrite elem_of_app, list_elem_of_singleton.
        intros [Hin| ->]; [|by apply Hno, Hndeps]. apply Hno. by eapply topo_sorted_elem.
    + rewrite elem_of_app, list_elem_of_singleton. intros (Hn & Hnot & Hz).
      destruct (decide (n ∈ ts)) as [Hin|Hin]; [right; split; [done|]; by rewrite Hcount', Hz|left].
      assert (n ∈ node :: ready) as [->|?]%elem_of_cons; [|naive_solver|done].
      apply Hready. rewrite occ_pos in Hin. rewrite Hsnoc. split; [done|]. split; [naive_solver|lia].
  - rewrite <- app_assoc. apply NoDup_app. split; [done|]. split.
    + intros x Hx [->|Hx2]%elem_of_cons; [done|]. apply H2 in Hx2 as [Hx2|[Hx2 _]].
      * apply (Hdisj x Hx). by right.
      * destruct (Hts x Hx2) as [_ Hd]. apply Hno. by eapply topo_sorted_elem.
    + apply NoDup_cons. split; [|done]. intros [?|[Hx _]]%H2; [done|].
      destruct (Hts node Hx) as [_ Hd]. by apply Hno, Hndeps.
  - intros n [?| ->%list_elem_of_singleton]%elem_of_app; auto.
  - by apply topo_sorted_snoc.
Qed.

Lemma kahn_loop fuel ic ready order :
  kahn_inv ic ready order → size names ≤ fuel + length order →
  ∃ order' ic', topo_loop fuel og ic ready order = (order', ic') ∧ kahn_inv ic' [] order'.
Proof.
  revert ic ready order. induction fuel as [|fuel IH]; intros ic [|node ready] order Hinv Hf;
    simpl; eauto.
  - exfalso. destruct Hinv as [_ _ Hready Hnd Hord _].
    destruct (proj1 (Hready node)) as (Hn & Hno & _); [left|].
    apply NoDup_app in Hnd as (Hnd & _ & _).
    assert (list_to_set order ⊂ names) as Hlt%subset_size by set_solver.
    rewrite size_list_to_set in Hlt by done. simpl in Hf. lia.
  - pose proof (kahn_step _ _ _ _ Hinv) as Hstep. simpl in Hstep.
    destruct (foldl _ _ _) as [ic' ready'] eqn:E. apply IH; [done|].
    rewrite length_app. simpl. lia.
Qed.

(** Whatever is not emitted contains a cycle. *)
Lemma kahn_end ic order :
  kahn_inv ic [] order →
  (∀ n, n ∈ names → n ∉ order → ∃ d, d ∈ deps n ∧ d ∈ names ∧ d ∉ order) ∧
  (length order = size ic ↔ ∀ n, n ∈ names → n ∈ order).
Proof.
  intros [Hdom Hcount Hready Hnd Hord Htopo]. rewrite app_nil_r in Hnd. split.
  - intros n Hn Hno. destruct (decide (unmet order n = 0)) as [Hz|Hz].
    { assert (n ∈ @nil string) as []%not_elem_of_nil by by apply Hready. }
    unfold unmet in Hz. destruct (filter _ _) as [|d l] eqn:E; [done|]. exists d.
    assert (d ∈ filter (λ d, d ∉ order) (deps n)) as [Hd Hin]%list_elem_of_filter
      by (rewrite E; left).
    split; [done|]. by destruct (Hdeps _ _ Hin).
  - assert (size ic = size names) as -> by (rewrite <- Hdom; symmetry; apply size_dom).
    rewrite <- (size_list_to_set (C:=gset string) order Hnd). split.
    + intros Hs n Hn. destruct (decide (n ∈ order)); [done|].
      assert (list_to_set order ⊂ names) as Hlt%subset_size by set_solver. lia.
    + intros Hall. f_equal. set_solver.
Qed.
End kahn.

(** ** The graph the counts are read from *)

(** The dependencies of a layer; ["code"] has none. *)
Definition layer_deps (c : RawConfig) (n : string) : list string :=
  match layers c !! n with Some l => effective_depends_on l | None => [] end.

(** All pairs of a layer and one of its dependencies, in order. *)
Definition dep_pairs (c : RawConfig) : list (string * string) :=
  btree_items (layers c) ≫= λ nl, (nl.1,.) <$> effective_depends_on nl.2.

Definition known_dep (c : RawConfig) (d : string) : Prop := d = "code" ∨ is_Some (layers c !! d).

#[global] Instance known_dep_dec c d : Decision (known_dep c d).
Proof. unfold known_dep. apply _. Defined.

Lemma foldM_app {E A S} (f : S → A → result E S) s l1 l2 :
  foldM f s (l1 ++ l2) = let? s' := foldM f s l1 in foldM f s' l2.
Proof. revert s. induction l1 as [|x l1 IH]; intros s; simpl; [done|].
  destruct (f s x); simpl; [apply IH|done]. Qed.

Lemma foldM_nested {E A B C S} (f : B → S → C → result E S) (g : A → list C) (k : A → B) s l :
  foldM (λ s x, foldM (f (k x)) s (g x)) s l =
    foldM (λ s bc, f bc.1 s bc.2) s (l ≫= λ x, (k x,.) <$> g x).
Proof.
  revert s. induction l as [|x l IH]; intros s; [done|]. csimpl. rewrite foldM_app.
  assert (∀ cs s, foldM (f (k x)) s cs = foldM (λ s bc, f bc.1 s bc.2) s ((k x,.) <$> cs)) as ->.
  { induction cs as [|c0 cs IHc]; intros s'; simpl; [done|].
    destruct (f (k x) s' c0); simpl; [apply IHc|done]. }
  destruct (foldM _ _ _); simpl; [apply IH|done].
Qed.

(** The state after the pairs [ps], or the first unknown dependency. *)
Lemma topo_edges_pairs c ps st :
  match foldM (λ st nd, topo_edge c nd.1 st nd.2) st ps with
  | Ok st' =>
      (∀ nd, nd ∈ ps → known_dep c nd.2) ∧
      (∀ n, incoming st' !! n = (λ k, k + length (filter (λ nd, nd.1 = n) ps)) <$> incoming st !! n) ∧
      (∀ d, default [] (outgoing st' !! d) =
         default [] (outgoing st !! d) ++ (filter (λ nd, nd.2 = d) ps).*1)
  | Err e => ∃ n d, (n, d) ∈ ps ∧ ¬ known_dep c d ∧ e = DanglingRef ("layers." +:+ n +:+ ".depends_on") d
  end.
Proof.
  revert st. induction ps as [|[n d] ps IH]; intros st; simpl.
  { split; [set_solver|]. split; intros x; [|by rewrite app_nil_r].
    destruct (incoming st !! x); simpl; [|done]. f_equal. lia. }
  assert (negb (String.eqb d "code") && negb (bool_decide (is_Some (layers c !! d))) =
            negb (bool_decide (known_dep c d))) as Hk.
  { symmetry. case_bool_decide as Hkd.
    - destruct Hkd as [->|Hs]; [done|]. by rewrite (bool_decide_eq_true_2 _ Hs), andb_false_r.
    - unfold known_dep in Hkd. rewrite (proj2 (String.eqb_neq d "code")) by naive_solver.
      by rewrite bool_decide_eq_false_2 by naive_solver. }
  assert (topo_edge c n st d =
    if bool_decide (known_dep c d) then
      Ok (mkTopoState (alter S n (incoming st))
            (<[ d := default [] (outgoing st !! d) ++ [n] ]> (outgoing st)))
    else Err (DanglingRef ("layers." +:+ n +:+ ".depends_on") d)) as ->.
  { unfold topo_edge. rewrite Hk. by destruct (bool_decide (known_dep c d)). }
  destruct (bool_decide_reflect (known_dep c d)) as [Hkd|Hkd]; cbn [result_bind].
  2:{ exists n, d. split; [left|done]. }
  specialize (IH (mkTopoState (alter S n (incoming st))
    (<[ d := default [] (outgoing st !! d) ++ [n] ]> (outgoing st)))).
  destruct (foldM _ _ ps) as [st'|e].
  2:{ destruct IH as (n' & d' & ? & ?). exists n', d'. split; [by right|done]. }
  destruct IH as (IH1 & IH2 & IH3). simpl in *. split; [set_solver|]. split.
  - intros x. rewrite IH2, lookup_alter, filter_cons. simpl. case_decide; [subst|done].
    destruct (incoming st !! x); simpl; [|done]. f_equal. lia.
  - intros x. rewrite IH3, lookup_insert, filter_cons. simpl. case_decide; subst; [|done].
    simpl. by rewrite <- app_assoc.
Qed.

Lemma pairs_of_layer c n :
  filter (λ nd, nd.1 = n) (dep_pairs c) = (n,.) <$> layer_deps c n.
Proof.
  unfold dep_pairs, layer_deps.
  pose proof (elem_of_btree_items (layers c)) as Hitems.
  pose proof (NoDup_btree_keys (layers c)) as Hnd. rewrite <- btree_items_keys in Hnd.
  assert (∀ l, NoDup l.*1 → filter (λ nd, nd.1 = n) (l ≫= λ nl, (nl.1,.) <$> effective_depends_on nl.2) =
            match list_find (λ nl, nl.1 = n) l with
            | Some (_, nl) => (n,.) <$> effective_depends_on nl.2
            | None => []
            end) as Hgen.
  { clear. induction l as [|[m l0] l IH]; intros Hnd; [done|]. csimpl. csimpl in Hnd.
    apply NoDup_cons in Hnd as [Hm Hnd]. rewrite filter_app, (IH Hnd).
    assert (filter (λ nd, nd.1 = n) ((m,.) <$> effective_depends_on l0) =
              if decide (m = n) then (m,.) <$> effective_depends_on l0 else []) as ->.
    { induction (effective_depends_on l0) as [|d ds IHd]; csimpl; [by case_decide|].
      rewrite filter_cons, IHd. simpl. by case_decide. }
    case_decide as Hmn; subst; simpl.
    - destruct (list_find _ l) as [[i nl]|] eqn:E; [|by rewrite app_nil_r].
      apply list_find_some in E as [Hin <-]. destruct Hm. by apply list_elem_of_fmap_2.
    - by destruct (list_find _ l) as [[]|]. }
  rewrite Hgen by done. destruct (list_find _ _) as [[i [m l]]|] eqn:E.
  - apply list_find_some in E as [Hin Hm]. simpl in Hm. subst. apply Hitems in Hin. by rewrite Hin.
  - destruct (layers c !! n) as [l|] eqn:El; [|done]. exfalso.
    apply Hitems in El. apply list_find_None in E. rewrite Forall_forall in E. by apply (E (n, l)).
Qed.

Lemma occ_pairs c n d :
  occ n (filter (λ nd, nd.2 = d) (dep_pairs c)).*1 = occ d (layer_deps c n).
Proof.
  transitivity (length (filter (λ nd, nd.2 = d) (filter (λ nd, nd.1 = n) (dep_pairs c)))).
  - rewrite !list_filter_filter. induction (dep_pairs c) as [|[m e] l IH]; [done|].
    rewrite !filter_cons. simpl. repeat case_decide; try naive_solver; csimpl;
      rewrite ?occ_cons; simpl; rewrite ?IH; repeat case_decide; naive_solver.
  - rewrite pairs_of_layer. induction (layer_deps c n) as [|e l IH]; [done|]. csimpl.
    rewrite filter_cons, occ_cons. simpl. case_decide; simpl; by rewrite IH.
Qed.

(** The names that are ordered. *)
Definition layer_names (c : RawConfig) : gset string := {[ "code" ]} ∪ dom (layers c).

Lemma topo_init_lookup c n :
  topo_init c !! n = if decide (n ∈ layer_names c) then Some 0 else None.
Proof.
  unfold topo_init, layer_names.
  assert (∀ ks (m : gmap string nat), foldl (λ m k, <[k:=0]> m) m ks !! n =
            if decide (n ∈ ks) then Some 0 else m !! n) as ->.
  { induction ks as [|k ks IH]; intros m; cbn [foldl].
    - by rewrite decide_False by apply not_elem_of_nil.
    - rewrite IH, lookup_insert. repeat case_decide; set_solver. }
  rewrite lookup_singleton.
  pose proof (elem_of_btree_keys (layers c) n) as Hk. rewrite <- elem_of_dom in Hk.
  repeat case_decide; set_solver.
Qed.

Lemma unmet_nil deps n : unmet deps [] n = length (deps n).
Proof.
  unfold unmet. induction (deps n) as [|d l IH]; [done|].
  rewrite filter_cons, decide_True by apply not_elem_of_nil.
  cbn [length]. by f_equal.
Qed.

(** What the first half of [topo_order] computes. *)
Lemma topo_edges_spec c :
  match topo_edges c with
  | Ok st =>
      (∀ n d, d ∈ layer_deps c n → n ∈ layer_names c ∧ d ∈ layer_names c) ∧
      (∀ n, incoming st !! n =
         if decide (n ∈ layer_names c) then Some (length (layer_deps c n)) else None) ∧
      (∀ n d, occ n (default [] ((sort_by str_le <$> outgoing st) !! d)) = occ d (layer_deps c n))
  | Err e => ∃ n d, d ∈ layer_deps c n ∧ ¬ known_dep c d ∧
      e = DanglingRef ("layers." +:+ n +:+ ".depends_on") d
  end.
Proof.
  assert (∀ n d, (n, d) ∈ dep_pairs c ↔ d ∈ layer_deps c n) as Hpair.
  { intros n d. transitivity ((n, d) ∈ filter (λ nd, nd.1 = n) (dep_pairs c)).
    - rewrite list_elem_of_filter. naive_solver.
    - rewrite pairs_of_layer, list_elem_of_fmap. naive_solver. }
  unfold topo_edges. rewrite (foldM_nested (topo_edge c) (λ nl, effective_depends_on nl.2) fst).
  fold (dep_pairs c). pose proof (topo_edges_pairs c (dep_pairs c) (mkTopoState (topo_init c) ∅)) as H.
  destruct (foldM _ _ _) as [st|e].
  2:{ destruct H as (n & d & Hin%Hpair & ?). eauto. }
  destruct H as (H1 & H2 & H3). simpl in *. split; [|split].
  - intros n d Hd. unfold layer_names. split.
    + apply elem_of_union_r, elem_of_dom. unfold layer_deps in Hd.
      destruct (layers c !! n); [done|by apply not_elem_of_nil in Hd].
    + apply Hpair in Hd. destruct (H1 _ Hd) as [Heq|Hs]; simpl in *; [set_solver|].
      by apply elem_of_union_r, elem_of_dom.
  - intros n. rewrite H2, topo_init_lookup, pairs_of_layer, length_fmap. by case_decide.
  - intros n d. rewrite lookup_fmap. rewrite <- occ_pairs. specialize (H3 d).
    rewrite lookup_empty in H3. simpl in H3. rewrite <- H3.
    destruct (outgoing st !! d) as [l|]; simpl; [|done]. apply occ_perm, sort_by_perm.
Qed.

(** C39: the order of the layers is computed for every configuration: it lists
    ["code"] and every layer once, each after its dependencies; it fails only
    when a dependency names no layer, or when layers depend on each other in
    a circle. *)
Theorem topo_order_correct c :
  match topo_order c with
  | Ok order =>
      NoDup order ∧ (∀ n, n ∈ order ↔ n = "code" ∨ is_Some (layers c !! n)) ∧
      topo_sorted (layer_deps c) order
  | Err (Cycle _) =>
      ∃ C : gset string, C ≠ ∅ ∧ C ⊆ dom (layers c) ∧
        ∀ n, n ∈ C → ∃ d, d ∈ layer_deps c n ∧ d ∈ C
  | Err (DanglingRef key d) =>
      ∃ n, d ∈ layer_deps c n ∧ ¬ known_dep c d ∧ key = "layers." +:+ n +:+ ".depends_on"
  | Err _ => False
  end.
Proof.
  unfold topo_order. pose proof (topo_edges_spec c) as Hst.
  destruct (topo_edges c) as [st|e]; cbn [result_bind].
  2:{ destruct Hst as (n & d & ? & ? & ->). by exists n. }
  destruct Hst as (Hdeps & Hic & Hog).
  assert (dom (incoming st) = layer_names c) as Hdom.
  { apply set_eq. intros n. rewrite elem_of_dom, Hic. case_decide; [by split; eauto|].
    rewrite is_Some_alt. naive_solver. }
  destruct (kahn_loop (layer_names c) (layer_deps c) (sort_by str_le <$> outgoing st) Hog Hdeps
    (size (incoming st)) (incoming st)
    (filter (λ n, incoming st !! n = Some 0) (btree_keys (incoming st))) [])
    as (order & ic & -> & Hinv).
  { split.
    - done.
    - intros n Hn. by rewrite Hic, decide_True, unmet_nil by done.
    - intros n. rewrite list_elem_of_filter, elem_of_btree_keys, Hic, unmet_nil.
      case_decide as Hn; [|naive_solver]. split.
      + intros [[= ->] _]. split; [done|]. split; [apply not_elem_of_nil|done].
      + intros (_ & _ & ->). eauto.
    - simpl. apply NoDup_filter, NoDup_btree_keys.
    - set_solver.
    - intros i n Hi. by rewrite lookup_nil in Hi. }
  { rewrite <- Hdom, size_dom. lia. }
  destruct (kahn_end _ _ _ Hog Hdeps _ _ Hinv) as [Hstuck Hfull].
  destruct Hinv as [_ _ _ Hnd Hord Htopo]. rewrite app_nil_r in Hnd.
  assert (∀ n, n ∈ layer_names c ↔ n = "code" ∨ is_Some (layers c !! n)) as Hnames.
  { intros n. unfold layer_names. by rewrite elem_of_union, elem_of_singleton, elem_of_dom. }
  case_bool_decide as Hlen.
  - split; [done|]. split; [|done]. intros n. rewrite <- Hnames. split; [apply Hord|by apply Hfull].
  - exists (layer_names c ∖ list_to_set order). split; [|split].
    + intros Hemp. apply Hlen, Hfull. intros n Hn. destruct (decide (n ∈ order)); [done|]. set_solver.
    + intros n [Hn Hno]%elem_of_difference. rewrite elem_of_list_to_set in Hno.
      destruct (Hstuck n Hn Hno) as (d & Hd & _). unfold layer_deps in Hd. apply elem_of_dom.
      destruct (layers c !! n); [done|by apply not_elem_of_nil in Hd].
    + intros n [Hn Hno]%elem_of_difference. rewrite elem_of_list_to_set in Hno.
      destruct (Hstuck n Hn Hno) as (d & Hd & Hdn & Hdo). exists d. set_solver.
Qed.

(** ** The lint finds every string *)

(** Induction on JSON values. *)
Lemma json_ind (P : Json → Prop)
    (Hleaf : ∀ v, (∀ l, v ≠ JArray l) → (∀ l, v ≠ JObject l) → P v)
    (Harr : ∀ l, Forall P l → P (JArray l))
    (Hobj : ∀ l, Forall (λ kv, P kv.2) l → P (JObject l)) : ∀ v, P v.
Proof.
  fix IH 1. intros [| | | | |l|l]; try (apply Hleaf; discriminate).
  - apply Harr. induction l; constructor; auto.
  - apply Hobj. induction l; constructor; auto.
Qed.

(** The strings of a value, in order. *)
Fixpoint json_strings (v : Json) : list string :=
  match v with
  | JString s => [s]
  | JArray items => items ≫= json_strings
  | JObject fields => fields ≫= λ kv, json_strings kv.2
  | _ => []
  end.

Lemma lint_ok path v :
  lint_secret_value path v = Ok tt ↔ ∀ s, s ∈ json_strings v → looks_like_secret s = false.
Proof.
  revert path. induction v as [v Ha Ho|l IH|l IH] using json_ind; intros path.
  - destruct v; simpl; try (split; [set_solver|done]).
    + setoid_rewrite list_elem_of_singleton. destruct (looks_like_secret s) eqn:E; split;
        [done|intros H; by rewrite (H s) in E|by intros _ ? ->|done].
    + by destruct (Ha l).
    + by destruct (Ho fields).
  - simpl. generalize 0%N. induction IH as [|v l Hv _ IHl]; intros idx; csimpl; [split; [set_solver|done]|].
    setoid_rewrite elem_of_app.
    destruct (lint_secret_value _ v) as [[]|e] eqn:E; simpl.
    + rewrite IHl. pose proof (proj1 (Hv _) E) as Hv'. naive_solver.
    + split; [done|]. intros H. assert (lint_secret_value (path +:+ "[" +:+ pretty idx +:+ "]") v = Ok tt)
        by (apply Hv; auto). congruence.
  - simpl. induction IH as [|[k v] l Hv _ IHl]; csimpl; [split; [set_solver|done]|].
    setoid_rewrite elem_of_app. simpl in Hv.
    destruct (lint_secret_value _ v) as [[]|e] eqn:E; simpl.
    + rewrite IHl. pose proof (proj1 (Hv _) E) as Hv'. naive_solver.
    + split; [done|]. intros H. assert (lint_secret_value (path +:+ "." +:+ k) v = Ok tt)
        by (apply Hv; auto). congruence.
Qed.

(** ** What validation accepts *)

Definition derived_ok (c : RawConfig) (l : LayerCfg) : Prop :=
  origin l = Derived →
  (∃ g, generator l = Some g ∧ is_Some (generators c !! g)) ∧
  (∃ s, store l = Some s ∧ is_Some (stores c !! s)) ∧
  default "" (generator_version l) ≠ "".

Definition authored_ok (l : LayerCfg) : Prop :=
  origin l = Authored →
  depends_on l = [] ∧ generator l = None ∧ generator_version l = None ∧
  hash_profile l = None ∧ store l = None.

Definition dims_ok (c : RawConfig) (l : LayerCfg) : Prop :=
  ∀ g s gd sd, generator l = Some g → store l = Some s →
    generators c !! g ≫= g_dim = Some gd → stores c !! s ≫= s_dim = Some sd → gd = sd.

Record layer_ok (c : RawConfig) (l : LayerCfg) : Prop := {
  lo_profile : is_Some (profiles c !! layer_profile c l);
  lo_derived : derived_ok c l;
  lo_authored : authored_ok l;
  lo_deps : ∀ d dl, d ∈ effective_depends_on l → layers c !! d = Some dl → origin dl = Derived;
  lo_kinds : ∀ k, k ∈ entity_kinds l → is_known_kind k;
  lo_dims : dims_ok c l;
}.

Record config_ok (c : RawConfig) : Prop := {
  co_version : schema_version c = CURRENT_SCHEMA_VERSION;
  co_profile : is_Some (profiles c !! default_hash_profile c);
  co_layers : ∀ n l, layers c !! n = Some l → layer_ok c l;
  co_code : layers c !! "code" = None;
  co_overflow : overflow c ∈ ["coalesce"; "drop_and_mark_lagged"; "error_and_close"];
  co_precision : precision c ∈ ["container"; "method"];
  co_refinement : refinement c ∈ ["sync"; "async"];
  co_secrets : ∀ s, s ∈ json_strings (config_json c) → looks_like_secret s = false;
}.

Lemma forM_items {V} (f : string * V → result ConfigError unit) (m : gmap string V) :
  forM_ f (btree_items m) = Ok tt ↔ ∀ n l, m !! n = Some l → f (n, l) = Ok tt.
Proof.
  rewrite forM_ok. split.
  - intros H n l Hl. apply H. by apply elem_of_btree_items.
  - intros H [n l] Hl. by apply H, elem_of_btree_items.
Qed.

Lemma bind_unit_ok {E A} (m : result E unit) (k : result E A) v :
  (let? _ := m in k) = Ok v ↔ m = Ok tt ∧ k = Ok v.
Proof. destruct m as [[]|]; naive_solver. Qed.

Lemma if_ok {E} (b : bool) (e : E) : (if b then Ok tt else Err e) = Ok tt ↔ b = true.
Proof. by destruct b. Qed.

Lemma check_profile_ok c n l :
  check_profile c (n, l) = Ok tt ↔ is_Some (profiles c !! layer_profile c l).
Proof. unfold check_profile. simpl. by rewrite if_ok, bool_decide_eq_true. Qed.

Lemma check_origin_ok c n l :
  check_derived c (n, l) = Ok tt ∧ check_origin_keys (n, l) = Ok tt ↔ derived_ok c l ∧ authored_ok l.
Proof.
  unfold check_derived, check_origin_keys, derived_ok, authored_ok.
  destruct (origin l).
  - destruct (generator l) as [g|]; simpl.
    2:{ split; [by intros []|]. intros [H _]. by destruct (H eq_refl) as ((g & ? & _) & _). }
    destruct (generators c !! g) eqn:Eg; simpl.
    2:{ split; [by intros []|]. intros [H _]. destruct (H eq_refl) as ((g' & [= <-] & [x Hx]) & _).
        congruence. }
    destruct (store l) as [s|]; simpl.
    2:{ split; [by intros []|]. intros [H _]. by destruct (H eq_refl) as (_ & (s & ? & _) & _). }
    destruct (stores c !! s) eqn:Es; simpl.
    2:{ split; [by intros []|]. intros [H _]. destruct (H eq_refl) as (_ & (s' & [= <-] & [x Hx]) & _).
        congruence. }
    destruct (String.eqb_spec (default "" (generator_version l)) "") as [Hgv|Hgv]; split.
    + by intros [_ ?].
    + intros [H _]. by destruct (H eq_refl) as (_ & _ & ?).
    + intros _. split; [|done]. intros _. split; [|split; [|done]]; eexists; split; eauto.
    + done.
  - rewrite if_ok, bool_decide_eq_true. naive_solver.
Qed.

Lemma check_dep_origin_ok c n l :
  check_dep_origin c (n, l) = Ok tt ↔
    ∀ d dl, d ∈ effective_depends_on l → layers c !! d = Some dl → origin dl = Derived.
Proof.
  unfold check_dep_origin. rewrite forM_ok. simpl. split.
  - intros H d dl Hd Hl. specialize (H d Hd). rewrite Hl in H. by destruct (origin dl).
  - intros H d Hd. destruct (layers c !! d) as [dl|] eqn:E; [|done]. by rewrite (H d dl).
Qed.

Lemma check_kinds_ok n l : check_kinds (n, l) = Ok tt ↔ ∀ k, k ∈ entity_kinds l → is_known_kind k.
Proof.
  unfold check_kinds. rewrite forM_ok. simpl. split; intros H k Hk; specialize (H k Hk);
    by destruct (is_known_kind k).
Qed.

Lemma check_dims_ok c n l : check_dims c (n, l) = Ok tt ↔ dims_ok c l.
Proof.
  unfold check_dims, dims_ok.
  destruct (generator l) as [g|]; [|naive_solver]. destruct (store l) as [s|]; [|naive_solver].
  destruct (generators c !! g ≫= g_dim) as [gd|] eqn:Eg; [|naive_solver].
  destruct (stores c !! s ≫= s_dim) as [sd|] eqn:Es; [|naive_solver].
  rewrite if_ok, bool_decide_eq_true. naive_solver.
Qed.

Lemma one_of_ok allowed s : one_of allowed s = true ↔ s ∈ allowed.
Proof. apply bool_decide_eq_true. Qed.

Lemma validate_iff c v :
  validate c = Ok v ↔ config_ok c ∧ raw v = c ∧ topo_order c = Ok (cfg_topo_order v).
Proof.
  unfold validate. destruct (N.eqb_spec (schema_version c) CURRENT_SCHEMA_VERSION) as [Hv|Hv]; simpl.
  2:{ split; [done|]. intros ([] & _). done. }
  destruct (bool_decide_reflect (is_Some (profiles c !! default_hash_profile c))) as [Hp|Hp]; simpl.
  2:{ split; [done|]. intros ([] & _). done. }
  rewrite !bind_unit_ok, !forM_items.
  destruct (bool_decide_reflect (is_Some (layers c !! "code"))) as [Hc|Hc].
  { split; [naive_solver|]. intros ([_ _ _ Hcode] & _). rewrite Hcode in Hc. by apply is_Some_None in Hc. }
  apply eq_None_not_Some in Hc.
  destruct (topo_order c) as [order|e]; cbn [result_bind]; [|naive_solver].
  rewrite !bind_unit_ok, !forM_items, !if_ok, !one_of_ok. unfold lint_secrets. rewrite lint_ok.
  split.
  - intros (H1 & H2 & _ & H3 & H4 & H5 & H6 & H7 & H8 & H9 & H10 & [= <-]).
    split; [|done]. split; try done. intros n l Hl.
    destruct (proj1 (check_origin_ok c n l)) as [Hd Ha]; [auto|]. split; try done.
    + by eapply check_profile_ok, H1.
    + by eapply check_dep_origin_ok, H3.
    + by eapply check_kinds_ok, H5.
    + by eapply check_dims_ok, H6.
  - intros ([_ _ Hl _ H7 H8 H9 H10] & <- & [= ->]).
    split; [|split; [|split; [done|split; [|split; [|split; [|split; [|]]]]]]].
    + intros n l Hn. by apply check_profile_ok, (Hl n l Hn).
    + intros n l Hn. apply (check_origin_ok _ n l). by destruct (Hl n l Hn).
    + intros n l Hn. by apply check_dep_origin_ok, (Hl n l Hn).
    + intros n l Hn. apply (check_origin_ok (raw v) n l). by destruct (Hl n l Hn).
    + intros n l Hn. by apply check_kinds_ok, (Hl n l Hn).
    + intros n l Hn. by apply check_dims_ok, (Hl n l Hn).
    + do 4 (split; [done|]). by destruct v.
Qed.

(** C29: validation accepts exactly the well-formed configurations whose layers
    [topo_order] orders, and returns the configuration with that order. *)
Theorem validate_accepts c :
  match validate c with
  | Ok v => config_ok c ∧ raw v = c ∧ topo_order c = Ok (cfg_topo_order v)
  | Err _ => ¬ (config_ok c ∧ is_ok (topo_order c))
  end.
Proof.
  destruct (validate c) as [v|e] eqn:E; [by apply validate_iff|].
  intros [Hok Ht]. destruct (topo_order c) as [order|] eqn:Eo; [|done].
  assert (validate c = Ok (mkValidatedConfig c order)) by (apply validate_iff; done). congruence.
Qed.

(** After validation no lookup of a hash profile can panic: ["code"] and
    every declared layer have one. *)
Theorem validated_profile_total c v layer :
  validate c = Ok v → layer = "code" ∨ is_Some (layers c !! layer) →
  is_Some (profile_for v layer).
Proof.
  intros (Hok & <- & _)%validate_iff Hl. unfold profile_for.
  destruct (String.eqb_spec layer "code") as [->|Hne]; [apply Hok|].
  destruct Hl as [->|[l Hl]]; [done|]. rewrite Hl. simpl. by eapply lo_profile, co_layers.
Qed.

Lemma validated_profile_total_witness :
  is_Some (profile_for (mkValidatedConfig RawConfig_defaults ["code"]) "code").
Proof.
  apply (validated_profile_total RawConfig_defaults); [vm_compute; reflexivity|by left].
Defined.

(** ** Expansion *)

Lemma split_once_shorter sep s a b :
  sep ≠ "" → split_once sep s = Some (a, b) → String.length b < String.length s.
Proof.
  intros Hsep ->%split_once_Some. rewrite !str_length_app. destruct sep; [done|]. simpl. lia.
Qed.

Section expand.
Context (env secrets : string → option string).

Lemma expand_loop_out fuel out rest :
  expand_loop env secrets fuel out rest =
    let? r := expand_loop env secrets fuel "" rest in Ok (out +:+ r).
Proof.
  revert out rest. induction fuel as [|fuel IH]; intros out rest; simpl; [done|].
  destruct (split_once "${" rest) as [[before after]|]; [|done].
  destruct (split_once "}" after) as [[name rest']|]; [|done].
  destruct (lookup_name env secrets name) as [v|]; [|done].
  rewrite (IH (out +:+ before +:+ v)), (IH (before +:+ v)).
  destruct (expand_loop env secrets fuel "" rest'); simpl; [|done]. by rewrite !str_app_assoc.
Qed.

Lemma expand_loop_fuel fuel1 fuel2 rest :
  String.length rest < fuel1 → String.length rest < fuel2 →
  expand_loop env secrets fuel1 "" rest = expand_loop env secrets fuel2 "" rest.
Proof.
  revert fuel2 rest. induction fuel1 as [|fuel1 IH]; intros [|fuel2] rest H1 H2; try lia. simpl.
  destruct (split_once "${" rest) as [[before after]|] eqn:E1; [|done].
  destruct (split_once "}" after) as [[name rest']|] eqn:E2; [|done].
  destruct (lookup_name env secrets name) as [v|]; [|done].
  rewrite (expand_loop_out fuel1), (expand_loop_out fuel2).
  apply split_once_shorter in E1; [|done]. apply split_once_shorter in E2; [|done].
  by rewrite (IH fuel2) by lia.
Qed.
End expand.

(** Expansion replaces each [${NAME}], from the left, by the value of the
    environment or else of the secrets, and does not look into the value; an
    unknown name is an error, an unclosed reference is kept. *)
Theorem expand_string_equation env secrets s :
  expand_string env secrets s =
    match split_once "${" s with
    | None => Ok s
    | Some (before, after) =>
        match split_once "}" after with
        | None => Ok s
        | Some (name, rest) =>
            match lookup_name env secrets name with
            | None => Err (UndefinedEnv name)
            | Some value => let? r := expand_string env secrets rest in Ok (before +:+ value +:+ r)
            end
        end
    end.
Proof.
  unfold expand_string at 1. cbn [expand_loop].
  destruct (split_once "${" s) as [[before after]|] eqn:E1; [|done].
  destruct (split_once "}" after) as [[name rest]|] eqn:E2.
  2:{ apply split_once_Some in E1 as ->. done. }
  destruct (lookup_name env secrets name) as [v|]; [|done].
  apply split_once_shorter in E1; [|done]. apply split_once_shorter in E2; [|done].
  rewrite expand_loop_out. unfold expand_string.
  rewrite (expand_loop_fuel _ _ (String.length s) (S (String.length rest)) rest) by lia.
  destruct (expand_loop env secrets (S (String.length rest)) "" rest) as [r|]; cbn [result_bind]; [|done].
  exact (f_equal Ok (str_app_assoc before v r)).
Qed.

(** A generator whose command line takes a key from the environment. *)
Definition env_key_config (key : string) : RawConfig :=
  mkRawConfig 1 None 256 "structure" {[ "structure" := HashProfileCfg_default ]} ∅
    {[ "llm" := mkGeneratorCfg (Some "command") None ["llm"; "--key"; key] None None None None None None ]}
    ∅ 1024 "coalesce" false 200 "container" "async" true.

(** The lint for inline secrets sees the values references expand to: a key
    kept out of the file, in the environment, is rejected as inline. *)
Theorem referenced_secret_rejected :
  let env := λ n, if String.eqb n "LLM_KEY" then Some "sk-0123456789" else None in
  is_ok (validate (env_key_config "${LLM_KEY}")) = true ∧
  (let? key := expand_string env (λ _, None) "${LLM_KEY}" in validate (env_key_config key)) =
    Err (SecretInline "$.generators.llm.command[2]").
Proof. vm_compute. auto. Qed.
