(* ===== verification/Sidecar.v ===== *)
(** * The sidecar directory ([rust/src/sidecar.rs])

    Its paths, and the crash-safe write every file of it goes through.  A
    write is a sequence of file-system steps, each of which may fail or be the
    last one before a crash; a crash loses what was written and not synced. *)

From Stdlib Require Import Ascii.
From S2P Require Import Prelude Str Paths.

(** ** Paths *)

Definition sidecar_root (project_root : string) : string := path_join project_root ".tyo3".

Section paths.
Context (root : string).

Definition config_path : string := path_join root "config.toml".
Definition config_local_path : string := path_join root "config.local.toml".
Definition secrets_path : string := path_join root "secrets.toml".
Definition identity_db_path : string := path_join root "identity.db".
Definition authored_dir (layer : string) : string := path_join (path_join root "authored") layer.
Definition record_path (layer durable_id : string) : string :=
  path_join (authored_dir layer) (durable_id +:+ ".json").
Definition gitignore_path : string := path_join root ".gitignore".
Definition layout_marker_path : string := path_join root "LAYOUT.md".
End paths.

(** [path.with_extension("tmp")]: the extension of the file name is replaced;
    a file name without one, or with nothing before it, gets one. *)
Definition set_extension (file ext : string) : string :=
  match rsplit_once "." file with
  | Some (stem, _) => if String.eqb stem "" then file +:+ "." +:+ ext else stem +:+ "." +:+ ext
  | None => file +:+ "." +:+ ext
  end.

Definition with_extension (path ext : string) : string :=
  match rsplit_once "/" path with
  | Some (dir, file) => dir +:+ "/" +:+ set_extension file ext
  | None => set_extension path ext
  end.

(** ** Crash-safe writes *)

Abbreviation FileSystem := (gmap string string) (only parsing).

(** What the operating system does with the steps of one write: the first
    one that fails, if any; a failing [write_all] may leave a prefix. *)
Inductive WriteFault :=
| NoFault
| CreateDirFails
| CreateFails
| WriteFails (written : nat)
| SyncFails
| RenameFails.

(** The steps, on the temporary file and its rename. *)
Inductive FsOp :=
| Create (p : string)
| WriteAll (p bytes : string)
| SyncAll (p : string)
| Rename (p q : string).

(** The steps that take place, up to the one that fails.  [create_dir_all]
    touches no file. *)
Definition write_ops (path bytes : string) (fault : WriteFault) : list FsOp :=
  let tmp := with_extension path "tmp" in
  match fault with
  | CreateDirFails => []
  | CreateFails => []
  | WriteFails n => [Create tmp; WriteAll tmp (str_take n bytes)]
  | SyncFails => [Create tmp; WriteAll tmp bytes]
  | RenameFails => [Create tmp; WriteAll tmp bytes; SyncAll tmp]
  | NoFault => [Create tmp; WriteAll tmp bytes; SyncAll tmp; Rename tmp path]
  end.

(** What a program reads after a step. *)
Definition exec_fs (fs : FileSystem) (op : FsOp) : FileSystem :=
  match op with
  | Create p => <[ p := "" ]> fs
  | WriteAll p bytes => <[ p := bytes ]> fs
  | SyncAll _ => fs
  | Rename p q => match fs !! p with Some t => <[ q := t ]> (delete p fs) | None => fs end
  end.

Definition write_atomic (fs : FileSystem) (path bytes : string) (fault : WriteFault) :
    FileSystem * result io_error unit :=
  (foldl exec_fs fs (write_ops path bytes fault),
   match fault with NoFault => Ok tt | _ => Err IoOther end).

Definition LAYOUT_TEXT : string :=
  let nl := String (ascii_of_N 10) "" in
  "# TyO3 sidecar" +:+ nl +:+ nl +:+
  "This directory contains inert TyO3 tool data: identity.db, authored records, and regenerable cache artifacts." +:+ nl.

Definition ensure_layout_marker (root : string) (fs : FileSystem) (fault : WriteFault) :
    FileSystem * result io_error unit :=
  let path := layout_marker_path root in
  if bool_decide (is_Some (fs !! path)) then (fs, Ok tt)
  else write_atomic fs path LAYOUT_TEXT fault.

Definition newline : string := String (ascii_of_N 10) "".

Definition ends_with_newline (s : string) : bool :=
  match last (String.list_ascii_of_string s) with
  | Some c => Ascii.eqb c (ascii_of_N 10)
  | None => false
  end.

Definition CACHE_POLICY : string :=
  "# managed by tyo3" +:+ newline +:+ "cache/" +:+ newline +:+ "config.local.toml" +:+ newline +:+
  "secrets.toml" +:+ newline.

Definition has_cache_policy (text : string) : bool :=
  str_contains "# managed by tyo3" text && str_contains "cache/" text &&
  str_contains "config.local.toml" text && str_contains "secrets.toml" text.

(** [readable] is false when the file exists and cannot be read. *)
Definition ensure_gitignore_cache_policy (root : string) (fs : FileSystem) (readable : bool)
    (fault : WriteFault) : FileSystem * result io_error unit :=
  let path := gitignore_path root in
  match fs !! path, readable with
  | Some _, false => (fs, Err IoOther)
  | existing, _ =>
      let existing := default "" existing in
      if has_cache_policy existing then (fs, Ok tt)
      else
        let next :=
          if negb (String.eqb existing "") && negb (ends_with_newline existing)
          then existing +:+ newline else existing in
        write_atomic fs path (next +:+ CACHE_POLICY) fault
  end.

(** ** Crashes

    A directory names inodes; the text of an inode is on the disk once it is
    synced.  Changes of names reach the disk one at a time and in order, at any
    later time.  So a crash leaves the names of some earlier moment, and under
    each the text of its inode if that is synced, and any text if it is not. *)

(** The inodes of the files that were there, and that of a file created. *)
Inductive Inode := Old (p : string) | New.

Record Disk := mkDisk {
  d_names : string → option Inode;
  d_text : Inode → string;
  d_synced : Inode → bool;
}.

#[global] Instance Inode_eq_dec : EqDecision Inode.
Proof. solve_decision. Defined.

(** A disk at rest. *)
Definition disk_of (fs : FileSystem) : Disk :=
  mkDisk (λ p, (λ _, Old p) <$> fs !! p) (λ i, match i with Old p => default "" (fs !! p) | New => "" end) (λ _, true).

Definition put_name (p : string) (i : option Inode) (d : Disk) : Disk :=
  mkDisk (λ q, if decide (q = p) then i else d_names d q) (d_text d) (d_synced d).

Definition put_text (i : Inode) (text : string) (synced : bool) (d : Disk) : Disk :=
  mkDisk (d_names d) (λ j, if decide (j = i) then text else d_text d j)
    (λ j, if decide (j = i) then synced else d_synced d j).

Definition exec_disk (d : Disk) (op : FsOp) : Disk :=
  match op with
  | Create p =>
      match d_names d p with
      | Some i => put_text i "" false d
      | None => put_text New "" false (put_name p (Some New) d)
      end
  | WriteAll p bytes => match d_names d p with Some i => put_text i bytes false d | None => d end
  | SyncAll p => match d_names d p with Some i => put_text i (d_text d i) true d | None => d end
  | Rename p q =>
      match d_names d p with Some i => put_name q (Some i) (put_name p None d) | None => d end
  end.

(** What a program reads, and what it may read after a crash that follows the
    steps [ops] of a run. *)
Definition d_read (d : Disk) (p : string) : option string := d_text d <$> d_names d p.

Definition after_crash (d : Disk) (ops : list FsOp) (fs' : string → option string) : Prop :=
  let now := foldl exec_disk d ops in
  ∃ k, let names := d_names (foldl exec_disk d (take k ops)) in
    ∀ p, match names p with
         | None => fs' p = None
         | Some i => if d_synced now i then fs' p = Some (d_text now i) else is_Some (fs' p)
         end.

(** ** Properties *)

Section crash.
Context (fs : FileSystem) (path bytes : string).
Context (Htmp : with_extension path "tmp" ≠ path).
#[local] Notation tmp := (with_extension path "tmp").

(** The inode of the temporary file. *)
Definition tmp_inode : Inode := match fs !! tmp with Some _ => Old tmp | None => New end.

(** Before the rename: the names are the old ones and perhaps that of the
    temporary file, and no other inode was written. *)
Record unrenamed (d : Disk) : Prop := {
  un_tmp : d_names d tmp = Some tmp_inode ∨ d_names d tmp = None;
  un_names : ∀ p, p ≠ tmp → d_names d p = (λ _, Old p) <$> fs !! p;
  un_text : ∀ p, p ≠ tmp → d_text d (Old p) = default "" (fs !! p) ∧ d_synced d (Old p) = true;
}.

Lemma tmp_inode_ne p : p ≠ tmp → Old p ≠ tmp_inode.
Proof. intros Hp. unfold tmp_inode. destruct (fs !! tmp); [|done]. by intros [= ->]. Qed.

Lemma unrenamed_text d text synced : unrenamed d → unrenamed (put_text tmp_inode text synced d).
Proof.
  intros [Ht Hn Hx]. split; [done..|]. intros p Hp. simpl.
  rewrite !decide_False by by apply tmp_inode_ne. by apply Hx.
Qed.

Lemma unrenamed_old : unrenamed (disk_of fs).
Proof.
  split; simpl; [|done|done]. unfold tmp_inode. destruct (fs !! tmp); [by left|by right].
Qed.

Definition created : Disk := exec_disk (disk_of fs) (Create tmp).
Definition written (text : string) : Disk := exec_disk created (WriteAll tmp text).
Definition synced (text : string) : Disk := exec_disk (written text) (SyncAll tmp).
Definition renamed (text : string) : Disk := exec_disk (synced text) (Rename tmp path).

Lemma created_ok : unrenamed created ∧ d_names created tmp = Some tmp_inode.
Proof.
  unfold created, exec_disk. cbn [disk_of d_names]. destruct (fs !! tmp) as [t|] eqn:E; cbn [fmap option_fmap option_map].
  - assert (tmp_inode = Old tmp) as Hi by (unfold tmp_inode; by rewrite E). rewrite <- Hi.
    split; [apply unrenamed_text, unrenamed_old|]. simpl. by rewrite E, Hi.
  - assert (tmp_inode = New) as Hi by (unfold tmp_inode; by rewrite E). rewrite <- Hi.
    split; [|simpl; by rewrite decide_True]. apply unrenamed_text. split; simpl.
    + left. by rewrite decide_True.
    + intros p Hp. by rewrite decide_False.
    + done.
Qed.

Lemma written_ok text : unrenamed (written text) ∧ d_names (written text) tmp = Some tmp_inode.
Proof.
  destruct created_ok as [Hu Hn]. unfold written, exec_disk. rewrite Hn. split; [by apply unrenamed_text|done].
Qed.

Lemma synced_ok text :
  unrenamed (synced text) ∧ d_names (synced text) tmp = Some tmp_inode ∧
  d_text (synced text) tmp_inode = text ∧ d_synced (synced text) tmp_inode = true.
Proof.
  destruct (written_ok text) as [Hu Hn]. unfold synced, exec_disk at 1 2 3 4. rewrite Hn.
  split; [by apply unrenamed_text|]. split; [done|]. simpl. rewrite !decide_True by done. split; [|done].
  unfold written, exec_disk. destruct created_ok as [_ ->]. simpl. by rewrite decide_True.
Qed.

(** No step writes to an inode but that of the temporary file. *)
Definition untouched (d : Disk) : Prop :=
  ∀ p, p ≠ tmp → d_text d (Old p) = default "" (fs !! p) ∧ d_synced d (Old p) = true.

Lemma renamed_eq text :
  renamed text = put_name path (Some tmp_inode) (put_name tmp None (synced text)).
Proof. unfold renamed, exec_disk at 1. by destruct (synced_ok text) as (_ & -> & _). Qed.

(** Where a write is after some of its steps. *)
Lemma prefix_cases fault n :
  let d := foldl exec_disk (disk_of fs) (take n (write_ops path bytes fault)) in
  fault = NoFault ∧ 4 ≤ n ∧ d = renamed bytes ∨ unrenamed d ∧ (fault = NoFault → n < 4).
Proof.
  pose proof unrenamed_old. destruct created_ok as [Hc _].
  assert (∀ text, unrenamed (written text)) as Hw by (intros; apply written_ok).
  assert (unrenamed (synced bytes)) as Hs by apply synced_ok.
  destruct fault, n as [|[|[|[|n]]]]; simpl; rewrite ?firstn_nil; try (right; split; [done || apply Hw|done || lia]).
  left. split; [done|]. split; [lia|done].
Qed.

Lemma prefix_untouched fault n :
  untouched (foldl exec_disk (disk_of fs) (take n (write_ops path bytes fault))).
Proof.
  destruct (prefix_cases fault n) as [(_ & _ & ->)|[Hu _]]; [|exact (un_text _ Hu)].
  rewrite renamed_eq. intros p Hp. simpl. apply (un_text _ (proj1 (synced_ok bytes)) p Hp).
Qed.

(** The names of a moment before the rename lead to untouched inodes, but for
    the temporary file. *)
Lemma old_names_kept d now fs' p :
  (p ≠ tmp → d_names d p = (λ _, Old p) <$> fs !! p) → untouched now → p ≠ tmp →
  match d_names d p with
  | None => fs' p = None
  | Some i => if d_synced now i then fs' p = Some (d_text now i) else is_Some (fs' p)
  end → fs' p = fs !! p.
Proof.
  intros Hd Hn Hp H. rewrite (Hd Hp) in H. destruct (fs !! p) as [t|] eqn:E; cbn in H; [|done].
  destruct (Hn p Hp) as [Ht Hs]. by rewrite Hs, Ht, E in H.
Qed.

Lemma crash_outcome fault n fs' :
  after_crash (disk_of fs) (take n (write_ops path bytes fault)) fs' →
  (fs' path = fs !! path ∨ fs' path = Some bytes) ∧ ∀ p, p ≠ path → p ≠ tmp → fs' p = fs !! p.
Proof.
  intros [k H]. rewrite take_take in H. pose proof (prefix_untouched fault n) as Hu.
  destruct (prefix_cases fault (k `min` n)) as [(-> & Hk & Ek)|[Hd _]].
  - destruct (prefix_cases NoFault n) as [(_ & _ & En)|[_ Hn]]; [|specialize (Hn eq_refl); lia].
    rewrite En in Hu. rewrite Ek, En in H. destruct (synced_ok bytes) as (Hs & _ & Ht & Hy).
    rewrite renamed_eq in H, Hu. split.
    + right. specialize (H path). simpl in H. rewrite decide_True in H by done. by rewrite Hy, Ht in H.
    + intros p Hp Hpt. eapply old_names_kept; [|exact Hu|done|apply H].
      intros _. simpl. rewrite !decide_False by done. by apply (un_names _ Hs).
  - assert (∀ p, p ≠ tmp → fs' p = fs !! p) as Hold; [|split; [left; by apply Hold|auto]].
    intros p Hp. eapply old_names_kept; [apply (un_names _ Hd)|exact Hu|done|apply H].
Qed.
End crash.

(** What the steps leave for a program to read. *)
Lemma write_atomic_fs fs path bytes fault :
  (write_atomic fs path bytes fault).1 =
    let tmp := with_extension path "tmp" in
    match fault with
    | CreateDirFails | CreateFails => fs
    | WriteFails n => <[ tmp := str_take n bytes ]> fs
    | SyncFails | RenameFails => <[ tmp := bytes ]> fs
    | NoFault => <[ path := bytes ]> (delete tmp fs)
    end.
Proof.
  unfold write_atomic. destruct fault; simpl; rewrite ?insert_insert_eq; try done.
  by rewrite lookup_insert_eq, delete_insert_eq.
Qed.

(** C32: a write is atomic and crash-safe.  After any number of its steps,
    whatever step fails, a crash, which may lose every text not synced and undo the
    last changes of names, leaves the file with its old or its whole new content and
    every other file but the temporary one as it was.  Without a crash, a reported
    failure leaves the old content, and success the new. *)
Theorem write_atomic_crash_safe fs path bytes fault :
  with_extension path "tmp" ≠ path →
  (∀ n fs', after_crash (disk_of fs) (take n (write_ops path bytes fault)) fs' →
     (fs' path = fs !! path ∨ fs' path = Some bytes) ∧
     ∀ p, p ≠ path → p ≠ with_extension path "tmp" → fs' p = fs !! p) ∧
  let '(fs', res) := write_atomic fs path bytes fault in
  fs' !! path = if is_ok res then Some bytes else fs !! path.
Proof.
  intros Htmp. split; [intros n fs'; by apply crash_outcome|].
  pose proof (write_atomic_fs fs path bytes fault) as H. unfold write_atomic in *. simpl in H. rewrite H.
  destruct fault; simpl; rewrite ?lookup_insert_eq, ?lookup_insert_ne; done.
Qed.

Lemma has_cache_policy_app a : has_cache_policy (a +:+ CACHE_POLICY) = true.
Proof. unfold has_cache_policy. rewrite !str_contains_app by (vm_compute; reflexivity). done. Qed.

(** The text that is written. *)
Definition gitignore_next (existing : string) : string :=
  (if negb (String.eqb existing "") && negb (ends_with_newline existing)
   then existing +:+ newline else existing) +:+ CACHE_POLICY.

Lemma gitignore_next_spec existing :
  (∃ rest, gitignore_next existing = existing +:+ rest) ∧ has_cache_policy (gitignore_next existing) = true.
Proof.
  split; [|apply has_cache_policy_app]. unfold gitignore_next.
  destruct (_ && _); eexists; [apply str_app_assoc|done].
Qed.

(** The ignore file: on success it names the cache and the local files,
    what it held before is still its beginning, and ensuring it again writes
    nothing. *)
Theorem gitignore_policy_ensured root fs readable fault fs' :
  with_extension (gitignore_path root) "tmp" ≠ gitignore_path root →
  ensure_gitignore_cache_policy root fs readable fault = (fs', Ok tt) →
  (∃ rest, let text := default "" (fs !! gitignore_path root) +:+ rest in
     fs' !! gitignore_path root = Some text ∧ has_cache_policy text = true) ∧
  ∀ fault', ensure_gitignore_cache_policy root fs' true fault' = (fs', Ok tt).
Proof.
  intros Htmp Hrun.
  assert (∃ rest, let text := default "" (fs !! gitignore_path root) +:+ rest in
            fs' !! gitignore_path root = Some text ∧ has_cache_policy text = true) as H.
  { unfold ensure_gitignore_cache_policy in Hrun. set (path := gitignore_path root) in *.
    set (old := default "" (fs !! path)) in *.
    assert (has_cache_policy old = true ∧ fs' = fs ∨
            write_atomic fs path (gitignore_next old) fault = (fs', Ok tt)) as [[Hpol ->]|Hw].
    { assert ((if has_cache_policy old then (fs, Ok tt)
               else write_atomic fs path (gitignore_next old) fault) = (fs', Ok tt)) as Hrun'
        by (unfold old; destruct (fs !! path), readable; done || exact Hrun).
      destruct (has_cache_policy old); [left; by simplify_eq|by right]. }
    - exists "". rewrite str_app_nil_r.
      split; [|done]. unfold old in *. destruct (fs !! path); [done|]. by vm_compute in Hpol.
    - destruct (gitignore_next_spec old) as [[rest Heq] Hpol]. exists rest. simpl. rewrite <- Heq.
      split; [|done]. pose proof (write_atomic_fs fs path (gitignore_next old) fault) as E. rewrite Hw in E. simpl in E.
      destruct fault; try done. rewrite E. apply lookup_insert_eq. }
  split; [done|]. destruct H as (rest & Hfs & Hpol). intros fault'.
  unfold ensure_gitignore_cache_policy. rewrite Hfs. simpl. by rewrite Hpol.
Qed.

(** ** Witnesses *)

Definition saved0 : FileSystem := {[ "/p/.tyo3/identity.db" := "old" ]}.

(** A crash after the rename that undoes it and tears nothing. *)
Definition undone0 (p : string) : option string :=
  if decide (p = "/p/.tyo3/identity.db") then Some "old"
  else if decide (p = "/p/.tyo3/identity.tmp") then Some "new" else None.

Lemma undone0_crash :
  after_crash (disk_of saved0) (take 4 (write_ops "/p/.tyo3/identity.db" "new" NoFault)) undone0.
Proof.
  exists 3. intros names p. unfold undone0.
  destruct (decide (p = "/p/.tyo3/identity.db")) as [->|H1]; [by vm_compute|].
  destruct (decide (p = "/p/.tyo3/identity.tmp")) as [->|H2]; [by vm_compute|].
  destruct (synced_ok saved0 "/p/.tyo3/identity.db" "new") as [Hu _].
  change names with (d_names (synced saved0 "/p/.tyo3/identity.db" "new")).
  rewrite (un_names _ _ _ Hu p H2). unfold saved0. by rewrite lookup_singleton_ne.
Qed.

Lemma write_atomic_crash_safe_witness :
  (undone0 "/p/.tyo3/identity.db" = Some "old" ∨ undone0 "/p/.tyo3/identity.db" = Some "new") ∧
  (write_atomic saved0 "/p/.tyo3/identity.db" "new" RenameFails).1 !! "/p/.tyo3/identity.db" = Some "old".
Proof.
  assert (with_extension "/p/.tyo3/identity.db" "tmp" ≠ "/p/.tyo3/identity.db") as Htmp by by vm_compute.
  destruct (write_atomic_crash_safe saved0 "/p/.tyo3/identity.db" "new" NoFault Htmp) as [H _].
  destruct (write_atomic_crash_safe saved0 "/p/.tyo3/identity.db" "new" RenameFails Htmp) as [_ H'].
  split; [exact (proj1 (H 4 undone0 undone0_crash))|exact H'].
Defined.

Lemma gitignore_policy_ensured_witness :
  ∃ text, (ensure_gitignore_cache_policy "/p/.tyo3" {[ "/p/.tyo3/.gitignore" := "mine" ]} true NoFault).1 !!
    "/p/.tyo3/.gitignore" = Some text ∧ has_cache_policy text = true.
Proof.
  destruct (gitignore_policy_ensured "/p/.tyo3" {[ "/p/.tyo3/.gitignore" := "mine" ]} true NoFault
    (ensure_gitignore_cache_policy "/p/.tyo3" {[ "/p/.tyo3/.gitignore" := "mine" ]} true NoFault).1)
    as [(rest & H1 & H2) _].
  - by vm_compute.
  - vm_compute. reflexivity.
  - eexists. split; [exact H1|exact H2].
Defined.
