(* ===== verification/ConfigLoad.v ===== *)
(** * Loading the configuration ([RawConfig::load] of [rust/src/config.rs])

    Which files are read, how they are combined, and what is filled in. *)

From S2P Require Import Prelude Str Paths Content Json Config Sidecar.

(** The [toml] crate: parsing a document, and deserialising a value into a
    [RawConfig]; the error is its message. *)
Class TomlCodec := {
  toml_from_str : string → result string Toml;
  toml_try_into : Toml → result string RawConfig;
}.

(** [Result::map_err] *)
Definition map_err {E F A} (f : E → F) (m : result E A) : result F A :=
  match m with Ok a => Ok a | Err e => Err (f e) end.

Section load.
Context {TC : TomlCodec}.

(** The files of the sidecar: [None] for a file that does not exist, and what
    [read_to_string] answers for one that does.  [env] is the environment. *)
Context (files : string → option (result string string)) (env : string → option string).
Context (root : string).

Definition parse_file (text : result string string) : result ConfigError Toml :=
  let? text := map_err ConfigParse text in map_err ConfigParse (toml_from_str text).

(** The strings of the table, a later key replacing an earlier one. *)
Definition load_secrets : result ConfigError (gmap string string) :=
  match files (secrets_path root) with
  | None => Ok ∅
  | Some text =>
      let? value := parse_file text in
      Ok (match value with
          | TTable table =>
              foldl (λ m kv, match kv.2 with TString s => <[ kv.1 := s ]> m | _ => m end) ∅ table
          | _ => ∅
          end)
  end.

(** [entry("structure").or_default()] *)
Definition seed_structure (c : RawConfig) : RawConfig :=
  mkRawConfig (schema_version c) (project_name c) (cfg_retain_cap c) (default_hash_profile c)
    (<[ "structure" := default HashProfileCfg_default (profiles c !! "structure") ]> (profiles c))
    (layers c) (generators c) (stores c) (queue_capacity c) (overflow c) (watcher_enabled c)
    (debounce_ms c) (precision c) (refinement c) (gitignore_cache c).

Definition load : result ConfigError RawConfig :=
  match files (config_path root) with
  | None => Ok RawConfig_defaults
  | Some committed =>
      let? value := parse_file committed in
      let? value :=
        match files (config_local_path root) with
        | None => Ok value
        | Some local => let? local_value := parse_file local in Ok (shallow_merge value local_value)
        end in
      let? secrets := load_secrets in
      let? value := expand_value env (λ k, secrets !! k) value in
      let? cfg := map_err ConfigParse (toml_try_into value) in
      Ok (seed_structure cfg)
  end.

(** ** Lemmas *)

Lemma load_some c :
  load = Ok c → is_Some (files (config_path root)) →
  ∃ value raw_c, toml_try_into value = Ok raw_c ∧ c = seed_structure raw_c.
Proof.
  unfold load. intros Hl [committed Hf]. rewrite Hf in Hl.
  destruct (parse_file committed) as [v|]; [|done]. simpl in Hl.
  destruct (match files (config_local_path root) with None => _ | Some _ => _ end) as [v'|]; [|done].
  simpl in Hl. destruct load_secrets as [secrets|]; [|done]. simpl in Hl.
  destruct (expand_value _ _ _) as [v''|]; [|done]. simpl in Hl.
  destruct (toml_try_into v'') as [raw_c|] eqn:E; [|done]. simpl in Hl. injection Hl as <-.
  by exists v'', raw_c.
Qed.

(** A configuration that loads always has the [structure] profile, its own
    if the file defines it and the built-in one otherwise; without a
    configuration file it is the built-in configuration, and the files beside
    it are not read. *)
Theorem load_has_structure_profile c :
  load = Ok c →
  is_Some (profiles c !! "structure") ∧
  (files (config_path root) = None → c = RawConfig_defaults).
Proof.
  intros Hl. destruct (files (config_path root)) as [t|] eqn:Hf.
  - split; [|done]. destruct (load_some c Hl) as (v & raw_c & _ & ->); [by rewrite Hf|].
    simpl. rewrite lookup_insert_eq. eauto.
  - unfold load in Hl. rewrite Hf in Hl. injection Hl as <-. split; [by eexists|done].
Qed.
End load.

(** ** The local file wins, key by key *)

Fixpoint table_get (table : list (string * Toml)) (key : string) : option Toml :=
  match table with
  | [] => None
  | (k, v) :: table => if String.eqb k key then Some v else table_get table key
  end.

Lemma table_get_insert table k v key :
  table_get (table_insert table k v) key = if String.eqb k key then Some v else table_get table key.
Proof.
  induction table as [|[k' v'] table IH]; [done|]. cbn [table_insert].
  destruct (String.eqb_spec k' k) as [->|Hne]; cbn [table_get].
  - by destruct (String.eqb k key).
  - rewrite IH. destruct (String.eqb_spec k' key), (String.eqb_spec k key); congruence.
Qed.

(** In the merge of two tables every top-level key of the overlay replaces
    the whole value of the base, and every other key keeps it. *)
Theorem shallow_merge_overrides base over key :
  NoDup over.*1 →
  match shallow_merge (TTable base) (TTable over) with
  | TTable merged =>
      table_get merged key = match table_get over key with Some v => Some v | None => table_get base key end
  | _ => False
  end.
Proof.
  simpl. revert base. induction over as [|[k v] over IH]; intros base Hnd; [done|].
  cbn [foldl fst snd]. apply NoDup_cons in Hnd as [Hk Hnd]. rewrite IH by done. clear IH.
  rewrite table_get_insert. cbn [table_get]. destruct (String.eqb_spec k key) as [->|]; [|done].
  destruct (table_get over key) as [w|] eqn:E; [|done]. destruct Hk. clear Hnd.
  induction over as [|[k' v'] over IH]; [done|]. cbn [table_get] in E. cbn.
  destruct (String.eqb_spec k' key) as [->|]; [left|right; auto].
Qed.

(** ** Witnesses *)

Definition toml0 : TomlCodec :=
  {| toml_from_str := λ _, Ok (TTable []); toml_try_into := λ _, Ok RawConfig_defaults |}.

Lemma load_has_structure_profile_witness :
  ∃ c, load (TC:=toml0) (λ p, if String.eqb p "/p/.tyo3/config.toml" then Some (Ok "") else None)
    (λ _, None) "/p/.tyo3" = Ok c ∧ is_Some (profiles c !! "structure").
Proof.
  eexists. split; [by vm_compute|].
  eapply (load_has_structure_profile (TC:=toml0) (λ p, if String.eqb p "/p/.tyo3/config.toml" then Some (Ok "") else None)
    (λ _, None) "/p/.tyo3"). by vm_compute.
Defined.

Lemma shallow_merge_overrides_witness :
  shallow_merge (TTable [("a", TString "1"); ("b", TString "2")]) (TTable [("b", TString "3")]) =
    TTable [("a", TString "1"); ("b", TString "3")] ∧
  table_get [("a", TString "1"); ("b", TString "3")] "b" = Some (TString "3").
Proof.
  split; [reflexivity|].
  apply (shallow_merge_overrides [("a", TString "1"); ("b", TString "2")] [("b", TString "3")] "b").
  by apply (bool_decide_unpack _).
Defined.
