(* ===== verification/Overlay.v ===== *)
(** * The overlay file system ([rust/src/overlay.rs])

    The view of the disk that the analysis reads: overlaid documents first,
    then, for the live head only, the native disk.  All clones of one overlay
    share a content cell, so the model keeps the cells in a heap. *)

From S2P Require Import Prelude Str Paths Content.

Inductive FileType := FtFile | FtDirectory.

#[global] Instance FileType_eq_dec : EqDecision FileType.
Proof. solve_decision. Defined.

(** [Metadata::new(FileRevision::new(revision), None, file_type)] *)
Record Metadata := mkMetadata {
  md_revision : N;
  md_file_type : FileType;
}.

(** [DirectoryEntry::new(path, file_type)] *)
Record DirectoryEntry := mkDirectoryEntry {
  de_path : string;
  de_file_type : FileType;
}.

(** The disk fallback: the operations of [OsSystem] the overlay delegates
    content to.  [S] is the type of source types. *)
Record Native (S : Type) := mkNative {
  nat_metadata : string → result io_error Metadata;
  nat_read : string → result io_error string;
  nat_read_virtual : string → result io_error string;
  nat_source_type : string → option S;
  nat_virtual_source_type : string → option S;
  nat_read_directory : string → result io_error (list DirectoryEntry);
}.
Arguments nat_metadata {S} _ _.
Arguments nat_read {S} _ _.
Arguments nat_read_virtual {S} _ _.
Arguments nat_source_type {S} _ _.
Arguments nat_virtual_source_type {S} _ _.
Arguments nat_read_directory {S} _ _.

Section overlay.
(** [PySourceType], its [Python] member, and [try_from_extension]. *)
Context {S : Type} (python : S) (try_from_extension : string → option S).

(** ** Cells

    [Arc<ArcSwap<ContentMap>>]: a cell of the heap. *)

Record Heap := mkHeap {
  cells : gmap nat ContentMap;
  next_cell : nat;
}.

Definition heap_empty : Heap := mkHeap ∅ 0.

Definition alloc (hp : Heap) (g : ContentMap) : Heap * nat :=
  (mkHeap (<[ next_cell hp := g ]> (cells hp)) (Datatypes.S (next_cell hp)), next_cell hp).

Record OverlaySystem := mkOverlaySystem {
  content : nat;
  native : Native S;
  frozen_at : option Revision;
}.

Definition live (hp : Heap) (os : Native S) (initial : ContentMap) : Heap * OverlaySystem :=
  let '(hp, c) := alloc hp initial in (hp, mkOverlaySystem c os None).

Definition frozen (hp : Heap) (os : Native S) (generation : ContentMap) (rev : Revision) :
    Heap * OverlaySystem :=
  let '(hp, c) := alloc hp generation in (hp, mkOverlaySystem c os (Some rev)).

(** A release build has no [debug_assert!]: the cell is overwritten, whoever
    owns it. *)
Definition publish (hp : Heap) (o : OverlaySystem) (generation : ContentMap) : Heap :=
  mkHeap (<[ content o := generation ]> (cells hp)) (next_cell hp).

(** [self.content.load()] *)
Definition load_content (hp : Heap) (o : OverlaySystem) : ContentMap :=
  default ContentMap_new (cells hp !! content o).

Definition is_frozen (o : OverlaySystem) : bool := bool_decide (is_Some (frozen_at o)).

(** ** Reads *)

Definition document (hp : Heap) (o : OverlaySystem) (path : string) : option Document :=
  system (load_content hp o) !! path.

Definition virtual_document (hp : Heap) (o : OverlaySystem) (path : string) : option Document :=
  virtual_files (load_content hp o) !! path.

(** In the order of the hash map: unspecified. *)
Definition system_keys (hp : Heap) (o : OverlaySystem) : list string :=
  (map_to_list (system (load_content hp o))).*1.

(** Equality of paths compares components, and so does [starts_with]. *)
Definition path_eqb (a b : string) : bool :=
  Bool.eqb (is_absolute a) (is_absolute b) && bool_decide (components a = components b).

Definition is_synthesised_directory (hp : Heap) (o : OverlaySystem) (path : string) : bool :=
  existsb (λ key, negb (path_eqb key path) && path_starts_with path key) (system_keys hp o).

Definition path_metadata (hp : Heap) (o : OverlaySystem) (path : string) : result io_error Metadata :=
  match document hp o path with
  | Some (Text _ _ version) => Ok (mkMetadata version FtFile)
  | Some (Deleted _) => Err NotFound
  | None =>
      if is_frozen o then
        if is_synthesised_directory hp o path then Ok (mkMetadata 0 FtDirectory) else Err NotFound
      else nat_metadata (native o) path
  end.

Definition read_to_string (hp : Heap) (o : OverlaySystem) (path : string) : result io_error string :=
  match document hp o path with
  | Some (Text text _ _) => Ok text
  | Some (Deleted _) => Err NotFound
  | None => if is_frozen o then Err NotFound else nat_read (native o) path
  end.

Definition read_virtual_path_to_string (hp : Heap) (o : OverlaySystem) (path : string) :
    result io_error string :=
  match virtual_document hp o path with
  | Some (Text text _ _) => Ok text
  | Some (Deleted _) => Err NotFound
  | None => nat_read_virtual (native o) path
  end.

(** [path.extension().and_then(try_from_extension).or(Some(Python))] *)
Definition overlay_source_type (path : string) : option S :=
  match extension path ≫= try_from_extension with Some t => Some t | None => Some python end.

Definition virtual_path_source_type (hp : Heap) (o : OverlaySystem) (path : string) : option S :=
  match virtual_document hp o path with
  | Some (Text _ _ _) => overlay_source_type path
  | Some (Deleted _) => None
  | None => nat_virtual_source_type (native o) path
  end.

Definition source_type (hp : Heap) (o : OverlaySystem) (path : string) : option S :=
  match document hp o path with
  | Some (Text _ _ _) => overlay_source_type path
  | Some (Deleted _) => None
  | None => if is_frozen o then None else nat_source_type (native o) path
  end.

(** ** Directories

    The names are those of [read_directory]; [rest] is the text left of the key
    after the directory, its components joined. *)

Record DirAcc := mkDirAcc {
  direct_dirs : gset string;
  dir_entries : list DirectoryEntry;
}.

Definition directory_step (hp : Heap) (o : OverlaySystem) (path : string) (acc : DirAcc) (key : string) :
    DirAcc :=
  match path_strip_prefix path key with
  | None => acc
  | Some comps =>
      let rest := str_join "/" comps in
      if String.eqb rest "" || String.eqb rest "/" then acc
      else
        let rest := default rest (strip_prefix "/" rest) in
        match split_once "/" rest with
        | Some (dir_name, _) => mkDirAcc ({[ path_join path dir_name ]} ∪ direct_dirs acc) (dir_entries acc)
        | None =>
            match document hp o key with
            | Some (Text _ _ _) =>
                mkDirAcc (direct_dirs acc)
                  (dir_entries acc ++ [mkDirectoryEntry (path_join path rest) FtFile])
            | _ => acc
            end
        end
  end.

Definition read_directory (hp : Heap) (o : OverlaySystem) (path : string) :
    result io_error (list DirectoryEntry) :=
  if is_frozen o then
    let acc := foldl (directory_step hp o path) (mkDirAcc ∅ []) (system_keys hp o) in
    Ok (dir_entries acc ++ ((λ d, mkDirectoryEntry d FtDirectory) <$> btree_elements (direct_dirs acc)))
  else nat_read_directory (native o) path.

(** ** Lemmas *)

Lemma alloc_fresh hp g hp' c :
  (∀ i, is_Some (cells hp !! i) → i < next_cell hp) → alloc hp g = (hp', c) →
  cells hp !! c = None ∧ cells hp' !! c = Some g ∧ (∀ i, is_Some (cells hp' !! i) → i < next_cell hp').
Proof.
  intros Hwf [= <- <-]. simpl. split; [|split; [apply lookup_insert_eq|]].
  - apply eq_None_not_Some. intros Hi%Hwf. lia.
  - intros i. rewrite lookup_insert. case_decide; [lia|]. intros Hi%Hwf. lia.
Qed.

(** What the rest of the program does with overlays.  A head keeps the live
    overlay it is built with ([HeadState::system]) and republishes that one; the
    overlay of a snapshot moves into its database and is published by nobody.  So
    an operation names a head by its number, and the frozen overlays are listed
    apart. *)
Inductive heap_op :=
| OpLive (os : Native S) (g : ContentMap)
| OpFrozen (os : Native S) (g : ContentMap) (rev : Revision)
| OpPublish (i : nat) (g : ContentMap).

Record Overlays := mkOverlays {
  ov_heap : Heap;
  ov_heads : list OverlaySystem;
  ov_frozen : list OverlaySystem;
}.

Definition exec_heap_op (st : Overlays) (op : heap_op) : Overlays :=
  match op with
  | OpLive n g =>
      let '(hp, o) := live (ov_heap st) n g in mkOverlays hp (ov_heads st ++ [o]) (ov_frozen st)
  | OpFrozen n g r =>
      let '(hp, o) := frozen (ov_heap st) n g r in mkOverlays hp (ov_heads st) (ov_frozen st ++ [o])
  | OpPublish i g =>
      match ov_heads st !! i with
      | Some o => mkOverlays (publish (ov_heap st) o g) (ov_heads st) (ov_frozen st)
      | None => st
      end
  end.

(** Every overlay has a cell, and no head has the cell of a frozen overlay. *)
Record heap_ok (st : Overlays) : Prop := {
  hk_cells : ∀ i, is_Some (cells (ov_heap st) !! i) → i < next_cell (ov_heap st);
  hk_valid : ∀ o, o ∈ ov_heads st ++ ov_frozen st → is_Some (cells (ov_heap st) !! content o);
  hk_apart : ∀ o o', o ∈ ov_heads st → o' ∈ ov_frozen st → content o ≠ content o';
}.

(** A new overlay has a new cell. *)
Lemma fresh_cell st g hp c o :
  heap_ok st → alloc (ov_heap st) g = (hp, c) → o ∈ ov_heads st ++ ov_frozen st →
  content o ≠ c ∧ is_Some (cells hp !! content o).
Proof.
  intros [Hc Hv _] Ha Ho. destruct (alloc_fresh _ _ _ _ Hc Ha) as (Hn & _ & _). destruct (Hv o Ho) as [x Hx].
  assert (content o ≠ c) as Hne by (intros <-; congruence). split; [done|].
  injection Ha as <- <-. simpl. rewrite lookup_insert_ne by done. by exists x.
Qed.

(** The new overlay may join either list. *)
Lemma heap_ok_add st g hp c o (is_head : bool) :
  heap_ok st → alloc (ov_heap st) g = (hp, c) → content o = c →
  heap_ok (if is_head then mkOverlays hp (ov_heads st ++ [o]) (ov_frozen st)
           else mkOverlays hp (ov_heads st) (ov_frozen st ++ [o])).
Proof.
  intros Hok Ha Ho. destruct (alloc_fresh _ _ _ _ (hk_cells _ Hok) Ha) as (_ & Hs & Hc).
  assert (∀ o', o' ∈ ov_heads st ++ ov_frozen st → content o' ≠ c ∧ is_Some (cells hp !! content o')) as Hold
    by (intros o'; by apply fresh_cell with g).
  assert (∀ o', o' ∈ ov_heads st ++ ov_frozen st ∨ o' = o → is_Some (cells hp !! content o')) as Hv.
  { intros o' [?| ->]; [by apply Hold|]. rewrite Ho. by exists g. }
  destruct is_head; (split; simpl; [exact Hc|intros o' Ho'; apply Hv; set_solver|]).
  - intros x y [Hx| ->%list_elem_of_singleton]%elem_of_app Hy; [by apply (hk_apart _ Hok)|].
    rewrite Ho. intros E. by destruct (Hold y) as [? _]; [set_solver|].
  - intros x y Hx [Hy| ->%list_elem_of_singleton]%elem_of_app; [by apply (hk_apart _ Hok)|].
    rewrite Ho. by destruct (Hold x) as [? _]; [set_solver|].
Qed.

Lemma exec_heap_op_ok st op : heap_ok st → heap_ok (exec_heap_op st op).
Proof.
  intros Hok. destruct op as [n g|n g r|i g]; cbn [exec_heap_op].
  - unfold live. destruct (alloc (ov_heap st) g) as [hp c] eqn:Ha. by apply (heap_ok_add st g hp c _ true).
  - unfold frozen. destruct (alloc (ov_heap st) g) as [hp c] eqn:Ha. by apply (heap_ok_add st g hp c _ false).
  - destruct (ov_heads st !! i) as [o|] eqn:Ho; [|done]. destruct Hok as [Hc Hv Hi].
    assert (∀ k, is_Some (<[content o:=g]> (cells (ov_heap st)) !! k) ↔ is_Some (cells (ov_heap st) !! k)) as Hdom.
    { intros k. rewrite lookup_insert. case_decide as E; [|done]. subst. split; [intros _; apply Hv|eauto].
      apply elem_of_app. left. by eapply list_elem_of_lookup_2. }
    split; simpl; [intros k; rewrite Hdom; auto|intros o' Ho'; rewrite Hdom; auto|done].
Qed.

(** The cell of a frozen overlay keeps its content. *)
Lemma exec_heap_op_frozen st op o :
  heap_ok st → o ∈ ov_frozen st →
  o ∈ ov_frozen (exec_heap_op st op) ∧ load_content (ov_heap (exec_heap_op st op)) o = load_content (ov_heap st) o.
Proof.
  intros Hok Ho. assert (∀ g hp c, alloc (ov_heap st) g = (hp, c) → load_content hp o = load_content (ov_heap st) o) as Hnew.
  { intros g hp c Ha. destruct (fresh_cell st g hp c o Hok Ha) as [Hne _]; [set_solver|]. injection Ha as <- <-.
    unfold load_content. simpl. by rewrite lookup_insert_ne. }
  destruct op as [n g|n g r|i g]; cbn [exec_heap_op].
  - unfold live. destruct (alloc (ov_heap st) g) as [hp c] eqn:Ha. split; [done|by eapply Hnew].
  - unfold frozen. destruct (alloc (ov_heap st) g) as [hp c] eqn:Ha. split; [set_solver|by eapply Hnew].
  - destruct (ov_heads st !! i) as [h|] eqn:Hh; [|done]. split; [done|]. unfold load_content. simpl.
    rewrite lookup_insert_ne; [done|]. apply (hk_apart _ Hok); [by eapply list_elem_of_lookup_2|done].
Qed.

Lemma foldl_heap_ops ops st o :
  heap_ok st → o ∈ ov_frozen st →
  load_content (ov_heap (foldl exec_heap_op st ops)) o = load_content (ov_heap st) o.
Proof.
  revert st. induction ops as [|op ops IH]; intros st Hok Ho; [done|]. cbn [foldl].
  destruct (exec_heap_op_frozen st op o Hok Ho) as [Ho' Hl].
  rewrite (IH _ (exec_heap_op_ok st op Hok) Ho'). done.
Qed.

(** Everything a frozen view answers about content. *)
Definition content_view (hp : Heap) (o : OverlaySystem) (path : string) :=
  (path_metadata hp o path, read_to_string hp o path, source_type hp o path, read_directory hp o path).

(** The answers of a frozen view are a function of its generation. *)
Lemma frozen_view_content hp hp' o o' path :
  is_frozen o → is_frozen o' → load_content hp o = load_content hp' o' →
  content_view hp o path = content_view hp' o' path.
Proof.
  intros Ho Ho' Hl. apply Is_true_eq_true in Ho, Ho'.
  assert (∀ p, document hp o p = document hp' o' p) as Hd by (intros p; unfold document; by rewrite Hl).
  assert (system_keys hp o = system_keys hp' o') as Hk by (unfold system_keys; by rewrite Hl).
  assert (∀ acc keys, foldl (directory_step hp o path) acc keys = foldl (directory_step hp' o' path) acc keys)
    as Hdir by (intros; apply foldl_ext_in; intros; unfold directory_step; by rewrite Hd).
  unfold content_view, path_metadata, read_to_string, source_type, read_directory, is_synthesised_directory.
  by rewrite Ho, Ho', Hd, Hk, Hdir.
Qed.


(** A read and its metadata never disagree: through any overlay, a path the
    overlay covers has text exactly when it is a file whose revision is the
    version of that document; and a live overlay answers from the disk exactly
    for the paths it does not cover. *)
Theorem read_agrees_with_metadata hp o path :
  match document hp o path with
  | Some d =>
      (∀ t, read_to_string hp o path = Ok t ↔ ∃ h, d = Text t h (Document_version d)) ∧
      (∀ md, path_metadata hp o path = Ok md ↔
         md = mkMetadata (Document_version d) FtFile ∧ ∃ t, read_to_string hp o path = Ok t)
  | None =>
      if is_frozen o then (∀ t, read_to_string hp o path ≠ Ok t)
      else read_to_string hp o path = nat_read (native o) path ∧
           path_metadata hp o path = nat_metadata (native o) path
  end.
Proof.
  unfold read_to_string, path_metadata. destruct (document hp o path) as [[t h v|v]|]; simpl.
  - split; [naive_solver|]. intros md. split; [intros [= <-]; eauto|by intros [-> _]].
  - split; [naive_solver|]. intros md. split; [done|]. by intros [_ [? ?]].
  - by destruct (is_frozen o).
Qed.
End overlay.

(** ** Directory listings *)

Section listing.
Context {S : Type}.
Implicit Type o : OverlaySystem (S:=S).

Lemma elem_of_system_keys hp o key : key ∈ system_keys hp o ↔ is_Some (document hp o key).
Proof.
  unfold system_keys, document. rewrite list_elem_of_fmap. split.
  - intros ([k d] & -> & H%elem_of_map_to_list). by exists d.
  - intros [d Hd]. exists (key, d). split; [done|]. by apply elem_of_map_to_list.
Qed.

Lemma strip_components path key comps c :
  path_strip_prefix path key = Some comps → c ∈ comps → c ≠ "" ∧ split_once "/" c = None.
Proof.
  unfold path_strip_prefix. destruct (Bool.eqb _ _); [|done]. intros Hs%list_strip_prefix_Some Hc.
  apply component_no_slash with (p := key). rewrite Hs. apply elem_of_app. by right.
Qed.

(** One key of the walk. *)
Lemma directory_step_spec hp o path acc k e :
  let r := directory_step hp o path acc k in
  (e ∈ dir_entries r ↔ e ∈ dir_entries acc ∨
     ∃ name t h v, path_strip_prefix path k = Some [name] ∧
       document hp o k = Some (Text t h v) ∧ e = mkDirectoryEntry (path_join path name) FtFile) ∧
  (∀ d, d ∈ direct_dirs r ↔ d ∈ direct_dirs acc ∨
     ∃ name rest, path_strip_prefix path k = Some (name :: rest) ∧ rest ≠ [] ∧ d = path_join path name).
Proof.
  unfold directory_step. destruct (path_strip_prefix path k) as [comps|] eqn:Hs; [|naive_solver].
  pose proof (λ c, strip_components path k comps c Hs) as Hc.
  destruct comps as [|name rest]; [simpl; naive_solver|].
  destruct (Hc name) as [Hne Hno]; [by left|].
  rewrite (join_not_root name rest), (join_no_lead name rest) by done. cbn [orb default].
  destruct rest as [|r rest].
  - simpl. rewrite Hno. destruct (document hp o k) as [[t h v|v]|]; simpl;
      rewrite ?elem_of_app, ?list_elem_of_singleton; naive_solver.
  - rewrite join_split by done. simpl. set_solver.
Qed.

Lemma dir_acc_elem hp o path keys acc e :
  let r := foldl (directory_step hp o path) acc keys in
  (e ∈ dir_entries r ↔ e ∈ dir_entries acc ∨
     ∃ key name t h v, key ∈ keys ∧ path_strip_prefix path key = Some [name] ∧
       document hp o key = Some (Text t h v) ∧ e = mkDirectoryEntry (path_join path name) FtFile) ∧
  (∀ d, d ∈ direct_dirs r ↔ d ∈ direct_dirs acc ∨
     ∃ key name rest, key ∈ keys ∧ path_strip_prefix path key = Some (name :: rest) ∧ rest ≠ [] ∧
       d = path_join path name).
Proof.
  revert acc. induction keys as [|k keys IH]; intros acc; cbn [foldl].
  { split; [|intros d]; (split; [by left|]); intros [?|H]; try done.
    - destruct H as (? & ? & ? & ? & ? & []%not_elem_of_nil & _).
    - destruct H as (? & ? & ? & []%not_elem_of_nil & _). }
  destruct (IH (directory_step hp o path acc k)) as [IH1 IH2]. simpl in *. rewrite IH1.
  setoid_rewrite IH2. clear IH IH1 IH2.
  destruct (directory_step_spec hp o path acc k e) as [H1 H2]. rewrite H1. setoid_rewrite H2.
  setoid_rewrite elem_of_cons. split; [|intros d]; naive_solver.
Qed.

(** The listing of a directory by a frozen view: its files are the text
    documents directly in it, and its directories are those with a document,
    text or tombstone, below them. *)
Theorem frozen_directory_listing hp o path :
  is_frozen o = true →
  ∃ l, read_directory hp o path = Ok l ∧
  ∀ e, e ∈ l ↔
    (∃ key name t h v, path_strip_prefix path key = Some [name] ∧
       document hp o key = Some (Text t h v) ∧ e = mkDirectoryEntry (path_join path name) FtFile) ∨
    (∃ key name rest, is_Some (document hp o key) ∧ path_strip_prefix path key = Some (name :: rest) ∧
       rest ≠ [] ∧ e = mkDirectoryEntry (path_join path name) FtDirectory).
Proof.
  intros Hf. unfold read_directory. rewrite Hf. eexists. split; [done|]. intros e.
  destruct (dir_acc_elem hp o path (system_keys hp o) (mkDirAcc ∅ []) e) as [H1 H2]. simpl in *.
  rewrite elem_of_app, H1, list_elem_of_fmap. setoid_rewrite elem_of_btree_elements.
  setoid_rewrite H2. setoid_rewrite elem_of_system_keys. clear H1 H2. split.
  - intros [[[]%not_elem_of_nil|(k & n & t & h & v & ? & ? & ? & ->)]|(d & -> & [[]%elem_of_empty|H])].
    + left. eauto 10.
    + right. destruct H as (k & n & r & ? & ? & ? & ->). eauto 10.
  - intros [(k & n & t & h & v & ? & ? & ->)|(k & n & r & ? & ? & ? & ->)].
    + left. right. exists k, n, t, h, v. eauto.
    + right. eexists. split; [done|]. right. eauto 10.
Qed.
End listing.

(** ** Witnesses and limits *)

Definition native0 : Native unit :=
  mkNative unit (λ _, Ok (mkMetadata 9 FtFile)) (λ _, Ok "disk") (λ _, Err NotFound) (λ _, None) (λ _, None)
    (λ _, Ok []).

(** A package with one file, and another whose only file was deleted. *)
Definition gen0 : ContentMap :=
  mkContentMap {[ "/p/pkg/a.py" := Text "x" 0 1; "/p/old/b.py" := Deleted 2 ]} ∅.

Definition frozen0 : Heap * OverlaySystem := frozen heap_empty native0 gen0 1.

Definition overlays0 : Overlays (S:=unit) := mkOverlays heap_empty [] [].

Lemma heap_ok_empty : heap_ok overlays0.
Proof. split; simpl; [by intros i [? ?]|by intros o ?%not_elem_of_nil|by intros o o' ?%not_elem_of_nil]. Qed.

(** Publishing on a frozen overlay would overwrite what it pins. *)
Theorem publish_unguarded : let '(hp, o) := frozen0 in load_content (publish hp o ContentMap_new) o = ContentMap_new.
Proof. vm_compute. reflexivity. Qed.

(** A deleted file leaves its directory behind: the frozen view lists
    [/p/old] and calls it a directory, and nothing below it can be read. *)
Theorem tombstone_keeps_directory :
  let '(hp, o) := frozen0 in
  read_directory hp o "/p" = Ok [mkDirectoryEntry "/p/old" FtDirectory; mkDirectoryEntry "/p/pkg" FtDirectory] ∧
  path_metadata hp o "/p/old" = Ok (mkMetadata 0 FtDirectory) ∧
  read_directory hp o "/p/old" = Ok [] ∧ read_to_string hp o "/p/old/b.py" = Err NotFound.
Proof. vm_compute. done. Qed.


Lemma frozen_directory_listing_witness :
  ∃ l, read_directory frozen0.1 frozen0.2 "/p" = Ok l ∧ mkDirectoryEntry "/p/pkg" FtDirectory ∈ l.
Proof.
  destruct (frozen_directory_listing frozen0.1 frozen0.2 "/p" eq_refl) as (l & Hl & He).
  exists l. split; [exact Hl|]. apply He. right. exists "/p/pkg/a.py", "pkg", ["a.py"].
  split; [by exists (Text "x" 0 1)|]. split; [by vm_compute|]. by split; [|vm_compute].
Defined.
