(* ===== verification/Commit.v ===== *)
(** * The commit funnel ([rust/src/project/commit.rs])

    Every write builds a plan, stages the next state, persists it and
    publishes the revision last; a failure restores the state before it.  The
    analysis database, and the code that runs over it, is an instance of
    [Engine]; the disk is a [World]. *)

From S2P Require Import Prelude Str Paths Content Identity Entity EditDistance Reconcile.
From S2P Require Import Json IdentityFormat Authored CodeLayer CodeBuilder Config Sidecar.
Import Registry AuthoredStore.

(** ** Events *)

(** [ty_project::watch::ChangeEvent]; an event of another kind carries its
    path in [Opened] or is virtual. *)
Inductive ChangedKind := FileContent | ChangedAny.

Inductive ChangeEvent :=
| EvOpened (path : string)
| EvCreated (path : string)
| EvChanged (path : string) (kind : ChangedKind)
| EvDeleted (path : string)
| EvCreatedVirtual (path : string)
| EvChangedVirtual (path : string)
| EvRescan.

Definition system_path (e : ChangeEvent) : option string :=
  match e with
  | EvOpened p | EvCreated p | EvChanged p _ | EvDeleted p => Some p
  | _ => None
  end.

Definition is_rescan (e : ChangeEvent) : bool := match e with EvRescan => true | _ => false end.

(** ** What the commit asks of the engine and of the disk *)

Class Engine (Db : Type) := {
  (** [apply_changes], over the content the overlay holds: the new database,
      [project_changed] and [custom_stdlib_changed]. *)
  db_apply : Db → ContentMap → list ChangeEvent → Db * (bool * bool);
  (** [files().try_system(path)] and, when interned, [exists]. *)
  db_file : Db → ContentMap → string → option bool;
  db_virtual : Db → string → bool;
  (** [extract_entities_for] the scope, or [extract_entities]. *)
  db_entities : Db → ContentMap → option (gset string) → list Entity;
  (** The answers the producer of the code layer asks for; the registry gives
      the symbols their durable ids. *)
  db_view : Db → ContentMap → IdentityRegistry → ProjectView;
}.

Record World := mkWorld {
  w_read : string → result io_error string;
  w_is_file : string → bool;
  w_entries : list (option (string * bool));
  w_identity_fault : WriteFault;
  w_authored_fault : WriteFault;
}.

Section commit.
Context {Ext : External} {SJ : SerdeJson} {Db : Type} {Eng : Engine Db}.
Context (mint : nat → DurableId).

(** ** State *)

Record HeadState := mkHeadState {
  h_db : Db;
  h_root : string;
  h_store : ContentStore;
  h_system : ContentMap;
  h_registry : IdentityRegistry;
  h_config : ValidatedConfig;
  h_sidecar : gmap string string;
  h_authored : gmap (string * string) AuthoredRecord;
  h_code_layer : CodeLayer;
  h_unsaved : gset string;
  h_armed : option string;
  h_minted : nat;
}.

Inductive CommitError :=
| CommitFailed (msg : string)
| SidecarWriteError (msg : string)
| CommitConfigError (msg : string)
| CommitValueError (msg : string)
| Panicked.

Record CommitDelta := mkCommitDelta {
  cd_revision : Revision;
  cd_created_ids : list string;
  cd_changed_ids : list string;
  cd_deleted_ids : list string;
  cd_moved : list MovedBinding;
  cd_authored_ids : list string;
  cd_affected_ids : list string;
  cd_touched_files : list string;
  cd_affected_files : list string;
  cd_created : list string;
  cd_changed : list string;
  cd_deleted : list string;
  cd_needs_review : list string;
  cd_orphaned : list string;
  cd_authored_needs_review : list string;
  cd_authored_orphaned : list string;
  cd_identity_extracted : nat;
  cd_identity_scope_files : nat;
  cd_rescan : bool;
  cd_project_changed : bool;
  cd_custom_stdlib_changed : bool;
}.

(** ** Paths and events *)

Definition resolve_sync_path (root path : string) : string :=
  if is_absolute path then path else path_join root path.

(** [ExistingPathKind::from_system]: whether the overlay or the disk below it
    has a file at the path. *)
Definition overlay_has_file (w : World) (m : ContentMap) (path : string) : bool :=
  match system m !! path with
  | Some (Text _ _ _) => true
  | Some (Deleted _) => false
  | None => w_is_file w path
  end.

Definition classify_overlay_edit (w : World) (h : HeadState) (path : string) : ChangeEvent :=
  let is_new :=
    match db_file (h_db h) (h_system h) path with
    | Some exists_ => negb exists_
    | None => negb (overlay_has_file w (h_system h) path)
    end in
  if is_new then EvCreated path else EvChanged path FileContent.

(** [is_none_or(|f| !f.exists(db))] *)
Definition is_new_file (h : HeadState) (path : string) : bool :=
  match db_file (h_db h) (h_system h) path with Some e => negb e | None => true end.

(** The classification of a synchronised path that [build_plan] inlines. *)
Definition classify_disk_sync (w : World) (h : HeadState) (path : string) : ChangeEvent :=
  if overlay_has_file w (h_system h) path
  then if is_new_file h path then EvCreated path else EvChanged path ChangedAny
  else EvDeleted path.

Definition identity_scope_from_events (events : list ChangeEvent) : option (gset string) :=
  let paths := filter (λ p, is_python_source p) (omap system_path events) in
  let scope : gset string := list_to_set paths in
  if bool_decide (scope = ∅) then None else Some scope.

Definition native_to_graph (root native : string) : option string :=
  match strip_prefix root native with
  | None => None
  | Some rest =>
      let rest := default rest (strip_prefix "/" rest) in
      if String.eqb rest "" then None else Some rest
  end.

(** ** Authored lifecycle *)

Definition is_review_layer (c : ValidatedConfig) (name : string) : bool :=
  match layers (raw c) !! name with
  | Some l => bool_decide (origin l = Config.Authored) && review_on_change l
  | None => false
  end.

(** The layers whose records are reviewed when their entity changes. *)
Definition review_layers (c : ValidatedConfig) : list string :=
  filter (λ name, is_review_layer c name) (cfg_topo_order c).

Definition monitored (c : ValidatedConfig) (a : gmap (string * string) AuthoredRecord) : gset string :=
  list_to_set (review_layers c ≫= ids_in_layer a).

Definition compute_authored_lifecycle (c : ValidatedConfig)
    (a : gmap (string * string) AuthoredRecord) (nr orph : list string) :
    list string * list string :=
  (filter (λ id, id ∈ monitored c a) nr, filter (λ id, id ∈ monitored c a) orph).

Definition derive_authored_status (c : ValidatedConfig) (r : IdentityRegistry)
    (layer id : string) (reviewed_hash : option ContentHash) : string :=
  if negb (default false (review_on_change <$> layers (raw c) !! layer)) then "present"
  else if bool_decide (status_of r id = Some Orphaned) then "orphaned"
  else
    match reviewed_hash, a_content_hash <$> get r id with
    | Some rh, Some ch => if bool_decide (rh ≠ ch) then "needs_review" else "present"
    | _, _ => "present"
    end.

Definition record_flagged (r : IdentityRegistry) (a : gmap (string * string) AuthoredRecord)
    (layer id : string) : bool :=
  match records_get a layer id with
  | None => false
  | Some rec =>
      match v_reviewed_hash (rec_current rec) with
      | None => false
      | Some reviewed =>
          match get r id with
          | None => false
          | Some anchor =>
              if bool_decide (a_status anchor = Orphaned) then false
              else bool_decide (reviewed ≠ a_content_hash anchor)
          end
      end
  end.

Definition needs_review_ids (c : ValidatedConfig) (a : gmap (string * string) AuthoredRecord)
    (r : IdentityRegistry) : list string :=
  btree_elements
    (list_to_set (review_layers c ≫= λ layer,
       filter (λ id, record_flagged r a layer id) (ids_in_layer a layer))).

(** ** Plans *)

Inductive Mutation :=
| Overlay (changes : list Change) (events : list ChangeEvent)
    (created changed unsaved : list string)
| SyncPath (abs : string)
| SyncAll
| Author (layer id : string) (value : Json)
| Poll (events : list ChangeEvent).

Record AuthoredPlan := mkAuthoredPlan {
  ap_next_store : gmap (string * string) AuthoredRecord;
  ap_record_path : string;
  ap_bytes : string;
  ap_id : string;
}.

Record StagedCommit := mkStagedCommit {
  sc_gen : ContentMap;
  sc_events : list ChangeEvent;
  sc_created : list string;
  sc_changed : list string;
  sc_deleted : list string;
  sc_rescan : bool;
  sc_scope : option (gset string);
  sc_reconcile : bool;
  sc_authored : option AuthoredPlan;
  sc_unsaved_insert : list string;
  sc_unsaved_remove : list string;
}.

Definition set_store (h : HeadState) (s : ContentStore) : HeadState :=
  mkHeadState (h_db h) (h_root h) s (h_system h) (h_registry h) (h_config h) (h_sidecar h)
    (h_authored h) (h_code_layer h) (h_unsaved h) (h_armed h) (h_minted h).

Definition disk_change (path : string) (disk : result io_error string) : Change :=
  match disk with Ok text => Insert path text | Err _ => Delete path end.

(** One event of the poll loop: what it adds to the plan, if anything. *)
Record PollAcc := mkPollAcc {
  pa_changes : list Change;
  pa_kept : list ChangeEvent;
  pa_created : list string;
  pa_changed : list string;
  pa_deleted : list string;
}.

Definition poll_step (w : World) (unsaved : gset string) (acc : PollAcc) (e : ChangeEvent) : PollAcc :=
  match system_path e with
  | None => acc
  | Some path =>
      if bool_decide (path ∈ unsaved) then acc
      else
        match e with
        | EvCreated _ =>
            mkPollAcc (pa_changes acc ++ [disk_change path (w_read w path)]) (pa_kept acc ++ [e])
              (pa_created acc ++ [path]) (pa_changed acc) (pa_deleted acc)
        | EvDeleted _ =>
            mkPollAcc (pa_changes acc ++ [Delete path]) (pa_kept acc ++ [e])
              (pa_created acc) (pa_changed acc) (pa_deleted acc ++ [path])
        | EvChanged _ _ =>
            mkPollAcc (pa_changes acc ++ [disk_change path (w_read w path)]) (pa_kept acc ++ [e])
              (pa_created acc) (pa_changed acc ++ [path]) (pa_deleted acc)
        | _ => acc
        end
  end.

Definition poll_acc (w : World) (unsaved : gset string) (events : list ChangeEvent) : PollAcc :=
  foldl (poll_step w unsaved) (mkPollAcc [] [] [] [] []) events.

Definition build_poll_plan (w : World) (h : HeadState) (events : list ChangeEvent) :
    HeadState * option StagedCommit :=
  if bool_decide (length events = 0) then (h, None)
  else if existsb is_rescan events then
    (h, Some (mkStagedCommit (stage_unchanged (h_store h)) [EvRescan] [] [] [] true None true None [] []))
  else
    let acc := poll_acc w (h_unsaved h) events in
    if bool_decide (length (pa_kept acc) = 0) then (h, None)
    else
      let '(s, g) := stage (h_store h) (pa_changes acc) in
      (set_store h s,
       Some (mkStagedCommit g (pa_kept acc) (pa_created acc) (pa_changed acc) (pa_deleted acc)
               false (identity_scope_from_events (pa_kept acc)) true None [] [])).

Definition build_author_plan (h : HeadState) (layer id : string) (value : Json) :
    result CommitError StagedCommit :=
  match authored_layer_config (h_config h) layer with
  | None => Err (CommitConfigError ("'" +:+ layer +:+ "' is not a declared authored layer"))
  | Some lcfg =>
      match get (h_registry h) id with
      | None => Err (CommitValueError ("durable id '" +:+ id +:+ "' is not known to the identity registry"))
      | Some anchor =>
          let version := mkAuthoredVersion value (next_revision (h_store h)) (Some (a_content_hash anchor)) in
          let next_store := put (h_authored h) layer id version (history lcfg) in
          match records_get next_store layer id with
          | None => Err Panicked
          | Some rec =>
              let doc := mkAuthoredRecordDoc AUTHORED_FORMAT_VERSION layer id
                           (rec_current rec) (rec_history rec) in
              Ok (mkStagedCommit (stage_unchanged (h_store h)) [] [] [] [] false None false
                    (Some (mkAuthoredPlan next_store
                             (record_path (sidecar_root (h_root h)) layer id) (doc_to_bytes doc) id))
                    [] [])
          end
      end
  end.

(** The store of the returned head has consumed the versions that staging
    drew; nothing else of it moves. *)
Definition build_plan (w : World) (h : HeadState) (m : Mutation) :
    HeadState * result CommitError (option StagedCommit) :=
  match m with
  | Overlay changes events created changed unsaved =>
      let '(s, g) := stage (h_store h) changes in
      (set_store h s,
       Ok (Some (mkStagedCommit g events created changed [] false
                   (identity_scope_from_events events) true None unsaved [])))
  | SyncPath abs =>
      let '(change, event, created, changed, deleted) :=
        match w_read w abs with
        | Ok text =>
            if is_new_file h abs then (Insert abs text, EvCreated abs, [abs], [], [])
            else (Insert abs text, EvChanged abs ChangedAny, [], [abs], [])
        | Err _ => (Delete abs, EvDeleted abs, [], [], [abs])
        end in
      let '(s, g) := stage (h_store h) [change] in
      let rescan := is_project_config_file abs in
      let scope := if rescan then None else identity_scope_from_events [event] in
      (set_store h s,
       Ok (Some (mkStagedCommit g [event] created changed deleted rescan scope true None [] [abs])))
  | SyncAll =>
      let '(s, g) := stage_reingest (w_read w) (w_entries w) is_project_relevant (h_unsaved h) (h_store h) in
      (set_store h s,
       Ok (Some (mkStagedCommit g [EvRescan] [] [] [] true None true None [] [])))
  | Author layer id value =>
      (h, let? p := build_author_plan h layer id value in Ok (Some p))
  | Poll events => let '(h, p) := build_poll_plan w h events in (h, Ok p)
  end.

(** ** The staged transaction

    A computation on the head that may stop with an error and leaves the head
    as it was at that point. *)

Definition Step (A : Type) : Type := HeadState → HeadState * result CommitError A.

Definition ret {A} (a : A) : Step A := λ h, (h, Ok a).
Definition throw {A} (e : CommitError) : Step A := λ h, (h, Err e).
Definition gets {A} (f : HeadState → A) : Step A := λ h, (h, Ok (f h)).
Definition modify (f : HeadState → HeadState) : Step unit := λ h, (f h, Ok tt).
Definition step_bind {A B} (m : Step A) (k : A → Step B) : Step B := λ h,
  match m h with (h, Ok a) => k a h | (h, Err e) => (h, Err e) end.

Notation "'do' x := m 'in' k" := (step_bind m (λ x, k))
  (at level 10, x pattern, m at level 100, k at level 200).

Definition set_system (g : ContentMap) (h : HeadState) : HeadState :=
  mkHeadState (h_db h) (h_root h) (h_store h) g (h_registry h) (h_config h) (h_sidecar h)
    (h_authored h) (h_code_layer h) (h_unsaved h) (h_armed h) (h_minted h).
Definition set_db (db : Db) (h : HeadState) : HeadState :=
  mkHeadState db (h_root h) (h_store h) (h_system h) (h_registry h) (h_config h) (h_sidecar h)
    (h_authored h) (h_code_layer h) (h_unsaved h) (h_armed h) (h_minted h).
Definition set_registry (r : IdentityRegistry) (n : nat) (h : HeadState) : HeadState :=
  mkHeadState (h_db h) (h_root h) (h_store h) (h_system h) r (h_config h) (h_sidecar h)
    (h_authored h) (h_code_layer h) (h_unsaved h) (h_armed h) n.
Definition set_sidecar (fs : gmap string string) (h : HeadState) : HeadState :=
  mkHeadState (h_db h) (h_root h) (h_store h) (h_system h) (h_registry h) (h_config h) fs
    (h_authored h) (h_code_layer h) (h_unsaved h) (h_armed h) (h_minted h).
Definition set_authored (a : gmap (string * string) AuthoredRecord) (h : HeadState) : HeadState :=
  mkHeadState (h_db h) (h_root h) (h_store h) (h_system h) (h_registry h) (h_config h) (h_sidecar h)
    a (h_code_layer h) (h_unsaved h) (h_armed h) (h_minted h).
Definition set_code_layer (l : CodeLayer) (h : HeadState) : HeadState :=
  mkHeadState (h_db h) (h_root h) (h_store h) (h_system h) (h_registry h) (h_config h) (h_sidecar h)
    (h_authored h) l (h_unsaved h) (h_armed h) (h_minted h).
Definition set_unsaved (u : gset string) (h : HeadState) : HeadState :=
  mkHeadState (h_db h) (h_root h) (h_store h) (h_system h) (h_registry h) (h_config h) (h_sidecar h)
    (h_authored h) (h_code_layer h) u (h_armed h) (h_minted h).
Definition set_armed (a : option string) (h : HeadState) : HeadState :=
  mkHeadState (h_db h) (h_root h) (h_store h) (h_system h) (h_registry h) (h_config h) (h_sidecar h)
    (h_authored h) (h_code_layer h) (h_unsaved h) a (h_minted h).

Record IdentityDelta := mkIdentityDelta {
  id_created : list string;
  id_changed : list string;
  id_deleted : list string;
  id_moved : list MovedBinding;
  id_affected : list string;
  id_affected_files : list string;
  id_needs_review : list string;
  id_orphaned : list string;
  id_extracted : nat;
  id_scope_files : nat;
  id_authored_needs_review : list string;
  id_authored_orphaned : list string;
}.

Definition IdentityDelta_default : IdentityDelta := mkIdentityDelta [] [] [] [] [] [] [] [] 0 0 [] [].

Definition run_identity_reconciliation (scope : option (gset string)) (next_rev : Revision) :
    Step IdentityDelta :=
  do h := gets id in
  let entities := db_entities (h_db h) (h_system h) scope in
  match reconcile_impl mint (h_registry h) entities next_rev scope (h_minted h) with
  | None => throw Panicked
  | Some (reg, recon, n) =>
      do _ := modify (set_registry reg n) in
      let classes := classify recon entities in
      let '(anr, aorph) := compute_authored_lifecycle (h_config h) (h_authored h)
                             (rc_needs_review recon) (rc_retired recon) in
      ret (mkIdentityDelta (cl_created classes) (cl_changed classes) (cl_deleted classes)
             (cl_moved classes) [] [] (rc_needs_review recon) (rc_retired recon)
             (length entities) (match scope with Some sc => size sc | None => 0 end) anr aorph)
  end.

(** [{:?}] of a string without characters to escape. *)
Definition debug_str (s : string) : string :=
  let quote := String (Ascii.ascii_of_N 34) "" in quote +:+ s +:+ quote.

Definition check_fault (armed : option string) (stage : string) : Step unit :=
  if bool_decide (armed = Some stage) then
    throw (if bool_decide (stage = "identity_persist" ∨ stage = "authored_persist")
           then SidecarWriteError ("injected commit fault at stage " +:+ debug_str stage)
           else CommitFailed ("injected commit fault at stage " +:+ debug_str stage))
  else ret tt.

(** A write of the sidecar: its failure is an error of the commit.  The message
    is kept up to the path and the text of the I/O error. *)
Definition persist (fault : WriteFault) (path bytes msg : string) : Step unit :=
  do fs := gets h_sidecar in
  let '(fs', res) := write_atomic fs path bytes fault in
  do _ := modify (set_sidecar fs') in
  match res with Ok _ => ret tt | Err _ => throw (SidecarWriteError msg) end.

Definition persist_identity (w : World) : Step unit :=
  do h := gets id in
  persist (w_identity_fault w) (identity_db_path (sidecar_root (h_root h)))
    (registry_to_bytes (h_registry h)) "failed to persist identity registry".

Definition produce_layer (h : HeadState) (prev : CodeLayer) (sc : StagedCommit) (next_rev : Revision) :
    CodeLayer * CodeDelta :=
  let view := db_view (h_db h) (h_system h) (h_registry h) in
  let full := produce_code_delta (h_root h) view CodeLayer_new next_rev (sc_rescan sc) in
  let dirty : option (gset string) :=
    (λ s, list_to_set (omap (native_to_graph (h_root h)) (elements s))) <$> sc_scope sc in
  match dirty with
  | Some dirty =>
      if negb (sc_rescan sc) && negb (CodeLayer_is_empty prev)
      then produce_code_delta_scoped (h_root h) view prev dirty next_rev else full
  | None => full
  end.

Definition files_of (l : CodeLayer) (ids : list string) : list string :=
  btree_elements (list_to_set (filter (λ f, f ≠ EXTERNAL_FILE) (omap (λ i, n_file <$> nodes l !! i) ids))).

(** Reconcile, produce the layer, compute the affected closure, persist. *)
Definition staged_identity (w : World) (sc : StagedCommit) (armed : option string)
    (next_rev : Revision) : Step IdentityDelta :=
  do idd := run_identity_reconciliation (sc_scope sc) next_rev in
  do h := gets id in
  let prev := h_code_layer h in
  let next := (produce_layer h prev sc next_rev).1 in
  match affected_closure_with_deleted next prev
          (list_to_set (id_changed idd ++ id_deleted idd)) (list_to_set (id_deleted idd)) with
  | None => throw Panicked
  | Some affected =>
      let ids := btree_elements affected in
      do _ := modify (set_code_layer next) in
      do _ := check_fault armed "code_layer" in
      do _ := check_fault armed "identity_persist" in
      do _ := persist_identity w in
      ret (mkIdentityDelta (id_created idd) (id_changed idd) (id_deleted idd) (id_moved idd)
             ids (files_of next ids) (id_needs_review idd) (id_orphaned idd) (id_extracted idd)
             (id_scope_files idd) (id_authored_needs_review idd) (id_authored_orphaned idd))
  end.

Definition build_commit_delta (rev : Revision) (root : string) (sc : StagedCommit)
    (idd : IdentityDelta) (authored_ids : list string) (pc cs : bool) : CommitDelta :=
  mkCommitDelta rev (id_created idd) (id_changed idd) (id_deleted idd) (id_moved idd) authored_ids
    (id_affected idd)
    ((λ p, default p (native_to_graph root p)) <$> (sc_created sc ++ sc_changed sc ++ sc_deleted sc))
    (id_affected_files idd) (sc_created sc) (sc_changed sc) (sc_deleted sc)
    (id_needs_review idd) (id_orphaned idd) (id_authored_needs_review idd) (id_authored_orphaned idd)
    (id_extracted idd) (id_scope_files idd) (sc_rescan sc) pc cs.

(** What follows the publish: the authored store and the unsaved set. *)
Definition publish_tail (sc : StagedCommit) : Step (Revision * list string) :=
  do s := gets h_store in
  let '(s', rev) := publish_staged s (sc_gen sc) in
  do _ := modify (λ h, set_store h s') in
  do ids := match sc_authored sc with
            | Some ap => do _ := modify (set_authored (ap_next_store ap)) in ret [ap_id ap]
            | None => ret []
            end in
  do _ := modify (λ h, set_unsaved
            ((list_to_set (sc_unsaved_insert sc) ∪ h_unsaved h) ∖ list_to_set (sc_unsaved_remove sc)) h) in
  ret (rev, ids).

Definition run_staged (w : World) (sc : StagedCommit) (armed : option string) : Step CommitDelta :=
  do next_rev := gets (λ h, next_revision (h_store h)) in
  do _ := modify (set_system (sc_gen sc)) in
  do flags :=
    match sc_events sc with
    | [] => ret (false, false)
    | _ =>
        do h := gets id in
        let '(db, flags) := db_apply (h_db h) (h_system h) (sc_events sc) in
        do _ := modify (set_db db) in ret flags
    end in
  do idd := if sc_reconcile sc then staged_identity w sc armed next_rev else ret IdentityDelta_default in
  do _ := match sc_authored sc with
          | Some ap =>
              do _ := check_fault armed "authored_persist" in
              persist (w_authored_fault w) (ap_record_path ap) (ap_bytes ap)
                "failed to persist authored record"
          | None => ret tt
          end in
  do rev_ids := publish_tail sc in
  do root := gets h_root in
  ret (build_commit_delta rev_ids.1 root sc idd rev_ids.2 flags.1 flags.2).

Record Baseline := mkBaseline {
  b_published_gen : ContentMap;
  b_registry : IdentityRegistry;
  b_authored : gmap (string * string) AuthoredRecord;
  b_code_layer : CodeLayer;
}.

(** The draws of ids are not undone. *)
Definition rollback (h : HeadState) (b : Baseline) : HeadState :=
  set_code_layer (b_code_layer b)
    (set_authored (b_authored b)
       (set_registry (b_registry b) (h_minted h) (set_system (b_published_gen b) h))).

Definition commit (w : World) (h : HeadState) (m : Mutation) :
    HeadState * result CommitError (option CommitDelta) :=
  let '(h, plan) := build_plan w h m in
  match plan with
  | Err e => (h, Err e)
  | Ok None => (h, Ok None)
  | Ok (Some sc) =>
      let base := mkBaseline (capture (h_store h)) (h_registry h) (h_authored h) (h_code_layer h) in
      let armed := h_armed h in
      match run_staged w sc armed (set_armed None h) with
      | (h, Ok delta) => (h, Ok (Some delta))
      | (h, Err e) => (rollback h base, Err e)
      end
  end.
End commit.
