(* ===== verification/CommitFacts.v ===== *)
(** * Correctness of the commit

    A commit either publishes one new revision, whole and durable, or leaves
    everything the head holds as it was. *)

From Stdlib Require Import Ascii.
From S2P Require Import Prelude Str Paths Content Identity Entity EditDistance Reconcile ReconcileFacts ReconcileTheorems.
From S2P Require Import Json IdentityFormat Authored CodeLayer CodeBuilder CodeBuilderFacts CodeProducer Config Sidecar Commit.
Import Registry AuthoredStore.

(** ** Temporary files

    The temporary file of a write ends in [tmp], so it is none of the files
    the sidecar keeps. *)

Fixpoint last_char (s : string) : option ascii :=
  match s with
  | EmptyString => None
  | String c EmptyString => Some c
  | String _ s => last_char s
  end.

Lemma last_char_app a b : b ≠ "" → last_char (a +:+ b) = last_char b.
Proof.
  intros Hb. induction a as [|c a IH]; [done|].
  change (String c a +:+ b) with (String c (a +:+ b)). cbn [last_char]. rewrite IH.
  destruct (a +:+ b) eqn:E; [|done]. destruct a; simpl in E; subst; done.
Qed.

Lemma path_join_last root p : p ≠ "" → last_char (path_join root p) = last_char p.
Proof.
  intros Hp. unfold path_join. destruct (is_absolute p); [done|]. case_bool_decide; [done|].
  assert (last_char (root +:+ "/" +:+ p) = last_char p).
  { rewrite last_char_app by done. by apply (last_char_app "/"). }
  destruct (rsplit_once "/" root) as [[? []]|]; try done. by rewrite last_char_app.
Qed.

Lemma with_extension_last path : last_char (with_extension path "tmp") = Some "p"%char.
Proof.
  assert (∀ f, last_char (set_extension f "tmp") = Some "p"%char ∧ set_extension f "tmp" ≠ "") as Hset.
  { intros f. unfold set_extension.
    assert (∀ x, last_char (x +:+ "." +:+ "tmp") = Some "p"%char ∧ x +:+ "." +:+ "tmp" ≠ "") as H.
    { intros x. split; [by rewrite last_char_app|]. by destruct x. }
    destruct (rsplit_once "." f) as [[s e]|]; [destruct (String.eqb s "")|]; apply H. }
  unfold with_extension. destruct (rsplit_once "/" path) as [[d f]|]; [|apply Hset].
  destruct (Hset f) as [Hl Hne]. rewrite last_char_app by done. by rewrite (last_char_app "/").
Qed.

Lemma identity_path_not_tmp root path : with_extension path "tmp" ≠ identity_db_path root.
Proof.
  intros H. pose proof (with_extension_last path) as Hl. rewrite H in Hl.
  unfold identity_db_path in Hl. by rewrite path_join_last in Hl.
Qed.

Lemma record_path_not_tmp root layer id path : with_extension path "tmp" ≠ record_path root layer id.
Proof.
  intros H. pose proof (with_extension_last path) as Hl. rewrite H in Hl.
  unfold record_path in Hl. rewrite path_join_last in Hl by by destruct id.
  by rewrite last_char_app in Hl.
Qed.

Section facts.
Context {Ext : External} {SJ : SerdeJson} {Db : Type} {Eng : Engine Db}.
Context (mint : nat → DurableId).

(** ** The steps of the transaction *)

(** Two contents of the sidecar that agree on everything but temporary files. *)
Definition sidecar_same (fs fs' : gmap string string) : Prop :=
  ∀ p, (∀ q, p ≠ with_extension q "tmp") → fs' !! p = fs !! p.

Lemma sidecar_same_refl fs : sidecar_same fs fs.
Proof. done. Qed.

(** The head after the steps that precede the publish: database, overlay,
    registry, code layer and sidecar have moved, and nothing else. *)
Definition midway_head (h : HeadState (Db:=Db)) (db : Db) (g : ContentMap) (r : IdentityRegistry) (n : nat)
    (l : CodeLayer) (fs : gmap string string) : HeadState :=
  mkHeadState db (h_root h) (h_store h) g r (h_config h) fs (h_authored h) l (h_unsaved h) (h_armed h) n.

Lemma write_atomic_err fs path bytes fault fs' e :
  write_atomic fs path bytes fault = (fs', Err e) → sidecar_same fs fs'.
Proof.
  intros H p Hp. pose proof (write_atomic_fs fs path bytes fault) as E. rewrite H in E. simpl in E. subst fs'.
  destruct fault; try done; by rewrite lookup_insert_ne by (symmetry; apply Hp).
Qed.

Lemma write_atomic_ok fs path bytes fault fs' :
  write_atomic fs path bytes fault = (fs', Ok tt) →
  fs' !! path = Some bytes ∧
  ∀ p, p ≠ path → (∀ q, p ≠ with_extension q "tmp") → fs' !! p = fs !! p.
Proof.
  intros H. pose proof (write_atomic_fs fs path bytes fault) as E. rewrite H in E. simpl in E. subst fs'.
  destruct fault; try done. split; [apply lookup_insert_eq|].
  intros p Hp Htmp. rewrite lookup_insert_ne by done. apply lookup_delete_ne. symmetry. apply Htmp.
Qed.

Lemma persist_spec fault path bytes msg (h : HeadState (Db:=Db)) :
  match persist fault path bytes msg h with
  | (h', Ok _) => h' = set_sidecar (h_sidecar h') h ∧ write_atomic (h_sidecar h) path bytes fault = (h_sidecar h', Ok tt)
  | (h', Err e) => h' = set_sidecar (h_sidecar h') h ∧ sidecar_same (h_sidecar h) (h_sidecar h') ∧
      e = SidecarWriteError msg
  end.
Proof.
  unfold persist, step_bind, gets, modify, ret, throw.
  destruct (write_atomic (h_sidecar h) path bytes fault) as [fs' [[]|e]] eqn:E;
    simpl; split; try done.
  split; [by eapply write_atomic_err|done].
Qed.

Lemma reconciliation_spec scope rev (h : HeadState (Db:=Db)) :
  ∃ r n idd, run_identity_reconciliation mint scope rev h = (set_registry r n h, Ok idd).
Proof.
  unfold run_identity_reconciliation, step_bind, gets. simpl.
  destruct (reconcile_impl_total mint (h_registry h) (db_entities (h_db h) (h_system h) scope) rev scope
    (h_minted h)) as [[[r rc] n] ->]. simpl.
  by eexists _, _, _.
Qed.

Lemma check_fault_spec armed stage (h : HeadState (Db:=Db)) :
  check_fault armed stage h = (h, Ok tt) ∨ ∃ e, check_fault armed stage h = (h, Err e) ∧ e ≠ Panicked.
Proof.
  unfold check_fault. case_bool_decide; [right|by left]. eexists. split; [done|]. by case_bool_decide.
Qed.

Lemma produce_layer_wf (h : HeadState (Db:=Db)) prev sc rev :
  layer_wf prev → layer_wf (produce_layer h prev sc rev).1.
Proof.
  intros Hp. unfold produce_layer.
  assert (∀ rev b, layer_wf (produce_code_delta (h_root h) (db_view (h_db h) (h_system h) (h_registry h))
    CodeLayer_new rev b).1) as Hfull.
  { intros. by apply (build_spec _ _ False). }
  destruct (_ <$> sc_scope sc); [|apply Hfull]. destruct (_ && _); [|apply Hfull]. by apply scoped_wf.
Qed.

Lemma staged_identity_spec w sc armed rev (h : HeadState (Db:=Db)) :
  match staged_identity mint w sc armed rev h with
  | (h', Ok idd) => ∃ r n l fs, h' = midway_head h (h_db h) (h_system h) r n l fs ∧
      write_atomic (h_sidecar h) (identity_db_path (sidecar_root (h_root h))) (registry_to_bytes r)
        (w_identity_fault w) = (fs, Ok tt) ∧ (layer_wf (h_code_layer h) → layer_wf l)
  | (h', Err e) => e ≠ Panicked ∧ ∃ r n l fs, h' = midway_head h (h_db h) (h_system h) r n l fs ∧
      sidecar_same (h_sidecar h) fs
  end.
Proof.
  unfold staged_identity, step_bind at 1.
  destruct (reconciliation_spec (sc_scope sc) rev h) as (r & n & idd & ->).
  unfold step_bind at 1, gets at 1. simpl.
  destruct (affected_closure_spec (produce_layer (set_registry r n h) (h_code_layer h) sc rev).1 (h_code_layer h)
    (list_to_set (id_changed idd ++ id_deleted idd)) (list_to_set (id_deleted idd))) as (aff & -> & _).
  set (l := (produce_layer _ _ _ _).1). unfold step_bind at 1, modify at 1.
  set (h1 := set_code_layer l (set_registry r n h)).
  assert (∀ e, e ≠ Panicked → e ≠ Panicked ∧ ∃ r n l fs, h1 = midway_head h (h_db h) (h_system h) r n l fs ∧
            sidecar_same (h_sidecar h) fs) as Herr.
  { intros e He. split; [done|]. by exists r, n, l, (h_sidecar h). }
  unfold step_bind at 1. destruct (check_fault_spec armed "code_layer" h1) as [->|(e & -> & He)];
    [|by apply Herr].
  unfold step_bind at 1. destruct (check_fault_spec armed "identity_persist" h1) as [->|(e & -> & He)];
    [|by apply Herr].
  unfold step_bind at 1, persist_identity, step_bind at 1, gets at 1. simpl.
  pose proof (persist_spec (w_identity_fault w) (identity_db_path (sidecar_root (h_root h)))
    (registry_to_bytes r) "failed to persist identity registry" h1) as Hp.
  destruct (persist _ _ _ _ h1) as [h2 [[]|e]]; simpl.
  - destruct Hp as [-> Hw]. exists r, n, l, (h_sidecar h2). do 2 (split; [done|]). apply produce_layer_wf.
  - destruct Hp as (-> & Hs & ->). split; [done|]. by exists r, n, l, (h_sidecar h2).
Qed.

(** Applying the engine change moves the database only. *)
Definition apply_events (sc : StagedCommit) : Step (Db:=Db) (bool * bool) :=
  match sc_events sc with
  | [] => ret (false, false)
  | _ =>
      step_bind (gets id) (λ h,
        let '(db, flags) := db_apply (h_db h) (h_system h) (sc_events sc) in
        step_bind (modify (set_db db)) (λ _, ret flags))
  end.

(** The database after the changes of a plan, over the staged content. *)
Definition staged_db (h : HeadState (Db:=Db)) (sc : StagedCommit) : Db :=
  match sc_events sc with
  | [] => h_db h
  | _ => (db_apply (h_db h) (sc_gen sc) (sc_events sc)).1
  end.

Lemma apply_events_spec sc (h : HeadState (Db:=Db)) :
  ∃ flags, apply_events sc (set_system (sc_gen sc) h) = (set_db (staged_db h sc) (set_system (sc_gen sc) h), Ok flags).
Proof.
  unfold apply_events, staged_db. destruct (sc_events sc) as [|e es].
  - exists (false, false). by destruct h.
  - unfold step_bind, gets, modify, ret. simpl. destruct (db_apply _ _ _) as [db flags]. eauto.
Qed.

(** The authored store and the unsaved set after the publish. *)
Definition tail_authored (h : HeadState (Db:=Db)) (sc : StagedCommit) :=
  match sc_authored sc with Some ap => ap_next_store ap | None => h_authored h end.

Definition tail_unsaved (h : HeadState (Db:=Db)) (sc : StagedCommit) : gset string :=
  (list_to_set (sc_unsaved_insert sc) ∪ h_unsaved h) ∖ list_to_set (sc_unsaved_remove sc).

Definition tail_ids (sc : StagedCommit) : list string :=
  match sc_authored sc with Some ap => [ap_id ap] | None => [] end.

Definition published_head (h : HeadState (Db:=Db)) (sc : StagedCommit) (db : Db) (r : IdentityRegistry)
    (n : nat) (l : CodeLayer) (fs : gmap string string) : HeadState :=
  mkHeadState db (h_root h) (publish_staged (h_store h) (sc_gen sc)).1 (sc_gen sc) r (h_config h) fs
    (tail_authored h sc) l (tail_unsaved h sc) (h_armed h) n.

(** What a successful transaction made of the database and wrote to the sidecar. *)
Record durable (w : World) (h : HeadState (Db:=Db)) (sc : StagedCommit) (db : Db) (r : IdentityRegistry)
    (l : CodeLayer) (fs : gmap string string) : Prop := {
  du_db : db = staged_db h sc;
  du_identity : sc_reconcile sc = true →
    fs !! identity_db_path (sidecar_root (h_root h)) = Some (registry_to_bytes r);
  du_same : sc_reconcile sc = false → r = h_registry h ∧ l = h_code_layer h;
  du_record : ∀ ap, sc_authored sc = Some ap → fs !! ap_record_path ap = Some (ap_bytes ap);
  du_layer : layer_wf (h_code_layer h) → layer_wf l;
}.

Lemma publish_tail_spec sc (h : HeadState (Db:=Db)) :
  h_system h = sc_gen sc →
  publish_tail sc h =
    (published_head h sc (h_db h) (h_registry h) (h_minted h) (h_code_layer h) (h_sidecar h), Ok
      (revision (publish_staged (h_store h) (sc_gen sc)).1, tail_ids sc)).
Proof.
  intros Hs. unfold publish_tail, published_head, tail_authored, tail_unsaved, tail_ids.
  destruct h. simpl in Hs. subst. by destruct (sc_authored sc) as [ap|].
Qed.

Lemma run_staged_spec w sc armed (h : HeadState (Db:=Db)) :
  (sc_reconcile sc = true → sc_authored sc = None) →
  match run_staged mint w sc armed h with
  | (h', Ok d) => ∃ db r n l fs, h' = published_head h sc db r n l fs ∧ durable w h sc db r l fs ∧
      cd_revision d = revision (publish_staged (h_store h) (sc_gen sc)).1 ∧
      cd_authored_ids d = tail_ids sc
  | (h', Err e) => e ≠ Panicked ∧ ∃ r n l fs, h' = midway_head h (staged_db h sc) (sc_gen sc) r n l fs ∧
      sidecar_same (h_sidecar h) fs
  end.
Proof.
  intros Hplan. unfold run_staged. unfold step_bind at 1, gets at 1.
  unfold step_bind at 1, modify at 1. fold (apply_events sc).
  unfold step_bind at 1. destruct (apply_events_spec sc h) as (flags & ->). set (db := staged_db h sc).
  set (h1 := set_db db (set_system (sc_gen sc) h)). unfold step_bind at 1.
  destruct (sc_reconcile sc) eqn:Hrec.
  - pose proof (staged_identity_spec w sc armed (next_revision (h_store h)) h1) as Hid.
    destruct (staged_identity _ _ _ _ _ h1) as [h2 [idd|e]].
    2:{ destruct Hid as (He & r & n & l & fs & -> & Hs). split; [done|]. by exists r, n, l, fs. }
    destruct Hid as (r & n & l & fs & -> & [Hfs _]%write_atomic_ok & Hl). rewrite Hplan by done.
    unfold step_bind at 1, ret at 1. unfold step_bind at 1.
    rewrite (publish_tail_spec sc (midway_head h1 (h_db h1) (h_system h1) r n l fs)) by done.
    exists db, r, n, l, fs. split; [done|]. split; [|done]. split; [done|done|congruence| |exact Hl].
    intros ap Hap. by rewrite Hplan in Hap.
  - unfold ret at 1. unfold step_bind at 1.
    destruct (sc_authored sc) as [ap|] eqn:Hap.
    + unfold step_bind at 1. destruct (check_fault_spec armed "authored_persist" h1) as [->|(e & -> & He)].
      2:{ split; [done|]. by exists (h_registry h), (h_minted h), (h_code_layer h), (h_sidecar h). }
      pose proof (persist_spec (w_authored_fault w) (ap_record_path ap) (ap_bytes ap)
        "failed to persist authored record" h1) as Hp.
      destruct (persist _ _ _ _ h1) as [h2 [[]|e]].
      2:{ destruct Hp as (-> & Hs & ->). split; [done|].
          by exists (h_registry h), (h_minted h), (h_code_layer h), (h_sidecar h2). }
      destruct Hp as [Hh2 [Hfs _]%write_atomic_ok]. unfold step_bind at 1.
      rewrite (publish_tail_spec sc h2) by by rewrite Hh2.
      exists db, (h_registry h), (h_minted h), (h_code_layer h), (h_sidecar h2). rewrite Hh2.
      split; [done|]. split; [|done]. split; [done|congruence|done| |done]. rewrite Hap. by intros ? [= <-].
    + unfold ret at 1. unfold step_bind at 1.
      rewrite (publish_tail_spec sc h1) by done.
      exists db, (h_registry h), (h_minted h), (h_code_layer h), (h_sidecar h).
      split; [done|]. split; [|done]. split; [done|congruence|done| |done]. by rewrite Hap.
Qed.

(** ** Plans *)

(** Staging draws versions and counts disk reads; the rest of the store stays. *)
Definition store_same (s s' : ContentStore) : Prop :=
  s' = mkContentStore (generation s) (revision s) (version_counter s') (retained s) (retain_cap s)
         (disk_reads s').

Lemma stage_same s cs : store_same s (stage s cs).1.
Proof. unfold store_same, stage. by destruct (stage_loop _ _ _). Qed.

Lemma stage_reingest_same read entries filt skip s :
  store_same s (stage_reingest read entries filt skip s).1.
Proof.
  unfold stage_reingest. destruct (read_disk_changes _ _ _) as [cs n].
  unfold store_same, stage. by destruct (stage_loop _ _ _).
Qed.

Lemma store_same_refl s : store_same s s.
Proof. by destruct s. Qed.

Record plan_ok (h h' : HeadState (Db:=Db)) (res : result CommitError (option StagedCommit)) : Prop := {
  po_head : h' = set_store h (h_store h');
  po_store : store_same (h_store h) (h_store h');
  po_total : res ≠ Err Panicked;
  po_kind : ∀ sc, res = Ok (Some sc) → sc_reconcile sc = true → sc_authored sc = None;
}.

Lemma set_store_id (h : HeadState (Db:=Db)) : h = set_store h (h_store h).
Proof. by destruct h. Qed.

Lemma plan_ok_stay (h : HeadState (Db:=Db)) res :
  res ≠ Err Panicked → (∀ sc, res = Ok (Some sc) → sc_reconcile sc = true → sc_authored sc = None) →
  plan_ok h h res.
Proof. intros. split; auto using set_store_id, store_same_refl. Qed.

Lemma plan_ok_staged (h : HeadState (Db:=Db)) s g es cr ch de re scope ins rem :
  store_same (h_store h) s →
  plan_ok h (set_store h s) (Ok (Some (mkStagedCommit g es cr ch de re scope true None ins rem))).
Proof. intros. split; [done..|]. by intros ? [= <-]. Qed.

Lemma author_plan_spec (h : HeadState (Db:=Db)) layer id value :
  match build_author_plan h layer id value with
  | Ok sc => sc_reconcile sc = false
  | Err e => e ≠ Panicked
  end.
Proof.
  unfold build_author_plan. destruct (authored_layer_config _ _) as [lcfg|]; [|done].
  destruct (get _ _) as [a|]; [|done]. unfold records_get, put. by rewrite lookup_insert_eq.
Qed.

Lemma build_plan_ok w (h : HeadState (Db:=Db)) m :
  plan_ok h (build_plan w h m).1 (build_plan w h m).2.
Proof.
  destruct m as [cs es cr ch us|abs| |layer id value|es]; simpl.
  - pose proof (stage_same (h_store h) cs). destruct (stage _ _). by apply plan_ok_staged.
  - destruct (match w_read w abs with Ok _ => _ | Err _ => _ end) as [[[[c e] cr] ch] de].
    pose proof (stage_same (h_store h) [c]). destruct (stage _ _). by apply plan_ok_staged.
  - pose proof (stage_reingest_same (w_read w) (w_entries w) is_project_relevant (h_unsaved h) (h_store h)).
    destruct (stage_reingest _ _ _ _ _). by apply plan_ok_staged.
  - pose proof (author_plan_spec h layer id value).
    destruct (build_author_plan _ _ _ _) as [sc|e]; apply plan_ok_stay; simpl; try congruence.
  - unfold build_poll_plan. case_bool_decide; [by apply plan_ok_stay|].
    destruct (existsb is_rescan es); [by apply plan_ok_stay; [|intros ? [= <-]]|].
    case_bool_decide; [by apply plan_ok_stay|].
    pose proof (stage_same (h_store h) (pa_changes (poll_acc w (h_unsaved h) es))).
    destruct (stage _ _). by apply plan_ok_staged.
Qed.

(** ** Whole commits *)

(** What the head itself holds: the published revision and content, the retained
    window, the live overlay, the registry, the authored store, the code layer, the
    unsaved buffers and the configuration.  Not the analysis database, which live
    queries go through, nor the counters of versions, disk reads and ids. *)
Definition observe (h : HeadState (Db:=Db)) :=
  (h_root h, (revision (h_store h), generation (h_store h), retained (h_store h)), h_system h,
   h_registry h, h_config h, h_authored h, h_code_layer h, h_unsaved h).

(** Between commits the live overlay shows the published generation. *)
Definition coherent (h : HeadState (Db:=Db)) : Prop := h_system h = generation (h_store h).

(** The three outcomes of a commit. *)
Lemma commit_spec w (h : HeadState (Db:=Db)) m :
  let h1 := (build_plan w h m).1 in
  match commit mint w h m with
  | (h', Ok (Some d)) => ∃ sc db r n l fs,
      (build_plan w h m).2 = Ok (Some sc) ∧
      h' = published_head (set_armed None h1) sc db r n l fs ∧
      durable w h1 sc db r l fs ∧ cd_revision d = u64_succ (revision (h_store h)) ∧
      cd_authored_ids d = tail_ids sc
  | (h', Ok None) => (build_plan w h m).2 = Ok None ∧ h' = h1
  | (h', Err e) => e ≠ Panicked ∧ sidecar_same (h_sidecar h) (h_sidecar h') ∧
      (coherent h → observe h' = observe h) ∧
      (h_db h' = h_db h ∨ ∃ sc, (build_plan w h m).2 = Ok (Some sc) ∧ h_db h' = staged_db h sc)
  end.
Proof.
  simpl. destruct (build_plan_ok w h m) as [Hh Hs Ht Hk]. unfold commit.
  destruct (build_plan w h m) as [h1 res]. simpl in *.
  generalize dependent (h_store h1). intros s1 -> Hs. destruct res as [[sc|]|e].
  - set (h2 := set_armed None _).
    pose proof (run_staged_spec w sc (h_armed (set_store h s1)) h2 (Hk sc eq_refl)) as Hrun.
    destruct (run_staged _ _ _ _ h2) as [h3 [d|e]].
    + destruct Hrun as (db & r & n & l & fs & -> & Hd & Hrev & Hids).
      exists sc, db, r, n, l, fs. do 2 (split; [done|]). split; [by destruct Hd|].
      rewrite Hrev, Hids. simpl. by rewrite Hs.
    + destruct Hrun as (He & r & n & l & fs & -> & Hsc). split; [done|]. split; [done|].
      split; [|right; by exists sc]. unfold coherent, observe. simpl. rewrite Hs. simpl. by intros ->.
  - done.
  - split; [congruence|]. split; [done|]. split; [|by left]. intros _. unfold observe. simpl. by rewrite Hs.
Qed.

(** C1: a commit that fails, at whatever step, leaves the head as it was: the
    published revision and content, the retained window, the live overlay, the
    registry, the authored records, the code layer, the unsaved buffers, and every
    file of the sidecar but temporary ones; it never panics.  The analysis database
    is the one thing that is not rolled back: it is the old one, or the one that has
    applied the staged changes, over the restored overlay. *)
Theorem commit_failure_rolls_back w (h h' : HeadState (Db:=Db)) m e :
  coherent h → commit mint w h m = (h', Err e) →
  observe h' = observe h ∧ sidecar_same (h_sidecar h) (h_sidecar h') ∧ e ≠ Panicked ∧
  (h_db h' = h_db h ∨ ∃ sc, (build_plan w h m).2 = Ok (Some sc) ∧ h_db h' = staged_db h sc).
Proof.
  intros Hco Hc. pose proof (commit_spec w h m) as H. rewrite Hc in H.
  destruct H as (He & Hs & Ho & Hd). auto.
Qed.

(** The plans of author writes and of the others. *)
Lemma author_plan_inv w (h : HeadState (Db:=Db)) layer id value sc :
  (build_plan w h (Author layer id value)).2 = Ok (Some sc) →
  ∃ lcfg anchor,
    authored_layer_config (h_config h) layer = Some lcfg ∧ get (h_registry h) id = Some anchor ∧
    let version := mkAuthoredVersion value (next_revision (h_store h)) (Some (a_content_hash anchor)) in
    let next := put (h_authored h) layer id version (history lcfg) in
    ∃ rec, records_get next layer id = Some rec ∧ rec_current rec = version ∧
      sc_gen sc = generation (h_store h) ∧ sc_reconcile sc = false ∧ sc_events sc = [] ∧
      sc_unsaved_insert sc = [] ∧ sc_unsaved_remove sc = [] ∧
      sc_authored sc = Some (mkAuthoredPlan next (record_path (sidecar_root (h_root h)) layer id)
        (doc_to_bytes (mkAuthoredRecordDoc AUTHORED_FORMAT_VERSION layer id
           (rec_current rec) (rec_history rec))) id).
Proof.
  simpl. unfold build_author_plan. destruct (authored_layer_config _ _) as [lcfg|]; [|done].
  destruct (get _ _) as [anchor|]; [|done]. unfold records_get, put. rewrite lookup_insert_eq.
  intros [= <-]. exists lcfg, anchor. do 2 (split; [done|]). eexists. by rewrite lookup_insert_eq.
Qed.

Definition is_author (m : Mutation) : bool := match m with Author _ _ _ => true | _ => false end.

Lemma reconciling_plan w (h : HeadState (Db:=Db)) m sc :
  is_author m = false →
  (build_plan w h m).2 = Ok (Some sc) → sc_reconcile sc = true.
Proof.
  destruct m as [cs es cr ch us|abs| |layer id value|es]; simpl; intros Hm.
  - destruct (stage _ _). by intros [= <-].
  - destruct (match w_read w abs with Ok _ => _ | Err _ => _ end) as [[[[c e] cr] ch] de].
    destruct (stage _ _). by intros [= <-].
  - destruct (stage_reingest _ _ _ _ _). by intros [= <-].
  - done.
  - unfold build_poll_plan. case_bool_decide; [done|].
    destruct (existsb is_rescan es); [by intros [= <-]|]. case_bool_decide; [done|].
    destruct (stage _ _). by intros [= <-].
Qed.

Lemma build_plan_root w (h : HeadState (Db:=Db)) m :
  h_root (build_plan w h m).1 = h_root h ∧ h_authored (build_plan w h m).1 = h_authored h ∧
  h_registry (build_plan w h m).1 = h_registry h ∧ h_unsaved (build_plan w h m).1 = h_unsaved h ∧
  h_config (build_plan w h m).1 = h_config h.
Proof. destruct (build_plan_ok w h m) as [-> _ _ _]. done. Qed.

(** What a commit makes durable: the reconciled registry, or, for an author
    write, the record it stores. *)
Definition commit_durable (h h' : HeadState (Db:=Db)) (m : Mutation) : Prop :=
  match m with
  | Author layer id value =>
      h_registry h' = h_registry h ∧
      ∃ rec, records_get (h_authored h') layer id = Some rec ∧
        v_value (rec_current rec) = value ∧ v_revision (rec_current rec) = revision (h_store h') ∧
        h_sidecar h' !! record_path (sidecar_root (h_root h)) layer id =
          Some (doc_to_bytes (mkAuthoredRecordDoc AUTHORED_FORMAT_VERSION layer id
                  (rec_current rec) (rec_history rec)))
  | _ =>
      h_authored h' = h_authored h ∧
      h_sidecar h' !! identity_db_path (sidecar_root (h_root h)) = Some (registry_to_bytes (h_registry h'))
  end.

Lemma commit_published w (h h' : HeadState (Db:=Db)) m d :
  commit mint w h m = (h', Ok (Some d)) →
  revision (h_store h') = u64_succ (revision (h_store h)) ∧ cd_revision d = revision (h_store h') ∧
  coherent h' ∧ h_armed h' = None ∧ commit_durable h h' m.
Proof.
  intros Hc. pose proof (commit_spec w h m) as H. rewrite Hc in H. simpl in H.
  destruct H as (sc & db & r & n & l & fs & Hp & -> & Hd & -> & _).
  destruct (build_plan_ok w h m) as [_ Hs _ Hk].
  destruct (build_plan_root w h m) as (Hr & Ha & Hreg & _). simpl. rewrite Hs. simpl.
  do 4 (split; [done|]). unfold commit_durable. simpl. unfold tail_authored.
  destruct m as [cs es cr ch us|abs| |layer id value|es].
  4:{ apply author_plan_inv in Hp as (lcfg & anchor & _ & _ & rec & Hrec & Hcur & _ & Hre & _ & _ & _ & Hap).
      destruct Hd as [_ _ Hsame Hd _]. rewrite Hap. simpl.
      destruct (Hsame Hre) as [-> _]. split; [done|]. exists rec. rewrite Hcur. simpl.
      do 3 (split; [done|]).
      specialize (Hd _ Hap). simpl in Hd. rewrite Hd. by rewrite Hcur. }
  all: assert (sc_reconcile sc = true) as Hre
    by (refine (reconciling_plan w h _ sc _ Hp); done).
  all: rewrite (Hk sc Hp Hre); cbn [h_authored set_armed]; rewrite Ha; split; [done|];
    rewrite <- Hr; by apply Hd.
Qed.

(** C2: a commit that succeeds publishes exactly the next revision, leaves the
    overlay on the published content, and what it changed is on disk. *)
Theorem commit_success_durable w (h h' : HeadState (Db:=Db)) m d :
  commit mint w h m = (h', Ok (Some d)) →
  revision (h_store h') = u64_succ (revision (h_store h)) ∧ cd_revision d = revision (h_store h') ∧
  coherent h' ∧ h_armed h' = None ∧ commit_durable h h' m.
Proof. apply commit_published. Qed.

Lemma commit_root w (h h' : HeadState (Db:=Db)) m d :
  commit mint w h m = (h', Ok (Some d)) → h_root h' = h_root h.
Proof.
  intros Hc. pose proof (commit_spec w h m) as H. rewrite Hc in H.
  destruct H as (sc & db & r & n & l & fs & _ & -> & _). apply build_plan_root.
Qed.

(** ** Sequences of commits *)

(** The head after a sequence of writes, each with its own disk, and for every
    one that published a revision its delta and its content. *)
Fixpoint session (h : HeadState (Db:=Db)) (ops : list (World * Mutation)) :
    HeadState * list (CommitDelta * ContentMap) :=
  match ops with
  | [] => (h, [])
  | (w, m) :: ops =>
      match commit mint w h m with
      | (h1, Ok (Some d)) =>
          let '(h', out) := session h1 ops in (h', (d, generation (h_store h1)) :: out)
      | (h1, _) => session h1 ops
      end
  end.

Lemma repr_same log s s' : store_same s s' → store_repr log s → store_repr log s'.
Proof. intros -> Hs. by eapply repr_ext. Qed.

(** One commit against the log: it appends its generation, or nothing. *)
Lemma commit_repr w (h : HeadState (Db:=Db)) m log :
  coherent h → store_repr log (h_store h) → (revision (h_store h) + 1 < u64_modulus)%N →
  match commit mint w h m with
  | (h', Ok (Some d)) => coherent h' ∧ store_repr (log ++ [generation (h_store h')]) (h_store h') ∧
      cd_revision d = (revision (h_store h) + 1)%N ∧
      revision (h_store h') = (revision (h_store h) + 1)%N
  | (h', _) => coherent h' ∧ store_repr log (h_store h') ∧ revision (h_store h') = revision (h_store h)
  end.
Proof.
  intros Hco Hlog Hov. destruct (build_plan_ok w h m) as [Hh Hs _ Hk].
  apply (repr_same _ _ _ Hs) in Hlog. unfold commit.
  destruct (build_plan w h m) as [h1 res]. simpl in *.
  generalize dependent (h_store h1). intros s1 Hlog -> Hs.
  assert (revision s1 = revision (h_store h)) as Hrev by by rewrite Hs.
  destruct res as [[sc|]|e].
  - pose proof (run_staged_spec w sc (h_armed (set_store h s1)) (set_armed None (set_store h s1))
      (Hk sc eq_refl)) as Hrun.
    destruct (run_staged _ _ _ _ _) as [h3 [d|e]].
    + destruct Hrun as (db & r & n & l & fs & -> & _ & -> & _). simpl.
      rewrite Hrev, u64_succ_small by done. split; [done|]. split; [|done].
      rewrite <- (u64_succ_small (revision (h_store h))), <- Hrev by done.
      apply (record_retained_repr log (sc_gen sc) s1); [done|by rewrite Hrev].
    + destruct Hrun as (_ & r & n & l & fs & -> & _). simpl. by split.
  - split; [|done]. unfold coherent. simpl. by rewrite Hs.
  - split; [|done]. unfold coherent. simpl. by rewrite Hs.
Qed.

(** The invariant of a session, and the revisions of its deltas. *)
Lemma session_repr (h : HeadState (Db:=Db)) ops log :
  coherent h → store_repr log (h_store h) →
  (revision (h_store h) + N.of_nat (length ops) < u64_modulus)%N →
  let '(h', out) := session h ops in
  coherent h' ∧ store_repr (log ++ out.*2) (h_store h') ∧
  (∀ k d, out.*1 !! k = Some d → cd_revision d = (revision (h_store h) + 1 + N.of_nat k)%N) ∧
  revision (h_store h') = (revision (h_store h) + N.of_nat (length out))%N.
Proof.
  revert h log. induction ops as [|[w m] ops IH]; intros h log Hco Hlog Hov; cbn [session].
  { simpl. rewrite app_nil_r. do 3 (split; [done|]). simpl; lia. }
  cbn [length] in Hov.
  pose proof (commit_repr w h m log Hco Hlog ltac:(lia)) as H1.
  assert (∀ h1 : HeadState, coherent h1 ∧ store_repr log (h_store h1) ∧
    revision (h_store h1) = revision (h_store h) → (revision (h_store h1) + N.of_nat (length ops) < u64_modulus)%N)
    as Hquiet by (intros h1 (_ & _ & ->); lia).
  destruct (commit mint w h m) as [h1 [[d|]|e]].
  - destruct H1 as (Hco1 & Hlog1 & Hd & Hrev1).
    specialize (IH h1 _ Hco1 Hlog1 ltac:(lia)). destruct (session h1 ops) as [h' out].
    simpl. rewrite <- (assoc_L (++)) in IH. destruct IH as (IH1 & IH2 & IH3 & IH4). simpl in *.
    do 2 (split; [done|]). split; [|lia].
    intros [|k] d' Hk; simpl in Hk; [simplify_eq; lia|]. rewrite (IH3 k d' Hk). lia.
  - specialize (IH h1 log ltac:(tauto) ltac:(tauto) (Hquiet h1 H1)).
    destruct H1 as (_ & _ & Hrev1). destruct (session h1 ops) as [h' out]. by rewrite Hrev1 in IH.
  - specialize (IH h1 log ltac:(tauto) ltac:(tauto) (Hquiet h1 H1)).
    destruct H1 as (_ & _ & Hrev1). destruct (session h1 ops) as [h' out]. by rewrite Hrev1 in IH.
Qed.

(** C3: a session refines an append-only log.  The writes that publish get
    consecutive revisions, the head is the last of the log, and every revision
    still in the retained window reads back as the content published under it,
    whatever was written, failed or skipped since. *)
Theorem session_refines_log (h : HeadState (Db:=Db)) ops log :
  coherent h → store_repr log (h_store h) →
  (revision (h_store h) + N.of_nat (length ops) < u64_modulus)%N →
  let '(h', out) := session h ops in
  let log' := log ++ out.*2 in
  coherent h' ∧ last log' = Some (generation (h_store h')) ∧
  (∀ k d, out.*1 !! k = Some d → cd_revision d = (revision (h_store h) + 1 + N.of_nat k)%N) ∧
  revision (h_store h') = (revision (h_store h) + N.of_nat (length out))%N ∧
  ∀ r, generation_at (h_store h') r =
    if decide (N.of_nat (length log') - retain_cap (h_store h') ≤ r)%N then log' !! N.to_nat r else None.
Proof.
  intros Hco Hlog Hov. pose proof (session_repr h ops log Hco Hlog Hov) as H.
  destruct (session h ops) as [h' out]. destruct H as (Hco' & Hlog' & Hd & Hrev).
  split; [done|]. split; [by destruct Hlog'|]. do 2 (split; [done|]).
  intros r. by apply repr_generation_at.
Qed.

(** ** The content a commit publishes *)

(** What an event of the watcher says of path [p]. *)
Definition event_effect (w : World) (p : string) (e : ChangeEvent) : option (option string) :=
  match e with
  | EvCreated q | EvChanged q _ =>
      if decide (p = q) then Some (match w_read w p with Ok t => Some t | Err _ => None end) else None
  | EvDeleted q => if decide (p = q) then Some None else None
  | _ => None
  end.

(** The overlay state of path [p] after a write, in terms of the state before
    it, the disk and the unsaved buffers. *)
Definition committed_overlay (w : World) (h : HeadState (Db:=Db)) (m : Mutation) (p : string) :
    option (option string) :=
  let old := overlay_state (generation (h_store h)) p in
  match m with
  | Overlay changes _ _ _ _ => default old (last_effect p changes)
  | SyncPath abs =>
      if decide (p = abs) then Some (match w_read w abs with Ok t => Some t | Err _ => None end) else old
  | SyncAll =>
      if decide (p ∈ walk_relevant_files (w_entries w) is_project_relevant ∧ p ∉ h_unsaved h) then
        match w_read w p with
        | Ok t => Some (Some t)
        | Err NotFound => Some None
        | Err IoOther => old
        end
      else old
  | Author _ _ _ => old
  | Poll events =>
      if existsb is_rescan events || bool_decide (p ∈ h_unsaved h) then old
      else default old (Some <$> last (omap (event_effect w p) events))
  end.

Definition committed_unsaved (h : HeadState (Db:=Db)) (m : Mutation) : gset string :=
  match m with
  | Overlay _ _ _ _ unsaved => list_to_set unsaved ∪ h_unsaved h
  | SyncPath abs => h_unsaved h ∖ {[ abs ]}
  | _ => h_unsaved h
  end.

Lemma last_effect_snoc p cs c :
  last_effect p (cs ++ [c]) =
    match change_effect p c with Some x => Some x | None => last_effect p cs end.
Proof.
  unfold last_effect. rewrite omap_app. cbn [omap list_omap].
  destruct (change_effect p c); [by rewrite last_snoc|by rewrite app_nil_r].
Qed.

Lemma poll_step_changes w u acc e p :
  last_effect p (pa_changes (poll_step w u acc e)) =
    match (if decide (p ∈ u) then None else event_effect w p e) with
    | Some x => Some (Some x)
    | None => last_effect p (pa_changes acc)
    end.
Proof.
  unfold poll_step, disk_change.
  destruct e as [q|q|q k|q|q|q|]; simpl; try (by case_decide).
  all: case_bool_decide; simpl; rewrite ?last_effect_snoc; try (destruct (w_read w q) eqn:E); simpl;
    repeat case_decide; simplify_eq; rewrite ?E; try done.
Qed.

Lemma poll_acc_changes w u es p :
  last_effect p (pa_changes (poll_acc w u es)) =
    if decide (p ∈ u) then None else Some <$> last (omap (event_effect w p) es).
Proof.
  unfold poll_acc. induction es as [|e es IH] using rev_ind; [by case_decide|].
  rewrite foldl_app. cbn [foldl]. rewrite poll_step_changes, IH, omap_app. cbn [omap list_omap].
  case_decide; [done|]. destruct (event_effect w p e); [by rewrite last_snoc|by rewrite app_nil_r].
Qed.

(** Synchronising a path reports the event that [classify_disk_sync] gives, on
    a path the overlay has no document for and whose file, if there is one, can
    be read; a file that cannot be read is reported, and staged, as deleted. *)
Theorem sync_event_classified w (h : HeadState (Db:=Db)) abs :
  system (h_system h) !! abs = None →
  ∃ sc, (build_plan w h (SyncPath abs)).2 = Ok (Some sc) ∧
    (w_is_file w abs = is_ok (w_read w abs) → sc_events sc = [classify_disk_sync w h abs]) ∧
    (is_ok (w_read w abs) = false →
      sc_events sc = [EvDeleted abs] ∧ overlay_state (sc_gen sc) abs = Some None).
Proof.
  intros Hn. cbn [build_plan].
  destruct (match w_read w abs with Ok _ => _ | Err _ => _ end) as [[[[c e] cr] ch] de] eqn:Ec.
  pose proof (stage_overlay (h_store h) [c] abs) as Hst. destruct (stage _ _). eexists. split; [done|].
  unfold classify_disk_sync, overlay_has_file. rewrite Hn. simpl in *. rewrite Hst. split.
  - intros ->. destruct (w_read w abs); [destruct (is_new_file h abs)|]; by simplify_eq.
  - destruct (w_read w abs); [done|]. simplify_eq. simpl. split; [done|]. unfold last_effect. simpl. by rewrite ?decide_True.
Qed.

Lemma build_plan_content w (h : HeadState (Db:=Db)) m sc p :
  (build_plan w h m).2 = Ok (Some sc) →
  overlay_state (sc_gen sc) p = committed_overlay w h m p ∧ tail_unsaved h sc = committed_unsaved h m.
Proof.
  destruct m as [cs es cr ch us|abs| |layer id value|es].
  - simpl. pose proof (stage_overlay (h_store h) cs p) as Hst. destruct (stage _ _).
    intros [= <-]. split; [done|]. unfold tail_unsaved. simpl. set_solver.
  - cbn [build_plan committed_overlay committed_unsaved].
    destruct (match w_read w abs with Ok _ => _ | Err _ => _ end) as [[[[c e] cr] ch] de] eqn:Ec.
    pose proof (stage_overlay (h_store h) [c] p) as Hst. destruct (stage _ _).
    intros [= <-]. split.
    + simpl in *. rewrite Hst. unfold last_effect. destruct (w_read w abs) as [t|];
        [destruct (is_new_file h abs)|]; simplify_eq; simpl;
        by case_decide.
    + unfold tail_unsaved. simpl. set_solver.
  - cbn [build_plan committed_overlay]. intros Hsc.
    destruct (stage_reingest _ _ _ _ _) as [s g] eqn:E. simpl in Hsc. simplify_eq.
    split; [|unfold tail_unsaved; simpl; set_solver].
    simpl. replace g with (stage_reingest (w_read w) (w_entries w) is_project_relevant (h_unsaved h) (h_store h)).2
      by by rewrite E.
    apply reingest_overlay.
  - intros Hsc. apply author_plan_inv in Hsc as (? & ? & _ & _ & ? & _ & _ & Hg & _ & _ & Hi & Hr & _).
    rewrite Hg. split; [done|]. unfold tail_unsaved. rewrite Hi, Hr. set_solver.
  - cbn [build_plan committed_overlay committed_unsaved]. unfold build_poll_plan.
    case_bool_decide; [done|]. destruct (existsb is_rescan es).
    { intros [= <-]. split; [done|]. unfold tail_unsaved. simpl. set_solver. }
    case_bool_decide; [done|].
    pose proof (stage_overlay (h_store h) (pa_changes (poll_acc w (h_unsaved h) es)) p) as Hst.
    destruct (stage _ _). intros [= <-]. split; [|unfold tail_unsaved; simpl; set_solver].
    simpl in *. rewrite Hst, poll_acc_changes. by case_bool_decide; case_decide.
Qed.

Lemma commit_overlay w (h h' : HeadState (Db:=Db)) m d p :
  commit mint w h m = (h', Ok (Some d)) →
  overlay_state (generation (h_store h')) p = committed_overlay w h m p ∧
  h_unsaved h' = committed_unsaved h m.
Proof.
  intros Hc. pose proof (commit_spec w h m) as H. rewrite Hc in H. simpl in H.
  destruct H as (sc & db & r & n & l & fs & Hp & -> & _ & _).
  destruct (build_plan_content w h m sc p Hp) as [<- <-]. split; [done|].
  unfold tail_unsaved. simpl. unfold tail_unsaved. simpl.
  by destruct (build_plan_root w h m) as (_ & _ & _ & -> & _).
Qed.

(** C15: what every kind of write leaves at every path, and the unsaved buffers
    after it.  An unsaved buffer wins over the disk in watcher polls and full
    syncs, and only an explicit sync of its path drops it. *)
Theorem commit_content w (h h' : HeadState (Db:=Db)) m d p :
  commit mint w h m = (h', Ok (Some d)) →
  overlay_state (generation (h_store h')) p = committed_overlay w h m p ∧
  h_unsaved h' = committed_unsaved h m.
Proof. apply commit_overlay. Qed.

(** ** The delta a commit returns *)

(** What a reconciling transaction reports, in terms of the database and the
    content it published: the classes of the reconciliation, the closure of what
    they change, and the layer of what was published. *)
Record delta_reports (h h' : HeadState (Db:=Db)) (sc : StagedCommit) (rev : Revision)
    (created changed deleted affected : list string) : Prop := {
  dr_reconciled : ∃ recon,
    let entities := db_entities (h_db h') (h_system h') (sc_scope sc) in
    reconcile_impl mint (h_registry h) entities rev (sc_scope sc) (h_minted h) =
      Some (h_registry h', recon, h_minted h') ∧
    created = cl_created (classify recon entities) ∧
    changed = cl_changed (classify recon entities) ∧
    deleted = cl_deleted (classify recon entities);
  dr_affected : ∃ r,
    affected_closure_with_deleted (h_code_layer h') (h_code_layer h)
      (list_to_set (changed ++ deleted)) (list_to_set deleted) = Some r ∧
    affected = btree_elements r;
  dr_layer : h_code_layer h' = (produce_layer h' (h_code_layer h) sc rev).1;
}.

Lemma step_ok {A B} (m : Step (Db:=Db) A) (k : A → Step B) h h' b :
  step_bind m k h = (h', Ok b) → ∃ a h1, m h = (h1, Ok a) ∧ k a h1 = (h', Ok b).
Proof. unfold step_bind. destruct (m h) as [h1 [a|e]]; [by exists a, h1|done]. Qed.

Lemma check_fault_ok armed stage (h h' : HeadState (Db:=Db)) u :
  check_fault armed stage h = (h', Ok u) → h' = h.
Proof. destruct (check_fault_spec armed stage h) as [->|(e & -> & _)]; by intros [=]. Qed.

Lemma staged_identity_delta w sc armed rev (h h' : HeadState (Db:=Db)) idd :
  staged_identity mint w sc armed rev h = (h', Ok idd) →
  delta_reports h h' sc rev (id_created idd) (id_changed idd) (id_deleted idd) (id_affected idd).
Proof.
  unfold staged_identity. intros (idd0 & h1 & Hrun & H)%step_ok.
  unfold run_identity_reconciliation, step_bind at 1, gets in Hrun. simpl in Hrun.
  destruct (reconcile_impl _ _ _ _ _ _) as [[[r rc] n]|] eqn:Erec; [|done].
  unfold step_bind, modify, ret in Hrun. simpl in Hrun. simplify_eq.
  unfold step_bind at 1, gets at 1 in H. simpl in H.
  destruct (affected_closure_with_deleted _ _ _ _) as [aff|] eqn:Eaff; [|done].
  unfold step_bind at 1, modify in H.
  apply step_ok in H as (u1 & h2 & Hc1 & (u2 & h3 & Hc2 & (u3 & h4 & Hp & Hret)%step_ok)%step_ok).
  apply check_fault_ok in Hc1 as ->. apply check_fault_ok in Hc2 as ->.
  unfold persist_identity, step_bind at 1, gets in Hp. simpl in Hp.
  set (hc := set_code_layer _ _) in *.
  pose proof (persist_spec (w_identity_fault w) (identity_db_path (sidecar_root (h_root h)))
    (registry_to_bytes r) "failed to persist identity registry" hc) as Hps.
  rewrite Hp in Hps. destruct Hps as [Hh4 _].
  unfold ret in Hret. injection Hret as <- <-. rewrite Hh4.
  split; simpl; [by exists rc|by exists aff|done].
Qed.

Lemma apply_events_ok sc (h h' : HeadState (Db:=Db)) flags :
  apply_events sc (set_system (sc_gen sc) h) = (h', Ok flags) → ∃ db, h' = set_db db (set_system (sc_gen sc) h).
Proof.
  destruct (apply_events_spec sc h) as (fl & ->). intros [= <- _]. by exists (staged_db h sc).
Qed.

Lemma run_staged_delta w sc armed (h h' : HeadState (Db:=Db)) d :
  sc_reconcile sc = true → sc_authored sc = None →
  run_staged mint w sc armed h = (h', Ok d) →
  delta_reports h h' sc (next_revision (h_store h))
    (cd_created_ids d) (cd_changed_ids d) (cd_deleted_ids d) (cd_affected_ids d).
Proof.
  intros Hre Ha. unfold run_staged. rewrite Hre, Ha. unfold step_bind at 1, gets at 1.
  unfold step_bind at 1, modify at 1. fold (apply_events sc).
  intros (flags & h1 & (db & ->)%apply_events_ok & (idd & h2 & Hid & H)%step_ok)%step_ok.
  pose proof (staged_identity_spec w sc armed (next_revision (h_store h))
    (set_db db (set_system (sc_gen sc) h))) as Hsp. rewrite Hid in Hsp.
  destruct Hsp as (r & n & l & fs & -> & _).
  apply staged_identity_delta in Hid as [Hrec Haff Hlay].
  unfold step_bind at 1, ret at 1 in H. unfold step_bind at 1 in H.
  pose proof (publish_tail_spec sc (midway_head (set_db db (set_system (sc_gen sc) h)) db (sc_gen sc) r n l fs)
    eq_refl) as Hpub. simpl in H. rewrite Hpub in H.
  unfold step_bind, gets, ret in H. injection H as <- <-. by split.
Qed.

(** The same of a whole commit. *)
Lemma commit_delta w (h h' : HeadState (Db:=Db)) m d :
  is_author m = false →
  commit mint w h m = (h', Ok (Some d)) →
  ∃ sc, (build_plan w h m).2 = Ok (Some sc) ∧ delta_reports h h' sc (next_revision (h_store h))
    (cd_created_ids d) (cd_changed_ids d) (cd_deleted_ids d) (cd_affected_ids d).
Proof.
  intros Hm. pose proof (reconciling_plan w h m) as Hre.
  destruct (build_plan_ok w h m) as [Hh Hs _ Hk]. unfold commit.
  destruct (build_plan w h m) as [h1 res]. simpl in *.
  generalize dependent (h_store h1). intros s1 -> Hs.
  destruct res as [[sc|]|e]; [|done..].
  destruct (run_staged _ _ _ _ _) as [h3 [d'|e]] eqn:E; [|done]. intros [= -> ->].
  assert (sc_reconcile sc = true) as Hr by by apply Hre.
  apply run_staged_delta in E as [H1 H2 H3]; [|done|by apply Hk].
  exists sc. split; [done|]. unfold next_revision in *. simpl in *. rewrite Hs in H1, H3. by split.
Qed.

(** C11: the ids a commit reports are the difference it made to the registry:
    created ids are new, changed ids have another content hash, deleted ids became
    orphaned, and no other id is in a class.  This is when the entities it extracts
    have distinct paths and none of these belongs to an anchor the path index lost
    ([reconcile_pre]); of definitions that share a path, an unchanged one can be
    reported as changed ([IdentityLimits]). *)
Theorem commit_delta_is_registry_difference w (h h' : HeadState (Db:=Db)) m d :
  is_author m = false →
  (∀ sc, (build_plan w h m).2 = Ok (Some sc) →
     reconcile_pre mint (h_registry h) (db_entities (h_db h') (h_system h') (sc_scope sc)) (h_minted h)) →
  commit mint w h m = (h', Ok (Some d)) →
  registry_difference (h_registry h) (h_registry h')
    (cd_created_ids d) (cd_changed_ids d) (cd_deleted_ids d).
Proof.
  intros Hm Hpre Hc. destruct (commit_delta w h h' m d Hm Hc) as (sc & Hp & [(rc & Hrec & -> & -> & ->) _ _]).
  exact (classes_difference _ _ _ _ _ _ _ _ _ (Hpre sc Hp) Hrec).
Qed.

Lemma commit_layer_wf w (h : HeadState (Db:=Db)) m :
  coherent h → layer_wf (h_code_layer h) → layer_wf (h_code_layer (commit mint w h m).1).
Proof.
  intros Hco Hl. pose proof (commit_spec w h m) as H.
  assert (h_code_layer (build_plan w h m).1 = h_code_layer h) as Hp.
  { destruct (build_plan_ok w h m) as [-> _ _ _]. done. }
  destruct (commit mint w h m) as [h' [[d|]|e]] eqn:Hc; simpl in *.
  - destruct H as (sc & db & r & n & l & fs & _ & -> & Hd & _). apply (du_layer _ _ _ _ _ _ _ Hd). by rewrite Hp.
  - destruct H as [_ ->]. by rewrite Hp.
  - destruct H as (_ & _ & Ho & _). specialize (Ho Hco). unfold observe in Ho.
    assert (h_code_layer h' = h_code_layer h) as -> by congruence. done.
Qed.

(** C12: the affected ids of a commit are exactly the ids that depend, through
    any number of dependency edges, on an id whose content changed or that was
    deleted. *)
Theorem commit_affected_complete w (h h' : HeadState (Db:=Db)) m d :
  is_author m = false → coherent h → layer_wf (h_code_layer h) →
  commit mint w h m = (h', Ok (Some d)) →
  ∀ x, x ∈ cd_affected_ids d ↔
    ∃ s, (s ∈ cd_changed_ids d ∨ s ∈ cd_deleted_ids d) ∧
      rtc (dependent (h_code_layer h') (h_code_layer h) (list_to_set (cd_deleted_ids d))) s x.
Proof.
  intros Hm Hco Hl Hc x. pose proof (commit_layer_wf w h m Hco Hl) as Hl'. rewrite Hc in Hl'. simpl in Hl'.
  destruct Hl as [Hi _ _ _], Hl' as [Hi' _ _ _]. destruct (commit_delta w h h' m d Hm Hc) as (sc & _ & [_ (r & Hr & ->) _]).
  destruct (affected_closure_reach (h_code_layer h') (h_code_layer h)
    (list_to_set (cd_changed_ids d ++ cd_deleted_ids d)) (list_to_set (cd_deleted_ids d)) Hi' Hi)
    as (r' & Hr' & Hx). rewrite Hr in Hr'. simplify_eq.
  rewrite elem_of_btree_elements, Hx. by setoid_rewrite elem_of_list_to_set; setoid_rewrite elem_of_app.
Qed.

(** ** Watcher polls *)

(** The events a poll folds: those that create, change or delete a file that
    has no unsaved buffer. *)
Definition foldable (u : gset string) (e : ChangeEvent) : bool :=
  match e with
  | EvCreated q | EvChanged q _ | EvDeleted q => bool_decide (q ∉ u)
  | _ => false
  end.

Lemma poll_acc_kept w u es : pa_kept (poll_acc w u es) = filter (λ e, foldable u e) es.
Proof.
  unfold poll_acc. induction es as [|e es IH] using rev_ind; [done|].
  rewrite foldl_app, filter_app, <- IH. cbn [foldl]. rewrite filter_cons, filter_nil.
  unfold poll_step. destruct e; simpl; repeat case_bool_decide; simpl;
    repeat case_decide; rewrite ?app_nil_r; done.
Qed.

(** C37: A poll whose batch has nothing to fold leaves the head exactly as it
    was and publishes nothing, not even an empty revision; any other poll
    publishes or fails. *)
Theorem poll_noop_publishes_nothing w (h : HeadState (Db:=Db)) es :
  if existsb is_rescan es || existsb (foldable (h_unsaved h)) es
  then (commit mint w h (Poll es)).2 ≠ Ok None
  else commit mint w h (Poll es) = (h, Ok None).
Proof.
  unfold commit. cbn [build_plan]. unfold build_poll_plan. rewrite poll_acc_kept.
  assert (∀ (h1 h2 : HeadState (Db:=Db)) sc b, (match run_staged mint w sc (h_armed h1) h2 with
     | (h, Ok delta) => (h, Ok (Some delta)) | (h, Err e) => (rollback h b, Err e) end).2 ≠ Ok None) as Hrun.
  { intros h1 h2 sc b. by destruct (run_staged _ _ _ _ _) as [? []]. }
  case_bool_decide as Hes; [by destruct es|].
  destruct (existsb is_rescan es); [apply Hrun|]. cbn [orb].
  destruct (existsb (foldable (h_unsaved h)) es) eqn:E.
  - rewrite bool_decide_eq_false_2; [destruct (stage _ _); apply Hrun|].
    apply existsb_exists in E as (e & Hin & He). intros Hn%length_zero_iff_nil.
    assert (e ∈ filter (λ e, foldable (h_unsaved h) e) es) as Hf.
    { apply list_elem_of_filter. split; [by apply Is_true_eq_left|by apply list_elem_of_In]. }
    rewrite Hn in Hf. by apply not_elem_of_nil in Hf.
  - rewrite bool_decide_eq_true_2; [done|]. apply length_zero_iff_nil.
    apply elem_of_nil_inv. intros e [He Hin%list_elem_of_In]%list_elem_of_filter.
    rewrite <- not_true_iff_false, existsb_exists in E. apply E. exists e. by apply Is_true_eq_true in He.
Qed.

(** ** Review state *)

Lemma elem_of_ids_in_layer (a : gmap (string * string) AuthoredRecord) layer id :
  id ∈ ids_in_layer a layer ↔ ∃ rec, records_get a layer id = Some rec.
Proof.
  unfold ids_in_layer, records_get. rewrite list_elem_of_fmap. split.
  - intros ([[l i] rec] & -> & [<- Hin]%list_elem_of_filter). exists rec. by apply elem_of_map_to_list.
  - intros (rec & Hrec). exists ((layer, id), rec). split; [done|].
    apply list_elem_of_filter. split; [done|]. by apply elem_of_map_to_list.
Qed.

Lemma status_of_flagged c r a layer id rec :
  layer ∈ review_layers c → records_get a layer id = Some rec →
  record_flagged r a layer id ↔
  derive_authored_status c r layer id (v_reviewed_hash (rec_current rec)) = "needs_review".
Proof.
  intros [Hl _]%list_elem_of_filter Hrec. unfold is_review_layer in Hl.
  unfold record_flagged, derive_authored_status, status_of, get. rewrite Hrec.
  destruct (layers (raw c) !! layer) as [lc|]; [|done]. simpl.
  apply andb_prop_elim in Hl as [_ Hrev]. destruct (review_on_change lc); [|done]. simpl.
  destruct (r_by_id r !! id) as [an|], (v_reviewed_hash (rec_current rec)) as [rh|]; simpl;
    repeat case_bool_decide; simplify_eq; split; done || congruence.
Qed.

(** The ids to review are those with a record, in a reviewed layer, whose
    status is needs-review: the list and the per-record status agree. *)
Theorem needs_review_is_status c a r id :
  id ∈ needs_review_ids c a r ↔
  ∃ layer rec, layer ∈ review_layers c ∧ records_get a layer id = Some rec ∧
    derive_authored_status c r layer id (v_reviewed_hash (rec_current rec)) = "needs_review".
Proof.
  unfold needs_review_ids. rewrite elem_of_btree_elements, elem_of_list_to_set, list_elem_of_bind.
  split.
  - intros (layer & [Hf (rec & Hrec)%elem_of_ids_in_layer]%list_elem_of_filter & Hl).
    exists layer, rec. do 2 (split; [done|]).
    exact (proj1 (status_of_flagged c r a layer id rec Hl Hrec) Hf).
  - intros (layer & rec & Hl & Hrec & Hst). exists layer. split; [|done].
    apply list_elem_of_filter. split; [|apply elem_of_ids_in_layer; eauto].
    exact (proj2 (status_of_flagged c r a layer id rec Hl Hrec) Hst).
Qed.

(** The record an authoring commit leaves: the value, stamped with the revision
    and with the hash of the body it was written against. *)
Lemma author_committed w (h h' : HeadState (Db:=Db)) layer id value d :
  commit mint w h (Author layer id value) = (h', Ok (Some d)) →
  ∃ anchor rec, get (h_registry h) id = Some anchor ∧ records_get (h_authored h') layer id = Some rec ∧
    rec_current rec = mkAuthoredVersion value (next_revision (h_store h)) (Some (a_content_hash anchor)) ∧
    h_config h' = h_config h ∧ cd_authored_ids d = [id].
Proof.
  intros Hc. pose proof (commit_spec w h (Author layer id value)) as H. rewrite Hc in H.
  destruct H as (sc & db & r & n & l & fs & Hp & -> & _ & _ & Hids).
  apply author_plan_inv in Hp as (lcfg & anchor & _ & Ha & rec & Hrec & Hcur & _ & _ & _ & _ & _ & Hap).
  exists anchor, rec. split; [done|]. cbn [h_authored published_head h_config].
  unfold tail_authored. rewrite Hap. split; [done|]. split; [done|].
  destruct (build_plan_root w h (Author layer id value)) as (_ & _ & _ & _ & Hcfg).
  split; [exact Hcfg|]. rewrite Hids. unfold tail_ids. by rewrite Hap.
Qed.

(** C35: authoring a record acknowledges the body it was written against: from
    then on, in a layer that reviews on change, the record needs review exactly while
    the entity is live and its body differs from that one; editing the body back
    clears it. *)
Theorem author_tracks_body w (h h' : HeadState (Db:=Db)) layer id value d :
  commit mint w h (Author layer id value) = (h', Ok (Some d)) →
  ∃ anchor rec, get (h_registry h) id = Some anchor ∧
    records_get (h_authored h') layer id = Some rec ∧ v_value (rec_current rec) = value ∧
    cd_authored_ids d = [id] ∧
    ∀ r, derive_authored_status (h_config h') r layer id (v_reviewed_hash (rec_current rec)) = "needs_review" ↔
      review_on_change <$> layers (raw (h_config h)) !! layer = Some true ∧
      ∃ a, get r id = Some a ∧ a_status a ≠ Orphaned ∧ a_content_hash a ≠ a_content_hash anchor.
Proof.
  intros (anchor & rec & Ha & Hrec & Hcur & Hcfg & Hids)%author_committed.
  exists anchor, rec. rewrite Hcur, Hcfg. do 4 (split; [done|]). intros r'.
    unfold derive_authored_status, status_of, get. simpl.
    destruct (layers (raw (h_config h)) !! layer) as [lc|]; simpl; [|split; [done|by intros [? _]]].
    destruct (review_on_change lc); simpl; [|split; [done|by intros [? _]]].
    destruct (r_by_id r' !! id) as [a|]; simpl; repeat case_bool_decide; simplify_eq;
      (split; [done || (intros _; split; [done|]; exists a; split_and!; congruence)|intros (_ & a' & ? & ? & ?); simplify_eq; done || congruence]).
Qed.

(** ** The registry over a session *)

Lemma observe_registry (h h' : HeadState (Db:=Db)) :
  observe h' = observe h → coherent h →
  coherent h' ∧ h_registry h' = h_registry h ∧ h_code_layer h' = h_code_layer h.
Proof. unfold observe, coherent. intros [=]. split; [congruence|done]. Qed.

(** What every commit preserves of the head: the indexes of the registry and
    those of the code layer are sound. *)
Definition head_wf (h : HeadState (Db:=Db)) : Prop :=
  coherent h ∧ registry_ok (h_registry h) ∧ layer_wf (h_code_layer h).

Lemma commit_keeps_registry w (h : HeadState (Db:=Db)) m :
  coherent h → registry_ok (h_registry h) →
  coherent (commit mint w h m).1 ∧ registry_ok (h_registry (commit mint w h m).1).
Proof.
  intros Hco Hok. pose proof (commit_spec w h m) as H.
  destruct (commit mint w h m) as [h' [[d|]|e]] eqn:Hc; simpl in *.
  - destruct (is_author m) eqn:Hm.
    + destruct m; try done. destruct (commit_published w h h' _ d Hc) as (_ & _ & ? & _ & -> & _). done.
    + destruct H as (sc & db & r & n & l & fs & _ & -> & _).
      destruct (commit_delta _ _ _ _ _ Hm Hc) as (sc' & _ & [(rc & Hrec & _) _ _]).
      split; [done|]. by eapply reconcile_impl_ok.
  - destruct H as [_ ->]. destruct (build_plan_ok w h m) as [Hh Hs _ _].
    unfold coherent in *. rewrite Hs. simpl. rewrite Hh. done.
  - destruct H as (_ & _ & Ho & _). destruct (observe_registry h h' (Ho Hco) Hco) as (? & -> & _). done.
Qed.

Lemma commit_keeps_wf w (h : HeadState (Db:=Db)) m : head_wf h → head_wf (commit mint w h m).1.
Proof.
  intros (Hco & Hok & Hl). destruct (commit_keeps_registry w h m Hco Hok) as [H1 H2].
  split; [done|]. split; [done|]. by apply commit_layer_wf.
Qed.

Lemma session_wf (h : HeadState (Db:=Db)) ops : head_wf h → head_wf (session h ops).1.
Proof.
  revert h. induction ops as [|[w m] ops IH]; intros h Hwf; [done|]. cbn [session].
  pose proof (commit_keeps_wf w h m Hwf) as Hwf'.
  destruct (commit mint w h m) as [h1 [[d|]|e]]; simpl in *; auto.
  specialize (IH h1 Hwf'). by destruct (session h1 ops).
Qed.

(** C16: over any sequence of writes, failed ones included, the indexes stay sound.
    In the registry each anchor is under its own id, each entry of the path index
    leads to an anchor at that path, and the hash index lists exactly the anchors of
    each hash, once; that each live anchor is in the path index, which the crate's
    own check asks too, is not among it and can fail ([IdentityLimits]).  In the code
    layer the reverse-dependency index is the one its edges derive, and every node
    is a stub or is listed once under its file. *)
Theorem session_keeps_indexes (h : HeadState (Db:=Db)) ops : head_wf h → head_wf (session h ops).1.
Proof. apply session_wf. Qed.

End facts.

(** ** Witnesses

    A project of one file with two known entities; the database answers with
    fixed entities, and symbols of which [K] refers to [A1]. *)

Definition symbol0 (name id : string) (first last : N) : SymbolDto :=
  mkSymbol name (Some name) KFunction "" (first, 1, last, 9)%N (Some (first, 5, first, 6)%N) None false (Some id) None ∅.

Definition view0 : ProjectView :=
  mkProjectView ["/p/a.py"]
    (λ _, Some [symbol0 "f" "A1" 1 2; symbol0 "k" "K" 4 5])
    (λ _, Some [mkOccurrence (5, 3, 5, 4)%N (Some "f") (Some "/p/a.py") (Some "f") None RRead])
    (λ _ _ _, None) (λ _ _ _, None).

Definition engine_layer0 : CodeLayer := layer (build "/p" view0).

#[local] Instance engine0 : Engine unit := {|
  db_apply _ _ _ := (tt, (true, false));
  db_file _ _ _ := Some true;
  db_virtual _ _ := false;
  db_entities _ _ _ := entities0;
  db_view _ _ _ := view0;
|}.

#[local] Existing Instance external0.
#[local] Existing Instance serde0.

Definition world0 : World :=
  mkWorld (λ p, if String.eqb p "/p/a.py" then Ok "disk" else Err NotFound) (λ p, String.eqb p "/p/a.py")
    [Some ("/p/a.py", true)] NoFault NoFault.

(** The same disk, on which the registry cannot be written. *)
Definition world0_full : World := mkWorld (w_read world0) (w_is_file world0) (w_entries world0) (WriteFails 3) (WriteFails 3).

Definition notes0 : LayerCfg :=
  mkLayerCfg Config.Authored ["code"] None None None None Stale Lazy None [] true true.

Definition config0 : ValidatedConfig :=
  mkValidatedConfig
    (mkRawConfig 1 None 256 "structure" {[ "structure" := HashProfileCfg_default ]} {[ "notes" := notes0 ]}
       ∅ ∅ 1024 "coalesce" false 200 "container" "async" true) ["notes"].

Definition store0 : ContentStore := (apply_batch (with_retain_cap 2) [Insert "/p/a.py" "old"]).1.

Definition head0 : HeadState (Db:=unit) :=
  mkHeadState tt "/p" store0 (generation store0) registry0 config0 ∅ ∅ engine_layer0 ∅ None 0.

Definition edit0 : Mutation :=
  Overlay [Insert "/p/a.py" "new"] [EvChanged "/p/a.py" FileContent] [] ["/p/a.py"] ["/p/a.py"].

Definition ok_delta (out : HeadState (Db:=unit) * result CommitError (option CommitDelta)) : option CommitDelta :=
  match out.2 with Ok d => d | Err _ => None end.

Definition author0 : Mutation := Author "notes" "A1" (JString "hi").

Lemma store0_repr : store_repr [ContentMap_new; generation store0] store0.
Proof.
  destruct (publish_staged_repr [ContentMap_new]
    (stage (with_retain_cap 2) [Insert "/p/a.py" "old"]).1 (generation store0)) as [H _].
  - by apply (repr_ext _ (with_retain_cap 2)); [apply with_retain_cap_repr|..].
  - done.
  - exact H.
Qed.

(** Whether a commit published, and the commit as an equation when it did. *)
Definition outcome0 (w : World) (h : HeadState) (m : Mutation) := commit mint0 w h m.

Definition published0 (w : World) (h : HeadState) (m : Mutation) : bool :=
  match (outcome0 w h m).2 with Ok (Some _) => true | _ => false end.

Definition failed0 (w : World) (h : HeadState) (m : Mutation) : bool :=
  match (outcome0 w h m).2 with Err _ => true | _ => false end.

Lemma published0_eq w h m :
  published0 w h m = true →
  ∃ d, ok_delta (outcome0 w h m) = Some d ∧ commit mint0 w h m = ((outcome0 w h m).1, Ok (Some d)).
Proof.
  unfold published0, ok_delta, outcome0. destruct (commit mint0 w h m) as [h' [[d|]|e]]; [|done..].
  intros _. by exists d.
Qed.

Lemma failed0_eq w h m :
  failed0 w h m = true → ∃ e, commit mint0 w h m = ((outcome0 w h m).1, Err e).
Proof.
  unfold failed0, outcome0. destruct (commit mint0 w h m) as [h' [[d|]|e]]; [done..|].
  intros _. by exists e.
Qed.

Lemma edit0_delta d :
  ok_delta (outcome0 world0 head0 edit0) = Some d → cd_changed_ids d = ["A1"].
Proof.
  intros Hd. assert (cd_changed_ids <$> ok_delta (outcome0 world0 head0 edit0) = Some ["A1"]) as H
    by by vm_compute.
  rewrite Hd in H. by injection H.
Qed.

Lemma commit_failure_rolls_back_witness :
  observe (outcome0 world0_full head0 edit0).1 = observe head0.
Proof.
  destruct (failed0_eq world0_full head0 edit0) as (e & E); [by vm_compute|].
  apply (commit_failure_rolls_back mint0 world0_full head0 _ edit0 e); [reflexivity|exact E].
Defined.

Lemma commit_success_durable_witness :
  let h' := (outcome0 world0 head0 edit0).1 in
  revision (h_store h') = 2%N ∧
  h_sidecar h' !! "/p/.tyo3/identity.db" = Some (registry_to_bytes (h_registry h')).
Proof.
  destruct (published0_eq world0 head0 edit0) as (d & _ & E); [by vm_compute|].
  destruct (commit_success_durable mint0 world0 head0 _ edit0 d E) as (Hr & _ & _ & _ & _ & Hd).
  split; [exact Hr|exact Hd].
Defined.

(** An edit, a failed edit and an author write. *)
Definition session0 : list (World * Mutation) := [(world0, edit0); (world0_full, edit0); (world0, author0)].

Lemma session_refines_log_witness :
  let '(h', out) := session mint0 head0 session0 in
  length out = 2 ∧ revision (h_store h') = 3%N.
Proof.
  pose proof (session_refines_log mint0 head0 session0
    [ContentMap_new; generation store0] eq_refl store0_repr eq_refl) as H.
  assert (length (session mint0 head0 session0).2 = 2) as Hlen by by vm_compute.
  destruct (session _ _ _) as [h' out]. destruct H as (_ & _ & _ & Hrev & _). simpl in Hlen.
  split; [exact Hlen|]. rewrite Hrev, Hlen. reflexivity.
Defined.

(** The unsaved buffer of the edit survives the sync of the whole project. *)
Lemma commit_content_witness :
  let h1 := (outcome0 world0 head0 edit0).1 in
  overlay_state (generation (h_store (outcome0 world0 h1 SyncAll).1)) "/p/a.py" = Some (Some "new").
Proof.
  intros h1. destruct (published0_eq world0 h1 SyncAll) as (d & _ & E); [by vm_compute|].
  destruct (commit_content mint0 world0 h1 _ SyncAll d "/p/a.py" E) as [H _].
  rewrite H. by vm_compute.
Defined.

Lemma commit_delta_is_registry_difference_witness :
  ∃ a a', get registry0 "A1" = Some a ∧
    get (h_registry (outcome0 world0 head0 edit0).1) "A1" = Some a' ∧
    a_content_hash a ≠ a_content_hash a'.
Proof.
  destruct (published0_eq world0 head0 edit0) as (d & Hd & E); [by vm_compute|].
  assert (∀ (h' : HeadState (Db:=unit)) (sc : StagedCommit), reconcile_pre mint0 (h_registry head0)
    (db_entities (h_db h') (h_system h') (sc_scope sc)) (h_minted head0)) as Hpre by exact (λ _ _, pre0).
  apply (rd_changed _ _ _ _ _
    (commit_delta_is_registry_difference mint0 world0 head0 (outcome0 world0 head0 edit0).1 edit0 d
       eq_refl (λ sc _, Hpre _ sc) E)).
  rewrite (edit0_delta d Hd). by left.
Defined.

Lemma engine_layer0_wf : layer_wf engine_layer0.
Proof. by apply (build_spec "/p" view0 False). Qed.

(** The edge of the reference, which the rebuilt layer has again. *)
Definition edge0 : Edge := mkEdge "K" "A1" References (Some "read") (Some "a.py") (Some (5, 3, 5, 4)%N).

Lemma edit0_edge : edge0 ∈ edges (h_code_layer (outcome0 world0 head0 edit0).1).
Proof. apply (bool_decide_unpack _). vm_compute. exact I. Qed.

Lemma commit_affected_complete_witness :
  ∃ d, ok_delta (outcome0 world0 head0 edit0) = Some d ∧ "K" ∈ cd_affected_ids d.
Proof.
  destruct (published0_eq world0 head0 edit0) as (d & Hd & E); [by vm_compute|].
  exists d. split; [exact Hd|].
  pose proof (commit_affected_complete mint0 world0 head0 (outcome0 world0 head0 edit0).1 edit0 d) as H.
  apply (H eq_refl eq_refl engine_layer0_wf E). clear H.
  exists "A1". split; [left; rewrite (edit0_delta d Hd); by left|]. apply rtc_once.
  exists edge0. split; [left; exact edit0_edge|repeat split].
Defined.

Lemma author_tracks_body_witness :
  let h' := (outcome0 world0 head0 author0).1 in
  ∃ rec, records_get (h_authored h') "notes" "A1" = Some rec ∧
    derive_authored_status (h_config h') (reg0' None) "notes" "A1" (v_reviewed_hash (rec_current rec)) =
      "needs_review".
Proof.
  destruct (published0_eq world0 head0 author0) as (d & _ & E); [by vm_compute|].
  destruct (author_tracks_body mint0 world0 head0 _ "notes" "A1" (JString "hi") d E)
    as (anchor & rec & Ha & Hrec & _ & _ & Hst).
  exists rec. split; [exact Hrec|]. apply Hst. split; [by vm_compute|].
  vm_compute in Ha. injection Ha as <-. eexists. split; [by vm_compute|]. by split; vm_compute.
Defined.

Lemma session_keeps_indexes_witness : head_wf (session mint0 head0 session0).1.
Proof.
  apply (session_keeps_indexes mint0 head0 session0).
  split; [reflexivity|]. split; [exact registry0_ok|exact engine_layer0_wf].
Defined.

(** The root is stripped as text: a file of a sibling directory whose name
    starts with that of the root counts as a file of the project. *)
Theorem sibling_under_root :
  native_to_graph "/w/app" "/w/app2/x.py" = Some "2/x.py" ∧ to_graph_path "/w/app" "/w/app2/x.py" = "2/x.py".
Proof. split; reflexivity. Qed.
