(* ===== verification/Project.v ===== *)
(** * The project API ([rust/src/project/methods.rs], [open.rs], [project.rs])

    What a client calls: opening a project, the writes that funnel into a
    commit, the watcher queue, snapshots, reload and close. *)

From S2P Require Import Prelude Str Paths Content Identity Entity EditDistance Reconcile.
From S2P Require Import Json IdentityFormat Authored CodeLayer CodeBuilder Config Sidecar ConfigLoad Commit.
Import Registry AuthoredStore.

Inductive ApiError :=
| ProjectClosedError (op : string)
| RevisionEvictedError (rev oldest : Revision)
| FormatVersionError (msg : string)
| ApiConfigError (e : ConfigError)
| ApiConfigMsg (msg : string)
| ApiValueError (msg : string)
| ApiCommitError (e : CommitError).

(** What opening asks of the host beside [World]: whether the sidecar directory
    exists, which existing files cannot be read, the listing of a directory
    ([None] when it is missing or cannot be read), how the two maintenance
    writes end, the environment and the UTF-8 decoder. *)
Record OpenWorld := mkOpenWorld {
  ow_sidecar_exists : bool;
  ow_unreadable : string → bool;
  ow_read_dir : string → option (list string);
  ow_gitignore_fault : WriteFault;
  ow_layout_fault : WriteFault;
  ow_env : string → option string;
  ow_utf8 : string → option string;
}.

Section project.
Context {Ext : External} {SJ : SerdeJson} {TC : TomlCodec} {Db : Type} {Eng : Engine Db}.
Context (mint : nat → DurableId).

(** [ProjectMetadata::discover], the user configuration and
    [ProjectDatabase::fallible] with its fallback, over a live overlay and
    over a frozen one. *)
Context (db_build db_build_frozen : string → ContentMap → Db).

(** ** Loading *)

(** [read] of a file of the sidecar: [None] when it does not exist. *)
Definition sidecar_file (ow : OpenWorld) (fs : FileSystem) (p : string) : option (result string string) :=
  (λ text, if ow_unreadable ow p then Err "unreadable" else Ok text) <$> fs !! p.

Definition config_error_to_pyerr (e : ConfigError) : ApiError :=
  match e with
  | ConfigUnknownVersion _ => FormatVersionError "config"
  | e => ApiConfigError e
  end.

(** A missing, unreadable or malformed file starts fresh; a newer format stops
    the open. *)
Definition load_registry (ow : OpenWorld) (fs : FileSystem) (root : string) :
    result ApiError IdentityRegistry :=
  match sidecar_file ow fs (identity_db_path root) with
  | Some (Ok bytes) =>
      match registry_from_bytes (ow_utf8 ow) bytes with
      | Ok registry => Ok registry
      | Err (UnknownVersion _) => Err (FormatVersionError "unknown identity.db format_version")
      | Err _ => Ok empty_registry
      end
  | Some (Err _) => Ok empty_registry
  | None => Ok empty_registry
  end.

(** The versions of one record file, replayed into the map. *)
Definition put_doc (keep_history : bool) (m : gmap (string * string) AuthoredRecord)
    (doc : AuthoredRecordDoc) : gmap (string * string) AuthoredRecord :=
  let m :=
    if keep_history
    then foldl (λ m v, put m (doc_layer doc) (doc_durable_id doc) v keep_history) m (doc_history doc)
    else m in
  put m (doc_layer doc) (doc_durable_id doc) (doc_current doc) keep_history.

Definition load_record (ow : OpenWorld) (fs : FileSystem) (keep_history : bool)
    (m : gmap (string * string) AuthoredRecord) (path : string) :
    result AuthoredLoadError (gmap (string * string) AuthoredRecord) :=
  match sidecar_file ow fs path with
  | Some (Ok bytes) =>
      if bool_decide (extension path = Some "json")
      then let? doc := doc_from_bytes bytes in Ok (put_doc keep_history m doc)
      else Ok m
  | _ => Ok m
  end.

Definition load_layer (ow : OpenWorld) (fs : FileSystem) (c : ValidatedConfig) (root : string)
    (m : gmap (string * string) AuthoredRecord) (name : string) :
    result AuthoredLoadError (gmap (string * string) AuthoredRecord) :=
  match layers (raw c) !! name with
  | None => Ok m
  | Some lcfg =>
      if bool_decide (origin lcfg = Config.Authored) then
        match ow_read_dir ow (authored_dir root name) with
        | None => Ok m
        | Some entries => foldM (load_record ow fs (history lcfg)) m entries
        end
      else Ok m
  end.

Definition load_authored_records (ow : OpenWorld) (fs : FileSystem) (c : ValidatedConfig) (root : string) :
    result AuthoredLoadError (gmap (string * string) AuthoredRecord) :=
  foldM (load_layer ow fs c root) ∅ (cfg_topo_order c).

(** ** The head *)

(** The ids already drawn and the files of the sidecar outlive the head. *)
Definition build_head_with_config (root : string) (initial_store : ContentStore)
    (registry : IdentityRegistry) (config : ValidatedConfig) (fs : FileSystem) (minted : nat) :
    HeadState (Db:=Db) :=
  mkHeadState (db_build root (capture initial_store)) root initial_store (capture initial_store) registry
    config fs ∅ CodeLayer_new ∅ None minted.

Definition materialize_initial_code_layer (h : HeadState (Db:=Db)) : HeadState :=
  set_code_layer (produce_code_delta (h_root h) (db_view (h_db h) (h_system h) (h_registry h))
    CodeLayer_new (revision (h_store h)) true).1 h.

Definition servable_code_layer (h : HeadState (Db:=Db)) : option CodeLayer :=
  if CodeLayer_is_empty (h_code_layer h) then None else Some (h_code_layer h).

Record Project := mkProject {
  inner : option (HeadState (Db:=Db));
  pending : list ChangeEvent;
  watching : bool;
}.

(** ** Open *)

(** The maintenance of an existing sidecar. *)
Definition prepare_sidecar (ow : OpenWorld) (c : ValidatedConfig) (root : string) (fs : FileSystem) :
    FileSystem * result ApiError unit :=
  if ow_sidecar_exists ow then
    let '(fs, r) :=
      if gitignore_cache (raw c)
      then ensure_gitignore_cache_policy root fs (negb (ow_unreadable ow (gitignore_path root)))
             (ow_gitignore_fault ow)
      else (fs, Ok tt) in
    match r with
    | Err _ => (fs, Err (ApiConfigMsg "failed to update sidecar .gitignore"))
    | Ok _ =>
        match ensure_layout_marker root fs (ow_layout_fault ow) with
        | (fs, Err _) => (fs, Err (ApiConfigMsg "failed to update sidecar layout marker"))
        | (fs, Ok _) => (fs, Ok tt)
        end
    end
  else (fs, Ok tt).

(** Reconcile, materialise, persist: the steps of [open] on the new head. *)
Definition open_steps (w : World) : Step (Db:=Db) unit :=
  step_bind (gets (λ h, revision (h_store h))) (λ open_rev,
  step_bind (run_identity_reconciliation mint None open_rev) (λ _,
  step_bind (modify materialize_initial_code_layer) (λ _,
  persist_identity w))).

(** [root] is the canonical root; [minted] counts the ids drawn so far by the
    process. The second component is the sidecar after the call. *)
Definition open (ow : OpenWorld) (w : World) (root : string) (fs : FileSystem) (minted : nat) :
    FileSystem * result ApiError Project :=
  let sroot := sidecar_root root in
  match load (sidecar_file ow fs) (ow_env ow) sroot with
  | Err e => (fs, Err (config_error_to_pyerr e))
  | Ok raw_config =>
  match validate raw_config with
  | Err e => (fs, Err (config_error_to_pyerr e))
  | Ok config =>
  match prepare_sidecar ow config sroot fs with
  | (fs, Err e) => (fs, Err e)
  | (fs, Ok _) =>
  match load_registry ow fs sroot with
  | Err e => (fs, Err e)
  | Ok registry =>
      let store := with_retain_cap (cfg_retain_cap (raw config)) in
      let store := (ingest_project (w_read w) (w_entries w) is_project_relevant store).1 in
      match open_steps w (build_head_with_config root store registry config fs minted) with
      | (h, Err e) => (h_sidecar h, Err (ApiCommitError e))
      | (h, Ok _) =>
          match load_authored_records ow (h_sidecar h) (h_config h) sroot with
          | Err _ => (h_sidecar h, Err (FormatVersionError "authored record"))
          | Ok authored => (h_sidecar h, Ok (mkProject (Some (set_authored authored h)) [] false))
          end
      end
  end end end end.

(** ** Lifecycle *)

Definition with_inner (p : Project) (h : option (HeadState (Db:=Db))) : Project :=
  mkProject h (pending p) (watching p).

(** [lock_state] then the body of the method; a closed project is an error. *)
Definition locked {A} (p : Project) (op : string)
    (body : HeadState (Db:=Db) → HeadState (Db:=Db) * result ApiError A) : Project * result ApiError A :=
  match inner p with
  | None => (p, Err (ProjectClosedError op))
  | Some h => let '(h', r) := body h in (with_inner p (Some h'), r)
  end.

(** The store, the registry and the config survive; the rest is rebuilt. *)
Definition reload (p : Project) : Project * result ApiError unit :=
  locked p "reload" (λ h,
    (build_head_with_config (h_root h) (h_store h) (h_registry h) (h_config h) (h_sidecar h) (h_minted h),
     Ok tt)).

Definition close (p : Project) : Project := mkProject None (pending p) false.

(** ** Writes *)

(** [commit(head, mutation)?] then [commit_dto_to_py]. *)
Definition commit_write (w : World) (p : Project) (op : string)
    (mutation : HeadState (Db:=Db) → result ApiError Mutation) : Project * result ApiError CommitDelta :=
  locked p op (λ h,
    match mutation h with
    | Err e => (h, Err e)
    | Ok m =>
        match commit mint w h m with
        | (h, Ok (Some d)) => (h, Ok d)
        | (h, Ok None) => (h, Err (ApiCommitError (CommitFailed "commit produced no delta")))
        | (h, Err e) => (h, Err (ApiCommitError e))
        end
    end).

Definition is_created (e : ChangeEvent) : bool := match e with EvCreated _ => true | _ => false end.

(** The mutation of [edit_many], of which [edit] is the case of one pair; the
    pairs are in the order of the hash map. *)
Definition overlay_mutation (w : World) (h : HeadState (Db:=Db)) (edits : list (string * string)) : Mutation :=
  let items := (λ pt, let abs := resolve_sync_path (h_root h) pt.1 in
                      (abs, pt.2, classify_overlay_edit w h abs)) <$> edits in
  Overlay ((λ i, Insert i.1.1 i.1.2) <$> items) (snd <$> items)
    (omap (λ i, if is_created i.2 then Some i.1.1 else None) items)
    (omap (λ i, if is_created i.2 then None else Some i.1.1) items)
    ((λ i, i.1.1) <$> items).

Definition edit (w : World) (p : Project) (path text : string) : Project * result ApiError CommitDelta :=
  commit_write w p "edit" (λ h,
    let abs := resolve_sync_path (h_root h) path in
    let event := classify_overlay_edit w h abs in
    let '(created, changed) := if is_created event then ([abs], []) else ([], [abs]) in
    Ok (Overlay [Insert abs text] [event] created changed [abs])).

Definition edit_many (w : World) (p : Project) (edits : list (string * string)) :
    Project * result ApiError CommitDelta :=
  commit_write w p "edit_many" (λ h, Ok (overlay_mutation w h edits)).

Definition edit_virtual (w : World) (p : Project) (uri text : string) :
    Project * result ApiError CommitDelta :=
  commit_write w p "edit_virtual" (λ h,
    let is_new := negb (db_virtual (h_db h) uri) in
    let event := if is_new then EvCreatedVirtual uri else EvChangedVirtual uri in
    let '(created, changed) := if is_new then ([uri], []) else ([], [uri]) in
    Ok (Overlay [InsertVirtual uri text] [event] created changed [])).

Definition author (w : World) (p : Project) (layer id value_json : string) :
    Project * result ApiError CommitDelta :=
  commit_write w p "author" (λ h,
    match from_str value_json with
    | Err e => Err (ApiValueError ("invalid authored value JSON: " +:+ e))
    | Ok value => Ok (Author layer id value)
    end).

Definition sync_path (w : World) (p : Project) (path : string) : Project * result ApiError CommitDelta :=
  commit_write w p "sync_path" (λ h, Ok (SyncPath (resolve_sync_path (h_root h) path))).

Definition discard (w : World) (p : Project) (path : string) : Project * result ApiError CommitDelta :=
  commit_write w p "discard" (λ h, Ok (SyncPath (resolve_sync_path (h_root h) path))).

Definition sync_all (w : World) (p : Project) : Project * result ApiError CommitDelta :=
  commit_write w p "sync_all" (λ h, Ok SyncAll).

(** The layer a client declares from code. *)
Definition registered_layer (history review_on_change : bool) : LayerCfg :=
  mkLayerCfg Config.Authored [] None None None None Stale Lazy None [] history review_on_change.

Definition set_config (c : ValidatedConfig) (h : HeadState (Db:=Db)) : HeadState :=
  mkHeadState (h_db h) (h_root h) (h_store h) (h_system h) (h_registry h) c (h_sidecar h)
    (h_authored h) (h_code_layer h) (h_unsaved h) (h_armed h) (h_minted h).

Definition add_layer (c : RawConfig) (name : string) (l : LayerCfg) : RawConfig :=
  mkRawConfig (schema_version c) (project_name c) (cfg_retain_cap c) (default_hash_profile c) (profiles c)
    (<[ name := l ]> (layers c)) (generators c) (stores c) (queue_capacity c) (overflow c)
    (watcher_enabled c) (debounce_ms c) (precision c) (refinement c) (gitignore_cache c).

Definition register_authored_layer (p : Project) (name : string) (history review_on_change : bool) :
    Project * result ApiError unit :=
  locked p "register_authored_layer" (λ h,
    let c := h_config h in
    match layers (raw c) !! name with
    | Some existing =>
        if bool_decide (origin existing ≠ Config.Authored)
        then (h, Err (ApiConfigMsg ("'" +:+ name +:+ "' is already declared as a non-authored layer")))
        else (h, Ok tt)
    | None =>
        let topo := if bool_decide (name ∈ cfg_topo_order c) then cfg_topo_order c
                    else cfg_topo_order c ++ [name] in
        (set_config (mkValidatedConfig (add_layer (raw c) name (registered_layer history review_on_change)) topo) h,
         Ok tt)
    end).

Definition fault_inject (p : Project) (stage : string) : Project * result ApiError unit :=
  locked p "_fault_inject" (λ h, (set_armed (Some stage) h, Ok tt)).

(** ** The watcher *)

Definition watch (p : Project) : Project * result ApiError unit :=
  match inner p with
  | None => (p, Err (ProjectClosedError "watch"))
  | Some _ => (mkProject (inner p) (pending p) true, Ok tt)
  end.

Definition unwatch (p : Project) : Project := mkProject (inner p) (pending p) false.

(** The handler of the watcher thread. *)
Definition watcher_handler (p : Project) (changes : list ChangeEvent) : Project :=
  mkProject (inner p) (pending p ++ changes) (watching p).

(** The queue is drained before the head is locked. *)
Definition poll_changes (w : World) (p : Project) : Project * result ApiError (option CommitDelta) :=
  let events := pending p in
  let p := mkProject (inner p) [] (watching p) in
  match events with
  | [] => (p, Ok None)
  | _ =>
      locked p "poll_changes" (λ h,
        match commit mint w h (Poll events) with
        | (h, Ok r) => (h, Ok r)
        | (h, Err e) => (h, Err (ApiCommitError e))
        end)
  end.

Definition change_kind (abs kind : string) : option ChangeEvent :=
  if String.eqb kind "created" then Some (EvCreated abs)
  else if String.eqb kind "changed" then Some (EvChanged abs FileContent)
  else if String.eqb kind "deleted" then Some (EvDeleted abs)
  else if String.eqb kind "rescan" then Some EvRescan
  else None.

Definition inject_changes (p : Project) (changes : list (string * string)) : Project * result ApiError unit :=
  match inner p with
  | None => (p, Err (ProjectClosedError "_inject_changes"))
  | Some h =>
      match foldM (λ events kp,
              match change_kind (resolve_sync_path (h_root h) kp.2) kp.1 with
              | Some e => Ok (events ++ [e])
              | None => Err (ApiValueError ("unknown change kind " +:+ debug_str kp.1))
              end) [] changes with
      | Err e => (p, Err e)
      | Ok events => (watcher_handler p events, Ok tt)
      end
  end.

(** ** Reads *)

Definition head (p : Project) : result ApiError Revision :=
  match inner p with
  | None => Err (ProjectClosedError "head")
  | Some h => Ok (revision (h_store h))
  end.

(** [TyProjectState] of a snapshot, and [PySnapshot]. *)
Record Snapshot := mkSnapshot {
  sn_db : Db;
  sn_root : string;
  sn_generation : ContentMap;
  sn_revision : Revision;
  sn_registry : IdentityRegistry;
  sn_authored : gmap (string * string) AuthoredRecord;
  sn_config : ValidatedConfig;
  sn_code_layer : option CodeLayer;
  sn_is_head : bool;
}.

Definition snapshot (p : Project) (at_ : option Revision) : result ApiError Snapshot :=
  match inner p with
  | None => Err (ProjectClosedError "snapshot")
  | Some h =>
      let build g rev layer is_head :=
        Ok (mkSnapshot (db_build_frozen (h_root h) g) (h_root h) g rev (h_registry h) (h_authored h) (h_config h)
              layer is_head) in
      match at_ with
      | None => build (capture (h_store h)) (revision (h_store h)) (servable_code_layer h) true
      | Some r =>
          match generation_at (h_store h) r with
          | Some g => build g r None false
          | None => Err (RevisionEvictedError r (oldest_retained (h_store h)))
          end
      end
  end.

(** ** The full code delta *)

(** The carried layer as a delta from nothing, or a fresh build. *)
Definition full_code_delta_for (root : string) (view : ProjectView) (code_layer : option CodeLayer)
    (revision : Revision) : CodeDelta :=
  match code_layer with
  | Some layer => diff_from layer CodeLayer_new revision true
  | None => (produce_code_delta root view CodeLayer_new revision true).2
  end.

(** [PyTyProject::full_code_delta], on a read clone of the head. *)
Definition full_code_delta (p : Project) : result ApiError CodeDelta :=
  match inner p with
  | None => Err (ProjectClosedError "full_code_delta")
  | Some h => Ok (full_code_delta_for (h_root h) (db_view (h_db h) (h_system h) (h_registry h))
                    (servable_code_layer h) (revision (h_store h)))
  end.

(** [PySnapshot::full_code_delta]. *)
Definition snapshot_full_code_delta (sn : Snapshot) : CodeDelta :=
  full_code_delta_for (sn_root sn) (db_view (sn_db sn) (sn_generation sn) (sn_registry sn))
    (sn_code_layer sn) (sn_revision sn).

(** [locate], [needs_review] and [orphaned] of [identity_ops.rs]. *)
Definition locate (registry : IdentityRegistry) (durable_id : string) : option string :=
  a_qualified_path <$> get registry durable_id.

Definition needs_review (config : ValidatedConfig) (authored : option (gmap (string * string) AuthoredRecord))
    (registry : IdentityRegistry) : list string :=
  match authored with
  | None => []
  | Some authored => needs_review_ids config authored registry
  end.

(** In the order of the hash map: unspecified. *)
Definition orphaned (registry : IdentityRegistry) : list string :=
  a_id <$> filter (λ a, a_status a = Orphaned) (snd <$> map_to_list (r_by_id registry)).
End project.
