(* ===== verification/ProjectFacts.v ===== *)
(** * Correctness of the project API

    What opening establishes, what snapshots read, what an edit and a discard
    leave, and what survives a restart. *)

From Stdlib Require Import Ascii.
From S2P Require Import Prelude Str Paths Content Identity Entity EditDistance Reconcile.
From S2P Require Import ReconcileFacts ReconcileTheorems Json IdentityFormat Authored CodeLayer CodeBuilder CodeBuilderFacts CodeProducer Config.
From S2P Require Import Sidecar ConfigLoad Commit CommitFacts Project.
Import Registry AuthoredStore.

(** ** Records on disk *)

(** The extension of a record file. *)
Lemma split_char_slash_app a b : split_char "/" (a +:+ "/" +:+ b) = split_char "/" a ++ split_char "/" b.
Proof.
  induction a as [|c a IH]; [done|].
  change (String c a +:+ "/" +:+ b) with (String c (a +:+ "/" +:+ b)). cbn [split_char].
  destruct (Ascii.eqb "/" c); [by rewrite IH|]. rewrite IH.
  assert (∃ x l, split_char "/" a = x :: l) as (x & l & ->).
  { destruct a as [|d a]; [by eexists _, _|]. cbn [split_char].
    destruct (Ascii.eqb "/" d); [by eexists _, _|]. destruct (split_char "/" a); by eexists _, _. }
  done.
Qed.

Lemma split_char_no_sep s : split_once "/" s = None → split_char "/" s = [s].
Proof.
  induction s as [|c s IH]; [done|]. cbn [split_once strip_prefix split_char].
  destruct (Ascii.eqb "/" c); [done|]. destruct (split_once "/" s) as [[? ?]|]; [done|].
  intros _. by rewrite IH.
Qed.

Lemma last_component d f :
  f ≠ "" → f ≠ "." → f ≠ ".." → split_once "/" f = None → file_name (d +:+ "/" +:+ f) = Some f.
Proof.
  intros H1 H2 H3 Hs. unfold file_name, components.
  rewrite split_char_slash_app, (split_char_no_sep f Hs), filter_app, filter_cons, filter_nil.
  rewrite decide_True by done. rewrite last_snoc. by rewrite bool_decide_eq_false_2.
Qed.

Lemma split_once_app_none a b :
  split_once "/" a = None → split_once "/" b = None → split_once "/" (a +:+ b) = None.
Proof.
  intros Ha Hb. induction a as [|c a IH]; [done|].
  change (String c a +:+ b) with (String c (a +:+ b)). cbn [split_once strip_prefix] in *.
  destruct (Ascii.eqb "/" c); [done|]. destruct (split_once "/" a) as [[? ?]|]; [done|]. by rewrite IH.
Qed.

Lemma rsplit_json id : rsplit_once "." (id +:+ ".json") = Some (id, "json").
Proof.
  induction id as [|c id IH]; [done|].
  change (String c id +:+ ".json") with (String c (id +:+ ".json")). cbn [rsplit_once]. by rewrite IH.
Qed.

(** A plain file name: one component. *)
Definition plain_name (f : string) : Prop :=
  f ≠ "" ∧ f ≠ "." ∧ f ≠ ".." ∧ split_once "/" f = None.

Lemma plain_not_absolute f : plain_name f → is_absolute f = false.
Proof.
  intros (Hne & _ & _ & Hs). unfold is_absolute, starts_with. destruct f as [|c f]; [done|].
  cbn [split_once strip_prefix] in Hs. cbn [String.prefix].
  destruct (ascii_dec "/" c) as [<-|]; [done|done].
Qed.

Lemma join_file_name root f : plain_name f → file_name (path_join root f) = Some f.
Proof.
  intros Hf. pose proof (plain_not_absolute f Hf) as Ha. destruct Hf as (H1 & H2 & H3 & Hs).
  unfold path_join. rewrite Ha. case_bool_decide.
  { pose proof (last_component "" f H1 H2 H3 Hs) as H0. unfold file_name, components in *.
    rewrite (split_char_slash_app "" f) in H0. exact H0. }
  destruct (rsplit_once "/" root) as [[d []]|] eqn:E; try (by apply last_component).
  apply rsplit_once_Some in E as ->. rewrite str_app_assoc. by apply last_component.
Qed.

Lemma record_extension root layer id :
  split_once "/" id = None → id ≠ "" → extension (record_path root layer id) = Some "json".
Proof.
  intros Hid Hne. unfold extension, record_path.
  rewrite join_file_name, rsplit_json; [by rewrite bool_decide_eq_false_2|].
  split_and!; try (intros E; apply (f_equal last_char) in E; by rewrite last_char_app in E).
  by apply split_once_app_none.
Qed.

Section facts.
Context {Ext : External} {SJ : SerdeJson} {TC : TomlCodec} {Db : Type} {Eng : Engine Db}.
Context (mint : nat → DurableId) (db_build db_build_frozen : string → ContentMap → Db).

(** Replaying a record file gives the record it was written from. *)
Lemma put_doc_versions keep m doc :
  m !! (doc_layer doc, doc_durable_id doc) = None → (keep = false → doc_history doc = []) →
  records_get (put_doc keep m doc) (doc_layer doc) (doc_durable_id doc) =
    Some (mkAuthoredRecord (doc_current doc) (doc_history doc)).
Proof.
  intros Hnone Hkeep. unfold put_doc. destruct keep.
  - set (m' := foldl _ _ _).
    assert (versions m' (doc_layer doc) (doc_durable_id doc) = doc_history doc) as Hv.
    { pose proof (versions_put_all m (doc_layer doc) (doc_durable_id doc) (doc_history doc)
        (doc_layer doc) (doc_durable_id doc)) as H. rewrite decide_True in H by done.
      unfold m'. etrans; [exact H|]. unfold versions. by rewrite Hnone. }
    unfold records_get, put, versions in *. rewrite lookup_insert_eq.
    destruct (m' !! _) as [rec|]; [|by rewrite <- Hv]. by rewrite Hv.
  - unfold records_get, put. rewrite lookup_insert_eq, Hnone. by rewrite Hkeep.
Qed.

(** A layer that keeps no history stores records without history. *)
Lemma author_history w (h h' : HeadState (Db:=Db)) layer id value d lcfg :
  commit mint w h (Author layer id value) = (h', Ok (Some d)) →
  authored_layer_config (h_config h) layer = Some lcfg →
  ∀ rec, records_get (h_authored h') layer id = Some rec → history lcfg = false → rec_history rec = [].
Proof.
  intros Hc Hl rec Hrec Hk. pose proof (commit_spec mint w h (Author layer id value)) as H. rewrite Hc in H.
  destruct H as (sc & db & r & n & l & fs & Hp & -> & _).
  apply author_plan_inv in Hp as (lcfg' & anchor & Hl' & _ & rec' & Hrec' & _ & _ & _ & _ & _ & _ & Hap).
  rewrite Hl in Hl'. simplify_eq. cbn [h_authored published_head] in Hrec. unfold tail_authored in Hrec.
  rewrite Hap in Hrec. cbn [ap_next_store] in Hrec. rewrite Hk in Hrec.
  unfold records_get, put in Hrec. rewrite lookup_insert_eq in Hrec. injection Hrec as <-. simpl.
  by destruct (h_authored h !! _).
Qed.

(** C31: an authored record survives a restart: after a commit that authors it,
    loading its file gives the record the head holds, with its history.  The
    hypotheses on [from_str] say that the file parses to what was printed. *)
Theorem authored_survives_reopen ow w (h h' : HeadState (Db:=Db)) layer id value d lcfg :
  commit mint w h (Author layer id value) = (h', Ok (Some d)) →
  authored_layer_config (h_config h) layer = Some lcfg →
  split_once "/" id = None → id ≠ "" →
  ow_unreadable ow (record_path (sidecar_root (h_root h)) layer id) = false →
  (∀ rec, records_get (h_authored h') layer id = Some rec →
     version_wf (rec_current rec) ∧ (∀ v, v ∈ rec_history rec → version_wf v) ∧
     let doc := mkAuthoredRecordDoc AUTHORED_FORMAT_VERSION layer id (rec_current rec) (rec_history rec) in
     from_str (doc_to_bytes doc) = Ok (doc_to_json doc)) →
  ∃ m, load_record ow (h_sidecar h') (history lcfg) ∅ (record_path (sidecar_root (h_root h)) layer id) = Ok m ∧
    records_get m layer id = records_get (h_authored h') layer id ∧
    is_Some (records_get m layer id).
Proof.
  intros Hc Hl Hs Hne Hr Hwf.
  destruct (commit_published mint w h h' _ d Hc) as (_ & _ & _ & _ & _ & rec & Hrec & _ & _ & Hfile).
  pose proof (author_history _ _ _ _ _ _ _ _ Hc Hl) as Hhist.
  destruct (Hwf rec Hrec) as (Hcur & Hold & Htext). clear Hwf.
  set (doc := mkAuthoredRecordDoc _ _ _ _ _) in *.
  unfold load_record, sidecar_file. rewrite Hfile. simpl. rewrite Hr.
  rewrite bool_decide_eq_true_2 by by apply record_extension.
  rewrite (doc_read doc) by done. simpl. eexists. split; [done|].
  rewrite (put_doc_versions (history lcfg) ∅ doc); [|done|intros Hk; by eapply Hhist].
  rewrite Hrec. by destruct rec.
Qed.
(** ** Opening *)

Lemma foldM_insert_ok (anchors : list Json) r0 r :
  registry_ok r0 →
  foldM (λ reg entry, let? a := anchor_of_json entry in Ok (insert reg a)) r0 anchors = Ok r →
  registry_ok r.
Proof.
  revert r0. induction anchors as [|e anchors IH]; intros r0 Hok; simpl; [by intros [= <-]|].
  destruct (anchor_of_json e) as [a|]; [|done]. simpl. apply IH. auto with tyo3.
Qed.

(** Whatever the file holds, the registry an open starts from is well formed. *)
Lemma load_registry_ok ow fs root r : load_registry ow fs root = Ok r → registry_ok r.
Proof.
  unfold load_registry, registry_from_bytes, registry_of_json.
  destruct (sidecar_file _ _ _) as [[bytes|]|]; [|intros [= <-]; apply empty_ok..].
  destruct (ow_utf8 ow bytes) as [text|]; [|intros [= <-]; apply empty_ok]. simpl.
  destruct (from_str text) as [root_v|]; [|intros [= <-]; apply empty_ok]. simpl.
  destruct (as_u64 _) as [v|]; [|intros [= <-]; apply empty_ok]. simpl.
  destruct (1 <? v)%N; [done|].
  destruct (as_array _) as [l|]; [|intros [= <-]; apply empty_ok]. simpl.
  destruct (foldM _ _ _) as [reg|[]] eqn:E; [|intros [= <-]; apply empty_ok..|done].
  intros [= <-]. eapply foldM_insert_ok; [|exact E]. apply empty_ok.
Qed.

(** The state an open hands to the client. *)
Record opened (w : World) (root : string) (fs' : gmap string string) (h : HeadState (Db:=Db)) : Prop := {
  op_coherent : coherent h;
  op_root : h_root h = root;
  op_revision : revision (h_store h) = 1%N;
  op_cap : retain_cap (h_store h) = cfg_retain_cap (raw (h_config h));
  op_repr : (0 < retain_cap (h_store h))%N →
    store_repr [ContentMap_new; generation (h_store h)] (h_store h);
  op_registry : registry_ok (h_registry h);
  op_layer : layer_wf (h_code_layer h) ∧ closed (h_code_layer h);
  op_built : h_code_layer h = layer (build root (db_view (h_db h) (h_system h) (h_registry h)));
  op_content : ∀ p, overlay_state (generation (h_store h)) p =
    if decide (p ∈ walk_relevant_files (w_entries w) is_project_relevant) then
      match w_read w p with Ok t => Some (Some t) | Err NotFound => Some None | Err IoOther => None end
    else None;
  op_fresh : h_unsaved h = ∅ ∧ h_armed h = None;
  op_sidecar : h_sidecar h = fs';
  op_durable : fs' !! identity_db_path (sidecar_root root) = Some (registry_to_bytes (h_registry h));
}.

Lemma ingest_fields read entries filt cap :
  let s := (ingest_project read entries filt (with_retain_cap cap)).1 in
  revision s = 1%N ∧ retain_cap s = cap ∧
  ((0 < cap)%N → store_repr [ContentMap_new; generation s] s) ∧
  ∀ p, overlay_state (generation s) p =
    if decide (p ∈ walk_relevant_files entries filt) then
      match read p with Ok t => Some (Some t) | Err NotFound => Some None | Err IoOther => None end
    else None.
Proof.
  unfold ingest_project.
  pose proof (λ p, read_disk_changes_effect read (disk_reads (with_retain_cap cap))
    (walk_relevant_files entries filt) p) as He.
  destruct (read_disk_changes _ _ _) as [cs n]. simpl in He. cbn zeta. rewrite apply_batch_stage.
  set (s0 := set_disk_reads _ _).
  destruct (stage_fields s0 cs) as (Hg & Hr & Hm & Hc).
  split; [simpl; by rewrite Hr|]. split; [simpl; by rewrite Hc|]. split.
  - intros Hcap. apply (publish_staged_repr [ContentMap_new]); [|by rewrite Hr].
    apply (repr_ext _ (with_retain_cap cap)); [by apply with_retain_cap_repr|done..].
  - intros p. cbn [publish_staged fst generation record_retained]. rewrite stage_overlay, He.
    case_decide; [|done]. by destruct (read p) as [|[]].
Qed.

Lemma open_steps_spec w (h h' : HeadState (Db:=Db)) u :
  open_steps mint w h = (h', Ok u) → registry_ok (h_registry h) →
  ∃ r n l fs, h' = midway_head h (h_db h) (h_system h) r n l fs ∧ registry_ok r ∧ (layer_wf l ∧ closed l) ∧
    l = layer (build (h_root h) (db_view (h_db h) (h_system h) r)) ∧ fs !! identity_db_path (sidecar_root (h_root h)) = Some (registry_to_bytes r).
Proof.
  unfold open_steps. intros H Hok. unfold step_bind at 1, gets at 1 in H.
  apply step_ok in H as (idd & h1 & Hrun & H).
  unfold run_identity_reconciliation, step_bind at 1, gets in Hrun. simpl in Hrun.
  destruct (reconcile_impl _ _ _ _ _ _) as [[[r rc] n]|] eqn:Erec; [|done].
  unfold step_bind, modify, ret in Hrun. simpl in Hrun. simplify_eq.
  unfold step_bind at 1, modify in H. unfold persist_identity, step_bind at 1, gets in H. simpl in H.
  set (hc := materialize_initial_code_layer _) in *.
  pose proof (persist_spec (w_identity_fault w) (identity_db_path (sidecar_root (h_root h)))
    (registry_to_bytes r) "failed to persist identity registry" hc) as Hp.
  rewrite H in Hp. destruct Hp as [-> [Hfs _]%write_atomic_ok].
  exists r, n, (h_code_layer hc), (h_sidecar h'). split; [done|].
  split; [by eapply reconcile_impl_ok|]. split; [|by split].
  destruct (build_spec (h_root h) (db_view (h_db h) (h_system h) r) False) as (_ & Hwf & Hcl & _); done.
Qed.

(** The registry a project is opened with. *)
Definition loaded_registry (ow : OpenWorld) (root : string) (fs : FileSystem) : option IdentityRegistry :=
  let sroot := sidecar_root root in
  match load (sidecar_file ow fs) (ow_env ow) sroot with
  | Err _ => None
  | Ok rc =>
      match validate rc with
      | Err _ => None
      | Ok c =>
          match prepare_sidecar ow c sroot fs with
          | (fs1, Ok _) => match load_registry ow fs1 sroot with Ok r => Some r | Err _ => None end
          | (_, Err _) => None
          end
      end
  end.

(** What opening reconciles. *)
Lemma open_steps_reconciles w (h h' : HeadState (Db:=Db)) u :
  open_steps mint w h = (h', Ok u) →
  ∃ rc, reconcile_impl mint (h_registry h) (db_entities (h_db h) (h_system h) None) (revision (h_store h)) None
          (h_minted h) = Some (h_registry h', rc, h_minted h') ∧
    h_db h' = h_db h ∧ h_system h' = h_system h.
Proof.
  unfold open_steps. intros H. unfold step_bind at 1, gets at 1 in H.
  apply step_ok in H as (idd & h1 & Hrun & H).
  unfold run_identity_reconciliation, step_bind at 1, gets in Hrun. simpl in Hrun.
  destruct (reconcile_impl _ _ _ _ _ _) as [[[r rc] n]|] eqn:Erec; [|done].
  unfold step_bind, modify, ret in Hrun. simpl in Hrun. simplify_eq.
  unfold step_bind at 1, modify in H. unfold persist_identity, step_bind at 1, gets in H. simpl in H.
  set (hc := materialize_initial_code_layer _) in *.
  pose proof (persist_spec (w_identity_fault w) (identity_db_path (sidecar_root (h_root h)))
    (registry_to_bytes r) "failed to persist identity registry" hc) as Hp.
  rewrite H in Hp. destruct Hp as [-> _]. by exists rc.
Qed.

Lemma open_reconciles ow w root fs minted fs' p h :
  open mint db_build ow w root fs minted = (fs', Ok p) → inner p = Some h →
  ∃ reg rev rc, loaded_registry ow root fs = Some reg ∧ registry_ok reg ∧
    reconcile_impl mint reg (db_entities (h_db h) (h_system h) None) rev None minted =
      Some (h_registry h, rc, h_minted h).
Proof.
  unfold open, loaded_registry. destruct (load _ _ _) as [rc|]; [|done].
  destruct (validate rc) as [c|]; [|done].
  destruct (prepare_sidecar _ _ _ _) as [fs1 [[]|]]; [|done].
  destruct (load_registry _ _ _) as [reg|] eqn:Hreg; [|done].
  set (s := (ingest_project _ _ _ _).1) in *.
  destruct (open_steps _ _ _) as [h1 [[]|]] eqn:Hsteps; [|done].
  apply open_steps_reconciles in Hsteps as (rc' & Hrec & Hdb & Hsys).
  simpl. destruct (load_authored_records _ _ _ _) as [a|]; [|done]. intros [= _ <-] [= <-]. simpl.
  rewrite Hdb, Hsys. exists reg, (revision s), rc'. split; [done|]. split; [by eapply load_registry_ok|exact Hrec].
Qed.

Lemma open_opened ow w root fs minted fs' p :
  open mint db_build ow w root fs minted = (fs', Ok p) →
  ∃ h, inner p = Some h ∧ pending p = [] ∧ opened w root fs' h.
Proof.
  unfold open. destruct (load _ _ _) as [rc|]; [|done].
  destruct (validate rc) as [c|]; [|done].
  destruct (prepare_sidecar _ _ _ _) as [fs1 [[]|]]; [|done].
  destruct (load_registry _ _ _) as [reg|] eqn:Hreg; [|done].
  pose proof (ingest_fields (w_read w) (w_entries w) is_project_relevant (cfg_retain_cap (raw c))) as Hin.
  set (s := (ingest_project _ _ _ _).1) in *. simpl in Hin. destruct Hin as (Hr & Hc & Hrepr & Hcont).
  destruct (open_steps _ _ _) as [h1 [[]|]] eqn:Hsteps; [|done].
  destruct (open_steps_spec _ _ _ _ Hsteps) as (r & n & l & fs2 & -> & Hok & Hl & Hb & Hdur);
    [by eapply load_registry_ok|].
  simpl. destruct (load_authored_records _ _ _ _) as [a|]; [|done]. intros [= <- <-].
  eexists. split; [done|]. split; [done|]. split; simpl; try done. intros. apply Hrepr. by rewrite <- Hc.
Qed.

(** C5: opening a project establishes what every later guarantee starts from:
    the head shows revision 1, which holds every relevant file as the disk has
    it, the store is a log of two generations if [retain_cap] is positive, the
    registry is well formed and is already on disk, the code layer is well formed
    and closed, and there are no unsaved buffers. *)
Theorem open_establishes ow w root fs minted fs' p :
  open mint db_build ow w root fs minted = (fs', Ok p) →
  ∃ h, inner p = Some h ∧ pending p = [] ∧ opened w root fs' h.
Proof. apply open_opened. Qed.

(** ** Snapshots *)

(** C4: a snapshot taken at any time after an open, whatever was written since,
    reads revision [r] as the content published under it; it is given exactly for
    the published revisions of the retained window, the last [retain_cap] of them,
    and refused when the revision was never published or has left that window.
    The configured [retain_cap] is positive and fewer than 2^64 revisions were
    published. *)
Theorem snapshot_reads_published ow w root fs minted fs' p h ops r :
  open mint db_build ow w root fs minted = (fs', Ok p) → inner p = Some h →
  (0 < retain_cap (h_store h))%N → (1 + N.of_nat (length ops) < u64_modulus)%N →
  let '(h', out) := session mint h ops in
  let log := ContentMap_new :: generation (h_store h) :: out.*2 in
  match snapshot db_build_frozen (with_inner p (Some h')) (Some r) with
  | Ok sn => sn_revision sn = r ∧ log !! N.to_nat r = Some (sn_generation sn) ∧ sn_code_layer sn = None ∧
      (N.of_nat (length log) - retain_cap (h_store h') ≤ r < N.of_nat (length log))%N
  | Err e => e = RevisionEvictedError r (oldest_retained (h_store h')) ∧
      (r < N.of_nat (length log) - retain_cap (h_store h') ∨ N.of_nat (length log) ≤ r)%N
  end.
Proof.
  intros Ho Hi Hcap Hov. destruct (open_opened _ _ _ _ _ _ _ Ho) as (h0 & Hi0 & _ & Hop).
  rewrite Hi in Hi0. simplify_eq.
  pose proof (session_repr mint h0 ops [ContentMap_new; generation (h_store h0)] (op_coherent _ _ _ _ Hop)
    (op_repr _ _ _ _ Hop Hcap)) as H. rewrite (op_revision _ _ _ _ Hop) in H. specialize (H Hov).
  destruct (session mint h0 ops) as [h' out]. destruct H as (_ & Hlog & _ & _).
  unfold snapshot. simpl. rewrite (repr_generation_at _ _ r Hlog).
  case_decide as Hr.
  - destruct (_ !! N.to_nat r) as [g|] eqn:E; simpl.
    { do 3 (split; [done|]). split; [exact Hr|]. apply lookup_lt_Some in E. simpl in *. lia. }
    split; [done|]. right. apply lookup_ge_None in E. simpl in *. lia.
  - split; [done|]. left. simpl in *. lia.
Qed.

(** The layer a client is served: the carried one, or a fresh build when the
    head carries none. *)
Definition served_layer (h : HeadState (Db:=Db)) : CodeLayer :=
  default (layer (build (h_root h) (db_view (h_db h) (h_system h) (h_registry h)))) (servable_code_layer h).

(** Any time after an open, the full delta of the head, applied to an empty
    graph, gives a well-formed layer: the layer the last commit published, or a
    fresh build; a pinned snapshot of the head serves the same nodes and edges. *)
Theorem full_delta_is_layer ow w root fs minted fs' p h ops :
  open mint db_build ow w root fs minted = (fs', Ok p) → inner p = Some h →
  let h' := (session mint h ops).1 in
  let l := served_layer h' in
  layer_wf l ∧
  ∃ d, full_code_delta (with_inner p (Some h')) = Ok d ∧
    apply_nodes d ∅ = nodes l ∧ apply_edges d ∅ = edges l ∧ nodes_removed d = [] ∧ nodes_moved d = [] ∧
    ∀ sn, is_Some (servable_code_layer h') → snapshot db_build_frozen (with_inner p (Some h')) None = Ok sn →
      snapshot_full_code_delta sn = d.
Proof.
  intros Ho Hi. destruct (open_opened _ _ _ _ _ _ _ Ho) as (h0 & Hi0 & _ & Hop).
  rewrite Hi in Hi0. injection Hi0 as <-. intros h' l.
  assert (head_wf h') as (_ & _ & Hl).
  { apply session_wf. split; [exact (op_coherent _ _ _ _ Hop)|]. split; [exact (op_registry _ _ _ _ Hop)|].
    exact (proj1 (op_layer _ _ _ _ Hop)). }
  unfold l, served_layer, full_code_delta, snapshot_full_code_delta, full_code_delta_for. cbn [inner with_inner].
  assert (∀ r, servable_code_layer h' = Some r → r = h_code_layer h') as Hr.
  { unfold servable_code_layer. destruct (CodeLayer_is_empty _); [done|]. by intros r [= <-]. }
  destruct (servable_code_layer h') as [r|] eqn:E; cbn [default].
  - rewrite (Hr r eq_refl). split; [done|]. eexists. split; [done|].
    destruct (diff_from_nothing (h_code_layer h') (revision (h_store h')) true) as (H1 & H2 & H3 & H4).
    do 4 (split; [done|]). intros sn _. unfold snapshot. cbn [inner with_inner]. rewrite E. intros [= <-].
    cbn. by rewrite (Hr r eq_refl).
  - destruct (build_spec (h_root h') (db_view (h_db h') (h_system h') (h_registry h')) False) as (_ & Hwf & _);
      [done|]. split; [done|]. eexists. split; [done|].
    destruct (diff_from_nothing (layer (build (h_root h') (db_view (h_db h') (h_system h') (h_registry h'))))
      (revision (h_store h')) true) as (H1 & H2 & H3 & H4).
    do 4 (split; [done|]). by intros sn [? ?].
Qed.

(** ** Edits *)

(** A write of an open project is its commit. *)
Lemma commit_write_ok w (p p' : Project (Db:=Db)) op mutation d :
  commit_write mint w p op mutation = (p', Ok d) →
  ∃ h h' m, inner p = Some h ∧ inner p' = Some h' ∧ mutation h = Ok m ∧
    commit mint w h m = (h', Ok (Some d)).
Proof.
  unfold commit_write, locked. destruct (inner p) as [h|] eqn:Hi; [|done].
  destruct (mutation h) as [m|] eqn:Em; [|done]. simpl.
  destruct (commit mint w h m) as [h' [[d'|]|]] eqn:E; [|done..]. intros [= <- <-].
  exists h, h', m. done.
Qed.

(** What the head shows at a path, and whether a buffer is unsaved there. *)
Definition shown (p : Project (Db:=Db)) (path : string) : option (option (option string)) :=
  (λ h, overlay_state (generation (h_store h)) path) <$> inner p.

Definition unsaved_at (p : Project (Db:=Db)) (path : string) : bool :=
  match inner p with Some h => bool_decide (path ∈ h_unsaved h) | None => false end.

Lemma last_effect_insert q abs text :
  last_effect q [Insert abs text] = if decide (q = abs) then Some (Some (Some text)) else None.
Proof. unfold last_effect. simpl. by case_decide. Qed.

(** C18: an edit shows its text at its path and nowhere else, as an unsaved
    buffer; discarding it shows the disk again, as a saved file; and neither
    touches any other path. *)
Theorem edit_then_discard w1 w2 (p p1 p2 : Project (Db:=Db)) path text d1 d2 h :
  inner p = Some h → edit mint w1 p path text = (p1, Ok d1) → discard mint w2 p1 path = (p2, Ok d2) →
  let abs := resolve_sync_path (h_root h) path in
  shown p1 abs = Some (Some (Some text)) ∧ unsaved_at p1 abs = true ∧
  shown p2 abs = Some (Some (match w_read w2 abs with Ok t => Some t | Err _ => None end)) ∧
  unsaved_at p2 abs = false ∧
  ∀ q, q ≠ abs → shown p1 q = shown p q ∧ shown p2 q = shown p q ∧
    unsaved_at p1 q = unsaved_at p q ∧ unsaved_at p2 q = unsaved_at p q.
Proof.
  clear db_build db_build_frozen. intros Hi He Hd abs.
  apply commit_write_ok in He as (h0 & h1 & m1 & Hi0 & Hi1 & Hm1 & Hc1).
  apply commit_write_ok in Hd as (h1' & h2 & m2 & Hi1' & Hi2 & Hm2 & Hc2).
  rewrite Hi in Hi0. rewrite Hi1 in Hi1'. simplify_eq.
  assert (h_root h1' = h_root h0) as Hroot by by eapply commit_root.
  rewrite Hroot in Hc2. fold abs in Hc2, Hm1.
  assert (∃ ev cr ch, m1 = Overlay [Insert abs text] [ev] cr ch [abs]) as (ev & cr & ch & ->).
  { cbv zeta in Hm1. destruct (is_created (classify_overlay_edit w1 h0 abs)); simplify_eq; eauto. }
  pose proof (λ q, commit_overlay mint w1 h0 h1' _ d1 q Hc1) as H1.
  pose proof (λ q, commit_overlay mint w2 h1' h2 _ d2 q Hc2) as H2.
  unfold shown, unsaved_at. rewrite Hi, Hi1, Hi2. simpl.
  destruct (H1 abs) as [H1a H1u], (H2 abs) as [H2a H2u]. rewrite H1a, H2a, H2u, H1u.
  cbn [committed_overlay committed_unsaved]. rewrite last_effect_insert, !decide_True by done. simpl.
  split; [done|]. split; [apply bool_decide_eq_true_2; set_solver|].
  split; [done|]. split; [apply bool_decide_eq_false_2; set_solver|].
  intros q Hq. destruct (H1 q) as [H1q _], (H2 q) as [H2q _]. rewrite H2q. cbn [committed_overlay].
  rewrite decide_False, H1q by done. cbn [committed_overlay].
  rewrite last_effect_insert, decide_False by done. simpl.
  do 2 (split; [done|]). split; apply bool_decide_ext; set_solver.
Qed.

(** ** Closed projects *)

(** A closed project refuses every call that needs the head, with its name
    in the error, and stays as it was. *)
Theorem closed_project_refuses w (p : Project (Db:=Db)) :
  let q := close p in
  (∀ path text, edit mint w q path text = (q, Err (ProjectClosedError "edit"))) ∧
  (∀ edits, edit_many mint w q edits = (q, Err (ProjectClosedError "edit_many"))) ∧
  (∀ uri text, edit_virtual mint w q uri text = (q, Err (ProjectClosedError "edit_virtual"))) ∧
  (∀ layer id v, author mint w q layer id v = (q, Err (ProjectClosedError "author"))) ∧
  (∀ path, sync_path mint w q path = (q, Err (ProjectClosedError "sync_path"))) ∧
  (∀ path, discard mint w q path = (q, Err (ProjectClosedError "discard"))) ∧
  sync_all mint w q = (q, Err (ProjectClosedError "sync_all")) ∧
  reload db_build q = (q, Err (ProjectClosedError "reload")) ∧
  (∀ at_, snapshot db_build_frozen q at_ = Err (ProjectClosedError "snapshot")) ∧
  head q = Err (ProjectClosedError "head") ∧ close q = q.
Proof. intros q. repeat split. Qed.

(** ** Reload *)

(** A reload keeps the revision, the content, the retained revisions, the
    registry and the configuration, and loses the authored records, the
    code layer and the marks of unsaved buffers. *)
Theorem reload_keeps_and_loses (p : Project (Db:=Db)) h :
  inner p = Some h →
  ∃ h', (reload db_build p).1 = with_inner p (Some h') ∧
    h_store h' = h_store h ∧ h_registry h' = h_registry h ∧ h_config h' = h_config h ∧
    coherent h' ∧ h_sidecar h' = h_sidecar h ∧
    h_authored h' = ∅ ∧ h_code_layer h' = CodeLayer_new ∧ h_unsaved h' = ∅.
Proof. intros Hi. unfold reload, locked. rewrite Hi. by eexists. Qed.

(** Authoring after a reload writes a record without history over the record on
    disk, whatever history that one had and although the layer keeps it. *)
Theorem author_after_reload_drops_history w (p : Project (Db:=Db)) h h' layer id value d :
  inner p = Some h → inner (reload db_build p).1 = Some h' →
  ∀ h'', commit mint w h' (Author layer id value) = (h'', Ok (Some d)) →
  ∃ rec, records_get (h_authored h'') layer id = Some rec ∧ rec_history rec = [] ∧
    h_sidecar h'' !! record_path (sidecar_root (h_root h)) layer id =
      Some (doc_to_bytes (mkAuthoredRecordDoc AUTHORED_FORMAT_VERSION layer id (rec_current rec) [])).
Proof.
  intros Hi. unfold reload, locked. rewrite Hi. simpl. intros [= <-] h'' Hc.
  destruct (commit_published mint w _ h'' _ d Hc) as (_ & _ & _ & _ & _ & rec & Hrec & _ & _ & Hfile).
  exists rec. split; [done|].
  assert (rec_history rec = []) as Hh.
  { pose proof (commit_spec mint w (build_head_with_config db_build (h_root h) (h_store h) (h_registry h)
      (h_config h) (h_sidecar h) (h_minted h)) (Author layer id value)) as H. rewrite Hc in H.
    destruct H as (sc & db & r & n & l & fs & Hp & -> & _).
    apply author_plan_inv in Hp as (lcfg & anchor & _ & _ & rec' & _ & _ & _ & _ & _ & _ & _ & Hap).
    cbn [h_authored published_head] in Hrec. unfold tail_authored in Hrec. rewrite Hap in Hrec.
    cbn [ap_next_store] in Hrec. unfold records_get, put in Hrec. rewrite lookup_insert_eq in Hrec.
    by injection Hrec as <-. }
  split; [done|]. rewrite Hh in Hfile. exact Hfile.
Qed.

(** ** Queue and registry reads *)

(** Stopping the watcher keeps the events it queued: the next poll folds them. *)
Theorem unwatch_keeps_queue w (p : Project (Db:=Db)) events :
  poll_changes mint w (unwatch (watcher_handler p events)) =
  poll_changes mint w (mkProject (inner p) (pending p ++ events) false).
Proof. done. Qed.

(** A retired id is still located, at the path it had last. *)
Theorem locate_finds_retired r id a rev :
  get r id = Some a → a_status a ≠ Orphaned →
  status_of (retire r id rev) id = Some Orphaned ∧ locate (retire r id rev) id = Some (a_qualified_path a).
Proof.
  intros Ha Hs. unfold locate, status_of, retire, get in *. rewrite Ha.
  rewrite bool_decide_eq_false_2 by done. simpl. rewrite !lookup_insert_eq. done.
Qed.

End facts.

(** ** Witnesses *)

#[local] Existing Instance external0.
#[local] Existing Instance serde0.
#[local] Existing Instance toml0.
#[local] Existing Instance engine0.

Definition build0 (root : string) (g : ContentMap) : unit := tt.

Definition open_world0 : OpenWorld :=
  mkOpenWorld false (λ _, false) (λ _, None) NoFault NoFault (λ _, None) Some.

Definition opened0 := open mint0 build0 open_world0 world0 "/p" ∅ 0.

Definition project0 : Project (Db:=unit) :=
  match opened0.2 with Ok p => p | Err _ => mkProject None [] false end.

Definition opened_head0 : HeadState (Db:=unit) := default head0 (inner project0).

Lemma result_eq {A E B} (out : A * result E B) (b0 : B) :
  is_ok out.2 = true → out = (out.1, Ok (match out.2 with Ok b => b | Err _ => b0 end)).
Proof. by destruct out as [a [b|]]. Qed.

Lemma option_eq {A} (o : option A) (a0 : A) : bool_decide (is_Some o) = true → o = Some (default a0 o).
Proof. by destruct o. Qed.

Lemma opened0_eq : open mint0 build0 open_world0 world0 "/p" ∅ 0 = (opened0.1, Ok project0).
Proof. apply (result_eq opened0 (mkProject None [] false)). vm_compute. reflexivity. Qed.

Lemma project0_inner : inner project0 = Some opened_head0.
Proof. apply option_eq. vm_compute. reflexivity. Qed.

Lemma open_establishes_witness :
  ∃ h, inner project0 = Some h ∧ revision (h_store h) = 1%N ∧
    overlay_state (generation (h_store h)) "/p/a.py" = Some (Some "disk").
Proof.
  destruct (open_establishes mint0 build0 open_world0 world0 "/p" ∅ 0 opened0.1 project0 opened0_eq)
    as (h & Hi & _ & Hop).
  exists h. split; [exact Hi|]. split; [exact (op_revision _ _ _ _ Hop)|].
  rewrite (op_content _ _ _ _ Hop "/p/a.py"). vm_compute. reflexivity.
Defined.

Lemma snapshot_reads_published_witness :
  match snapshot build0 (with_inner project0 (Some (session mint0 opened_head0 [(world0, edit0)]).1)) (Some 1%N) with
  | Ok sn => sn_generation sn = generation (h_store opened_head0)
  | Err _ => False
  end.
Proof.
  pose proof (snapshot_reads_published mint0 build0 build0 open_world0 world0 "/p" ∅ 0 opened0.1 project0
    opened_head0 [(world0, edit0)] 1 opened0_eq project0_inner eq_refl eq_refl) as H.
  assert (is_ok (snapshot build0 (with_inner project0
    (Some (session mint0 opened_head0 [(world0, edit0)]).1)) (Some 1%N)) = true) as Hok by (vm_compute; reflexivity).
  destruct (session mint0 opened_head0 [(world0, edit0)]) as [h' out]. simpl fst in Hok |- *.
  destruct (snapshot _ _ _) as [sn|]; [|discriminate Hok]. destruct H as (_ & H & _).
  apply (inj Some). etrans; [symmetry; exact H|reflexivity].
Defined.

(** After an edit, the served delta has the layer of the edit. *)
Lemma full_delta_is_layer_witness :
  let h' := (session mint0 opened_head0 [(world0, edit0)]).1 in
  ∃ d, full_code_delta (with_inner project0 (Some h')) = Ok d ∧ apply_nodes d ∅ = nodes (served_layer h') ∧
    nodes_upserted d ≠ [].
Proof.
  intros h'.
  destruct (full_delta_is_layer mint0 build0 build0 open_world0 world0 "/p" ∅ 0 opened0.1 project0
    opened_head0 [(world0, edit0)] opened0_eq project0_inner) as (_ & d & E & Hn & _).
  exists d. split; [exact E|]. split; [exact Hn|].
  assert (match full_code_delta (with_inner project0 (Some h')) with
          | Ok d => negb (bool_decide (nodes_upserted d = [])) | Err _ => false end = true) as Hne
    by (vm_compute; reflexivity).
  unfold h' in Hne. rewrite E in Hne. intros Hd. rewrite Hd in Hne. discriminate Hne.
Defined.

Definition api_published (out : Project (Db:=unit) * result ApiError CommitDelta) : bool := is_ok out.2.

Lemma api_published_eq (out : Project (Db:=unit) * result ApiError CommitDelta) :
  api_published out = true → ∃ d, out = (out.1, Ok d).
Proof. destruct out as [p [d|]]; [|done]. intros _. by exists d. Qed.

Lemma edit_then_discard_witness :
  let p1 := (edit mint0 world0 project0 "a.py" "new").1 in
  let p2 := (discard mint0 world0 p1 "a.py").1 in
  shown p1 "/p/a.py" = Some (Some (Some "new")) ∧ shown p2 "/p/a.py" = Some (Some (Some "disk")).
Proof.
  intros p1 p2.
  destruct (api_published_eq (edit mint0 world0 project0 "a.py" "new")) as (d1 & E1); [vm_compute; reflexivity|].
  destruct (api_published_eq (discard mint0 world0 p1 "a.py")) as (d2 & E2); [vm_compute; reflexivity|].
  pose proof (edit_then_discard mint0 world0 world0 project0 p1 p2 "a.py" "new" d1 d2 opened_head0
    project0_inner E1 E2) as (H1 & _ & H2 & _). split; [exact H1|exact H2].
Defined.

Lemma reload_keeps_and_loses_witness :
  ∃ h', (reload build0 project0).1 = with_inner project0 (Some h') ∧ h_store h' = h_store opened_head0.
Proof.
  destruct (reload_keeps_and_loses build0 project0 opened_head0 project0_inner) as (h' & H & Hs & _).
  exists h'. split; assumption.
Defined.

(** A printer that writes nothing and a parser that answers with the record of
    the witness: the law the theorem asks for holds of them on that record. *)
Definition note0 : AuthoredRecordDoc :=
  mkAuthoredRecordDoc 2 "notes" "A1" (mkAuthoredVersion (JString "hi") 2 (Some 7%N)) [].

Definition note_serde0 : SerdeJson :=
  {| from_str := λ _, Ok (doc_to_json note0); to_vec_pretty := λ _, "" |}.

Definition author_out0 := commit (SJ:=note_serde0) mint0 world0 head0 author0.

Lemma author_out0_eq : ∃ d, commit (SJ:=note_serde0) mint0 world0 head0 author0 = (author_out0.1, Ok (Some d)).
Proof.
  fold author_out0. assert (match author_out0.2 with Ok (Some _) => true | _ => false end = true) as H
    by (vm_compute; reflexivity).
  destruct author_out0 as [h [[d|]|]]; [by exists d|discriminate H..].
Qed.

Lemma authored_survives_reopen_witness :
  ∃ m, load_record (SJ:=note_serde0) open_world0 (h_sidecar author_out0.1) true ∅
         (record_path (sidecar_root "/p") "notes" "A1") = Ok m ∧
    records_get m "notes" "A1" = Some (mkAuthoredRecord (doc_current note0) []).
Proof.
  destruct author_out0_eq as (d & E).
  assert (records_get (h_authored author_out0.1) "notes" "A1" = Some (mkAuthoredRecord (doc_current note0) []))
    as Hrec by (vm_compute; reflexivity).
  destruct (authored_survives_reopen (SJ:=note_serde0) mint0 open_world0 world0 head0 author_out0.1 "notes" "A1"
    (JString "hi") d notes0 E) as (m & Hm & Hr & _).
  - vm_compute; reflexivity.
  - reflexivity.
  - discriminate.
  - reflexivity.
  - intros rec Hrec'. rewrite Hrec in Hrec'. injection Hrec' as <-.
    split; [split; [reflexivity|intros h [= <-]; reflexivity]|]. split; [|reflexivity].
    intros v Hv. destruct (not_elem_of_nil v Hv).
  - exists m. split; [exact Hm|]. rewrite Hr. exact Hrec.
Defined.
