(* ===== verification/HeadLayer.v ===== *)
(** * The code layer of the head

    [commit] in [rust/src/commit.rs] keeps the code layer of the head by scoped
    rebuilds, from the full build [Project::open] starts with.  Along a session of
    local edits the layer the head carries is the one a full build gives of the view
    it was last rebuilt for. *)

From S2P Require Import Prelude Str Paths Content Identity Entity EditDistance Reconcile.
From S2P Require Import ReconcileFacts ReconcileTheorems Json IdentityFormat Authored CodeLayer CodeBuilder CodeBuilderFacts CodeProducer.
From S2P Require Import CodeParity CodeExample Config Sidecar ConfigLoad Commit CommitFacts Project ProjectFacts.
Import Registry AuthoredStore.

Section head.
Context {Ext : External} {SJ : SerdeJson} {TC : TomlCodec} {Db : Type} {Eng : Engine Db}.
Context (mint : nat → DurableId) (db_build : string → ContentMap → Db).

(** What the engine answers about the head. *)
Definition head_view (h : HeadState (Db:=Db)) : ProjectView := db_view (h_db h) (h_system h) (h_registry h).

(** The scope of a plan, as paths of the graph. *)
Definition graph_scope (root : string) (s : gset string) : gset string :=
  list_to_set (omap (native_to_graph root) (elements s)).

(** The edit of a commit is local to the scope its plan gives, against the head
    [s] whose view the layer was last built for; a plan without a scope rebuilds the
    whole layer and needs nothing. *)
Definition local_commit (w : World) (s h h' : HeadState (Db:=Db)) (m : Mutation) : Prop :=
  ∀ sc f, (build_plan w h m).2 = Ok (Some sc) → sc_scope sc = Some f →
    let seed := graph_scope (h_root h) f in
    ∃ steady, local_edit (h_root h) (head_view s) (head_view h') seed (dirty_scope (h_code_layer h) seed) steady.

(** The head carries the layer of its view. *)
Record carries (h : HeadState (Db:=Db)) : Prop := {
  ca_coherent : coherent h;
  ca_view : view_ok (h_root h) (head_view h);
  ca_tracks : tracks (h_root h) (head_view h) (h_code_layer h);
}.

(** The head [h] still has the layer and the registry of the head [s] and, if no
    commit failed since, its database and overlay. *)
Record rests (s h : HeadState (Db:=Db)) (failed : bool) : Prop := {
  re_coherent : coherent h;
  re_root : h_root h = h_root s;
  re_layer : h_code_layer h = h_code_layer s;
  re_registry : h_registry h = h_registry s;
  re_minted : h_minted s ≤ h_minted h;
  re_engine : failed = false → h_db h = h_db s ∧ h_system h = h_system s;
}.

Lemma rests_refl h : coherent h → rests h h false.
Proof. by intros. Qed.

Lemma produce_layer_tracks (s h h' : HeadState (Db:=Db)) failed sc rev :
  h_root h' = h_root h → carries s → rests s h failed → view_ok (h_root h') (head_view h') →
  (∀ f, sc_scope sc = Some f → let seed := graph_scope (h_root h) f in
    ∃ steady, local_edit (h_root h) (head_view s) (head_view h') seed (dirty_scope (h_code_layer h) seed) steady) →
  tracks (h_root h') (head_view h') (produce_layer h' (h_code_layer h) sc rev).1.
Proof.
  intros Hr [_ Hv Ht] [_ Hrs Hl _ _ _] Hv' Hedit. unfold produce_layer. fold (head_view h').
  assert (tracks (h_root h') (head_view h')
    (produce_code_delta (h_root h') (head_view h') CodeLayer_new rev (sc_rescan sc)).1) as Hfull
    by apply build_tracks, Hv'.
  destruct (sc_scope sc) as [f|] eqn:Es; simpl; [|exact Hfull].
  destruct (_ && _); [|exact Hfull]. destruct (Hedit f eq_refl) as (steady & He).
  rewrite Hr, Hrs, Hl in *. fold (graph_scope (h_root s) f).
  by apply (scoped_tracks (h_root s) (head_view s) (head_view h') (h_code_layer s) (graph_scope (h_root s) f) steady).
Qed.

(** A reconciling commit of a local edit. *)
Lemma commit_carries w (s h h' : HeadState (Db:=Db)) failed m d :
  is_author m = false → commit mint w h m = (h', Ok (Some d)) →
  carries s → rests s h failed → view_ok (h_root h') (head_view h') → local_commit w s h h' m → carries h'.
Proof.
  intros Hm Hc Hs Hh Hv Hl. pose proof (commit_root mint w h h' m d Hc) as Hr.
  destruct (commit_published mint w h h' m d Hc) as (_ & _ & Hco & _).
  destruct (commit_delta mint w h h' m d Hm Hc) as (sc & Hp & [_ _ Hlay]).
  split; [done..|]. rewrite Hlay. apply (produce_layer_tracks s h h' failed); [done..|]. intros f Hf. by apply (Hl sc).
Qed.

(** A commit that authors, fails or has nothing to do leaves the layer. *)
Definition reconciled (m : Mutation) (out : result CommitError (option CommitDelta)) : bool :=
  match out with Ok (Some _) => negb (is_author m) | _ => false end.

Lemma commit_keeps_layer w (h h' : HeadState (Db:=Db)) m out :
  coherent h → commit mint w h m = (h', out) → reconciled m out = false →
  coherent h' ∧ h_root h' = h_root h ∧ h_code_layer h' = h_code_layer h ∧ h_registry h' = h_registry h.
Proof.
  intros Hco Hc Hm. pose proof (commit_spec mint w h m) as H. rewrite Hc in H.
  destruct (build_plan_root w h m) as (Hr & _). destruct (build_plan_ok w h m) as [Hh Hs _ _].
  destruct out as [[d|]|e]; simpl in *.
  - destruct (commit_published mint w h h' m d Hc) as (_ & _ & Hco' & _). split; [done|].
    split; [by eapply commit_root|]. destruct m as [| | |layer id value|]; try done.
    destruct H as (sc & db & r & n & l & fs & Hp & -> & Hd & _).
    apply author_plan_inv in Hp as (lcfg & anchor & _ & _ & rec & _ & _ & _ & Hre & _).
    destruct (du_same _ _ _ _ _ _ _ Hd Hre) as [-> ->]. cbn [h_code_layer h_registry published_head]. by rewrite Hh.
  - destruct H as [_ ->]. unfold coherent in *. rewrite Hs. split; [by rewrite Hh|]. split; [done|]. split; by rewrite Hh.
  - destruct H as (_ & _ & Ho & _). specialize (Ho Hco).
    destruct (observe_registry h h' Ho Hco) as (? & _). split; [done|].
    unfold observe in Ho. split_and!; congruence.
Qed.

(** One that succeeds leaves the database and the overlay, too: it applies no change
    and republishes the same content. *)
Lemma commit_keeps_engine w (h h' : HeadState (Db:=Db)) m out :
  coherent h → commit mint w h m = (h', Ok out) → reconciled m (Ok out) = false →
  h_db h' = h_db h ∧ h_system h' = h_system h.
Proof.
  intros Hco Hc Hm. pose proof (commit_spec mint w h m) as H. rewrite Hc in H. destruct (build_plan_ok w h m) as [Hh _ _ _].
  destruct out as [d|]; [|destruct H as [_ ->]; by rewrite Hh].
  destruct m as [| | |layer id value|]; try done.
  destruct H as (sc & db & r & n & l & fs & Hp & -> & Hd & _).
  apply author_plan_inv in Hp as (lcfg & anchor & _ & _ & rec & _ & _ & Hg & _ & He & _).
  rewrite (du_db _ _ _ _ _ _ _ Hd). unfold staged_db. rewrite He. cbn [h_db h_system published_head].
  by rewrite Hg, Hh, Hco.
Qed.

(** *** Ids are drawn forward *)

Definition draws_forward {A} (m : Step (Db:=Db) A) : Prop := ∀ h, h_minted h ≤ h_minted (m h).1.

Lemma forward_bind {A B} (m : Step (Db:=Db) A) (k : A → Step B) :
  draws_forward m → (∀ a, draws_forward (k a)) → draws_forward (step_bind m k).
Proof.
  intros Hm Hk h. unfold step_bind. specialize (Hm h). destruct (m h) as [h1 [a|e]]; simpl in *; [|done].
  etrans; [exact Hm|apply Hk].
Qed.

Lemma forward_still {A} (m : Step (Db:=Db) A) : (∀ h, h_minted (m h).1 = h_minted h) → draws_forward m.
Proof. intros H h. by rewrite H. Qed.

Lemma reconcile_forward reg es rev scope n reg' rc n' :
  reconcile_impl mint reg es rev scope n = Some (reg', rc, n') → n ≤ n'.
Proof.
  intros (st & r1 & Hst & _)%reconcile_impl_inv. assert (n ≤ (run_passes mint reg scope n (sort_by entity_le es)).2) as H.
  { unfold run_passes. apply (foldl_ind (λ sn, n ≤ sn.2)); [done|]. intros [st' k] [i e] _ Hk. simpl in Hk.
    unfold pass_d_step. case_bool_decide; simpl; lia. }
  by rewrite Hst in H.
Qed.

Lemma run_staged_forward w sc armed : draws_forward (run_staged mint w sc armed).
Proof.
  assert (∀ stage, draws_forward (check_fault armed stage)) as Hfault.
  { intros stage. apply forward_still. intros h. unfold check_fault. by case_bool_decide. }
  assert (∀ f path bytes msg, draws_forward (persist (Db:=Db) f path bytes msg)) as Hpersist.
  { intros f path bytes msg. apply forward_still. intros h. pose proof (persist_spec f path bytes msg h) as H.
    destruct (persist f path bytes msg h) as [h1 [u|e]]; by destruct H as [-> _]. }
  unfold run_staged. do 2 (apply forward_bind; [by apply forward_still|intros ?]).
  apply forward_bind; [|intros flags; apply forward_bind; [|intros idd; apply forward_bind; [|intros ?]]].
  - apply forward_still. intros h. destruct (sc_events sc); [done|]. unfold step_bind, gets, modify. simpl.
    by destruct (db_apply _ _ _).
  - destruct (sc_reconcile sc); [|by apply forward_still]. unfold staged_identity.
    apply forward_bind; [|intros ?; apply forward_bind; [by apply forward_still|intros h]].
    + intros h. unfold run_identity_reconciliation, step_bind, gets, modify. simpl.
      destruct (reconcile_impl _ _ _ _ _ _) as [[[r rc] n]|] eqn:E; simpl; [|done].
      destruct (compute_authored_lifecycle (h_config h) (h_authored h) (rc_needs_review rc) (rc_retired rc)). simpl. by eapply reconcile_forward.
    + destruct (affected_closure_with_deleted _ _ _ _); [|by apply forward_still].
      apply forward_bind; [by apply forward_still|intros ?].
      do 2 (apply forward_bind; [apply Hfault|intros ?]).
      apply forward_bind; [|intros ?; by apply forward_still]. intros h'. apply Hpersist.
  - destruct (sc_authored sc); [|by apply forward_still]. apply forward_bind; [apply Hfault|intros ?; apply Hpersist].
  - apply forward_bind; [|intros ?; by apply forward_still]. unfold publish_tail.
    apply forward_bind; [by apply forward_still|intros s]. destruct (publish_staged s (sc_gen sc)).
    apply forward_bind; [by apply forward_still|intros ?]. apply forward_bind; [|intros ?; by apply forward_still].
    destruct (sc_authored sc); by apply forward_still.
Qed.

Lemma commit_forward w (h h' : HeadState (Db:=Db)) m out : commit mint w h m = (h', out) → h_minted h ≤ h_minted h'.
Proof.
  unfold commit. destruct (build_plan_ok w h m) as [Hh _ _ _]. destruct (build_plan w h m) as [h1 res]. simpl in Hh.
  assert (h_minted h1 = h_minted h) as Hm by by rewrite Hh.
  destruct res as [[sc|]|e]; [|intros [= <- _]; by rewrite Hm..].
  pose proof (run_staged_forward w sc (h_armed h1) (set_armed None h1)) as Hf. simpl in Hf. rewrite Hm in Hf.
  destruct (run_staged _ _ _ _ _) as [h2 [d|e]]; intros [= <- _]; done.
Qed.

(** The heads of a session: what opening gives, then writes.  [s] is the head right
    after the open or the reconciling commit that last built the layer, [h] the head
    now, and [failed] says whether a commit failed in between.  Each reconciling
    write is a local edit; of the other writes nothing is asked. *)
Inductive head_session : HeadState (Db:=Db) → HeadState (Db:=Db) → bool → Prop :=
| hs_open ow w root fs minted fs' p h :
    open mint db_build ow w root fs minted = (fs', Ok p) → inner p = Some h →
    view_ok (h_root h) (head_view h) → head_session h h false
| hs_edit w s h failed h' m d :
    head_session s h failed → is_author m = false → commit mint w h m = (h', Ok (Some d)) →
    view_ok (h_root h') (head_view h') → local_commit w s h h' m → head_session h' h' false
| hs_other w s h failed h' m out :
    head_session s h failed → commit mint w h m = (h', out) → reconciled m out = false →
    head_session s h' (failed || negb (is_ok out)).

Lemma open_built ow w root fs minted fs' p h :
  open mint db_build ow w root fs minted = (fs', Ok p) → inner p = Some h →
  coherent h ∧ h_code_layer h = layer (build (h_root h) (head_view h)).
Proof.
  intros Ho Hi. destruct (open_opened _ _ _ _ _ _ _ _ _ Ho) as (h0 & Hi0 & _ & Hop).
  rewrite Hi in Hi0. injection Hi0 as <-. destruct Hop as [Hco Hroot _ _ _ _ _ Hb _ _ _ _].
  split; [done|]. rewrite Hb, Hroot. done.
Qed.

Lemma open_carries ow w root fs minted fs' p h :
  open mint db_build ow w root fs minted = (fs', Ok p) → inner p = Some h →
  view_ok (h_root h) (head_view h) → carries h.
Proof.
  intros Ho Hi Hv. destruct (open_built _ _ _ _ _ _ _ _ Ho Hi) as [Hco Hb].
  split; [done..|]. rewrite Hb. apply build_tracks, Hv.
Qed.

(** A write that does not reconcile. *)
Lemma rests_other w s h failed h' m out :
  rests s h failed → commit mint w h m = (h', out) → reconciled m out = false → rests s h' (failed || negb (is_ok out)).
Proof.
  intros [Hco Hr Hl Hg Hn Hv] Hc Hm. destruct (commit_keeps_layer w h h' m out Hco Hc Hm) as (Hco' & Hr' & Hl' & Hg').
  pose proof (commit_forward w h h' m out Hc). split; [done|congruence..|lia|].
  intros [-> Hok]%orb_false_iff. destruct out as [o|e]; [|done]. destruct (Hv eq_refl) as [<- <-].
  by apply (commit_keeps_engine w h h' m o).
Qed.

Lemma session_carries s h failed : head_session s h failed → carries s ∧ rests s h failed.
Proof.
  induction 1 as [ow w root fs minted fs' p h Ho Hi Hv|w s h failed h' m d _ [Hs Hh] Hm Hc Hv Hl|w s h failed h' m out _ [Hs Hh] Hc Hm].
  - pose proof (open_carries _ _ _ _ _ _ _ _ Ho Hi Hv) as Hc. split; [done|by apply rests_refl, Hc].
  - pose proof (commit_carries w s h h' failed m d Hm Hc Hs Hh Hv Hl) as Hc'. split; [done|by apply rests_refl, Hc'].
  - split; [done|]. by eapply rests_other.
Qed.

Lemma rests_view s h : rests s h false → head_view h = head_view s.
Proof. intros [_ _ _ Hg _ He]. destruct (He eq_refl) as [Hd Hs]. unfold head_view. by rewrite Hd, Hs, Hg. Qed.

(** C6: the code layer of a project does not drift along a session.  After opening
    and any sequence of commits, the head carries the edges, the reverse
    dependencies, the listing and the project nodes of a full build of what the
    engine answered right after the open or the commit that last rebuilt the layer,
    and no edge dangles; unless a commit failed since, that is what the engine
    answers now.  Conditions, at the open and at each commit that rebuilds the
    layer: the engine's answers are well formed ([view_ok]), and the edit is local
    to the scope of its plan ([local_edit]), against the answers the layer was last
    built for.  Of the writes that fail, author a
    record or find nothing to do, nothing is assumed. *)
Theorem head_layer_is_full s h failed :
  head_session s h failed →
  let full := layer (build (h_root h) (head_view s)) in
  edges (h_code_layer h) = edges full ∧ reverse_deps (h_code_layer h) = reverse_deps full ∧
  file_to_nodes (h_code_layer h) = file_to_nodes full ∧
  (∀ id n, n_external n = false → nodes (h_code_layer h) !! id = Some n ↔ nodes full !! id = Some n) ∧
  closed (h_code_layer h) ∧ (failed = false → head_view h = head_view s).
Proof.
  intros [[_ Hv Ht] Hh]%session_carries full. pose proof Hh as [_ Hr Hl _ _ _]. unfold full. rewrite Hr, Hl.
  destruct (tracks_full _ _ _ Hv Ht) as (? & ? & ? & ? & ?). do 5 (split; [done|]). intros ->. by apply rests_view.
Qed.

End head.

(** ** Witness

    A project of the three files of the local edit: the engine's database says
    whether [a.py] was edited, and an edit of [a.py] renames its function. *)

#[local] Existing Instance external0.
#[local] Existing Instance serde0.
#[local] Existing Instance toml0.

#[local] Instance local_engine : Engine bool := {|
  db_apply _ _ _ := (true, (false, false));
  db_file _ _ _ := Some true;
  db_virtual _ _ := false;
  db_entities _ _ _ := entities0;
  db_view edited _ _ := local_files edited;
|}.

Definition local_build (root : string) (g : ContentMap) : bool := false.

Definition local_opened := open mint0 local_build open_world0 world0 "/p" ∅ 0.

Definition local_project : Project (Db:=bool) :=
  match local_opened.2 with Ok p => p | Err _ => mkProject None [] false end.

Definition local_head : HeadState (Db:=bool) :=
  default (build_head_with_config local_build "/p" (with_retain_cap 2) empty_registry config0 ∅ 0) (inner local_project).

Lemma local_opened_eq : open mint0 local_build open_world0 world0 "/p" ∅ 0 = (local_opened.1, Ok local_project).
Proof. apply (result_eq local_opened (mkProject None [] false)). vm_compute. reflexivity. Qed.

Lemma local_project_inner : inner local_project = Some local_head.
Proof. apply option_eq. vm_compute. reflexivity. Qed.

Definition local_after (w : World) (m : Mutation) (h : HeadState (Db:=bool)) := commit mint0 w h m.

Lemma local_after_eq w m h :
  reconciled m (local_after w m h).2 = true → ∃ d, commit mint0 w h m = ((local_after w m h).1, Ok (Some d)).
Proof. unfold local_after. destruct (commit _ _ _ _) as [h' [[d|]|e]]; [intros _; by exists d|done..]. Qed.

Lemma local_failed_eq w m h :
  is_ok (local_after w m h).2 = false → ∃ e, commit mint0 w h m = ((local_after w m h).1, Err e).
Proof. unfold local_after. destruct (commit _ _ _ _) as [h' [o|e]]; [done|intros _; by exists e]. Qed.

(** Opened; an edit that fails, the disk being full; the edit again; a third edit,
    which fails. *)
Definition local_stuck : HeadState (Db:=bool) := (local_after world0_full edit0 local_head).1.
Definition local_out : HeadState (Db:=bool) := (local_after world0 edit0 local_stuck).1.
Definition local_end : HeadState (Db:=bool) := (local_after world0_full edit0 local_out).1.

Lemma local_db_view (h : HeadState (Db:=bool)) edited : h_db h = edited → head_view h = local_files edited.
Proof. unfold head_view. by intros ->. Qed.

Lemma local_head_view : head_view local_head = local_files false.
Proof. apply local_db_view. vm_compute. reflexivity. Qed.

Lemma local_out_view : head_view local_out = local_files true.
Proof. apply local_db_view. vm_compute. reflexivity. Qed.

(** A failed commit may move what the engine answers: the database keeps the
    changes it was told of, and nothing in the code brings it back. *)
Theorem failed_commit_moves_view :
  ∃ e, commit mint0 world0_full local_head edit0 = (local_stuck, Err e) ∧
    h_code_layer local_stuck = h_code_layer local_head ∧ head_view local_stuck ≠ head_view local_head.
Proof.
  destruct (local_failed_eq world0_full edit0 local_head) as (e & E); [vm_compute; reflexivity|].
  exists e. split; [exact E|]. split.
  { by eapply (commit_keeps_layer mint0 world0_full local_head local_stuck edit0). }
  rewrite local_head_view, (local_db_view local_stuck true) by (vm_compute; reflexivity).
  intros H. apply (f_equal (λ pv, pv_document_symbols pv "/p/a.py")) in H. vm_compute in H. discriminate H.
Qed.

Lemma local_head_root : h_root local_head = "/p". Proof. vm_compute. reflexivity. Qed.

Lemma local_head_layer : h_code_layer local_head = layer (build "/p" (local_files false)).
Proof.
  pose proof (open_built mint0 local_build _ _ _ _ _ _ _ _ local_opened_eq local_project_inner) as [_ H].
  rewrite local_head_root, local_head_view in H. exact H.
Qed.

Lemma local_head_session : head_session mint0 local_build local_head local_head false.
Proof.
  eapply hs_open; [exact local_opened_eq|exact local_project_inner|].
  rewrite local_head_root, local_head_view. apply local_view_ok.
Qed.

Lemma local_stuck_session : head_session mint0 local_build local_head local_stuck true.
Proof.
  destruct (local_failed_eq world0_full edit0 local_head) as (e & E); [vm_compute; reflexivity|].
  exact (hs_other mint0 local_build world0_full local_head local_head false local_stuck edit0 (Err e) local_head_session E eq_refl).
Qed.

Lemma edit0_scope (h : HeadState (Db:=bool)) sc s :
  (build_plan world0 h edit0).2 = Ok (Some sc) → sc_scope sc = Some s → graph_scope "/p" s = {["a.py"]}.
Proof.
  unfold edit0, build_plan. destruct (stage _ _). intros [= <-] [= <-]. vm_compute. reflexivity.
Qed.

Lemma edit0_local : local_commit world0 local_head local_stuck local_out edit0.
Proof.
  intros sc s Hp Hs seed. exists (λ g, g ≠ "a.py").
  pose proof (edit0_scope local_stuck sc s Hp Hs) as Hseed. unfold seed. clear seed Hp.
  destruct (session_carries _ _ _ _ _ local_stuck_session) as [_ [_ Hr Hl _ _ _]].
  rewrite Hl, Hr, local_head_layer, local_head_root, local_head_view, local_out_view, Hseed. exact local_edit_ok.
Qed.

Lemma local_out_root : h_root local_out = "/p". Proof. vm_compute. reflexivity. Qed.

Lemma local_out_session : head_session mint0 local_build local_out local_out false.
Proof.
  destruct (local_after_eq world0 edit0 local_stuck) as (d & E); [vm_compute; reflexivity|].
  apply (hs_edit mint0 local_build world0 local_head local_stuck true local_out edit0 d local_stuck_session eq_refl E); [|exact edit0_local].
  rewrite local_out_root, local_out_view. apply local_view_ok.
Qed.

Lemma local_end_session : head_session mint0 local_build local_out local_end true.
Proof.
  destruct (local_failed_eq world0_full edit0 local_out) as (e & E); [vm_compute; reflexivity|].
  exact (hs_other mint0 local_build world0_full local_out local_out false local_end edit0 (Err e) local_out_session E eq_refl).
Qed.

Lemma head_layer_is_full_witness :
  edges (h_code_layer local_end) = edges (layer (build "/p" (local_files true))) ∧ closed (h_code_layer local_end).
Proof.
  destruct (head_layer_is_full mint0 local_build local_out local_end true local_end_session) as (He & _ & _ & _ & Hcl & _).
  assert (h_root local_end = "/p") as Hr by (vm_compute; reflexivity).
  rewrite Hr, local_out_view in He. split; [exact He|exact Hcl].
Defined.
