(* ===== verification/OpenDb.v ===== *)
(** * Building the analysis database ([rust/src/project/open.rs])

    How [build_head_with_config] and [build_frozen] make the database of a head
    and of a snapshot: discover the project's metadata through an overlay,
    replace it when it belongs to another root, apply the user's configuration,
    build, and fall back to defaults on any failure.  The constructors of [ty]
    are the class [ProjectApi]; they read the disk through the [System] they are
    given, which the overlay implements.  [Project] takes the two constructions
    as arguments; [head_database] and [frozen_database] are what it is given. *)

From S2P Require Import Prelude Str Paths Content Identity Reconcile Json IdentityFormat Authored CodeLayer CodeBuilder Config.
From S2P Require Import Sidecar ConfigLoad Overlay ReconcileTheorems CodeProducer Commit CommitFacts Project ProjectFacts.

(** ** The system trait

    The methods that the overlay hands to the operating system whether it is
    frozen or not. *)
Inductive CaseSensitivity := CaseUnknown | CaseSensitive | CaseInsensitive.

Record Structural := mkStructural {
  canonicalize_path : string → result io_error string;
  which : string → option string;
  path_exists_case_sensitive : string → string → bool;
  case_sensitivity : CaseSensitivity;
  current_directory : string;
  user_config_directory : option string;
  cache_dir : option string;
  walk_directory : string → list DirectoryEntry;
  env_var : string → option string;
}.

(** What an implementation of [System] answers: content, then structure. *)
Record System (S : Type) := mkSystem {
  sys_content : Native S;
  sys_structural : Structural;
}.
Arguments mkSystem {S} _ _.
Arguments sys_content {S} _.
Arguments sys_structural {S} _.

(** Two systems that answer alike about every path. *)
Record system_equiv {S} (s s' : System S) : Prop := mk_system_equiv {
  se_metadata : ∀ p, nat_metadata (sys_content s) p = nat_metadata (sys_content s') p;
  se_read : ∀ p, nat_read (sys_content s) p = nat_read (sys_content s') p;
  se_read_virtual : ∀ p, nat_read_virtual (sys_content s) p = nat_read_virtual (sys_content s') p;
  se_source_type : ∀ p, nat_source_type (sys_content s) p = nat_source_type (sys_content s') p;
  se_virtual_source_type : ∀ p,
    nat_virtual_source_type (sys_content s) p = nat_virtual_source_type (sys_content s') p;
  se_read_directory : ∀ p, nat_read_directory (sys_content s) p = nat_read_directory (sys_content s') p;
  se_structural : sys_structural s = sys_structural s';
}.

#[global] Instance system_equiv_equivalence S : Equivalence (@system_equiv S).
Proof.
  split.
  - by intros s.
  - intros s s' []. by split.
  - intros s s' s'' [] []. split; congruence.
Qed.

(** ** The constructors of [ty]

    [discover] looks for a [pyproject.toml] or [ty.toml] from the given
    directory upwards, so the metadata's root may be an ancestor. *)
Class ProjectApi (S Meta Db : Type) := {
  discover : string → System S → result string Meta;
  metadata_root : Meta → string;
  metadata_new : string → string → Meta;
  apply_configuration_files : System S → Meta → result string Meta;
  db_fallible : Meta → System S → result string Db;
  db_use_defaults : Meta → System S → Db;
  db_root : Db → string;
}.

Definition result_rel {E A} (R : relation A) (r r' : result E A) : Prop :=
  match r, r' with
  | Ok x, Ok y => R x y
  | Err e, Err e' => e = e'
  | _, _ => False
  end.

(** What the crate relies on: a database is rooted where its metadata is,
    configuration files do not move the root, and the constructors read the
    disk through the system only, up to databases that answer alike. *)
Class ProjectApiLaws {S Meta Db} (api : ProjectApi S Meta Db) (db_equiv : relation Db) : Prop := {
  metadata_new_root name root : metadata_root (metadata_new name root) = root;
  apply_keeps_root sys m m' : apply_configuration_files sys m = Ok m' → metadata_root m' = metadata_root m;
  fallible_root m sys db : db_fallible m sys = Ok db → db_root db = metadata_root m;
  use_defaults_root m sys : db_root (db_use_defaults m sys) = metadata_root m;
  #[global] discover_proper root :: Proper (system_equiv ==> eq) (discover root);
  #[global] apply_proper :: Proper (system_equiv ==> eq ==> eq) apply_configuration_files;
  #[global] fallible_proper m :: Proper (system_equiv ==> result_rel db_equiv) (db_fallible m);
  #[global] use_defaults_proper m :: Proper (system_equiv ==> db_equiv) (db_use_defaults m);
}.

Section open_db.
Context {S Meta Db : Type} {api : ProjectApi S Meta Db}.
Context (python : S) (try_from_extension : string → option S).

(** [OsSystem::new(root)] *)
Context (os : string → System S).

(** ** The overlay as a system *)

Definition overlay_as_system (hp : Heap) (o : OverlaySystem (S:=S)) (st : Structural) : System S :=
  mkSystem
    (mkNative S (path_metadata hp o) (read_to_string hp o) (read_virtual_path_to_string hp o)
       (source_type python try_from_extension hp o) (virtual_path_source_type python try_from_extension hp o)
       (read_directory hp o))
    st.

(** ** Construction *)

(** Metadata of another root is discarded: the caller's root is a boundary. *)
Definition clamp_metadata (root : string) (metadata : Meta) : Meta :=
  if path_eqb (metadata_root metadata) root then metadata
  else metadata_new (default "root" (file_name root)) root.

Definition map_err {E E' A} (f : E → E') (r : result E A) : result E' A :=
  match r with Ok x => Ok x | Err e => Err (f e) end.

Definition built (what : string) (root : string) (sys : System S) : result string Db :=
  let? metadata := map_err (λ e, "project discovery failed: " +:+ e) (discover root sys) in
  let? metadata := map_err (λ e, "failed to apply configuration files: " +:+ e)
    (apply_configuration_files sys (clamp_metadata root metadata)) in
  map_err (λ e, "failed to build " +:+ what +:+ " database: " +:+ e) (db_fallible metadata sys).

Definition database (what : string) (root : string) (sys : System S) : Db :=
  match built what root sys with
  | Ok db => db
  | Err _ => db_use_defaults (metadata_new "tyo3-project" root) sys
  end.

Definition live_system (root : string) (initial : ContentMap) : System S :=
  let '(hp, o) := live heap_empty (sys_content (os root)) initial in
  overlay_as_system hp o (sys_structural (os root)).

Definition frozen_system (root : string) (generation : ContentMap) (rev : Revision) : System S :=
  let '(hp, o) := frozen heap_empty (sys_content (os root)) generation rev in
  overlay_as_system hp o (sys_structural (os root)).

Definition head_database (root : string) (initial : ContentMap) : Db :=
  database "project" root (live_system root initial).

Definition frozen_database (rev : Revision) (root : string) (generation : ContentMap) : Db :=
  database "snapshot" root (frozen_system root generation rev).
End open_db.

(** ** The root is a boundary *)

Section boundary.
Context {S Meta Db : Type} {api : ProjectApi S Meta Db} {db_equiv : relation Db} {laws : ProjectApiLaws api db_equiv}.

Lemma path_eqb_refl p : path_eqb p p.
Proof. unfold path_eqb. rewrite Bool.eqb_reflx. by rewrite bool_decide_true. Qed.

Lemma clamp_root root m : path_eqb (metadata_root (clamp_metadata root m)) root.
Proof.
  unfold clamp_metadata. destruct (path_eqb (metadata_root m) root) eqn:E; [by rewrite E|].
  rewrite (metadata_new_root (db_equiv:=db_equiv)). apply path_eqb_refl.
Qed.

Lemma built_root what root sys db : built what root sys = Ok db → path_eqb (db_root db) root.
Proof.
  unfold built. destruct (discover root sys) as [m|]; [|done]. simpl.
  destruct (apply_configuration_files _ _) as [m'|] eqn:Ha; [|done]. simpl.
  destruct (db_fallible m' sys) as [d|] eqn:Hd; [|done]. intros [= <-].
  rewrite (fallible_root (db_equiv:=db_equiv) _ _ _ Hd), (apply_keeps_root (db_equiv:=db_equiv) _ _ _ Ha).
  apply clamp_root.
Qed.

Lemma database_root what root sys : path_eqb (db_root (database what root sys)) root.
Proof.
  unfold database. destruct (built what root sys) as [d|] eqn:E; [by eapply built_root|].
  rewrite (use_defaults_root (db_equiv:=db_equiv)), (metadata_new_root (db_equiv:=db_equiv)). apply path_eqb_refl.
Qed.
End boundary.

Section sessions.
Context {S Meta Db : Type} {api : ProjectApi S Meta Db} {db_equiv : relation Db} {laws : ProjectApiLaws api db_equiv}.
Context (python : S) (try_from_extension : string → option S).
Context {Ext : External} {SJ : SerdeJson} {TC : TomlCodec} {Eng : Engine Db}.
Context (mint : nat → DurableId).

Lemma open_database db_build ow w root fs minted fs' p h :
  open mint db_build ow w root fs minted = (fs', Ok p) → inner p = Some h →
  h_root h = root ∧ ∃ g, h_db h = db_build root g.
Proof.
  unfold open. destruct (load _ _ _) as [rc|]; [|done].
  destruct (validate rc) as [c|]; [|done].
  destruct (prepare_sidecar _ _ _ _) as [fs1 [[]|]]; [|done].
  destruct (load_registry _ _ _) as [reg|] eqn:Hreg; [|done].
  set (s := (ingest_project _ _ _ _).1) in *.
  destruct (open_steps _ _ _) as [h1 [[]|]] eqn:Hsteps; [|done].
  destruct (open_steps_spec _ _ _ _ _ Hsteps) as (r & n & l & fs2 & -> & _); [by eapply load_registry_ok|].
  simpl. destruct (load_authored_records _ _ _ _) as [a|]; [|done]. intros [= _ <-] [= <-]. simpl. eauto.
Qed.

(** The caller's root is a hard boundary: the database a project is opened
    with, the one a reload builds and the one of any snapshot are rooted at the
    directory the caller named, although discovery may find the metadata of an
    ancestor and every step of the construction may fail. *)
Theorem databases_rooted (os : string → System S) ow w root fs minted fs' p h :
  open mint (head_database python try_from_extension os) ow w root fs minted = (fs', Ok p) → inner p = Some h →
  path_eqb (db_root (h_db h)) root ∧
  (∀ h', inner (reload (head_database python try_from_extension os) p).1 = Some h' →
    path_eqb (db_root (h_db h')) root) ∧
  (∀ rev at_ sn, snapshot (frozen_database python try_from_extension os rev) p at_ = Ok sn →
    path_eqb (db_root (sn_db sn)) root).
Proof.
  intros Ho Hi. destruct (open_database _ _ _ _ _ _ _ _ _ Ho Hi) as (Hr & g & Hdb).
  split; [rewrite Hdb; apply (database_root (db_equiv:=db_equiv))|]. split.
  - unfold reload, locked. rewrite Hi. intros h' [= <-]. simpl. rewrite Hr.
    apply (database_root (db_equiv:=db_equiv)).
  - unfold snapshot. rewrite Hi, Hr. intros rev [r|] sn.
    + destruct (generation_at _ r) as [g'|]; [|done]. intros [= <-]. apply (database_root (db_equiv:=db_equiv)).
    + intros [= <-]. apply (database_root (db_equiv:=db_equiv)).
Qed.
End sessions.

(** ** A snapshot is built from its generation *)

Section pinned.
Context {S Meta Db : Type} {api : ProjectApi S Meta Db} {db_equiv : relation Db} {laws : ProjectApiLaws api db_equiv}.
Context (python : S) (try_from_extension : string → option S).

#[global] Instance built_proper what root : Proper (system_equiv ==> result_rel db_equiv) (built what root).
Proof.
  intros s s' Hs. unfold built. rewrite (discover_proper (db_equiv:=db_equiv) root _ _ Hs).
  destruct (discover root s') as [m|]; [|done]. simpl.
  rewrite (apply_proper (db_equiv:=db_equiv) _ _ Hs _ _ eq_refl).
  destruct (apply_configuration_files s' _) as [m'|]; [|done]. simpl.
  pose proof (fallible_proper (db_equiv:=db_equiv) m' _ _ Hs) as H.
  destruct (db_fallible m' s), (db_fallible m' s'); simpl in *; congruence || done.
Qed.

#[global] Instance database_proper what root : Proper (system_equiv ==> db_equiv) (database what root).
Proof.
  intros s s' Hs. unfold database. pose proof (built_proper what root _ _ Hs) as H.
  destruct (built what root s), (built what root s'); simpl in H; [done|done|done|].
  by apply (use_defaults_proper (db_equiv:=db_equiv)).
Qed.

(** Machines that agree on what a frozen overlay still asks the operating system:
    canonical paths, directory walks, the case of names, the environment, and
    virtual paths.  They may differ in the text, the metadata and the listing of
    every file and directory. *)
Record same_machine (os os' : System S) : Prop := {
  sm_structural : sys_structural os = sys_structural os';
  sm_read_virtual : ∀ p, nat_read_virtual (sys_content os) p = nat_read_virtual (sys_content os') p;
  sm_virtual_source_type : ∀ p,
    nat_virtual_source_type (sys_content os) p = nat_virtual_source_type (sys_content os') p;
}.

Lemma frozen_system_equiv (os os' : string → System S) root g rev rev' :
  same_machine (os root) (os' root) →
  system_equiv (frozen_system python try_from_extension os root g rev)
    (frozen_system python try_from_extension os' root g rev').
Proof.
  intros [Hst Hrv Hvs]. unfold frozen_system. simpl.
  set (hp := mkHeap _ _). set (o := mkOverlaySystem _ _ (Some rev)). set (o' := mkOverlaySystem _ _ (Some rev')).
  assert (∀ p, content_view python try_from_extension hp o p = content_view python try_from_extension hp o' p) as Hc.
  { intros p. by apply frozen_view_content. }
  split; try (intros p; specialize (Hc p); unfold content_view in Hc; simpl; congruence).
  - intros p. simpl. unfold read_virtual_path_to_string. simpl. rewrite Hrv. reflexivity.
  - intros p. simpl. unfold virtual_path_source_type. simpl. rewrite Hvs. reflexivity.
  - exact Hst.
Qed.

End pinned.

(** ** Witnesses and limits

    A toolchain whose metadata and databases are a root and the text of the
    settings: discovery reads [pyproject.toml] in the root, then in [/]; the
    user's [ty.toml] is read through the system and appended. *)

Definition settings_of (sys : System unit) (path : string) : option string :=
  match nat_read (sys_content sys) path with Ok t => Some t | Err _ => None end.

#[local] Instance api0 : ProjectApi unit (string * string) (string * string) := {|
  discover root sys :=
    match settings_of sys (root +:+ "/pyproject.toml") with
    | Some t => Ok (root, t)
    | None => Ok (match settings_of sys "/pyproject.toml" with Some t => ("/", t) | None => (root, "") end)
    end;
  metadata_root m := m.1;
  metadata_new _ root := (root, "");
  apply_configuration_files sys m :=
    Ok (match user_config_directory (sys_structural sys) with
        | Some d => (m.1, m.2 +:+ default "" (settings_of sys (d +:+ "/ty/ty.toml")))
        | None => m
        end);
  db_fallible m _ := if String.eqb m.2 "broken" then Err "invalid settings" else Ok m;
  db_use_defaults m _ := (m.1, "default");
  db_root d := d.1;
|}.

#[local] Instance api0_laws : ProjectApiLaws api0 eq.
Proof.
  split; simpl.
  - done.
  - intros sys m m' [= <-]. by destruct (user_config_directory _).
  - intros m sys db. by destruct (String.eqb _ _); intros [= <-].
  - done.
  - intros root s s' Hs. unfold settings_of. by rewrite !(se_read _ _ Hs).
  - intros s s' Hs m ? <-. unfold settings_of. rewrite (se_structural _ _ Hs).
    destruct (user_config_directory _); [|done]. by rewrite (se_read _ _ Hs).
  - intros m s s' _. destruct (String.eqb _ _); simpl; done.
  - done.
Qed.

(** A machine with the given files and a user configuration directory; its walks
    find one file. *)
Definition machine (files : gmap string string) (root : string) : System unit :=
  mkSystem
    (mkNative unit (λ p, if files !! p then Ok (mkMetadata 1 FtFile) else Err NotFound)
       (λ p, match files !! p with Some t => Ok t | None => Err NotFound end)
       (λ _, Err NotFound) (λ _, None) (λ _, None) (λ _, Ok []))
    (mkStructural Ok (λ _, None) (λ _ _, true) CaseSensitive root (Some "/home/u/.config") None
       (λ p, [mkDirectoryEntry (path_join p "a.py") FtFile]) (λ _, None)).

(** The settings of an enclosing project, and those of the user. *)
Definition os0 : string → System unit :=
  machine {[ "/pyproject.toml" := "enclosing"; "/home/u/.config/ty/ty.toml" := "strict" ]}.

Definition head_db0 := head_database tt (λ _, None) os0.
Definition frozen_db0 := frozen_database tt (λ _, None) os0.

(** A snapshot does not get the settings its head has: the user's configuration
    file is outside the project, so no generation holds it, and the frozen
    overlay does not read the disk. *)
Theorem snapshot_drops_user_settings :
  head_db0 "/p" gen0 = ("/p", "strict") ∧ frozen_db0 1%N "/p" gen0 = ("/p", "").
Proof. split; vm_compute; reflexivity. Qed.


#[local] Existing Instance external0.
#[local] Existing Instance serde0.
#[local] Existing Instance toml0.

#[local] Instance engine_db0 : Engine (string * string) := {|
  db_apply d _ _ := (d, (true, false));
  db_file _ _ _ := Some true;
  db_virtual _ _ := false;
  db_entities _ _ _ := entities0;
  db_view _ _ _ := view0;
|}.

Definition opened_db0 := open mint0 head_db0 open_world0 world0 "/p" ∅ 0.

Definition project_db0 : Project (Db:=string * string) :=
  match opened_db0.2 with Ok p => p | Err _ => mkProject None [] false end.

Lemma opened_db0_eq : open mint0 head_db0 open_world0 world0 "/p" ∅ 0 = (opened_db0.1, Ok project_db0).
Proof. apply (result_eq opened_db0 (mkProject None [] false)). vm_compute. reflexivity. Qed.

Lemma databases_rooted_witness : ∃ h, inner project_db0 = Some h ∧ path_eqb (db_root (h_db h)) "/p".
Proof.
  assert (bool_decide (is_Some (inner project_db0)) = true) as Hs by (vm_compute; reflexivity).
  apply bool_decide_eq_true in Hs. destruct Hs as [h Hi]. exists h. split; [exact Hi|].
  exact (proj1 (databases_rooted (db_equiv:=eq) tt (λ _, None) mint0 os0 open_world0 world0 "/p" ∅ 0 opened_db0.1
    project_db0 h opened_db0_eq Hi)).
Defined.
