(* ===== verification/Pipeline.v ===== *)
(** * The whole pipeline

    The engine of the commit, made of the modelled code: the entities are those
    [extract_entities] ([rust/src/entity.rs]) extracts, hashed by the renderer, and
    the view of the producer is the one of the analysis queries.  Along a session
    every entity of the project has an id, and the code layer the head carries has
    a node under it. *)

From S2P Require Import Prelude Str Paths Content Identity Entity Ast Hash EditDistance Reconcile.
From S2P Require Import ReconcileFacts ReconcileTheorems Json IdentityFormat Authored CodeLayer CodeBuilder CodeBuilderFacts CodeProducer.
From S2P Require Import CodeIndex CodeParity Symbols Coordinates EntityAt Occurrences Queries ViewOk.
From S2P Require Import Config Sidecar ConfigLoad Commit CommitFacts Project ProjectFacts HeadLayer.
Import Registry AuthoredStore.

(** What is left of the engine: the database and its raw answers. *)
Record Database (Db : Type) := mkDatabase {
  apply_changes : Db → ContentMap → list ChangeEvent → Db * (bool * bool);
  try_system : Db → ContentMap → string → option bool;
  try_virtual : Db → string → bool;
  analysis : Db → ContentMap → Analysis;
}.
Arguments apply_changes {Db}.
Arguments try_system {Db}.
Arguments try_virtual {Db}.
Arguments analysis {Db}.

(** ** Extraction *)

Section extraction.
Context {Ext : External} (fuel : nat) (policy : HashPolicy).

Definition entity_file_ctx (an : Analysis) (file : string) : EntityWalkCtx (Stmt:=Ast) :=
  mkEntityWalkCtx (fq_symbols (an_files an) file) (fq_source (an_files an) file)
    (index_statements (an_body an file)) file policy.

(** [extract_entities_for] the scope, or [extract_entities]. *)
Definition extract_scope (an : Analysis) (scope : option (gset string)) : option (list Entity) :=
  match scope with
  | Some files => extract_entities_for render_stmt fuel (entity_file_ctx an) (an_indexed an) files
  | None => extract_entities render_stmt fuel (entity_file_ctx an) (an_indexed an)
  end.

Definition file_entities (an : Analysis) (file : string) : option (list Entity) :=
  fst <$> extract_file render_stmt fuel (entity_file_ctx an file).

Lemma extract_files_spec an files acc :
  (∀ f, f ∈ files → is_Some (file_entities an f)) →
  ∃ es, foldl (λ acc file,
      match acc, extract_file render_stmt fuel (entity_file_ctx an file) with
      | Some entities, Some (new, _) => Some (entities ++ new)
      | _, _ => None
      end) (Some acc) files = Some es ∧
    acc ⊆ es ∧ ∀ f fes, f ∈ files → file_entities an f = Some fes → fes ⊆ es.
Proof.
  revert acc. induction files as [|f files IH]; intros acc Hall; cbn [foldl].
  { exists acc. split; [done|]. split; [done|]. by intros f fes []%not_elem_of_nil. }
  destruct (Hall f) as [fes Hf]; [by left|]. pose proof Hf as Hf'. unfold file_entities in Hf.
  destruct (extract_file _ _ _) as [[new vis]|]; [|done]. injection Hf as <-. simpl in Hf'.
  destruct (IH (acc ++ new)) as (es & -> & Hacc & Hes); [intros f' ?; apply Hall; by right|].
  exists es. split; [done|]. split; [set_solver|].
  intros f' fes [->|Hin]%elem_of_cons Hfes; [|by eapply Hes]. rewrite Hf' in Hfes. injection Hfes as <-. set_solver.
Qed.

(** The extraction of a scope has the entities of its files. *)
Lemma extract_scope_spec an scope :
  (∀ f, f ∈ an_indexed an → is_Some (file_entities an f)) →
  ∃ es, extract_scope an scope = Some es ∧
    ∀ f fes, f ∈ an_indexed an → is_python_source f → (∀ s, scope = Some s → f ∈ s) →
      file_entities an f = Some fes → fes ⊆ es.
Proof.
  intros Hall. assert (∀ files : gset string, ∃ es, extract_entities_for render_stmt fuel (entity_file_ctx an) (an_indexed an) files = Some es ∧
    ∀ f fes, f ∈ an_indexed an → is_python_source f → f ∈ files → file_entities an f = Some fes → fes ⊆ es) as H.
  { intros files. destruct (extract_files_spec an (source_files (an_indexed an) files) []) as (es & E & _ & Hes).
    - intros f. unfold source_files. rewrite elem_of_sort_by, list_elem_of_filter. intros [_ Hf]. by apply Hall.
    - exists es. split; [exact E|]. intros f fes Hf Hpy Hin. apply Hes. unfold source_files.
      by rewrite elem_of_sort_by, list_elem_of_filter. }
  destruct scope as [s|]; [destruct (H s) as (es & E & Hes)|destruct (H (list_to_set (filter (λ p, is_python_source p) (an_indexed an)))) as (es & E & Hes)];
    exists es; (split; [exact E|]); intros f fes Hf Hpy Hs; apply Hes; try done; [by apply Hs|].
  by apply elem_of_list_to_set, list_elem_of_filter.
Qed.
End extraction.

(** ** The engine *)

Section pipeline.
Context {Ext : External} {SJ : SerdeJson} {TC : TomlCodec} {Db : Type} (database : Database Db).
Context (mint : nat → DurableId) (db_build : string → ContentMap → Db).

(** The root of the project and the hash policies of its configuration. *)
Context (fuel : nat) (root : string).
Context (policy : HashPolicy) (policies : gmap string HashPolicy) (profile : string).

#[local] Instance analysis_engine : Engine Db := {|
  db_apply := apply_changes database;
  db_file := try_system database;
  db_virtual := try_virtual database;
  db_entities db g scope := default [] (extract_scope fuel policy (analysis database db g) scope);
  db_view db g reg := analysis_view fuel (analysis database db g) root reg policies profile;
|}.

Definition head_analysis (h : HeadState (Db:=Db)) : Analysis := analysis database (h_db h) (h_system h).

(** What the engine promises of the state of a head: the project is well laid out
    and the symbols of a file form a tree. *)
Record state_ok (h : HeadState (Db:=Db)) : Prop := {
  st_analysis : analysis_ok root (head_analysis h);
  st_forest : ∀ p, p ∈ an_indexed (head_analysis h) → forest fuel (fq_symbols (an_files (head_analysis h)) p);
}.

(** What reconciliation asks of the entities: distinct paths, none of them that of
    an anchor the path index lost. *)
Definition entities_pre (reg : IdentityRegistry) (es : list Entity) : Prop :=
  NoDup (e_qualified_path <$> es) ∧ no_stale_path reg es.

(** Ids are drawn once and look like no module's and no stub's. *)
Context (Hinj : Inj (=) (=) mint).
Context (Hmint : ∀ k, stub_id (mint k) = false ∧ is_module_id (mint k) = false).

(** The paths of a scope that name graph paths lie under the root. *)
Definition scope_under (s : gset string) : Prop :=
  ∀ p g, p ∈ s → native_to_graph root p = Some g → p = root +:+ "/" +:+ g.

(** The heads of a session: [s] is the head right after the open or the reconciling
    commit that last built the layer, [h] the head now, and [failed] says whether a
    commit failed in between.  Of a write that does not reconcile nothing is asked. *)
Inductive linked_session : HeadState (Db:=Db) → HeadState (Db:=Db) → bool → Prop :=
| ls_open ow w fs minted fs' p h reg :
    open mint db_build ow w root fs minted = (fs', Ok p) → inner p = Some h → state_ok h →
    loaded_registry ow root fs = Some reg → registry_plain reg → mint_fresh mint reg minted →
    entities_pre reg (db_entities (h_db h) (h_system h) None) → linked_session h h false
| ls_edit w s h failed h' m d sc :
    linked_session s h failed → is_author m = false → commit mint w h m = (h', Ok (Some d)) → state_ok h' →
    (build_plan w h m).2 = Ok (Some sc) → entities_pre (h_registry h) (db_entities (h_db h') (h_system h') (sc_scope sc)) →
    (∀ f, sc_scope sc = Some f → scope_under f) → local_commit w s h h' m → linked_session h' h' false
| ls_other w s h failed h' m out :
    linked_session s h failed → commit mint w h m = (h', out) → reconciled m out = false →
    linked_session s h' (failed || negb (is_ok out)).

(** ** The invariant *)

(** Every symbol the producer is given has an id. *)
Definition identified (h : HeadState (Db:=Db)) : Prop :=
  ∀ g native symbols s, (g, native) ∈ listed_files root (head_view h) →
    pv_document_symbols (head_view h) native = Some symbols → s ∈ symbols → is_Some (s_durable_id s).

Record linked (h : HeadState (Db:=Db)) : Prop := {
  lk_root : h_root h = root;
  lk_state : state_ok h;
  lk_carries : carries h;
  lk_registry : registry_ok (h_registry h);
  lk_plain : registry_plain (h_registry h);
  lk_fresh : mint_fresh mint (h_registry h) (h_minted h);
  lk_identified : identified h;
}.

(** The entities and the symbols of a file. *)
Lemma file_nodes h native :
  state_ok h → native ∈ an_indexed (head_analysis h) →
  ∃ fes symbols, file_entities fuel policy (head_analysis h) native = Some fes ∧
    compute_document_symbols render_stmt fuel (file_ctx (head_analysis h) (h_registry h) policies profile native) = Some symbols ∧
    Forall2 (same_node (entity_file_ctx policy (head_analysis h) native) (file_ctx (head_analysis h) (h_registry h) policies profile native)) fes symbols.
Proof.
  intros Hs Hn. destruct (symbols_are_entities render_stmt (entity_file_ctx policy (head_analysis h) native)
    (file_ctx (head_analysis h) (h_registry h) policies profile native) eq_refl eq_refl fuel (st_forest _ Hs native Hn))
    as (es & vis & syms & He & Hsy & H).
  exists es, syms. unfold file_entities. by rewrite He.
Qed.

Lemma reconcile_plain reg es rev scope n reg' rc n' :
  reconcile_pre mint reg es n → reconcile_impl mint reg es rev scope n = Some (reg', rc, n') →
  registry_plain reg → registry_plain reg'.
Proof.
  intros Hpre Hrun Hp id a Ha.
  destruct (reconcile_new_ids _ _ _ _ _ _ _ _ _ id Hpre Hrun) as [[a' Ha']|(k & _ & ->)]; [by exists a|by eapply Hp|done].
Qed.

(** After a reconciliation of its entities, every symbol of a file has an id. *)
Lemma reconciled_identified h native symbols s reg scope rev rc n :
  state_ok h → native ∈ an_indexed (head_analysis h) → is_python_source native → (∀ f, scope = Some f → native ∈ f) →
  let es := db_entities (h_db h) (h_system h) scope in
  reconcile_pre mint reg es n → reconcile_impl mint reg es rev scope n = Some (h_registry h, rc, h_minted h) →
  pv_document_symbols (head_view h) native = Some symbols → s ∈ symbols → is_Some (s_durable_id s).
Proof.
  intros Hs Hn Hpy Hscope es Hpre Hrun Hsy Hin.
  apply (listed_symbols fuel root _ _ _ _ (st_analysis _ Hs) native symbols Hn) in Hsy.
  destruct (file_nodes h native Hs Hn) as (fes & syms & Hfe & Hsy' & H2). unfold head_analysis in *.
  rewrite Hsy in Hsy'. injection Hsy' as <-.
  destruct (extract_scope_spec fuel policy (head_analysis h) scope) as (es' & He & Hes).
  { intros f Hf. destruct (file_nodes h f Hs Hf) as (x & _ & Hx & _). by exists x. }
  apply list_elem_of_lookup in Hin as [k Hk].
  destruct (Forall2_lookup_r _ _ _ _ _ H2 Hk) as (e & Hk' & [_ _ Hid _ _]). rewrite Hid. simpl.
  assert (e ∈ es) as Hein.
  { unfold es. cbn [db_entities analysis_engine]. unfold head_analysis in He. rewrite He.
    apply (Hes native fes); [done..|]. by eapply list_elem_of_lookup_2. }
  destruct (reconcile_finds _ _ _ _ _ _ _ _ _ e Hpre Hrun Hein) as (id & a & Hp & Ha & _).
  unfold find_anchor. rewrite Hp. simpl. rewrite Ha. by eexists.
Qed.

Lemma head_listed h g native :
  state_ok h → (g, native) ∈ listed_files root (head_view h) →
  native ∈ an_indexed (head_analysis h) ∧ is_python_source native ∧ native = root +:+ "/" +:+ g.
Proof. intros Hs. apply (listed_indexed fuel root _ _ _ _ (st_analysis _ Hs)). Qed.

Lemma head_view_ok h : state_ok h → registry_ok (h_registry h) → registry_plain (h_registry h) → view_ok root (head_view h).
Proof. intros Hs. by apply view_is_ok, st_analysis. Qed.

(** ** The session *)

Lemma open_linked ow w fs minted fs' p h reg :
  open mint db_build ow w root fs minted = (fs', Ok p) → inner p = Some h → state_ok h →
  loaded_registry ow root fs = Some reg → registry_plain reg → mint_fresh mint reg minted →
  entities_pre reg (db_entities (h_db h) (h_system h) None) → linked h.
Proof.
  intros Ho Hi Hs Hl Hp Hf [Hu Hst].
  destruct (open_reconciles mint db_build ow w root fs minted fs' p h Ho Hi) as (reg' & rev & rc & Hl' & Hok & Hrun).
  rewrite Hl in Hl'. injection Hl' as <-.
  assert (reconcile_pre mint reg (db_entities (h_db h) (h_system h) None) minted) as Hpre by by split.
  pose proof (reconcile_impl_ok _ _ _ _ _ _ _ _ _ Hok Hrun) as Hok'.
  pose proof (reconcile_plain _ _ _ _ _ _ _ _ Hpre Hrun Hp) as Hp'.
  destruct (open_opened mint db_build ow w root fs minted fs' p Ho) as (h0 & Hi0 & _ & Hop).
  rewrite Hi in Hi0. injection Hi0 as <-. pose proof (op_root _ _ _ _ Hop) as Hroot.
  split; [done|done| |done|done|by eapply reconcile_keeps_fresh|].
  - eapply (open_carries mint db_build ow w root fs minted fs' p h Ho Hi). rewrite Hroot. by apply head_view_ok.
  - intros g native symbols s Hin Hsy Hs'. apply head_listed in Hin as (Hn & Hpy & _); [|done].
    by eapply (reconciled_identified h native symbols s reg None).
Qed.

Lemma edit_identified w s h failed h' m d sc :
  linked s → rests s h failed → is_author m = false → commit mint w h m = (h', Ok (Some d)) → state_ok h' →
  (build_plan w h m).2 = Ok (Some sc) → entities_pre (h_registry h) (db_entities (h_db h') (h_system h') (sc_scope sc)) →
  (∀ f, sc_scope sc = Some f → scope_under f) → local_commit w s h h' m →
  registry_ok (h_registry h') ∧ registry_plain (h_registry h') ∧ mint_fresh mint (h_registry h') (h_minted h') ∧ identified h'.
Proof.
  intros Hh [_ Hr _ Hg Hn _] Hm Hc Hs Hp [Hu Hst] Hunder Hloc.
  destruct (commit_delta mint w h h' m d Hm Hc) as (sc' & Hp' & [(rc & Hrun & _) _ _]).
  rewrite Hp in Hp'. injection Hp' as <-.
  assert (reconcile_pre mint (h_registry h) (db_entities (h_db h') (h_system h') (sc_scope sc)) (h_minted h)) as Hpre
    by (split; [done|rewrite Hg; apply Hh|rewrite Hg; intros k Hk; apply (lk_fresh _ Hh); lia|done|done]).
  split; [eapply reconcile_impl_ok; [|exact Hrun]; apply Hpre|].
  split; [eapply reconcile_plain; [done|exact Hrun|rewrite Hg; apply Hh]|].
  split; [by eapply reconcile_keeps_fresh|].
  intros g native symbols s' Hin Hsy Hs'. pose proof Hin as (Hix & Hpy & Hnat)%head_listed; [|done].
  destruct (sc_scope sc) as [f|] eqn:Ef.
  2: { by eapply (reconciled_identified h' native symbols s' _ None). }
  destruct (decide (native ∈ f)) as [Hf|Hf].
  { eapply (reconciled_identified h' native symbols s' _ (Some f)); [done..| |done|exact Hrun|done|done].
    by intros ? [= <-]. }
  destruct (Hloc sc f Hp Ef) as (steady & Hedit). rewrite Hr, (lk_root _ Hh) in Hedit.
  assert (g ∉ graph_scope root f) as Hgs.
  { unfold graph_scope. rewrite elem_of_list_to_set, list_elem_of_omap. intros (p & Hpf%elem_of_elements & Hpg).
    apply Hf. by rewrite Hnat, <- (Hunder f eq_refl p g Hpf Hpg). }
  apply (le_listed _ _ _ _ _ _ Hedit g native Hgs) in Hin.
  rewrite (le_symbols _ _ _ _ _ _ Hedit g native Hgs Hin) in Hsy. by eapply (lk_identified _ Hh).
Qed.

Lemma session_linked s h failed : linked_session s h failed → linked s ∧ rests s h failed.
Proof.
  induction 1 as [ow w fs minted fs' p h reg Ho Hi Hs Hl Hp Hf He|w s h failed h' m d sc _ [Hs Hh] Hm Hc Hst Hp He Hu Hloc|w s h failed h' m out _ [Hs Hh] Hc Hm].
  - assert (linked h) as Hk by by eapply open_linked. split; [done|by apply rests_refl, lk_carries].
  - destruct (edit_identified w s h failed h' m d sc Hs Hh Hm Hc Hst Hp He Hu Hloc) as (Hok & Hpl & Hfr & Hid).
    pose proof (commit_root mint w h h' m d Hc) as Hr. rewrite (re_root _ _ _ Hh), (lk_root _ Hs) in Hr.
    assert (carries h') as Hca.
    { apply (commit_carries mint w s h h' failed m d); [done|done|apply Hs|done| |done]. rewrite Hr. by apply head_view_ok. }
    split; [by split|by apply rests_refl, Hca].
  - split; [done|]. by eapply rests_other.
Qed.

(** ** Every entity is a node *)

(** The node of an entity in the layer of the head.  Definitions that share a path
    share the node, which is that of one of them. *)
Record entity_node (h : HeadState (Db:=Db)) (g : string) (fes : list Entity) (e : Entity) (id : string) (n : NodeData) : Prop := {
  en_path : by_path (h_registry h) (e_qualified_path e) = Some id;
  en_node : nodes (h_code_layer h) !! id = Some n;
  en_external : n_external n = false;
  en_file : n_file n = g;
  en_entity : ∃ e', e' ∈ fes ∧ e_qualified_path e' = e_qualified_path e ∧ n_name n = e_name e' ∧
    n_qualified_name n = e_qualified_name e' ∧
    (policies !! profile = Some policy → n_content_hash n = Some (u128_to_string (e_content_hash e')));
}.

Lemma anchor_path reg p a :
  registry_ok reg → find_anchor reg p = Some a → by_path reg p = Some (a_id a) ∧ a_qualified_path a = p.
Proof.
  intros Hok (id & Hp & Hg)%bind_Some. destruct (ok_path _ Hok _ _ Hp) as (a' & Hg' & Hq).
  unfold get in Hg. rewrite Hg in Hg'. injection Hg' as <-. by rewrite (ok_ids _ Hok _ _ Hg).
Qed.

(** The node the full build has for a symbol with an id. *)
Lemma symbol_in_build pv f s did :
  view_ok root pv → f ∈ collect_symbols pv (listed_files root pv) → s ∈ fs_symbols f → s_durable_id s = Some did →
  is_module_id did = false →
  ∃ s', s' ∈ fs_symbols f ∧ s_durable_id s' = Some did ∧ nodes (layer (build root pv)) !! did = Some (symbol_node (fs_graph_path f) s').
Proof.
  intros Hv Hf Hs Hd Hm. pose proof (full_index root pv Hv) as Hi.
  assert (did ∈ own_ids f) as Ho by (apply elem_of_own_ids; right; by exists s).
  pose proof Ho as Ho'. apply elem_of_alone_ids, (listed_iff False) in Ho' as (n & Hn & _); [|apply alone_inv].
  destruct (alone_describes f did n Hn) as [[-> _]|(s' & Hs' & Hd' & ->)].
  { by rewrite is_module_id_module in Hm. }
  exists s'. split; [done|]. split; [done|]. by rewrite (io_nodes _ _ _ Hi f did Hf Ho).
Qed.

(** A head that just reconciled. *)
Lemma linked_entity_nodes h :
  linked h →
  ∀ g native, (g, native) ∈ listed_files root (head_view h) →
    is_ok (resolve_file (an_files (head_analysis h)) root native) →
    ∃ fes, file_entities fuel policy (head_analysis h) native = Some fes ∧
      ∀ e, e ∈ fes → ∃ id n, entity_node h g fes e id n.
Proof.
  intros [Hroot Hs [_ Hv Ht] Hok Hpl _ Hid] g native Hl Hr.
  rewrite Hroot in Hv, Ht. pose proof Hl as (Hn & _ & _)%head_listed; [|done].
  destruct (file_nodes h native Hs Hn) as (fes & symbols & Hfe & Hsy & H2). exists fes. split; [done|].
  assert (pv_document_symbols (head_view h) native = Some symbols) as Hd.
  { rewrite <- Hsy. cbn [head_view db_view analysis_engine analysis_view pv_document_symbols]. fold (head_analysis h).
    unfold document_symbols, resolve_file_and_source.
    destruct (resolve_file _ _ native) as [f|] eqn:E; [|done]. by rewrite (ao_canonical _ _ (st_analysis _ Hs) native f Hn E). }
  intros e He. apply list_elem_of_lookup in He as [k Hk].
  destruct (Forall2_lookup_l _ _ _ _ _ H2 Hk) as (s & Hks & [_ _ Hsid _ _]).
  apply list_elem_of_lookup_2 in Hks as Hin. destruct (Hid g native symbols s Hl Hd Hin) as [did Hdid].
  rewrite Hdid in Hsid. symmetry in Hsid. apply fmap_Some in Hsid as (a & Ha & ->). simpl in Ha.
  destruct (anchor_path _ _ a Hok Ha) as [Hpath Hq].
  assert (is_module_id (a_id a) = false) as Hmod.
  { apply bind_Some in Ha as (id & Hp & Hg). rewrite (ok_ids _ Hok _ _ Hg). by eapply Hpl. }
  destruct (symbol_in_build (head_view h) (mkFileSymbols g native symbols) s (a_id a) Hv) as (s' & Hs' & Hd' & Hnode);
    [by apply elem_of_collected|done|done|done|]. simpl in Hs', Hnode.
  exists (a_id a), (symbol_node g s'). split; [done| |done|done|].
  { by apply (tk_nodes _ _ _ Ht). }
  apply list_elem_of_lookup in Hs' as [k' Hk'].
  destruct (Forall2_lookup_r _ _ _ _ _ H2 Hk') as (e' & He' & [Hname Hqn Hsid' _ Hhash]).
  exists e'. split; [by eapply list_elem_of_lookup_2|]. rewrite Hd' in Hsid'. symmetry in Hsid'.
  apply fmap_Some in Hsid' as (a' & Ha' & Ea). simpl in Ha'. destruct (anchor_path _ _ a' Hok Ha') as [Hpath' Hq'].
  split; [|split; [done|split; [done|]]].
  - rewrite <- Ea in Hpath'. destruct (ok_path _ Hok _ _ Hpath) as (x & Hx & <-).
    destruct (ok_path _ Hok _ _ Hpath') as (x' & Hx' & <-). rewrite Hx in Hx'. by injection Hx' as ->.
  - intros Hpol. apply (Hhash policies profile); simpl; try done; by rewrite decide_False by (intros ->; by rewrite lookup_empty in Hpol).
Qed.

(** C7: identity reaches the graph, end to end.  After opening and any sequence of
    commits, each entity the analysis gave for a source file right after the open or
    the commit that last rebuilt the layer has a durable id in the registry of the
    head, and the code layer the head carries has a project node under that id, in
    the entity's file, with the name, the qualified name and the content hash of the
    definition at its path; unless a commit failed since, the analysis of the head is
    still that one.  Conditions, at the open and at each commit that reconciles: no
    two entities share a path and none has the path of an anchor the path index lost
    ([entities_pre]), the project lies under its root and the symbols of a file form
    a tree ([state_ok]), the paths of the scope lie under the root, and the edit is
    local to that scope, against the answers the layer was last built for.  Ids are
    drawn once, and neither they nor those of the loaded registry look like a
    module's or a stub's.  The file must resolve on disk; the content hash is that of
    the default profile, when it is the policy of identities.  Of the writes that fail,
    author a record or find nothing to do, nothing is assumed. *)
Theorem session_entities_are_nodes s h failed :
  linked_session s h failed →
  (failed = false → head_analysis h = head_analysis s) ∧
  ∀ g native, (g, native) ∈ listed_files root (head_view s) →
    is_ok (resolve_file (an_files (head_analysis s)) root native) →
    ∃ fes, file_entities fuel policy (head_analysis s) native = Some fes ∧
      ∀ e, e ∈ fes → ∃ id n, entity_node h g fes e id n.
Proof.
  intros [Hk [_ _ Hlay Hreg _ Heng]]%session_linked. split.
  { intros Hf. destruct (Heng Hf) as [Hd Hs]. unfold head_analysis. by rewrite Hd, Hs. }
  intros g native Hl Hr. destruct (linked_entity_nodes s Hk g native Hl Hr) as (fes & Hfe & H). exists fes. split; [done|].
  intros e (id & n & [Hp Hn Hx Hf He])%H. exists id, n. split; rewrite ?Hlay, ?Hreg; done.
Qed.

End pipeline.
