(* ===== verification/PipelineExample.v ===== *)
(** * A project through the pipeline

    Two files, a class with a method in [a.py] and a function in [b.py]; the project
    is opened, then [a.py] is edited, with failing attempts around the edit.  The
    witnesses of [ViewOk] and [Pipeline]. *)

From Stdlib Require Import NArith Ascii.
From S2P Require Import Prelude Str Paths Content Identity Entity Ast Hash EditDistance Reconcile.
From S2P Require Import ReconcileFacts ReconcileTheorems Json IdentityFormat Authored CodeLayer CodeBuilder CodeBuilderFacts CodeProducer.
From S2P Require Import CodeExact CodeIndex CodeParity Symbols Coordinates EntityAt Occurrences Queries ViewOk.
From S2P Require Import Config Sidecar ConfigLoad Commit CommitFacts Project ProjectFacts HeadLayer Pipeline.
Import Registry AuthoredStore.

#[local] Existing Instance external0.
#[local] Existing Instance serde0.
#[local] Existing Instance toml0.

(** ** The engine's answers *)

Definition pair_symbols (file : string) : HierarchicalSymbols :=
  if bool_decide (file = "/p/a.py")
  then mkHierarchicalSymbols [(0, mkSymbolInfo "C" TyClass false (0, 3)%N (1, 2)%N)]
         (λ id, if decide (id = 0) then [(1, mkSymbolInfo "m" TyMethod false (2, 3)%N (2, 3)%N)] else [])
  else mkHierarchicalSymbols [(0, mkSymbolInfo "f" TyFunction false (0, 3)%N (1, 2)%N)] (λ _, []).

(** [edited] says whether [a.py] has its new text. *)
Definition pair_analysis (edited : bool) : Analysis :=
  mkAnalysis
    (mkFileQueries (λ p, Ok p) (λ _, true) (λ p, if no_colon p then Ok p else Err "no such file") pair_symbols
       (λ p, if edited && bool_decide (p = "/p/a.py") then "new" else "old") (λ _, line0))
    ["/p/a.py"; "/p/b.py"] (λ _, [])
    (λ _, mkSemanticModel (λ _ _, []) (λ _, []) (λ _ _, []) (λ _, ""))
    (λ _ _, None) (λ _ _, None) (λ _ _, []).

Lemma pair_indexed edited p : p ∈ an_indexed (pair_analysis edited) → p = "/p/a.py" ∨ p = "/p/b.py".
Proof. cbn [an_indexed pair_analysis]. rewrite !elem_of_cons, elem_of_nil. tauto. Qed.

Lemma pair_ok edited : analysis_ok "/p" (pair_analysis edited).
Proof.
  assert (∀ p f, resolve_file (an_files (pair_analysis edited)) "/p" p = Ok f →
    no_colon f ∧ f = if is_absolute p then p else path_join "/p" p) as Hres.
  { intros p f. unfold resolve_file. cbn [an_files pair_analysis fq_canonicalize fq_is_utf8 fq_system_path_to_file].
    set (q := if is_absolute p then p else _). destruct (no_colon q) eqn:E; [|done]. intros [= <-].
    split; [by apply Is_true_true|done]. }
  split.
  - apply (bool_decide_unpack _). vm_compute. exact I.
  - intros p [-> | ->]%pair_indexed; [by exists "a.py"|by exists "b.py"].
  - by intros p [-> | ->]%pair_indexed.
  - intros p f [-> | ->]%pair_indexed [_ ->]%Hres; done.
  - by intros p f [? _]%Hres.
  - intros file d [(n & r & []%not_elem_of_nil)|[(r & []%not_elem_of_nil)|(r & n & []%not_elem_of_nil)]].
  - done.
  - intros p c [-> | ->]%pair_indexed; cbn; intros ->%list_elem_of_singleton; done.
Qed.

Lemma pair_forest edited p : p ∈ an_indexed (pair_analysis edited) → forest 3 (fq_symbols (an_files (pair_analysis edited)) p).
Proof.
  intros [-> | ->]%pair_indexed; [exists [0; 1]|exists [0]]; (split; [vm_compute; reflexivity|]);
    apply (bool_decide_unpack _); vm_compute; exact I.
Qed.

(** ** Ids: a run of letters *)

Definition mint1 (k : nat) : DurableId := String "M" (Nat.iter k (String "I") "").

Lemma mint1_inj : Inj (=) (=) mint1.
Proof.
  intros j k [= E]. revert k E. induction j as [|j IH]; intros [|k] E; [done..|]. simpl in E. f_equal. apply IH. by injection E.
Qed.

Lemma mint1_plain k : stub_id (mint1 k) = false ∧ is_module_id (mint1 k) = false.
Proof.
  split; [|done]. apply no_colon_contains. unfold mint1. cbn [no_colon]. apply andb_True. split; [done|].
  induction k as [|k IH]; [done|]. simpl. exact IH.
Qed.

(** ** The session *)

Definition pair_database : Database bool :=
  mkDatabase bool (λ _ _ _, (true, (false, false))) (λ _ _ _, Some true) (λ _ _, false) (λ edited _, pair_analysis edited).

Definition pair_policies : gmap string HashPolicy := {["structure" := policy0]}.

#[local] Instance pair_engine : Engine bool := analysis_engine pair_database 3 "/p" policy0 pair_policies "structure".

Definition pair_build (root : string) (g : ContentMap) : bool := false.

Definition pair_opened := open mint1 pair_build open_world0 world0 "/p" ∅ 0.

Definition pair_project : Project (Db:=bool) :=
  match pair_opened.2 with Ok p => p | Err _ => mkProject None [] false end.

Definition pair_head : HeadState (Db:=bool) :=
  default (build_head_with_config pair_build "/p" (with_retain_cap 2) empty_registry config0 ∅ 0) (inner pair_project).

Lemma pair_opened_eq : open mint1 pair_build open_world0 world0 "/p" ∅ 0 = (pair_opened.1, Ok pair_project).
Proof. apply (result_eq pair_opened (mkProject None [] false)). vm_compute. reflexivity. Qed.

Lemma pair_project_inner : inner pair_project = Some pair_head.
Proof. apply option_eq. vm_compute. reflexivity. Qed.

Lemma pair_state h : state_ok pair_database 3 "/p" h.
Proof. split; [apply pair_ok|apply pair_forest]. Qed.

Lemma pair_loaded : loaded_registry open_world0 "/p" ∅ = Some empty_registry.
Proof. vm_compute. reflexivity. Qed.

Lemma pair_open_pre : entities_pre empty_registry (db_entities (h_db pair_head) (h_system pair_head) None).
Proof.
  split; [apply (bool_decide_unpack _); vm_compute; exact I|]. intros id a e Ha. unfold get in Ha. simpl in Ha. by rewrite lookup_empty in Ha.
Qed.

Lemma pair_head_session : linked_session pair_database mint1 pair_build 3 "/p" policy0 pair_policies "structure" pair_head pair_head false.
Proof.
  eapply (ls_open _ _ _ _ _ _ _ _ open_world0 world0 ∅ 0 pair_opened.1 pair_project pair_head empty_registry).
  - exact pair_opened_eq.
  - exact pair_project_inner.
  - apply pair_state.
  - exact pair_loaded.
  - intros id a Ha. unfold get in Ha. simpl in Ha. by rewrite lookup_empty in Ha.
  - intros k _. unfold get. simpl. apply lookup_empty.
  - exact pair_open_pre.
Qed.

Definition pair_after (w : World) (m : Mutation) (h : HeadState (Db:=bool)) := commit mint1 w h m.

Lemma pair_after_eq w m h :
  reconciled m (pair_after w m h).2 = true → ∃ d, commit mint1 w h m = ((pair_after w m h).1, Ok (Some d)).
Proof. unfold pair_after. destruct (commit _ _ _ _) as [h' [[d|]|e]]; [intros _; by exists d|done..]. Qed.

Lemma pair_failed_eq w m h :
  is_ok (pair_after w m h).2 = false → ∃ e, commit mint1 w h m = ((pair_after w m h).1, Err e).
Proof. unfold pair_after. destruct (commit _ _ _ _) as [h' [o|e]]; [done|intros _; by exists e]. Qed.

(** An edit that fails, the disk being full; the edit again; a third, which fails. *)
Definition pair_stuck : HeadState (Db:=bool) := (pair_after world0_full edit0 pair_head).1.
Definition pair_out : HeadState (Db:=bool) := (pair_after world0 edit0 pair_stuck).1.
Definition pair_end : HeadState (Db:=bool) := (pair_after world0_full edit0 pair_out).1.

Lemma pair_stuck_session :
  linked_session pair_database mint1 pair_build 3 "/p" policy0 pair_policies "structure" pair_head pair_stuck true.
Proof.
  destruct (pair_failed_eq world0_full edit0 pair_head) as (e & E); [vm_compute; reflexivity|].
  exact (ls_other pair_database mint1 pair_build 3 "/p" policy0 pair_policies "structure" world0_full pair_head pair_head false
    pair_stuck edit0 (Err e) pair_head_session E eq_refl).
Qed.

(** The view of a state of the database. *)
Definition pair_view (edited : bool) (reg : IdentityRegistry) : ProjectView :=
  analysis_view 3 (pair_analysis edited) "/p" reg pair_policies "structure".

Lemma pair_head_view : head_view pair_head = pair_view false (h_registry pair_head).
Proof. assert (h_db pair_head = false) as H by (vm_compute; reflexivity). unfold head_view. by rewrite H. Qed.

Lemma pair_out_view : head_view pair_out = pair_view true (h_registry pair_out).
Proof. assert (h_db pair_out = true) as H by (vm_compute; reflexivity). unfold head_view. by rewrite H. Qed.

Lemma pair_listed edited reg : listed_files "/p" (pair_view edited reg) = [("a.py", "/p/a.py"); ("b.py", "/p/b.py")].
Proof. vm_compute. reflexivity. Qed.

Lemma pair_same_symbols :
  pv_document_symbols (pair_view true (h_registry pair_out)) "/p/b.py" =
  pv_document_symbols (pair_view false (h_registry pair_head)) "/p/b.py".
Proof. vm_compute. reflexivity. Qed.

Lemma pair_dirty : btree_elements (dirty_scope (h_code_layer pair_stuck) {["a.py"]}) = ["a.py"].
Proof. vm_compute. reflexivity. Qed.

Lemma pair_resolve edited :
  resolve_file_and_source (an_files (pair_analysis edited)) "/p" "/p/b.py" = Ok ("/p/b.py", "old").
Proof. destruct edited; vm_compute; reflexivity. Qed.

(** There are no occurrences, no definitions and no supertypes. *)
Lemma pair_occurrences edited reg : pv_file_occurrences (pair_view edited reg) "/p/b.py" = Some [].
Proof.
  cbn [pv_file_occurrences pair_view analysis_view]. unfold compute_file_occurrences. by rewrite pair_resolve.
Qed.

Definition pair_position (l c : N) : bool := is_ok (position_to_offset_with_index "old" line0 l c).

Lemma pair_goto edited reg l c :
  pv_goto_definition (pair_view edited reg) "/p/b.py" l c = if pair_position l c then Some [] else None.
Proof.
  cbn [pv_goto_definition pair_view analysis_view]. unfold compute_navigate, resolve_position, pair_position.
  rewrite pair_resolve. cbn [an_files pair_analysis fq_line_index].
  by destruct (position_to_offset_with_index "old" line0 l c).
Qed.

Lemma pair_supers edited reg l c :
  pv_supertypes (pair_view edited reg) "/p/b.py" l c = if pair_position l c then Some [] else None.
Proof.
  cbn [pv_supertypes pair_view analysis_view]. unfold compute_supertypes, resolve_position, pair_position.
  rewrite pair_resolve. cbn [an_files pair_analysis fq_line_index].
  by destruct (position_to_offset_with_index "old" line0 l c).
Qed.

Lemma pair_other edited reg g native :
  g ≠ "a.py" → (g, native) ∈ listed_files "/p" (pair_view edited reg) → native = "/p/b.py".
Proof.
  rewrite pair_listed. clear. intros Hg [E|[E|[]%elem_of_nil]%elem_of_cons]%elem_of_cons; injection E; intros; [by destruct Hg|done].
Qed.

Lemma pair_edit_local reg reg' dirty :
  (∀ g, g ∈ dirty ↔ g = "a.py") →
  pv_document_symbols (pair_view true reg') "/p/b.py" = pv_document_symbols (pair_view false reg) "/p/b.py" →
  local_edit "/p" (pair_view false reg) (pair_view true reg') {["a.py"]} dirty (λ g, g ≠ "a.py").
Proof.
  intros Hd Hsy. pose proof (pair_other false reg) as Hb. split.
  - intros g native _. rewrite !pair_listed. reflexivity.
  - intros g native Hg Hl. rewrite not_elem_of_singleton in Hg. rewrite (Hb g native Hg Hl). exact Hsy.
  - intros g native Hg Hl. rewrite Hd in Hg. rewrite (Hb g native Hg Hl).
    split; [split; [rewrite !pair_occurrences; reflexivity|intros l c; rewrite !pair_goto; reflexivity]|]. split.
    + intros occs o raw. rewrite pair_occurrences. intros [= <-] []%not_elem_of_nil.
    + intros l c ps p. rewrite pair_goto. destruct (pair_position l c); [|done]. intros [= <-] []%not_elem_of_nil.
  - intros g Hg ->. apply Hg, Hd. reflexivity.
  - intros g Hg. rewrite not_elem_of_singleton. exact Hg.
  - intros g native Hg Hl. rewrite (Hb g native Hg Hl). split; [intros l c; rewrite !pair_supers; reflexivity|].
    intros l c sts st. rewrite pair_supers. destruct (pair_position l c); [|done]. intros [= <-] []%not_elem_of_nil.
Qed.

Lemma pair_root : h_root pair_stuck = "/p". Proof. vm_compute. reflexivity. Qed.

Lemma edit0_plan (h : HeadState (Db:=bool)) :
  ∃ sc, (build_plan world0 h edit0).2 = Ok (Some sc) ∧ sc_scope sc = Some {["/p/a.py"]}.
Proof. unfold edit0, build_plan. destruct (stage _ _). eexists. split; [done|]. vm_compute. reflexivity. Qed.

Lemma pair_local : local_commit world0 pair_head pair_stuck pair_out edit0.
Proof.
  destruct (edit0_plan pair_stuck) as (sc & Hp & Hs). intros sc' s Hp' Hs' seed. rewrite Hp in Hp'. injection Hp' as <-.
  rewrite Hs in Hs'. injection Hs' as <-. clear Hp Hs.
  assert (graph_scope "/p" {["/p/a.py"]} = {["a.py"]}) as Hseed by (vm_compute; reflexivity).
  exists (λ g, g ≠ "a.py"). unfold seed. rewrite pair_root, Hseed, pair_head_view, pair_out_view.
  apply pair_edit_local; [|exact pair_same_symbols].
  intros g. rewrite <- elem_of_btree_elements, pair_dirty. apply list_elem_of_singleton.
Qed.

(** No anchor of the opened registry is lost to the path index. *)
Definition complete_check (reg : IdentityRegistry) : bool :=
  forallb (λ x, bool_decide (r_by_path reg !! a_qualified_path x.2 = Some x.1)) (map_to_list (r_by_id reg)).

Lemma complete_no_stale reg es : complete_check reg = true → no_stale_path reg es.
Proof.
  intros H id a e Ha _ Hp. left. unfold by_path. rewrite <- Hp. unfold complete_check in H.
  apply Is_true_true, forallb_True in H. rewrite Forall_forall in H.
  by specialize (H (id, a) (proj2 (elem_of_map_to_list _ _ _) Ha)) as ?%bool_decide_unpack.
Qed.

Lemma pair_edit_pre : entities_pre (h_registry pair_stuck) (db_entities (h_db pair_out) (h_system pair_out) (Some {["/p/a.py"]})).
Proof.
  split; [apply (bool_decide_unpack _); vm_compute; exact I|]. apply complete_no_stale. vm_compute. reflexivity.
Qed.

Lemma pair_scope_under : scope_under "/p" {["/p/a.py"]}.
Proof. intros p g ->%elem_of_singleton [= <-]. reflexivity. Qed.

Lemma pair_out_session : linked_session pair_database mint1 pair_build 3 "/p" policy0 pair_policies "structure" pair_out pair_out false.
Proof.
  destruct (pair_after_eq world0 edit0 pair_stuck) as (d & E); [vm_compute; reflexivity|].
  destruct (edit0_plan pair_stuck) as (sc & Hp & Hs).
  apply (ls_edit pair_database mint1 pair_build 3 "/p" policy0 pair_policies "structure" world0 pair_head pair_stuck true
    pair_out edit0 d sc pair_stuck_session eq_refl E (pair_state _) Hp).
  - rewrite Hs. exact pair_edit_pre.
  - intros s Hs'. rewrite Hs in Hs'. injection Hs' as <-. exact pair_scope_under.
  - exact pair_local.
Qed.

Lemma pair_end_session :
  linked_session pair_database mint1 pair_build 3 "/p" policy0 pair_policies "structure" pair_out pair_end true.
Proof.
  destruct (pair_failed_eq world0_full edit0 pair_out) as (e & E); [vm_compute; reflexivity|].
  exact (ls_other pair_database mint1 pair_build 3 "/p" policy0 pair_policies "structure" world0_full pair_out pair_out false
    pair_end edit0 (Err e) pair_out_session E eq_refl).
Qed.

(** ** Witnesses *)

Lemma analysis_view_ok_witness : view_ok "/p" (pair_view true empty_registry).
Proof.
  apply (analysis_view_ok 3 "/p" (pair_analysis true) empty_registry pair_policies "structure" (pair_ok true) empty_ok).
  intros id a Ha. unfold get in Ha. simpl in Ha. rewrite lookup_empty in Ha. discriminate Ha.
Defined.

(** The method of the edited file, after the last edit failed. *)
Lemma session_entities_are_nodes_witness :
  ∃ id n, by_path (h_registry pair_end) "/p/a.py::C::m" = Some id ∧ nodes (h_code_layer pair_end) !! id = Some n ∧
    n_file n = "a.py" ∧ n_external n = false.
Proof.
  destruct (session_entities_are_nodes pair_database mint1 pair_build 3 "/p" policy0 pair_policies "structure" mint1_inj mint1_plain
    pair_out pair_end true pair_end_session) as [_ Hall].
  destruct (Hall "a.py" "/p/a.py") as (fes & Hf & H).
  - change (("a.py", "/p/a.py") ∈ listed_files "/p" (head_view (Eng:=pair_engine) pair_out)).
    rewrite pair_out_view, pair_listed. left.
  - vm_compute. exact I.
  - assert (match file_entities 3 policy0 (head_analysis pair_database pair_out) "/p/a.py" with
      | Some fes => match fes !! 1 with Some e => bool_decide (e_qualified_path e = "/p/a.py::C::m") | None => false end
      | None => false end = true) as Hm by (vm_compute; reflexivity).
    rewrite Hf in Hm. destruct (fes !! 1) as [e|] eqn:Ee; [|discriminate Hm]. apply bool_decide_eq_true in Hm.
    destruct (H e (list_elem_of_lookup_2 _ _ _ Ee)) as (id & n & [Hp Hn Hx Hg _]). exists id, n.
    rewrite Hm in Hp. split; [exact Hp|]. split; [exact Hn|]. split; [exact Hg|exact Hx].
Defined.
