(* ===== verification/SnapshotReads.v ===== *)
(** * Reads of snapshots and of the live head ([rust/src/project/snapshot.rs],
    [rust/src/project/head_view.rs])

    The authored values, histories and identities a pinned snapshot answers with,
    before and after it is closed, and the retried read of the live head. *)

From S2P Require Import Prelude Str Paths Content Identity Entity EditDistance Reconcile.
From S2P Require Import ReconcileFacts ReconcileTheorems Json IdentityFormat Authored CodeLayer CodeBuilder CodeBuilderFacts CodeProducer Config.
From S2P Require Import Coordinates EntityAt Sidecar ConfigLoad Commit CommitFacts Project ProjectFacts.
Import Registry AuthoredStore.

Record AuthoredValueDto := mkAuthoredValueDto {
  av_layer : string;
  av_durable_id : string;
  av_value : option Json;
  av_status : string;
  av_revision : N;
}.

Record AuthoredVersionDto := mkAuthoredVersionDto {
  avd_value : Json;
  avd_revision : N;
}.

Inductive ReadError :=
| SnapshotClosed
| ReadClosed (op : string)
| ReadQuery (e : QueryError)
| ReadCancelled (op : string).

Definition MAX_HEAD_RETRIES : nat := 200.

Section reads.
Context {Ext : External} {SJ : SerdeJson} {Db : Type} {Eng : Engine Db}.

(** The files a database answers about, for the content it reads. *)
Context (db_queries : Db → ContentMap → FileQueries).

(** [PySnapshot]: [None] once it is closed. *)
Abbreviation PySnapshot := (option (Snapshot (Db:=Db))) (only parsing).

Definition with_state {A} (ps : PySnapshot) (f : Snapshot (Db:=Db) → A) : result ReadError A :=
  match ps with
  | Some sn => Ok (f sn)
  | None => Err SnapshotClosed
  end.

(** ** Identity *)

(** [None] is the query's exhausted fuel. *)
Definition snapshot_id_for (fuel : nat) (ps : PySnapshot) (path : string) (line col : N) :
    option (result ReadError (option string)) :=
  match ps with
  | None => Some (Err (ReadClosed "id_for"))
  | Some sn =>
      match id_for fuel (db_queries (sn_db sn) (sn_generation sn)) (sn_root sn) (sn_registry sn) path line col with
      | None => None
      | Some (Ok r) => Some (Ok r)
      | Some (Err e) => Some (Err (ReadQuery e))
      end
  end.

Definition snapshot_locate (ps : PySnapshot) (durable_id : string) : result ReadError (option string) :=
  with_state ps (λ sn, locate (sn_registry sn) durable_id).

Definition snapshot_needs_review (ps : PySnapshot) : result ReadError (list string) :=
  with_state ps (λ sn, needs_review (sn_config sn) (Some (sn_authored sn)) (sn_registry sn)).

Definition snapshot_orphaned (ps : PySnapshot) : result ReadError (list string) :=
  with_state ps (λ sn, orphaned (sn_registry sn)).

(** ** Authored values *)

(** The version a snapshot reads. *)
Definition pinned_version (sn : Snapshot (Db:=Db)) (layer id : string) : option AuthoredVersion :=
  if sn_is_head sn
  then match value_at (sn_authored sn) layer id (sn_revision sn) with
       | Some v => Some v
       | None => value (sn_authored sn) layer id
       end
  else value_at (sn_authored sn) layer id (sn_revision sn).

Definition authored_of (sn : Snapshot (Db:=Db)) (layer id : string) : AuthoredValueDto :=
  match pinned_version sn layer id with
  | Some v =>
      mkAuthoredValueDto layer id (Some (v_value v))
        (derive_authored_status (sn_config sn) (sn_registry sn) layer id (v_reviewed_hash v)) (v_revision v)
  | None => mkAuthoredValueDto layer id None "absent" (sn_revision sn)
  end.

Definition authored (ps : PySnapshot) (layer id : string) : result ReadError AuthoredValueDto :=
  with_state ps (λ sn, authored_of sn layer id).

Definition version_dto (v : AuthoredVersion) : AuthoredVersionDto :=
  mkAuthoredVersionDto (v_value v) (v_revision v).

Definition history_of (sn : Snapshot (Db:=Db)) (layer id : string) : list AuthoredVersionDto :=
  match records_get (sn_authored sn) layer id with
  | None => []
  | Some rec =>
      let seen v := sn_is_head sn || (v_revision v <=? sn_revision sn)%N in
      let out := version_dto <$> filter (λ v, seen v) (rec_history rec) in
      if seen (rec_current rec) then out ++ [version_dto (rec_current rec)] else out
  end.

Definition authored_history (ps : PySnapshot) (layer id : string) : result ReadError (list AuthoredVersionDto) :=
  with_state ps (λ sn, history_of sn layer id).

Definition snapshot_close (ps : PySnapshot) : PySnapshot := None.

(** ** The live head *)

(** One attempt: the head it finds, and whether a write cancels it. *)
Definition Attempt : Type := option (HeadState (Db:=Db)) * bool.

(** The loop, from attempt [n] on, with [tries] attempts left. *)
Fixpoint retry_loop {T} (tries : nat) (op : string) (f : HeadState (Db:=Db) → T) (attempts : nat → Attempt) (n : nat) :
    result ReadError T :=
  match tries with
  | O => Err (ReadCancelled op)
  | S tries =>
      match attempts n with
      | (None, _) => Err (ReadClosed op)
      | (Some h, false) => Ok (f h)
      | (Some _, true) => retry_loop tries op f attempts (S n)
      end
  end.

Definition read_head_with_retry {T} (op : string) (f : HeadState (Db:=Db) → T) (attempts : nat → Attempt) :
    result ReadError T :=
  retry_loop MAX_HEAD_RETRIES op f attempts 0.

(** ** What a snapshot reads *)

Lemma history_of_versions sn layer id :
  history_of sn layer id =
    version_dto <$> filter (λ v, sn_is_head sn || (v_revision v <=? sn_revision sn)%N)
      (versions (sn_authored sn) layer id).
Proof.
  unfold history_of, versions, records_get. destruct (sn_authored sn !! (layer, id)) as [rec|]; [|done].
  rewrite filter_app, fmap_app, (filter_cons _ (rec_current rec)), filter_nil.
  destruct (sn_is_head sn || (v_revision (rec_current rec) <=? sn_revision sn)%N); simpl; [done|].
  by rewrite app_nil_r.
Qed.

Lemma value_last m layer id : value m layer id = last (versions m layer id).
Proof.
  unfold value, versions. destruct (m !! (layer, id)); [|done]. simpl. by rewrite last_snoc.
Qed.

(** The value a time-travel read returns is the last entry of the history it
    returns, and it is absent exactly when that history is empty. *)
Theorem pinned_read_is_last_of_history sn layer id :
  sn_is_head sn = false →
  match last (history_of sn layer id) with
  | Some v => av_value (authored_of sn layer id) = Some (avd_value v) ∧
      av_revision (authored_of sn layer id) = avd_revision v ∧ (avd_revision v ≤ sn_revision sn)%N
  | None => av_value (authored_of sn layer id) = None ∧ av_status (authored_of sn layer id) = "absent"
  end.
Proof.
  intros Hh. rewrite history_of_versions. unfold authored_of, pinned_version. rewrite Hh, value_at_versions, fmap_last.
  simpl. destruct (last _) as [v|] eqn:E; [|done]. simpl. do 2 (split; [done|]).
  apply last_Some in E as [l E].
  assert (v ∈ filter (λ v, (v_revision v <=? sn_revision sn)%N) (versions (sn_authored sn) layer id))
    as [Hv _]%list_elem_of_filter by (rewrite E; set_solver).
  by apply N.leb_le, Is_true_true.
Qed.

(** A head snapshot reads the current version when it was written at or before
    the head's revision, which holds for every record written in this session. *)
Lemma head_reads_current sn layer id v :
  sn_is_head sn = true → value (sn_authored sn) layer id = Some v → (v_revision v ≤ sn_revision sn)%N →
  pinned_version sn layer id = Some v.
Proof.
  intros Hh Hv Hle. unfold pinned_version, value_at, value in *. rewrite Hh.
  destruct (sn_authored sn !! (layer, id)) as [rec|]; [|done]. injection Hv as <-.
  by rewrite (proj2 (N.leb_le _ _) Hle).
Qed.

Context (mint : nat → DurableId) (db_build_frozen : string → ContentMap → Db).

(** Read your writes.  After an authoring commit, a snapshot of the head reads
    the value written, at the revision of the commit, and its status says so. *)
Theorem author_then_read w (h h' : HeadState (Db:=Db)) p layer id v d sn :
  commit mint w h (Author layer id v) = (h', Ok (Some d)) →
  snapshot db_build_frozen (with_inner p (Some h')) None = Ok sn →
  ∃ dto, authored (Some sn) layer id = Ok dto ∧ av_value dto = Some v ∧
    av_revision dto = cd_revision d ∧
    (av_status dto = "present" ∨
     av_status dto = "orphaned" ∧ status_of (h_registry h) id = Some Orphaned).
Proof.
  intros Hc Hs. destruct (commit_published mint w h h' _ d Hc) as (Hrev & Hd & _ & _ & Hreg & _).
  destruct (author_committed mint w h h' layer id v d Hc) as (anchor & rec & Ha & Hrec & Hcur & Hcfg & _).
  unfold snapshot in Hs. cbn [inner with_inner] in Hs. injection Hs as <-.
  unfold authored, with_state, authored_of.
  rewrite (head_reads_current _ layer id (rec_current rec)); [|done|..].
  2: { unfold value. simpl. unfold records_get in Hrec. by rewrite Hrec. }
  2: { rewrite Hcur. simpl. rewrite Hrev. done. }
  rewrite Hcur. eexists. split; [done|]. cbn [av_value av_revision av_status v_value v_revision v_reviewed_hash].
  split; [done|]. split; [by rewrite Hd, Hrev|].
  cbn [sn_config sn_registry]. rewrite Hreg. unfold derive_authored_status.
  destruct (negb _); [by left|]. case_bool_decide; [by right|]. left. rewrite Ha. simpl. by case_bool_decide.
Qed.

(** ** Closing *)

(** A closed snapshot answers nothing, and closing again changes nothing. *)
Theorem closed_snapshot_refuses fuel ps path line col layer id :
  let ps := snapshot_close ps in
  snapshot_close ps = ps ∧
  snapshot_id_for fuel ps path line col = Some (Err (ReadClosed "id_for")) ∧
  snapshot_locate ps id = Err SnapshotClosed ∧ snapshot_needs_review ps = Err SnapshotClosed ∧
  snapshot_orphaned ps = Err SnapshotClosed ∧ authored ps layer id = Err SnapshotClosed ∧
  authored_history ps layer id = Err SnapshotClosed.
Proof. done. Qed.

(** ** Retries *)

Definition cancelled (a : Attempt) : Prop := ∃ h, a = (Some h, true).

Lemma retry_loop_skip {T} op (f : HeadState (Db:=Db) → T) attempts k tries n :
  (∀ i, n ≤ i < n + k → cancelled (attempts i)) →
  retry_loop (k + tries) op f attempts n = retry_loop tries op f attempts (n + k).
Proof.
  revert n. induction k as [|k IH]; intros n Hc; [by rewrite Nat.add_0_r|].
  destruct (Hc n) as [h E]; [lia|]. cbn [Nat.add retry_loop]. rewrite E, IH by (intros; apply Hc; lia).
  f_equal. lia.
Qed.

(** A read of the live head answers from the head of its first attempt that no
    write cancels, if that is among the first [MAX_HEAD_RETRIES]; it fails when
    the project is closed by then, or when every attempt was cancelled. *)
Theorem read_head_first_quiet {T} op (f : HeadState (Db:=Db) → T) attempts k :
  k ≤ MAX_HEAD_RETRIES → (∀ i, i < k → cancelled (attempts i)) →
  read_head_with_retry op f attempts =
    if decide (k = MAX_HEAD_RETRIES) then Err (ReadCancelled op)
    else match attempts k with
         | (None, _) => Err (ReadClosed op)
         | (Some h, false) => Ok (f h)
         | (Some _, true) => retry_loop (MAX_HEAD_RETRIES - S k) op f attempts (S k)
         end.
Proof.
  intros Hk Hc. unfold read_head_with_retry.
  replace MAX_HEAD_RETRIES with (k + (MAX_HEAD_RETRIES - k)) at 1 by lia.
  rewrite retry_loop_skip by (intros; apply Hc; lia). cbn [Nat.add].
  case_decide as E; [by rewrite E, Nat.sub_diag|].
  replace (MAX_HEAD_RETRIES - k) with (S (MAX_HEAD_RETRIES - S k)) by lia. done.
Qed.
End reads.

(** ** After a reopen *)

(** A record written at revisions 2 and 3 of an earlier session. *)
Definition earlier_session : gmap (string * string) AuthoredRecord :=
  put_all ∅ "notes" "A1" [mkAuthoredVersion (JString "first") 2 None; mkAuthoredVersion (JString "second") 3 None].

(** Revisions start over when a project is opened.  A snapshot of the head at
    revision 1 reads the current value; at revision 2, reached by any write, it
    reads the value that was replaced. *)
Theorem head_read_goes_back {Db} (sn : Snapshot (Db:=Db)) :
  sn_is_head sn = true → sn_authored sn = earlier_session →
  (sn_revision sn = 1%N → av_value (authored_of sn "notes" "A1") = Some (JString "second")) ∧
  (sn_revision sn = 2%N → av_value (authored_of sn "notes" "A1") = Some (JString "first")).
Proof.
  intros Hh Ha. unfold authored_of, pinned_version. rewrite Hh, Ha.
  split; intros ->; reflexivity.
Qed.

(** ** Witness *)

Lemma author_then_read_witness :
  let p := with_inner project0 (Some author_out0.1) in
  ∃ sn dto, snapshot build0 p None = Ok sn ∧ authored (Some sn) "notes" "A1" = Ok dto ∧
    av_value dto = Some (JString "hi") ∧ av_status dto = "present".
Proof.
  intros p. destruct author_out0_eq as (d & E).
  assert (∃ sn, snapshot build0 p None = Ok sn) as (sn & Hs) by (eexists; reflexivity).
  destruct (author_then_read (SJ:=note_serde0) mint0 build0 world0 head0 author_out0.1 project0 "notes" "A1"
    (JString "hi") d sn E Hs) as (dto & Hd & Hv & _ & Hst).
  exists sn, dto. do 3 (split; [assumption|]). destruct Hst as [Hst|[_ Hst]]; [exact Hst|].
  assert (status_of (h_registry head0) "A1" = Some Active) as Ha by (vm_compute; reflexivity).
  rewrite Ha in Hst. discriminate Hst.
Defined.
