(* ===== verification/ViewReads.v ===== *)
(** * The methods of snapshots and of the live view ([rust/src/project/snapshot.rs],
    [rust/src/project/head_view.rs])

    Every analysis query is a method of both handles.  A snapshot asks its pinned
    database; the live view asks a clone of the head and tries again when a write
    cancels the query.  [SnapshotReads] has the retry loop and the reads that need
    no analysis. *)

From S2P Require Import Prelude Str Paths Content Identity Entity Ast Hash Reconcile ReconcileTheorems.
From S2P Require Import Json IdentityFormat Authored CodeLayer CodeBuilder Symbols Coordinates EntityAt Occurrences Queries Lsp.
From S2P Require Import Config Sidecar ConfigLoad Commit CommitFacts Project ProjectFacts SnapshotReads.
Import Registry AuthoredStore.

(** What the engine answers about a project: the queries of [Queries] and [Lsp]
    and the two other navigations of [ty_ide]. *)
Record Answers := mkAnswers {
  as_analysis : Analysis;
  as_ide : Ide;
  as_goto_declaration : string → N → option (list NavigationTarget);
  as_goto_type_definition : string → N → option (list NavigationTarget);
}.

Section methods.
Context {Ext : External} {SJ : SerdeJson} {Db : Type} {Eng : Engine Db}.
Context (db_answers : Db → ContentMap → Answers) (db_build_frozen : string → ContentMap → Db).

(** The depth of the recursion over symbols. *)
Context (fuel : nat).

(** [TyProjectState], as the analysis reads it; the database reads [st_content].
    The policy of the extraction and the code layer, which no analysis method reads,
    and the authored records, which no clone carries, are left out. *)
Record TyProjectState := mkTyProjectState {
  st_db : Db;
  st_content : ContentMap;
  st_root : string;
  st_registry : IdentityRegistry;
  st_hash_policies : gmap string HashPolicy;
  st_default_hash_profile : string;
}.

(** The hash policies of a configuration, by profile. *)
Definition hash_policies (c : ValidatedConfig) : gmap string HashPolicy := hash_policy_of <$> profiles (raw c).

(** [read_clone] of a snapshot's state and of the head. *)
Definition snapshot_clone (sn : Snapshot (Db:=Db)) : TyProjectState :=
  mkTyProjectState (sn_db sn) (sn_generation sn) (sn_root sn) (sn_registry sn)
    (hash_policies (sn_config sn)) (default_hash_profile (raw (sn_config sn))).

Definition head_clone (h : HeadState (Db:=Db)) : TyProjectState :=
  mkTyProjectState (h_db h) (h_system h) (h_root h) (h_registry h)
    (hash_policies (h_config h)) (default_hash_profile (raw (h_config h))).

Definition state_answers (s : TyProjectState) : Answers := db_answers (st_db s) (st_content s).

Definition state_analysis (s : TyProjectState) : Analysis := as_analysis (state_answers s).

Definition state_ide (s : TyProjectState) : Ide := as_ide (state_answers s).

(** [compute_document_symbols]: the symbols of a file with the hashes of their
    statements under each profile; [None] is exhausted fuel. *)
Definition compute_document_symbols_at (s : TyProjectState) (path : string) :
    option (result QueryError (list SymbolDto)) :=
  let fq := an_files (state_analysis s) in
  match resolve_file_and_source fq (st_root s) path with
  | Err e => Some (Err e)
  | Ok (file, source_str) =>
      let stmt_index := index_statements (an_body (state_analysis s) file) in
      let policies_ref := if decide (st_hash_policies s = ∅) then None else Some (st_hash_policies s) in
      let default_profile := if decide (st_hash_policies s = ∅) then None else Some (st_default_hash_profile s) in
      Ok <$> compute_document_symbols render_stmt fuel
        (mkSymbolWalkCtx (fq_symbols fq file) source_str stmt_index
           (range_to_dto_with_index (fq_line_index fq file)) file (st_registry s) policies_ref default_profile)
  end.

(** [AnalysisError::into_pyerr] under the error of the read itself. *)
Definition into_pyerr {A} (r : result ReadError (result QueryError A)) : result ReadError A :=
  match r with
  | Err e => Err e
  | Ok (Err e) => Err (ReadQuery e)
  | Ok (Ok a) => Ok a
  end.

(** The same of a query that may panic ([None]). *)
Definition into_pyerr_or_panic {A} (r : result ReadError (option (result QueryError A))) : option (result ReadError A) :=
  match r with
  | Err e => Some (Err e)
  | Ok None => None
  | Ok (Some (Err e)) => Some (Err (ReadQuery e))
  | Ok (Some (Ok a)) => Some (Ok a)
  end.

(** ** The pinned snapshot *)

(** [clone_locked_state] and the query on the clone. *)
Definition ask {A} (op : string) (f : TyProjectState → A) (ps : option (Snapshot (Db:=Db))) : result ReadError A :=
  match ps with
  | Some sn => Ok (f (snapshot_clone sn))
  | None => Err (ReadClosed op)
  end.

Definition snapshot_files (ps : option (Snapshot (Db:=Db))) :=
  ask "files" (λ s, compute_files (state_analysis s)) ps.

Definition snapshot_check (ps : option (Snapshot (Db:=Db))) :=
  ask "check" (λ s, compute_check (state_analysis s) (state_ide s)) ps.

Definition snapshot_check_file (ps : option (Snapshot (Db:=Db))) (path : string) :=
  into_pyerr (ask "check_file" (λ s, compute_check_file (state_analysis s) (state_ide s) (st_root s) path) ps).

Definition snapshot_document_symbols (ps : option (Snapshot (Db:=Db))) (path : string) :=
  into_pyerr_or_panic (ask "document_symbols" (λ s, compute_document_symbols_at s path) ps).

Definition snapshot_workspace_symbols (ps : option (Snapshot (Db:=Db))) (query : string) :=
  ask "workspace_symbols" (λ s, compute_workspace_symbols (state_analysis s) (state_ide s) query) ps.

Definition snapshot_goto_definition (ps : option (Snapshot (Db:=Db))) (path : string) (line column : N) :=
  into_pyerr (ask "goto_definition" (λ s, compute_navigate (state_analysis s) (st_root s) path line column (an_goto_definition (state_analysis s))) ps).

Definition snapshot_goto_declaration (ps : option (Snapshot (Db:=Db))) (path : string) (line column : N) :=
  into_pyerr (ask "goto_declaration" (λ s, compute_navigate (state_analysis s) (st_root s) path line column (as_goto_declaration (state_answers s))) ps).

Definition snapshot_goto_type_definition (ps : option (Snapshot (Db:=Db))) (path : string) (line column : N) :=
  into_pyerr (ask "goto_type_definition" (λ s, compute_navigate (state_analysis s) (st_root s) path line column (as_goto_type_definition (state_answers s))) ps).

Definition snapshot_find_references (ps : option (Snapshot (Db:=Db))) (path : string) (line column : N) (include_declaration : bool) :=
  into_pyerr (ask "find_references" (λ s, compute_find_references (state_analysis s) (state_ide s) (st_root s) path line column include_declaration) ps).

Definition snapshot_semantic_tokens (ps : option (Snapshot (Db:=Db))) (path : string) (start_line start_col end_line end_col : option N) :=
  into_pyerr_or_panic (ask "semantic_tokens" (λ s, compute_semantic_tokens (state_analysis s) (state_ide s) (st_root s) path start_line start_col end_line end_col) ps).

Definition snapshot_inlay_hints (ps : option (Snapshot (Db:=Db))) (path : string) :=
  into_pyerr (ask "inlay_hints" (λ s, compute_inlay_hints (state_analysis s) (state_ide s) (st_root s) path) ps).

Definition snapshot_hints (ps : option (Snapshot (Db:=Db))) (path : string) :=
  into_pyerr (ask "hints" (λ s, compute_hints (state_analysis s) (state_ide s) (st_root s) path) ps).

Definition snapshot_code_actions (ps : option (Snapshot (Db:=Db))) (path : string) (start_line start_col end_line end_col : N) (diagnostic_id : string) :=
  into_pyerr_or_panic (ask "code_actions" (λ s, compute_code_actions (state_analysis s) (state_ide s) (st_root s) path start_line start_col end_line end_col diagnostic_id) ps).

Definition snapshot_selection_ranges (ps : option (Snapshot (Db:=Db))) (path : string) (line column : N) :=
  into_pyerr (ask "selection_ranges" (λ s, compute_selection_ranges (state_analysis s) (state_ide s) (st_root s) path line column) ps).

Definition snapshot_folding_ranges (ps : option (Snapshot (Db:=Db))) (path : string) :=
  into_pyerr (ask "folding_ranges" (λ s, compute_folding_ranges (state_analysis s) (state_ide s) (st_root s) path) ps).

Definition snapshot_signature_help (ps : option (Snapshot (Db:=Db))) (path : string) (line column : N) :=
  into_pyerr (ask "signature_help" (λ s, compute_signature_help (state_analysis s) (state_ide s) (st_root s) path line column) ps).

Definition snapshot_completions (ps : option (Snapshot (Db:=Db))) (path : string) (line column : N) (auto_import : bool) :=
  into_pyerr (ask "completions" (λ s, compute_completions (state_analysis s) (state_ide s) (st_root s) path line column auto_import) ps).

Definition snapshot_file_occurrences (ps : option (Snapshot (Db:=Db))) (path : string) :=
  into_pyerr (ask "file_occurrences" (λ s, compute_file_occurrences (state_analysis s) (st_root s) path) ps).

Definition snapshot_type_hierarchy (ps : option (Snapshot (Db:=Db))) (path : string) (line column : N) :=
  into_pyerr (ask "type_hierarchy" (λ s, compute_type_hierarchy (state_analysis s) (state_ide s) (st_root s) path line column) ps).

Definition snapshot_class_supertypes (ps : option (Snapshot (Db:=Db))) (path : string) (line column : N) :=
  into_pyerr (ask "class_supertypes" (λ s, compute_supertypes (state_analysis s) (st_root s) path line column) ps).

Definition snapshot_document_highlights (ps : option (Snapshot (Db:=Db))) (path : string) (line column : N) :=
  into_pyerr (ask "document_highlights" (λ s, compute_document_highlights (state_analysis s) (state_ide s) (st_root s) path line column) ps).

Definition snapshot_can_rename (ps : option (Snapshot (Db:=Db))) (path : string) (line column : N) :=
  into_pyerr (ask "can_rename" (λ s, compute_can_rename (state_analysis s) (state_ide s) (st_root s) path line column) ps).

Definition snapshot_rename (ps : option (Snapshot (Db:=Db))) (path : string) (line column : N) (new_name : string) :=
  into_pyerr (ask "rename" (λ s, compute_rename (state_analysis s) (state_ide s) (st_root s) path line column new_name) ps).

Definition snapshot_hover (ps : option (Snapshot (Db:=Db))) (path : string) (line column : N) :=
  into_pyerr (ask "hover" (λ s, compute_hover (state_analysis s) (state_ide s) (st_root s) path line column) ps).

(** ** The live view *)

(** The query on a clone of the head, retried. *)
Definition ask_head {A} (op : string) (f : TyProjectState → A) (attempts : nat → Attempt (Db:=Db)) : result ReadError A :=
  read_head_with_retry op (λ h, f (head_clone h)) attempts.

Definition head_files (attempts : nat → Attempt (Db:=Db)) :=
  ask_head "files" (λ s, compute_files (state_analysis s)) attempts.

Definition head_check (attempts : nat → Attempt (Db:=Db)) :=
  ask_head "check" (λ s, compute_check (state_analysis s) (state_ide s)) attempts.

Definition head_check_file (attempts : nat → Attempt (Db:=Db)) (path : string) :=
  into_pyerr (ask_head "check_file" (λ s, compute_check_file (state_analysis s) (state_ide s) (st_root s) path) attempts).

Definition head_document_symbols (attempts : nat → Attempt (Db:=Db)) (path : string) :=
  into_pyerr_or_panic (ask_head "document_symbols" (λ s, compute_document_symbols_at s path) attempts).

Definition head_workspace_symbols (attempts : nat → Attempt (Db:=Db)) (query : string) :=
  ask_head "workspace_symbols" (λ s, compute_workspace_symbols (state_analysis s) (state_ide s) query) attempts.

Definition head_goto_definition (attempts : nat → Attempt (Db:=Db)) (path : string) (line column : N) :=
  into_pyerr (ask_head "goto_definition" (λ s, compute_navigate (state_analysis s) (st_root s) path line column (an_goto_definition (state_analysis s))) attempts).

Definition head_goto_declaration (attempts : nat → Attempt (Db:=Db)) (path : string) (line column : N) :=
  into_pyerr (ask_head "goto_declaration" (λ s, compute_navigate (state_analysis s) (st_root s) path line column (as_goto_declaration (state_answers s))) attempts).

Definition head_goto_type_definition (attempts : nat → Attempt (Db:=Db)) (path : string) (line column : N) :=
  into_pyerr (ask_head "goto_type_definition" (λ s, compute_navigate (state_analysis s) (st_root s) path line column (as_goto_type_definition (state_answers s))) attempts).

Definition head_find_references (attempts : nat → Attempt (Db:=Db)) (path : string) (line column : N) (include_declaration : bool) :=
  into_pyerr (ask_head "find_references" (λ s, compute_find_references (state_analysis s) (state_ide s) (st_root s) path line column include_declaration) attempts).

Definition head_semantic_tokens (attempts : nat → Attempt (Db:=Db)) (path : string) (start_line start_col end_line end_col : option N) :=
  into_pyerr_or_panic (ask_head "semantic_tokens" (λ s, compute_semantic_tokens (state_analysis s) (state_ide s) (st_root s) path start_line start_col end_line end_col) attempts).

Definition head_inlay_hints (attempts : nat → Attempt (Db:=Db)) (path : string) :=
  into_pyerr (ask_head "inlay_hints" (λ s, compute_inlay_hints (state_analysis s) (state_ide s) (st_root s) path) attempts).

Definition head_hints (attempts : nat → Attempt (Db:=Db)) (path : string) :=
  into_pyerr (ask_head "hints" (λ s, compute_hints (state_analysis s) (state_ide s) (st_root s) path) attempts).

Definition head_code_actions (attempts : nat → Attempt (Db:=Db)) (path : string) (start_line start_col end_line end_col : N) (diagnostic_id : string) :=
  into_pyerr_or_panic (ask_head "code_actions" (λ s, compute_code_actions (state_analysis s) (state_ide s) (st_root s) path start_line start_col end_line end_col diagnostic_id) attempts).

Definition head_selection_ranges (attempts : nat → Attempt (Db:=Db)) (path : string) (line column : N) :=
  into_pyerr (ask_head "selection_ranges" (λ s, compute_selection_ranges (state_analysis s) (state_ide s) (st_root s) path line column) attempts).

Definition head_folding_ranges (attempts : nat → Attempt (Db:=Db)) (path : string) :=
  into_pyerr (ask_head "folding_ranges" (λ s, compute_folding_ranges (state_analysis s) (state_ide s) (st_root s) path) attempts).

Definition head_signature_help (attempts : nat → Attempt (Db:=Db)) (path : string) (line column : N) :=
  into_pyerr (ask_head "signature_help" (λ s, compute_signature_help (state_analysis s) (state_ide s) (st_root s) path line column) attempts).

Definition head_completions (attempts : nat → Attempt (Db:=Db)) (path : string) (line column : N) (auto_import : bool) :=
  into_pyerr (ask_head "completions" (λ s, compute_completions (state_analysis s) (state_ide s) (st_root s) path line column auto_import) attempts).

Definition head_file_occurrences (attempts : nat → Attempt (Db:=Db)) (path : string) :=
  into_pyerr (ask_head "file_occurrences" (λ s, compute_file_occurrences (state_analysis s) (st_root s) path) attempts).

Definition head_type_hierarchy (attempts : nat → Attempt (Db:=Db)) (path : string) (line column : N) :=
  into_pyerr (ask_head "type_hierarchy" (λ s, compute_type_hierarchy (state_analysis s) (state_ide s) (st_root s) path line column) attempts).

Definition head_class_supertypes (attempts : nat → Attempt (Db:=Db)) (path : string) (line column : N) :=
  into_pyerr (ask_head "class_supertypes" (λ s, compute_supertypes (state_analysis s) (st_root s) path line column) attempts).

Definition head_document_highlights (attempts : nat → Attempt (Db:=Db)) (path : string) (line column : N) :=
  into_pyerr (ask_head "document_highlights" (λ s, compute_document_highlights (state_analysis s) (state_ide s) (st_root s) path line column) attempts).

Definition head_can_rename (attempts : nat → Attempt (Db:=Db)) (path : string) (line column : N) :=
  into_pyerr (ask_head "can_rename" (λ s, compute_can_rename (state_analysis s) (state_ide s) (st_root s) path line column) attempts).

Definition head_rename (attempts : nat → Attempt (Db:=Db)) (path : string) (line column : N) (new_name : string) :=
  into_pyerr (ask_head "rename" (λ s, compute_rename (state_analysis s) (state_ide s) (st_root s) path line column new_name) attempts).

Definition head_hover (attempts : nat → Attempt (Db:=Db)) (path : string) (line column : N) :=
  into_pyerr (ask_head "hover" (λ s, compute_hover (state_analysis s) (state_ide s) (st_root s) path line column) attempts).

Definition head_id_for (attempts : nat → Attempt (Db:=Db)) (path : string) (line col : N) :=
  into_pyerr_or_panic
    (ask_head "id_for" (λ s, id_for fuel (an_files (state_analysis s)) (st_root s) (st_registry s) path line col) attempts).

(** The registry reads of the live view take the lock once. *)
Definition head_locate (inner : option (HeadState (Db:=Db))) (durable_id : string) : result ReadError (option string) :=
  match inner with
  | None => Err (ReadClosed "locate")
  | Some head => Ok (locate (h_registry head) durable_id)
  end.

Definition head_needs_review (inner : option (HeadState (Db:=Db))) : result ReadError (list string) :=
  match inner with
  | None => Err (ReadClosed "needs_review")
  | Some head => Ok (needs_review (h_config head) (Some (h_authored head)) (h_registry head))
  end.

Definition head_orphaned (inner : option (HeadState (Db:=Db))) : result ReadError (list string) :=
  match inner with
  | None => Err (ReadClosed "orphaned")
  | Some head => Ok (orphaned (h_registry head))
  end.

(** ** The identity methods of the project

    The lock is taken once, for the head as it is then.  The handle of the live
    view shares the project's head. *)
Definition read_locked {A} (p : Project (Db:=Db)) (op : string) (f : HeadState (Db:=Db) → A) : result ReadError A :=
  match inner p with
  | None => Err (ReadClosed op)
  | Some head => Ok (f head)
  end.

Definition head_view (p : Project (Db:=Db)) : result ReadError (option (HeadState (Db:=Db))) :=
  let? _ := read_locked p "head_view" (λ _, tt) in Ok (inner p).

Definition project_id_for (p : Project (Db:=Db)) (path : string) (line col : N) :=
  into_pyerr_or_panic
    (read_locked p "id_for" (λ h, let s := head_clone h in
       id_for fuel (an_files (state_analysis s)) (st_root s) (st_registry s) path line col)).

Definition project_locate (p : Project (Db:=Db)) (durable_id : string) : result ReadError (option string) :=
  read_locked p "locate" (λ h, locate (h_registry h) durable_id).

Definition project_needs_review (p : Project (Db:=Db)) : result ReadError (list string) :=
  read_locked p "needs_review" (λ h, needs_review (h_config h) (Some (h_authored h)) (h_registry h)).

Definition project_orphaned (p : Project (Db:=Db)) : result ReadError (list string) :=
  read_locked p "orphaned" (λ h, orphaned (h_registry h)).

(** ** The two views agree *)

(** Every method of the live view answers as the snapshot's. *)
Record answers_alike (ps : option (Snapshot (Db:=Db))) (attempts : nat → Attempt (Db:=Db)) : Prop := {
  aa_files : head_files attempts = snapshot_files ps;
  aa_check : head_check attempts = snapshot_check ps;
  aa_check_file : ∀ path, head_check_file attempts path = snapshot_check_file ps path;
  aa_document_symbols : ∀ path, head_document_symbols attempts path = snapshot_document_symbols ps path;
  aa_workspace_symbols : ∀ query, head_workspace_symbols attempts query = snapshot_workspace_symbols ps query;
  aa_goto_definition : ∀ path line column, head_goto_definition attempts path line column = snapshot_goto_definition ps path line column;
  aa_goto_declaration : ∀ path line column, head_goto_declaration attempts path line column = snapshot_goto_declaration ps path line column;
  aa_goto_type_definition : ∀ path line column, head_goto_type_definition attempts path line column = snapshot_goto_type_definition ps path line column;
  aa_find_references : ∀ path line column include_declaration, head_find_references attempts path line column include_declaration = snapshot_find_references ps path line column include_declaration;
  aa_semantic_tokens : ∀ path start_line start_col end_line end_col, head_semantic_tokens attempts path start_line start_col end_line end_col = snapshot_semantic_tokens ps path start_line start_col end_line end_col;
  aa_inlay_hints : ∀ path, head_inlay_hints attempts path = snapshot_inlay_hints ps path;
  aa_hints : ∀ path, head_hints attempts path = snapshot_hints ps path;
  aa_code_actions : ∀ path start_line start_col end_line end_col diagnostic_id, head_code_actions attempts path start_line start_col end_line end_col diagnostic_id = snapshot_code_actions ps path start_line start_col end_line end_col diagnostic_id;
  aa_selection_ranges : ∀ path line column, head_selection_ranges attempts path line column = snapshot_selection_ranges ps path line column;
  aa_folding_ranges : ∀ path, head_folding_ranges attempts path = snapshot_folding_ranges ps path;
  aa_signature_help : ∀ path line column, head_signature_help attempts path line column = snapshot_signature_help ps path line column;
  aa_completions : ∀ path line column auto_import, head_completions attempts path line column auto_import = snapshot_completions ps path line column auto_import;
  aa_file_occurrences : ∀ path, head_file_occurrences attempts path = snapshot_file_occurrences ps path;
  aa_type_hierarchy : ∀ path line column, head_type_hierarchy attempts path line column = snapshot_type_hierarchy ps path line column;
  aa_class_supertypes : ∀ path line column, head_class_supertypes attempts path line column = snapshot_class_supertypes ps path line column;
  aa_document_highlights : ∀ path line column, head_document_highlights attempts path line column = snapshot_document_highlights ps path line column;
  aa_can_rename : ∀ path line column, head_can_rename attempts path line column = snapshot_can_rename ps path line column;
  aa_rename : ∀ path line column new_name, head_rename attempts path line column new_name = snapshot_rename ps path line column new_name;
  aa_hover : ∀ path line column, head_hover attempts path line column = snapshot_hover ps path line column;
  aa_id_for : ∀ path line col, head_id_for attempts path line col =
    snapshot_id_for (λ db g, an_files (as_analysis (db_answers db g))) fuel ps path line col;
}.

(** The head of the first attempt no write cancels. *)
Definition quiet_at (attempts : nat → Attempt (Db:=Db)) (k : nat) (h : HeadState (Db:=Db)) : Prop :=
  k < MAX_HEAD_RETRIES ∧ (∀ i, i < k → cancelled (attempts i)) ∧ attempts k = (Some h, false).

Lemma ask_head_quiet {A} op (f : TyProjectState → A) attempts k h :
  quiet_at attempts k h → ask_head op f attempts = Ok (f (head_clone h)).
Proof.
  intros (Hk & Hc & E). unfold ask_head.
  rewrite (read_head_first_quiet op _ attempts k) by (done || lia). rewrite decide_False by lia. by rewrite E.
Qed.

(** A snapshot with another database in place of its frozen one. *)
Definition over_db (db : Db) (sn : Snapshot (Db:=Db)) : Snapshot (Db:=Db) :=
  mkSnapshot db (sn_root sn) (sn_generation sn) (sn_revision sn) (sn_registry sn) (sn_authored sn) (sn_config sn)
    (sn_code_layer sn) (sn_is_head sn).

Ltac by_state :=
  let s := fresh "s" in let s' := fresh "s" in
  intros s s' Ha Hr Hg Hp Hpr; unfold compute_document_symbols_at, state_analysis, state_ide;
  rewrite ?Ha, ?Hr, ?Hg, ?Hp, ?Hpr; reflexivity.

Lemma reads_agree {A} op (f : TyProjectState → A) p sn attempts k h :
  (∀ s s', state_answers s = state_answers s' → st_root s = st_root s' → st_registry s = st_registry s' →
     st_hash_policies s = st_hash_policies s' → st_default_hash_profile s = st_default_hash_profile s' → f s = f s') →
  coherent h → quiet_at attempts k h →
  snapshot db_build_frozen (with_inner p (Some h)) None = Ok sn →
  ask_head op f attempts = ask op f (Some (over_db (h_db h) sn)).
Proof.
  intros Hf Hco Hq [= <-]. rewrite (ask_head_quiet op f attempts k h Hq). simpl. f_equal. apply Hf; try done.
  unfold state_answers, head_clone, snapshot_clone. cbn [st_db st_content sn_db sn_generation over_db].
  unfold capture. by rewrite <- Hco.
Qed.

(** A snapshot of the head and the live view differ only in the database.  When a
    read of the live view comes to a head that no write cancels, each of its methods
    answers, errors and panics included, what the method of a snapshot taken of that
    head answers over the head's own database, however many attempts were cancelled
    before.  The frozen database of the snapshot may answer otherwise: it has no
    disk to fall back to and drops the user's settings
    ([OpenDb.snapshot_drops_user_settings]). *)
Theorem live_view_agrees p sn attempts k h :
  coherent h → quiet_at attempts k h →
  snapshot db_build_frozen (with_inner p (Some h)) None = Ok sn →
  answers_alike (Some (over_db (h_db h) sn)) attempts.
Proof.
  intros Hco Hq Hs.
  assert (∀ A op (f : TyProjectState → A),
    (∀ s s', state_answers s = state_answers s' → st_root s = st_root s' → st_registry s = st_registry s' →
       st_hash_policies s = st_hash_policies s' → st_default_hash_profile s = st_default_hash_profile s' → f s = f s') →
    ask_head op f attempts = ask op f (Some (over_db (h_db h) sn))) as H by (intros A op f Hf; by apply (reads_agree op f p sn attempts k h)).
  split; intros;
    try (first [apply H|apply (f_equal into_pyerr), H|apply (f_equal into_pyerr_or_panic), H]; by_state).
  unfold head_id_for. rewrite H by by_state. unfold snapshot_id_for. cbn [ask over_db].
  unfold state_analysis, state_answers, snapshot_clone. cbn [st_db st_content st_root st_registry].
  by destruct (id_for _ _ _ _ _ _ _) as [[]|].
Qed.

(** The three handles agree on identity: on an open project, the project, its
    live view and a snapshot of the head locate the same ids and list the same
    ids to review and orphans, and the project answers [id_for] as a quiet read
    of the live view; on a closed project no live view is given. *)
Theorem identity_handles_agree (p : Project (Db:=Db)) :
  match head_view p with
  | Err e => inner p = None ∧ e = ReadClosed "head_view"
  | Ok handle =>
      (∀ id, head_locate handle id = project_locate p id) ∧ head_needs_review handle = project_needs_review p ∧
      head_orphaned handle = project_orphaned p ∧
      (∀ k attempts h path line col, handle = Some h → quiet_at attempts k h →
        head_id_for attempts path line col = project_id_for p path line col) ∧
      ∀ sn, snapshot db_build_frozen p None = Ok sn →
        (∀ id, snapshot_locate (Some sn) id = project_locate p id) ∧
        snapshot_needs_review (Some sn) = project_needs_review p ∧ snapshot_orphaned (Some sn) = project_orphaned p
  end.
Proof.
  unfold head_view, project_locate, project_needs_review, project_orphaned, project_id_for, read_locked, snapshot.
  destruct (inner p) as [h|]; [|done]. simpl. split; [done|]. split; [done|]. split; [done|]. split.
  - intros k attempts h0 path line col [= <-] Hq. unfold head_id_for. by rewrite (ask_head_quiet _ _ _ k h Hq).
  - intros sn [= <-]. done.
Qed.

End methods.

(** ** Witness: the first attempt is cancelled by an edit, the second reads the head after it. *)

#[local] Existing Instance external0.
#[local] Existing Instance serde0.
#[local] Existing Instance engine0.

Definition answers0 (db : unit) (g : ContentMap) : Answers := mkAnswers analysis0 ide0 (λ _ _, None) (λ _ _, None).

Definition attempts0 (i : nat) : Attempt (Db:=unit) :=
  match i with O => (Some head0, true) | S _ => (Some (outcome0 world0 head0 edit0).1, false) end.

Lemma live_view_agrees_witness :
  ∃ sn, snapshot build0 (with_inner project0 (Some (outcome0 world0 head0 edit0).1)) None = Ok sn ∧ sn_revision sn = 2%N ∧
    head_hover answers0 attempts0 "a.py" 1 9 = snapshot_hover answers0 (Some (over_db tt sn)) "a.py" 1 9 ∧
    head_code_actions answers0 attempts0 "a.py" 1 2 1 1 "x" = snapshot_code_actions answers0 (Some (over_db tt sn)) "a.py" 1 2 1 1 "x".
Proof.
  set (h := (outcome0 world0 head0 edit0).1). eexists. split; [reflexivity|]. split; [vm_compute; reflexivity|].
  assert (coherent h) as Hco.
  { destruct (published0_eq world0 head0 edit0) as (d & _ & E); [vm_compute; reflexivity|].
    exact (proj1 (proj2 (proj2 (commit_published mint0 world0 head0 h edit0 d E)))). }
  assert (quiet_at attempts0 1 h) as Hq.
  { split; [apply (bool_decide_unpack _); vm_compute; exact I|]. split; [|reflexivity].
    intros [|i] Hi; [by exists head0|lia]. }
  pose proof (live_view_agrees answers0 build0 3 project0 _ attempts0 1 h Hco Hq eq_refl) as H.
  split; [apply (aa_hover _ _ _ _ H)|apply (aa_code_actions _ _ _ _ H)].
Defined.
